(* ===== verification/_CoqProject ===== *)
-Q . S2P
Prelude.v
Cstr.v
Awg.v
Crypto.v
ChaCha20.v
Poly1305.v
AEAD.v
Blake2s.v
X25519.v
Noise.v
Session.v
Obf.v
Config.v
ConfigText.v
IpProbe.v
Proxy.v
ProxySni.v
ProxyRun.v
ProxyFlow.v
Power.v
Timeouts.v
Pbuf.v
PbufPool.v
ProxyMem.v
ProxyPool.v
Netif.v
Chksum.v
Ip4.v
IpReass.v
IpFrag.v
Icmp.v
Ip4Input.v
Udp.v
Http.v
Main.v
MainRun.v
MainFlow.v
MainProps.v
Boot.v
Host.v
