(* ===== verification/Prelude.v ===== *)
(** * sys-amneziawg: a verification development

    sys-amneziawg is an AmneziaWG (obfuscated WireGuard) client for a games console:
    one C program that reads a configuration file, performs the Noise handshake with
    a server over UDP, wraps the packets of an lwIP network interface into the tunnel
    and relays the console's own TLS connections through it, reading the host to
    connect to out of their ClientHello. The program's own code is src/source/*.c and
    src/source/crypto; src/source/lwip is the vendored TCP/IP stack.

    ** Layout

    Each file of this library models the C file (or pair of files) it is named after;
    a definition bears the name of the C function, type or macro it translates.

    - [Prelude]: machine words, byte strings, the outcome type [res], record update.
    - [Cstr]: the C library's string functions on lists of bytes.
    - [Awg]: awg.h, the configuration and template types, and the entropy stream
      behind [awg_random_bytes] (awg_rand.c).
    - [Crypto], [ChaCha20], [Poly1305], [AEAD], [Blake2s], [X25519]: src/source/crypto.
    - [Noise]: awg_noise.c, both roles of the handshake, header protection and
      transport packets.
    - [Session]: awg_session.c, keypairs, counters, the replay window and timers.
    - [Obf]: awg_obf.c, base64 and the obfuscation templates.
    - [Config] and [ConfigText]: awg_config.c, the loader; the writer it inverts.
    - [IpProbe]: awg_ipprobe.c, the DNS query packet and the reply parser.
    - [Proxy], [ProxySni], [ProxyRun]: awg_proxy.c. [Proxy] has its data, operations
      and lwIP callbacks; [ProxySni] what the ClientHello walk and the host filter
      do; [ProxyRun] the runs of the connection table.
    - [Power]: awg_power.c, the reader of the play-event log.
    - [Timeouts]: lwip/core/timeouts.c, the timers that awg_netif_poll drives.
    - [Pbuf]: the two copies of lwip/core/pbuf.c that the tunnel and the proxy use, on
      chains written as lists of payloads; [PbufPool]: the pool of lwip/core/memp.c and
      the chains of pbuf.c as they are in memory, with pointers and reference counts.
    - [ProxyMem], [ProxyPool]: the parts of awg_proxy.c and awg_netif.c that touch packet
      buffers, in that memory, and the machine made of proxy, stack and pool.
    - [Netif]: awg_netif.c, the tunnel as an lwIP interface.
    - [Chksum], [Ip4], [IpReass], [IpFrag], [Icmp], [Ip4Input]: lwIP's IPv4, on the one
      interface that the tunnel is. [Chksum]: inet_chksum.c; [Ip4]: the way out, ip4.c and
      the fragmentation of ip4_frag.c; [IpReass]: the reassembly of ip4_frag.c, and
      [IpFrag]: the one against the other; [Icmp]: icmp.c; [Ip4Input]: the way in, ip4.c,
      which calls [IpReass] and [Icmp] and hands the rest to TCP and UDP. Here a packet is a
      chain of links, each its address in memory and its bytes.
    - [Udp]: udp.c on both sides of these: its control blocks, what it gives to [Ip4] and
      what it does with what [Ip4Input] hands up.
    - [Http]: the HTTP probe of main_switch.c.
    - [Main], [MainRun], [MainFlow], [MainProps]: the main loop of main_switch.c over
      all the above: its stages, the invariants of its runs, the loop as a driver of
      the proxy, and what it guarantees.
    - [Boot]: the clocks of awg_rand.c and lwip_port/sys_arch.c, the services, and
      main_switch.c's way to the loop or past it.
    - [Host]: main_host.c, the harness that runs the parts against each other.

    ** Conventions

    A [w]-bit integer is a [Z] with its wrap-around written out; a byte string is a
    [list Z]; a C string is the bytes before its terminator. A function that writes
    into memory of its caller returns the new contents. [res] separates the code's
    own error return ([Err]) from an access outside an object ([Fault]), which the
    safety theorems exclude. Randomness is a position in an abstract stream ([Entropy]);
    the clock and the results of system and lwIP calls are arguments. X25519 is used
    by the handshake through the class [Curve], whose laws ([CurveLaws]) the theorem
    on agreement assumes: the commutation of scalar multiplication is a fact about
    the curve, not about this code, and the instance for the code itself is
    [x25519_curve].

    An operation that acts on lwIP or on a socket returns the list of its actions
    ([Proxy.action], [http_action], [main_action]) with the new state. lwIP calls back
    into the program only from within the program's calls into it; the main loop is
    therefore a composition of stages, each call that runs the stack taking the list
    of the callbacks it makes ([stack_event]), and a callback that is not registered
    at that moment ([registered]) does nothing.

    ** What the theorems show

    - The primitives equal independent definitions of their standards: ChaCha20 and
      Poly1305 (RFC 7539), BLAKE2s (RFC 7693), the Montgomery ladder of X25519 (RFC
      7748), HKDF; the AEAD opens what it seals and accepts nothing whose tag differs.
    - The handshake run between two parties derives crossed keys; framing and
      transport are inverse to each other; a rejected datagram is restored.
    - Along every run of a session no nonce is used twice and no counter accepted
      twice; the replay bitmap is exactly the 64-wide window; old keys are erased.
    - The loader accepts only well-formed configurations, reports the first refused
      line, and inverts a writer; templates print, parse and render as specified.
    - The DNS query is built exactly and the reply parser is safe on any bytes and
      right on well-formed replies; so are the ClientHello walk and the host filter.
    - Along every run of the proxy its table is well formed, only permitted hosts are
      looked up and connected to, the counters balance and idle slots are reclaimed;
      each connection carries its bytes both ways with none lost, repeated, reordered
      or crossed with another's.
    - In memory the proxy does to the chains what it does to the lists: along every run
      each block of the pool is free or in exactly one chain, so none is lost or freed
      twice; and one client that does not read can take all of them without leaving the
      receive window.
    - lwIP's timers on 32 bits do what they would do on unbounded time as long as they are
      looked at every 24 days, and what happens when they are not.
    - The reader of the power log answers at each look for exactly the entries written since
      the last one it read, so it misses no transition and reports none twice; a packet of
      lwIP reaches the stack at the other end of the tunnel.
    - lwIP's checksums are RFC 1071's; a payload that goes in at IPv4's output comes out of the
      other host's input, whole or cut into fragments that arrive in any order, if the
      reassembly queue there has room; for which lengths there is a surplus fragment, and
      that the payload comes out without it when it is the last to come; nothing unchecked
      reaches the layer above; the reassembly queue stays within its bounds whatever
      arrives; echoes are answered.
    - A UDP datagram of any other length arrives, under the same conditions, at the callback
      that listens for it with the bytes that were sent; the control blocks never contend for
      one, and free ports do not run out.
    - The main loop, whatever the calls, the datagrams and lwIP do: no pass faults, that is,
      none of its accesses to a datagram or a buffer that [Fault] stands for leaves it; the
      session is always one its own operations reach, so its nonces stay unique across
      rebuilds; descriptors are neither leaked nor used once closed, as long as
      [socket] succeeds (and what happens when it does not); rebuilds are spaced; a
      lost tunnel comes back; strangers' datagrams have no effect.
    - From the module's start: what it takes to reach that loop, the time it may take,
      and that every other way ends with nothing open and no key in memory.
    - The host harness passes, check by check, on every configuration that fits it: the
      parts agree with each other as its author meant them to; and which of its checks do
      not test what they say.

    ** Bounds and fuel

    Loops over lists are structural. The others carry fuel computed from the length
    of their input, and the theorems are stated on the functions that supply it, so
    enough fuel is part of what is proved: [b64_encode_loop], [parse_loop], [dns_loop]
    and [config_loop] take one more unit than they have bytes to consume. The walks
    over packets of [IpProbe] and [ProxySni] likewise; [drain] has the code's own
    bound, sixty-four datagrams. A walk along a chain in memory has one unit more than
    there are allocated blocks, and the fuel of [Proxy.pump_down] is one unit more than
    there are links and bytes to hand on. A check of lwIP's timers fires each at most
    twice, so the seven rounds of [sys_check_timeouts] suffice. [frag_loop] takes a unit for
    each byte of the datagram and uses one for each fragment; [remove_oldest_loop] has one
    more than there are datagrams, and frees one in each round. [new_port_loop] has a round
    for each port, and finds a free one in nine, as there are eight control blocks.

    ** Not modelled

    Allocation failure in awg_obf.c; the contents of uninitialised memory; x25519.c's
    signing functions, which nothing calls; of main_switch.c the log lines, and the lines
    after the loop, which nothing reaches since nothing sets [g_stop]; what main_host.c
    prints besides its checks. Of lwIP its TCP, DNS and raw sockets, the list of its
    interfaces, and the packet buffers in memory of other kinds than [PBUF_POOL]; where the
    heap puts them is an argument. The main loop takes what lwIP does as an input, restricted
    only to the callbacks that are registered: [Ip4Input] is not run inside it, for what
    comes out of it goes to TCP, which is not modelled. The invariant of [Udp] is for an
    interface that keeps its address, as the tunnel's does ([address_change_clash]). *)
From Stdlib Require Export ZArith Lia Bool String.
From stdpp Require Export base numbers option list.
Open Scope list_scope.

Open Scope Z_scope.

(** [simpl] and [cbn] leave integer arithmetic alone. *)
#[global] Arguments Z.add : simpl never.
#[global] Arguments Z.sub : simpl never.
#[global] Arguments Z.mul : simpl never.
#[global] Arguments Z.pow : simpl never.
#[global] Arguments Z.div : simpl never.
#[global] Arguments Z.modulo : simpl never.
#[global] Arguments Z.shiftl : simpl never.
#[global] Arguments Z.shiftr : simpl never.
#[global] Arguments Z.land : simpl never.
#[global] Arguments Z.lor : simpl never.
#[global] Arguments Z.lxor : simpl never.
#[global] Arguments Z.of_nat : simpl never.
#[global] Arguments Z.to_nat : simpl never.

(** ** Machine words

    A [w]-bit unsigned C integer is a [Z] in [[0, 2^w)]; the wrap-around of its
    arithmetic is written out with [u8], [u16], [u32] and [u64]. *)
Definition is_u (w x : Z) : Prop := 0 <= x < 2 ^ w.
Abbreviation is_byte := (is_u 8).
Abbreviation is_bytes := (Forall (is_u 8)).

Definition u8 (x : Z) : Z := Z.land x 0xFF.
Definition u16 (x : Z) : Z := Z.land x 0xFFFF.
Definition u32 (x : Z) : Z := Z.land x 0xFFFFFFFF.
Definition u64 (x : Z) : Z := Z.land x 0xFFFFFFFFFFFFFFFF.

(** A value converted to C's 32-bit [int]. *)
Definition s32 (x : Z) : Z :=
  let y := u32 x in if y <? 0x80000000 then y else y - 0x100000000.

(** The length of a list as a C integer. *)
Definition zlen {A} (l : list A) : Z := Z.of_nat (length l).

(** [take]/[drop] with a C integer index. *)
Definition ztake {A} (n : Z) (l : list A) : list A := take (Z.to_nat n) l.
Definition zdrop {A} (n : Z) (l : list A) : list A := drop (Z.to_nat n) l.

Declare Scope awg_scope.
Delimit Scope awg_scope with awg.
Infix ".^" := Z.lxor (at level 52, left associativity) : awg_scope.
Infix ".|" := Z.lor (at level 53, left associativity) : awg_scope.
Infix ".&" := Z.land (at level 51, left associativity) : awg_scope.
Infix ".<<" := Z.shiftl (at level 50, left associativity) : awg_scope.
Infix ".>>" := Z.shiftr (at level 50, left associativity) : awg_scope.
Open Scope awg_scope.

(** ** Generic lemmas on words *)

Lemma u8_mod x : u8 x = x mod 2 ^ 8.
Proof. unfold u8. by rewrite <- Z.land_ones by lia. Qed.
Lemma u16_mod x : u16 x = x mod 2 ^ 16.
Proof. unfold u16. by rewrite <- Z.land_ones by lia. Qed.
Lemma u32_mod x : u32 x = x mod 2 ^ 32.
Proof. unfold u32. by rewrite <- Z.land_ones by lia. Qed.
Lemma u64_mod x : u64 x = x mod 2 ^ 64.
Proof. unfold u64. by rewrite <- Z.land_ones by lia. Qed.

Lemma is_u_mod w x : 0 <= w → is_u w (x mod 2 ^ w).
Proof. intros. unfold is_u. apply Z.mod_pos_bound, Z.pow_pos_nonneg; lia. Qed.

Lemma u8_bound x : is_u 8 (u8 x).
Proof. rewrite u8_mod. apply is_u_mod; lia. Qed.
Lemma u16_bound x : is_u 16 (u16 x).
Proof. rewrite u16_mod. apply is_u_mod; lia. Qed.
Lemma u32_bound x : is_u 32 (u32 x).
Proof. rewrite u32_mod. apply is_u_mod; lia. Qed.
Lemma u64_bound x : is_u 64 (u64 x).
Proof. rewrite u64_mod. apply is_u_mod; lia. Qed.

Lemma u8_small x : is_u 8 x → u8 x = x.
Proof. intros. rewrite u8_mod. by apply Z.mod_small. Qed.
Lemma u16_small x : is_u 16 x → u16 x = x.
Proof. intros. rewrite u16_mod. by apply Z.mod_small. Qed.
Lemma u32_small x : is_u 32 x → u32 x = x.
Proof. intros. rewrite u32_mod. by apply Z.mod_small. Qed.
Lemma u64_small x : is_u 64 x → u64 x = x.
Proof. intros. rewrite u64_mod. by apply Z.mod_small. Qed.

(** A word has no bit at or above its width. *)
Lemma is_u_testbit w x i : is_u w x → w <= i → Z.testbit x i = false.
Proof.
  intros Hx Hi. destruct (decide (0 <= w)) as [Hw|Hw].
  - rewrite <- (Z.mod_small x (2 ^ w)) by apply Hx.
    by apply Z.mod_pow2_bits_high.
  - unfold is_u in Hx. rewrite Z.pow_neg_r in Hx by lia. lia.
Qed.

Lemma is_u_of_testbit w x :
  0 <= w → 0 <= x → (∀ i, w <= i → Z.testbit x i = false) → is_u w x.
Proof.
  intros Hw Hx Hb. split; [done|].
  assert (x = x mod 2 ^ w) as ->; [|apply Z.mod_pos_bound, Z.pow_pos_nonneg; lia].
  apply Z.bits_inj'. intros i Hi. destruct (decide (i < w)).
  - by rewrite Z.mod_pow2_bits_low by lia.
  - rewrite Z.mod_pow2_bits_high by lia. apply Hb; lia.
Qed.

Lemma is_u_lxor w x y : 0 <= w → is_u w x → is_u w y → is_u w (x .^ y).
Proof.
  intros Hw Hx Hy. apply is_u_of_testbit; [done| |].
  - apply Z.lxor_nonneg. split; intros; [apply Hy|apply Hx].
  - intros i Hi. rewrite Z.lxor_spec, (is_u_testbit w x), (is_u_testbit w y); done.
Qed.

Lemma is_u_lor w x y : 0 <= w → is_u w x → is_u w y → is_u w (x .| y).
Proof.
  intros Hw Hx Hy. apply is_u_of_testbit; [done| |].
  - apply Z.lor_nonneg. split; [apply Hx|apply Hy].
  - intros i Hi. rewrite Z.lor_spec, (is_u_testbit w x), (is_u_testbit w y); done.
Qed.

Lemma is_u_shiftr w x n : 0 <= n → is_u w x → is_u w (x .>> n).
Proof.
  intros Hn [Hx1 Hx2]. unfold is_u. rewrite Z.shiftr_div_pow2 by done.
  assert (0 < 2 ^ n) by (apply Z.pow_pos_nonneg; lia).
  split; [apply Z.div_pos; lia|].
  eapply Z.le_lt_trans; [|exact Hx2]. apply Z.div_le_upper_bound; [lia|].
  rewrite <- (Z.mul_1_l x) at 1. apply Z.mul_le_mono_nonneg_r; lia.
Qed.

Lemma is_u_mono w w' x : w <= w' → is_u w x → is_u w' x.
Proof.
  intros Hw [? Hx]. split; [done|]. eapply Z.lt_le_trans; [exact Hx|].
  destruct (decide (0 <= w)); [apply Z.pow_le_mono_r; lia|].
  rewrite Z.pow_neg_r in Hx by lia. lia.
Qed.

(** Disjoint bits: [lor] is addition. *)
Lemma lor_add_shift a b n :
  0 <= n → is_u n a → a .| (b .<< n) = a + b * 2 ^ n.
Proof.
  intros Hn Ha. rewrite <- Z.shiftl_mul_pow2 by done.
  symmetry. rewrite Z.add_nocarry_lxor, Z.lxor_lor; [done|..];
    apply Z.bits_inj'; intros i Hi; rewrite Z.land_spec, Z.bits_0;
    (destruct (decide (i < n));
     [rewrite Z.shiftl_spec_low by lia; apply andb_false_r
     |rewrite (is_u_testbit n a) by (done || lia); done]).
Qed.

Lemma land_shifted x y k : 0 <= k → x .& (y .<< k) = ((x .>> k) .& y) .<< k.
Proof.
  intros Hk. apply Z.bits_inj'. intros i Hi. rewrite Z.land_spec, !Z.shiftl_spec, Z.land_spec by done.
  destruct (Z.ltb_spec i k).
  - by rewrite !(Z.testbit_neg_r _ (i - k)), !andb_false_r by lia.
  - rewrite Z.shiftr_spec by lia. do 2 f_equal. lia.
Qed.

Create HintDb word discriminated.
#[export] Hint Resolve u8_bound u16_bound u32_bound u64_bound : word.
#[export] Hint Resolve is_u_lxor is_u_lor is_u_shiftr : word.
Hint Extern 1 (_ <= _) => lia : word.

(** ** Byte strings and their integer values *)

(** [l.[i]] reads the array [l]. Past the end it gives [0]: it is used where the
    array has a fixed size that a lemma establishes. The places where the code
    could read out of range use [!!] and an explicit error. *)
Definition get (l : list Z) (i : nat) : Z := default 0 (l !! i).
Notation "l .[ i ]" := (get l i) (at level 1, left associativity, format "l .[ i ]") : awg_scope.

Lemma is_u_get w l i : 0 <= w → Forall (is_u w) l → is_u w l.[i].
Proof.
  intros Hw Hl. unfold get. destruct (l !! i) as [x|] eqn:E; simpl.
  - eapply Forall_lookup_1; eauto.
  - split; [lia|apply Z.pow_pos_nonneg; lia].
Qed.

Lemma get_lookup l i x : l !! i = Some x → l.[i] = x.
Proof. unfold get. by intros ->. Qed.

Lemma lookup_get l i : (i < length l)%nat → l !! i = Some l.[i].
Proof. intros H. apply lookup_lt_is_Some_2 in H as [x Hx]. by rewrite (get_lookup _ _ _ Hx). Qed.

Lemma get_app_l l k i : (i < length l)%nat → (l ++ k).[i] = l.[i].
Proof. intros. unfold get. by rewrite lookup_app_l. Qed.

Lemma get_app_r l k i : (length l <= i)%nat → (l ++ k).[i] = k.[i - length l].
Proof. intros. unfold get. by rewrite lookup_app_r. Qed.

Lemma get_drop l n i : (drop n l).[i] = l.[n + i].
Proof. unfold get. by rewrite lookup_drop. Qed.

Lemma get_take l n i : (i < n)%nat → (take n l).[i] = l.[i].
Proof. intros. unfold get. by rewrite lookup_take_lt. Qed.

Fixpoint le_bytes (n : nat) (v : Z) : list Z :=
  match n with
  | O => []
  | S n => u8 v :: le_bytes n (v .>> 8)
  end.

Fixpoint le_val (l : list Z) : Z :=
  match l with
  | [] => 0
  | b :: l => b + 256 * le_val l
  end.

Definition be_bytes (n : nat) (v : Z) : list Z := reverse (le_bytes n v).
Definition be_val (l : list Z) : Z := le_val (reverse l).

Definition xor_bytes : list Z → list Z → list Z := zip_with Z.lxor.

Lemma length_le_bytes n v : length (le_bytes n v) = n.
Proof. revert v; induction n; intros; simpl; auto. Qed.

Lemma length_be_bytes n v : length (be_bytes n v) = n.
Proof. unfold be_bytes. by rewrite length_reverse, length_le_bytes. Qed.

Lemma le_bytes_bytes n v : is_bytes (le_bytes n v).
Proof. revert v; induction n; intros; constructor; auto with word. Qed.

Lemma be_bytes_bytes n v : is_bytes (be_bytes n v).
Proof. apply Forall_reverse, le_bytes_bytes. Qed.

Lemma le_val_nonneg l : is_bytes l → 0 <= le_val l.
Proof. induction 1 as [|x l [? _] _ IH]; simpl; lia. Qed.

Lemma le_val_bound l : is_bytes l → 0 <= le_val l < 2 ^ (8 * zlen l).
Proof.
  unfold zlen. induction 1 as [|x l [? Hx] _ IH]; [simpl; lia|].
  rewrite length_cons, Nat2Z.inj_succ.
  replace (8 * Z.succ (Z.of_nat (length l))) with (8 + 8 * Z.of_nat (length l)) by lia.
  rewrite Z.pow_add_r by lia. change (2 ^ 8) with 256 in *. cbn [le_val]. nia.
Qed.

Lemma le_val_le_bytes n v : le_val (le_bytes n v) = v mod 2 ^ (8 * Z.of_nat n).
Proof.
  revert v; induction n as [|n IH]; intros v.
  - simpl. by rewrite Z.mod_1_r.
  - cbn [le_bytes le_val]. rewrite IH, u8_mod, Z.shiftr_div_pow2 by lia.
    replace (8 * Z.of_nat (S n)) with (8 + 8 * Z.of_nat n) by lia.
    rewrite Z.pow_add_r by lia.
    rewrite Z.rem_mul_r by (try apply Z.pow_nonzero; lia). reflexivity.
Qed.

Lemma le_bytes_le_val l : is_bytes l → le_bytes (length l) (le_val l) = l.
Proof.
  induction 1 as [|x l Hx Hl IH]; [done|]. cbn [length le_bytes le_val].
  assert (u8 (x + 256 * le_val l) = x) as ->.
  { rewrite u8_mod. change (2 ^ 8) with 256. rewrite Z.mul_comm, Z.mod_add by lia.
    by apply Z.mod_small. }
  assert ((x + 256 * le_val l) .>> 8 = le_val l) as ->; [|by rewrite IH].
  rewrite Z.shiftr_div_pow2 by lia. change (2 ^ 8) with 256.
  rewrite Z.mul_comm, Z.div_add, Z.div_small by (unfold is_u in Hx; lia). lia.
Qed.

Lemma be_val_be_bytes n v : be_val (be_bytes n v) = v mod 2 ^ (8 * Z.of_nat n).
Proof. unfold be_val, be_bytes. by rewrite reverse_involutive, le_val_le_bytes. Qed.

Lemma be_bytes_be_val l : is_bytes l → be_bytes (length l) (be_val l) = l.
Proof.
  intros Hl. unfold be_val, be_bytes. rewrite <- (length_reverse l) at 1.
  rewrite le_bytes_le_val by (by apply Forall_reverse). apply reverse_involutive.
Qed.

Lemma le_val_inj l l' :
  is_bytes l → is_bytes l' → length l = length l' → le_val l = le_val l' → l = l'.
Proof.
  intros Hl Hl' Hn Hv. rewrite <- (le_bytes_le_val l), <- (le_bytes_le_val l') by done.
  by rewrite Hn, Hv.
Qed.

Lemma le_val_app l l' : le_val (l ++ l') = le_val l + 2 ^ (8 * zlen l) * le_val l'.
Proof.
  unfold zlen. induction l as [|x l IH]; [simpl; lia|].
  cbn [app le_val]. rewrite IH, length_cons, Nat2Z.inj_succ.
  replace (8 * Z.succ (Z.of_nat (length l))) with (8 + 8 * Z.of_nat (length l)) by lia.
  rewrite Z.pow_add_r by lia. change (2 ^ 8) with 256. ring.
Qed.

Lemma length_xor_bytes l k : length (xor_bytes l k) = Nat.min (length l) (length k).
Proof. apply length_zip_with. Qed.

Lemma xor_bytes_bytes l k : is_bytes l → is_bytes k → is_bytes (xor_bytes l k).
Proof.
  intros Hl. revert k. induction Hl; intros k Hk; [constructor|].
  destruct Hk; [constructor|]. constructor; auto with word.
Qed.

(** XOR with a long enough key stream is its own inverse. *)
Lemma xor_bytes_involutive l k :
  (length l <= length k)%nat → xor_bytes (xor_bytes l k) k = l.
Proof.
  revert k; induction l as [|x l IH]; intros [|y k] Hlen; simpl in *; [done..|lia|].
  unfold xor_bytes in *. cbn. rewrite IH by lia.
  by rewrite Z.lxor_assoc, Z.lxor_nilpotent, Z.lxor_0_r.
Qed.

Lemma xor_bytes_app l l' k k' :
  length l = length k → xor_bytes (l ++ l') (k ++ k') = xor_bytes l k ++ xor_bytes l' k'.
Proof. intros. by apply zip_with_app. Qed.

Lemma xor_bytes_take_r l k : xor_bytes l (take (length l) k) = xor_bytes l k.
Proof.
  revert k; induction l as [|x l IH]; intros [|y k]; [done..|].
  unfold xor_bytes in *. cbn. by rewrite IH.
Qed.

#[export] Hint Resolve is_u_get le_bytes_bytes be_bytes_bytes xor_bytes_bytes : word.
Create Rewrite HintDb len.
#[export] Hint Rewrite length_le_bytes length_be_bytes length_xor_bytes : len.
#[export] Hint Rewrite @length_app @length_take @length_drop @length_replicate
  @length_reverse @length_insert @length_fmap @length_cons @length_nil
  @length_zip_with @length_seq : len.

(** [len] decides equations and inequations between list lengths. *)
Ltac len := unfold zlen in *; autorewrite with len in *; try lia; try done.

(** Lists of bytes under the structural operations. *)
Lemma is_bytes_app l l' : is_bytes l → is_bytes l' → is_bytes (l ++ l').
Proof. intros. by apply Forall_app. Qed.
Lemma is_bytes_take n l : is_bytes l → is_bytes (take n l).
Proof. apply Forall_take. Qed.
Lemma is_bytes_drop n l : is_bytes l → is_bytes (drop n l).
Proof. apply Forall_drop. Qed.
Lemma is_bytes_zeros n : is_bytes (replicate n 0).
Proof. apply Forall_replicate. unfold is_u. lia. Qed.
#[export] Hint Resolve is_bytes_app is_bytes_take is_bytes_drop is_bytes_zeros : word.

(** A literal list of words. *)
Ltac word_list :=
  repeat (apply Forall_cons_2; [solve [auto with word | unfold is_u; lia]|]); apply Forall_nil_2.

(** A list of known length, spelled out. *)
Lemma length_S_inv {A} (l : list A) n :
  length l = S n → ∃ x l', l = x :: l' ∧ length l' = n.
Proof. destruct l as [|x l']; [done|]. intros [= ?]. eauto. Qed.

Ltac explode l H :=
  repeat (let x := fresh "x" in let l' := fresh "l" in
          apply length_S_inv in H as (x & l' & -> & H); rename l' into l);
  apply nil_length_inv in H; subst l.

(** C's little-endian 4-byte load, as the sources spell it. *)
Definition get_le32 (p : list Z) : Z :=
  p.[0] .| (p.[1] .<< 8) .| (p.[2] .<< 16) .| (p.[3] .<< 24).

Lemma get_le32_val p : is_bytes p → (4 <= length p)%nat → get_le32 p = le_val (take 4 p).
Proof.
  intros Hp Hl. rewrite <- (take_drop 4 p) in Hp |- *.
  assert (length (take 4 p) = 4%nat) as H4 by len.
  revert Hp H4. generalize (take 4 p) (drop 4 p). intros q r Hp H4.
  explode q H4. unfold get_le32, get. cbn.
  apply Forall_app in Hp as [Hq _]. rewrite !Forall_cons in Hq.
  destruct Hq as (H0 & H1 & H2 & H3 & _).
  unfold is_u in *.
  rewrite (lor_add_shift _ _ 8) by (unfold is_u; lia).
  rewrite (lor_add_shift _ _ 16) by (unfold is_u; lia).
  rewrite (lor_add_shift _ _ 24) by (unfold is_u; lia).
  rewrite take_0. cbn [le_val]. lia.
Qed.

Lemma get_le32_bound p : is_bytes p → is_u 32 (get_le32 p).
Proof.
  intros Hp. unfold get_le32.
  pose proof (λ i, is_u_get 8 p i ltac:(lia) Hp) as Hb.
  rewrite (lor_add_shift _ _ 8) by auto with lia.
  pose proof (Hb 0%nat). pose proof (Hb 1%nat). pose proof (Hb 2%nat). pose proof (Hb 3%nat).
  unfold is_u in *.
  rewrite (lor_add_shift _ _ 16) by (unfold is_u; lia).
  rewrite (lor_add_shift _ _ 24) by (unfold is_u; lia). lia.
Qed.
#[export] Hint Resolve get_le32_bound : word.

(** ** Copies into a buffer *)

(** [memcpy(dst + off, src, |src|)]. *)
Definition blit (off : nat) (src dst : list Z) : list Z :=
  take off dst ++ src ++ drop (off + length src) dst.

Lemma length_blit off src dst :
  (off + length src <= length dst)%nat → length (blit off src dst) = length dst.
Proof. intros. unfold blit. len. Qed.

Lemma blit_bytes off src dst : is_bytes src → is_bytes dst → is_bytes (blit off src dst).
Proof. intros. unfold blit. auto with word. Qed.
#[export] Hint Resolve blit_bytes : word.

Lemma take_blit off src dst :
  (off + length src <= length dst)%nat →
  take (off + length src) (blit off src dst) = take off dst ++ src.
Proof.
  intros. unfold blit. rewrite app_assoc, take_app_le by len.
  apply take_ge. len.
Qed.

Lemma blit_nil off dst : blit off [] dst = dst.
Proof. unfold blit. cbn. by rewrite Nat.add_0_r, take_drop. Qed.

(** A copy continued where the previous one stopped. *)
Lemma blit_blit off a b dst : (off + length a + length b <= length dst)%nat →
  blit (off + length a) b (blit off a dst) = blit off (a ++ b) dst.
Proof.
  intros H. unfold blit at 1. rewrite take_blit by lia.
  unfold blit. rewrite <- !app_assoc. do 3 f_equal.
  rewrite app_assoc, drop_app_ge by len. rewrite drop_drop. f_equal. len.
Qed.

(** ** Bit slices *)

(** Four bytes at offset [k] are 32 bits of the whole string's value. *)
Lemma le_val_drop l k : is_bytes l → (k <= length l)%nat →
  le_val (drop k l) = le_val l .>> (8 * Z.of_nat k).
Proof.
  intros Hl Hk. rewrite <- (take_drop k l) at 2. rewrite le_val_app.
  unfold zlen. rewrite length_take_le by lia.
  rewrite Z.shiftr_div_pow2, (Z.add_comm (le_val _)), Z.mul_comm, Z.div_add_l by lia.
  rewrite Z.div_small; [lia|].
  pose proof (le_val_bound (take k l) (is_bytes_take _ _ Hl)) as Hb.
  unfold zlen in Hb. by rewrite length_take_le in Hb by lia.
Qed.

Lemma le_val_take l k : is_bytes l → (k <= length l)%nat →
  le_val (take k l) = le_val l .& Z.ones (8 * Z.of_nat k).
Proof.
  intros Hl Hk. rewrite Z.land_ones by lia. rewrite <- (take_drop k l) at 2.
  rewrite le_val_app. unfold zlen. rewrite length_take_le by lia.
  rewrite Z.mul_comm, Z.mod_add by (apply Z.pow_nonzero; lia).
  symmetry. apply Z.mod_small.
  pose proof (le_val_bound (take k l) (is_bytes_take _ _ Hl)) as Hb.
  unfold zlen in Hb. by rewrite length_take_le in Hb by lia.
Qed.

Lemma get_le32_slice l k : is_bytes l → (k + 4 <= length l)%nat →
  get_le32 (drop k l) = (le_val l .>> (8 * Z.of_nat k)) .& Z.ones 32.
Proof.
  intros Hl Hk. rewrite get_le32_val by (auto with word; len).
  rewrite le_val_take by (auto with word; len).
  rewrite le_val_drop by (auto with word; len). done.
Qed.

(** A value in base [2^26], [2^32]: the slices recompose it. *)
Lemma slice_recompose v w k : 0 <= w → 0 <= k →
  ((v .>> k) .& Z.ones w) + 2 ^ w * (v .>> (k + w)) = v .>> k.
Proof.
  intros. rewrite Z.land_ones by done. rewrite !Z.shiftr_div_pow2 by lia.
  rewrite Z.pow_add_r by done. rewrite <- Z.div_div by (try apply Z.pow_nonzero; lia).
  pose proof (Z.div_mod (v / 2 ^ k) (2 ^ w) ltac:(apply Z.pow_nonzero; lia)). lia.
Qed.

(** ** Slices and strings *)

Lemma zlen_app {A} (l k : list A) : zlen (l ++ k) = zlen l + zlen k.
Proof. unfold zlen. rewrite length_app. lia. Qed.
Lemma zlen_cons {A} (x : A) l : zlen (x :: l) = 1 + zlen l.
Proof. unfold zlen. cbn [length]. lia. Qed.
Lemma zlen_nonneg {A} (l : list A) : 0 <= zlen l.
Proof. unfold zlen. lia. Qed.
Lemma ztake_app {A} n (l k : list A) : zlen l = n → ztake n (l ++ k) = l.
Proof. intros <-. unfold ztake, zlen. by rewrite Nat2Z.id, take_app_length. Qed.
Lemma zdrop_app {A} n (l k : list A) : zlen l = n → zdrop n (l ++ k) = k.
Proof. intros <-. unfold zdrop, zlen. by rewrite Nat2Z.id, drop_app_length. Qed.
Lemma zlen_zdrop {A} n (l : list A) : 0 <= n <= zlen l → zlen (zdrop n l) = zlen l - n.
Proof. unfold zdrop, zlen. rewrite length_drop. lia. Qed.

(** The [n] bytes at [p + off]. *)
Definition slice (off n : nat) (l : list Z) : list Z := take n (drop off l).

Lemma length_slice off n l : (off + n <= length l)%nat → length (slice off n l) = n.
Proof. intros. unfold slice. len. Qed.

Lemma slice_bytes off n l : is_bytes l → is_bytes (slice off n l).
Proof. unfold slice. auto with word. Qed.
#[export] Hint Resolve slice_bytes : word.

Lemma slice_skip off n a l : (length a <= off)%nat →
  slice off n (a ++ l) = slice (off - length a) n l.
Proof. intros. unfold slice. by rewrite drop_app_ge. Qed.

Lemma slice_here n a l : length a = n → slice 0 n (a ++ l) = a.
Proof. intros <-. unfold slice. by rewrite drop_0, take_app_length. Qed.

Lemma slice_full n a : length a = n → slice 0 n a = a.
Proof. intros <-. unfold slice. by rewrite drop_0, firstn_all. Qed.

(** Writing the next field of a zeroed message. *)
Lemma blit_next off n src pre m : length pre = off → length src = n → (n <= m)%nat →
  blit off src (pre ++ replicate m 0) = (pre ++ src) ++ replicate (m - n) 0.
Proof.
  intros <- <- Hm. unfold blit. rewrite take_app_length, drop_app_ge by lia.
  rewrite app_assoc. f_equal. rewrite drop_replicate. f_equal. lia.
Qed.

(** The bytes of a C string literal, without its terminator. *)
Definition str (s : string) : list Z :=
  (λ a, Z.of_N (Ascii.N_of_ascii a)) <$> String.list_ascii_of_string s.

Lemma str_bytes s : is_bytes (str s).
Proof.
  apply Forall_fmap, Forall_true. intros a. cbn. unfold is_u.
  pose proof (Ascii.N_ascii_bounded a). lia.
Qed.
#[export] Hint Resolve str_bytes : word.

(** ** Outcomes

    [Err] is the code's own error return. [Fault] is an access outside the object
    a pointer points into: a theorem that a function is memory safe says that it
    never returns it. *)
Inductive res (A : Type) : Type :=
| Ok (a : A)
| Err
| Fault.
Arguments Ok {A} a.
Arguments Err {A}.
Arguments Fault {A}.

#[export] Instance res_bind : MBind res :=
  λ A B f x, match x with Ok a => f a | Err => Err | Fault => Fault end.
#[export] Instance res_ret : MRet res := λ A a, Ok a.

#[export] Instance res_eq_dec {A} `{EqDecision A} : EqDecision (res A).
Proof. solve_decision. Defined.

(** A read the code performs without a bound of its own. *)
Definition read (l : list Z) (i : Z) : res Z :=
  if i <? 0 then Fault else match l !! Z.to_nat i with Some x => Ok x | None => Fault end.

Lemma read_ok l i : 0 <= i < zlen l → read l i = Ok l.[Z.to_nat i].
Proof.
  intros Hi. unfold read. destruct (Z.ltb_spec i 0); [lia|].
  by rewrite lookup_get by (unfold zlen in Hi; lia).
Qed.

(** [memcpy] of [n] bytes from [p + off]. *)
Definition read_n (p : list Z) (off : Z) (n : nat) : res (list Z) :=
  if (0 <=? off) && (off + Z.of_nat n <=? zlen p) then Ok (slice (Z.to_nat off) n p) else Fault.

Lemma read_n_ok p off n : 0 <= off → off + Z.of_nat n <= zlen p →
  read_n p off n = Ok (slice (Z.to_nat off) n p).
Proof. intros. unfold read_n. by rewrite !(proj2 (Z.leb_le _ _)) by lia. Qed.

(** [n] bytes from [off] on lie in an object of [size] bytes. *)
Definition within (off n size : Z) : bool := (0 <=? off) && (0 <=? n) && (off + n <=? size).

Lemma within_true off n size : 0 <= off → 0 <= n → off + n <= size → within off n size = true.
Proof. intros. unfold within. by rewrite !(proj2 (Z.leb_le _ _)) by lia. Qed.

Lemma within_false off n size : off < 0 → within off n size = false.
Proof. intros. unfold within. by rewrite (proj2 (Z.leb_gt 0 off)) by lia. Qed.

Lemma within_spec off n size : within off n size = true ↔ 0 <= off ∧ 0 <= n ∧ off + n <= size.
Proof. unfold within. rewrite !andb_true_iff, !Z.leb_le. tauto. Qed.

(** ** Record fields

    [s <| f := v |>] is the assignment [s.f = v]. A record type with an instance
    of [Eta] has it: the tactic abstracts the field out of the eta-expansion. *)
Class Eta (R : Type) := eta : R → R.
Class Field {R T : Type} (f : R → T) := modify : (T → T) → R → R.
Arguments modify {R T} f {_} _ _.

Ltac solve_field :=
  match goal with
  | |- @Field ?R _ ?f =>
    let inst := constr:(_ : Eta R) in
    let body := eval hnf in inst in
    match eval pattern f in body with
    | ?abs _ => exact (λ g, abs (λ r, g (f r)))
    end
  end.
#[export] Hint Extern 0 (Field _) => solve_field : typeclass_instances.

Notation "s <| f := v |>" := (modify f (λ _, v) s)
  (at level 12, f at level 9, left associativity, format "s  <| f  :=  v |>") : awg_scope.
Notation "s <| f ::= g |>" := (modify f g s)
  (at level 12, f at level 9, left associativity, format "s  <| f  ::=  g |>") : awg_scope.
