(* ===== verification/Cstr.v ===== *)
(** * C strings

    The string functions of the C library the sources call, on strings as lists of
    the bytes before the terminator: searching, trimming, [strtol] and its
    relatives (for a 64-bit [long] and a 32-bit [int], as on the target), and the
    truncation and the decimal and hexadecimal conversions of [snprintf]. *)
From S2P Require Import Prelude.

(** Bytes other than the terminator. *)
Definition cstring : list Z → Prop := Forall (λ c, 0 < c < 256).

(** [strchr]: what precedes the first [c], and what follows it. *)
Fixpoint split_at (c : Z) (s : list Z) : option (list Z * list Z) :=
  match s with
  | [] => None
  | x :: s =>
    if x =? c then Some ([], s)
    else match split_at c s with Some (a, b) => Some (x :: a, b) | None => None end
  end.

(** [strrchr]. *)
Definition rsplit_at (c : Z) (s : list Z) : option (list Z * list Z) :=
  match split_at c (reverse s) with
  | Some (b, a) => Some (reverse a, reverse b)
  | None => None
  end.

(** The pointer moved past the characters of a class. *)
Fixpoint skip_while (p : Z → bool) (s : list Z) : list Z :=
  match s with
  | x :: s' => if p x then skip_while p s' else s
  | [] => []
  end.

(** The prefix such a loop passes over. *)
Fixpoint take_while (p : Z → bool) (s : list Z) : list Z :=
  match s with
  | x :: s => if p x then x :: take_while p s else []
  | [] => []
  end.

(** What the string functions see of a buffer. *)
Definition c_string (buf : list Z) : list Z := take_while (λ c, negb (c =? 0)) buf.

Definition is_blank (c : Z) : bool := (c =? 32) || (c =? 9).
Definition isspace (c : Z) : bool := (c =? 32) || ((9 <=? c) && (c <=? 13)).
Definition isdigit (c : Z) : bool := (48 <=? c) && (c <=? 57).

Definition str_eqb (a b : list Z) : bool := bool_decide (a = b).

(** ** Numbers *)

Fixpoint scan_digits (acc : Z) (s : list Z) : Z * list Z :=
  match s with
  | d :: s' => if isdigit d then scan_digits (acc * 10 + (d - 48)) s' else (acc, s)
  | [] => (acc, [])
  end.

(** The sign, the digits and the rest; [None] when there is no digit, where the
    functions return 0 and an end pointer equal to the start. *)
Definition scan_number (s : list Z) : option (bool * Z * list Z) :=
  let s := skip_while isspace s in
  let '(neg, s) := match s with
                   | 45 :: s => (true, s)
                   | 43 :: s => (false, s)
                   | _ => (false, s)
                   end in
  match s with
  | d :: _ => if isdigit d then let '(v, rest) := scan_digits 0 s in Some (neg, v, rest) else None
  | [] => None
  end.

Definition LONG_MAX : Z := 2 ^ 63 - 1.
Definition ULONG_MAX : Z := 2 ^ 64 - 1.

(** [strtol(s, &end, 10)]: the value and what [end] points to. *)
Definition strtol (s : list Z) : Z * list Z :=
  match scan_number s with
  | None => (0, s)
  | Some (neg, v, rest) => (if neg : bool then Z.max (- v) (- LONG_MAX - 1) else Z.min v LONG_MAX, rest)
  end.

(** [(int)strtol(s, NULL, 10)], which [atoi] is. *)
Definition atoi (s : list Z) : Z := s32 (strtol s).1.

(** [strtoul(s, NULL, 10)]: a minus sign negates in 64 bits. *)
Definition strtoul (s : list Z) : Z :=
  match scan_number s with
  | None => 0
  | Some (neg, v, _) =>
    if v >? ULONG_MAX then ULONG_MAX else if neg : bool then u64 (- v) else v
  end.

(** ** Output *)

(** [snprintf] into a buffer of [size] bytes keeps [size - 1]. *)
Definition snprintf (size : Z) (s : list Z) : list Z := take (Z.to_nat (size - 1)) s.

Fixpoint dec_loop (fuel : nat) (n : Z) (tail : list Z) : list Z :=
  match fuel with
  | O => tail
  | S fuel =>
    let tail := (48 + n mod 10) :: tail in
    if n <? 10 then tail else dec_loop fuel (n / 10) tail
  end.

(** [%d] and [%u]. *)
Definition dec (n : Z) : list Z :=
  let m := Z.abs n in
  let s := dec_loop (S (Z.to_nat (Z.log2 m))) m [] in
  if n <? 0 then 45 :: s else s.

Definition hex_digit (n : Z) : Z := if n <? 10 then 48 + n else 87 + n.
Definition hex_byte (b : Z) : list Z := [hex_digit (b / 16); hex_digit (b mod 16)].

(** ** Lemmas *)

Lemma split_at_app c a b : c ∉ a → split_at c (a ++ c :: b) = Some (a, b).
Proof.
  induction a as [|x a IH]; intros Hc; cbn [app split_at].
  - by rewrite Z.eqb_refl.
  - apply not_elem_of_cons in Hc as [Hx Hc].
    rewrite (proj2 (Z.eqb_neq x c)) by done. by rewrite IH.
Qed.

Lemma split_at_none c s : split_at c s = None ↔ c ∉ s.
Proof.
  induction s as [|x s IH]; cbn [split_at]; [split; [intros _ H; by apply elem_of_nil in H|done]|].
  rewrite elem_of_cons. destruct (Z.eqb_spec x c) as [->|Hx].
  - split; [done|]. intros H. exfalso. apply H. by left.
  - destruct (split_at c s) as [[a b]|].
    + split; [done|]. intros H. exfalso. assert (c ∉ s) as Hs by tauto. by apply IH in Hs.
    + split; [|done]. intros _ [->|H]; [done|]. by apply IH.
Qed.

Lemma split_at_some c s a b : split_at c s = Some (a, b) → s = a ++ c :: b ∧ c ∉ a.
Proof.
  revert a b. induction s as [|x s IH]; intros a b; cbn [split_at]; [done|].
  destruct (Z.eqb_spec x c) as [->|Hx].
  - intros [= <- <-]. split; [done|]. apply not_elem_of_nil.
  - destruct (split_at c s) as [[a' b']|]; [|done]. intros [= <- <-].
    destruct (IH _ _ eq_refl) as [-> Hn]. split; [done|]. by apply not_elem_of_cons.
Qed.

Lemma skip_while_nop p x s : p x = false → skip_while p (x :: s) = x :: s.
Proof. intros H. cbn. by rewrite H. Qed.

Lemma dec_loop_scan fuel n tail : 0 <= n < 10 ^ Z.of_nat fuel → (0 < fuel)%nat →
  scan_digits 0 (dec_loop fuel n tail) = scan_digits n tail.
Proof.
  revert n tail. induction fuel as [|fuel IH]; intros n tail Hn Hf; [lia|].
  cbn [dec_loop].
  assert (∀ a, scan_digits a ((48 + n mod 10) :: tail) = scan_digits (a * 10 + n mod 10) tail) as Hd.
  { intros a. pose proof (Z.mod_pos_bound n 10 ltac:(lia)). cbn [scan_digits]. unfold isdigit.
    rewrite (proj2 (Z.leb_le _ _)), (proj2 (Z.leb_le _ _)) by lia. cbn [andb].
    do 2 f_equal. lia. }
  destruct (Z.ltb_spec n 10).
  - rewrite Hd. f_equal. rewrite Z.mod_small by lia. lia.
  - destruct fuel as [|fuel]; [cbn in Hn; lia|].
    rewrite IH, Hd; [|split|lia].
    + f_equal. pose proof (Z.div_mod n 10 ltac:(lia)). lia.
    + apply Z.div_pos; lia.
    + apply Z.div_lt_upper_bound; [lia|]. rewrite Nat2Z.inj_succ, Z.pow_succ_r in Hn by lia. lia.
Qed.

Lemma dec_fuel m : 0 <= m → m < 10 ^ Z.of_nat (S (Z.to_nat (Z.log2 m))).
Proof.
  intros Hm. rewrite Nat2Z.inj_succ, Z2Nat.id by apply Z.log2_nonneg.
  destruct (Z.eq_dec m 0) as [->|]; [done|].
  eapply Z.lt_le_trans; [apply (Z.log2_spec m); lia|]. 
  apply Z.pow_le_mono_l. lia.
Qed.

Lemma dec_loop_digits fuel n tail : 0 <= n → (0 < fuel)%nat →
  ∃ d s, dec_loop fuel n tail = d :: s ∧ isdigit d = true.
Proof.
  revert n tail. induction fuel as [|fuel IH]; intros n tail Hn Hf; [lia|].
  cbn [dec_loop]. pose proof (Z.mod_pos_bound n 10 ltac:(lia)).
  assert (isdigit (48 + n mod 10) = true) as Hd.
  { unfold isdigit. by rewrite (proj2 (Z.leb_le _ _)), (proj2 (Z.leb_le _ _)) by lia. }
  destruct (Z.ltb_spec n 10); [eauto|].
  destruct fuel as [|fuel]; [cbn; eauto|]. apply IH; [apply Z.div_pos; lia|lia].
Qed.

(** Reading back a printed number that no digit follows. *)
Lemma scan_dec n rest : 0 <= n →
  match rest with d :: _ => isdigit d = false | [] => True end →
  scan_number (dec n ++ rest) = Some (false, n, rest).
Proof.
  intros Hn Hr. unfold dec. rewrite Z.abs_eq, (proj2 (Z.ltb_ge n 0)) by lia.
  assert (∀ f m t, dec_loop f m t ++ rest = dec_loop f m (t ++ rest)) as Happ.
  { intros f. induction f as [|f IH]; intros m t; cbn [dec_loop]; [done|].
    destruct (m <? 10); [done|]. by rewrite IH. }
  rewrite Happ. cbn [app].
  destruct (dec_loop_digits (S (Z.to_nat (Z.log2 n))) n rest Hn ltac:(lia)) as (d & s & E & Hd).
  pose proof (dec_loop_scan (S (Z.to_nat (Z.log2 n))) n rest (conj Hn (dec_fuel n Hn)) ltac:(lia)) as Hs.
  rewrite E in Hs |- *. unfold scan_number.
  pose proof Hd as Hd'. unfold isdigit in Hd'. apply andb_prop in Hd' as [H1 H2].
  apply Z.leb_le in H1, H2.
  rewrite skip_while_nop.
  2: { unfold isspace. rewrite (proj2 (Z.eqb_neq d 32)), (proj2 (Z.leb_gt d 13)) by lia.
       apply andb_false_r. }
  replace (match d :: s with 45 :: s0 => (true, s0) | 43 :: s0 => (false, s0) | _ => (false, d :: s) end)
    with (false, d :: s).
  2: { destruct d as [|p|p]; try lia. do 7 (destruct p as [p|p|]; try done; try lia). }
  rewrite Hd, Hs. f_equal. destruct rest as [|x rest]; [done|].
  cbn [scan_digits]. by rewrite Hr.
Qed.

Lemma strtol_dec n rest : 0 <= n <= LONG_MAX →
  match rest with d :: _ => isdigit d = false | [] => True end →
  strtol (dec n ++ rest) = (n, rest).
Proof.
  intros Hn Hr. unfold strtol. rewrite scan_dec by (done || lia). f_equal. lia.
Qed.

(** The same with a minus sign. *)
Lemma strtol_dec_neg n rest : 0 < n <= LONG_MAX + 1 →
  match rest with d :: _ => isdigit d = false | [] => True end →
  strtol (dec (- n) ++ rest) = (- n, rest).
Proof.
  intros Hn Hr. pose proof (scan_dec n rest ltac:(lia) Hr) as Hs.
  assert (dec (- n) = 45 :: dec n) as ->.
  { unfold dec. by rewrite Z.abs_opp, (proj2 (Z.ltb_lt (- n) 0)), (proj2 (Z.ltb_ge n 0)) by lia. }
  unfold strtol. cbn [app]. unfold scan_number in *. cbn [skip_while].
  change (isspace 45) with false. cbn iota.
  destruct (dec n ++ rest) as [|d s] eqn:E; [done|].
  assert (isdigit d = true ∧ scan_digits 0 (d :: s) = (n, rest)) as [Hd Hsc].
  { unfold dec in E. rewrite Z.abs_eq, (proj2 (Z.ltb_ge n 0)) in E by lia.
    destruct (dec_loop_digits (S (Z.to_nat (Z.log2 n))) n [] ltac:(lia) ltac:(lia)) as (d' & s' & E' & Hd').
    rewrite E' in E. injection E as -> <-. split; [done|].
    assert (isspace d = false) as Hns.
    { unfold isdigit in Hd'. apply andb_prop in Hd' as [H1 H2]. apply Z.leb_le in H1, H2.
      unfold isspace. rewrite (proj2 (Z.eqb_neq d 32)), (proj2 (Z.leb_gt d 13)) by lia.
      apply andb_false_r. }
    cbn [skip_while] in Hs. rewrite Hns in Hs.
    replace (match d :: s' ++ rest with 45 :: s0 => (true, s0) | 43 :: s0 => (false, s0)
      | _ => (false, d :: s' ++ rest) end) with (false, d :: s' ++ rest) in Hs.
    2: { unfold isdigit in Hd'. apply andb_prop in Hd' as [H1 H2]. apply Z.leb_le in H1, H2.
         destruct d as [|p|p]; try lia. do 7 (destruct p as [p|p|]; try done; try lia). }
    rewrite Hd' in Hs. destruct (scan_digits 0 (d :: s' ++ rest)) as [v r]. congruence. }
  rewrite Hd, Hsc. f_equal. lia.
Qed.

Lemma strtol_dec_int n rest : - 2 ^ 31 <= n < 2 ^ 31 →
  match rest with d :: _ => isdigit d = false | [] => True end →
  strtol (dec n ++ rest) = (n, rest).
Proof.
  intros Hn Hr. change (2 ^ 31) with 2147483648 in Hn.
  assert (LONG_MAX = 9223372036854775807) as HL by done.
  destruct (decide (0 <= n)); [apply strtol_dec; [lia|done]|].
  replace n with (- - n) by lia. apply strtol_dec_neg; [lia|done].
Qed.

Lemma s32_int_id n : - 2 ^ 31 <= n < 2 ^ 31 → s32 n = n.
Proof.
  intros Hn. unfold s32. cbn zeta. rewrite u32_mod. change (2 ^ 31) with 2147483648 in Hn.
  change (2 ^ 32) with 4294967296. destruct (Z.ltb_spec (n mod 4294967296) 0x80000000);
    Z.div_mod_to_equations; lia.
Qed.

Lemma atoi_dec n : - 2 ^ 31 <= n < 2 ^ 31 → atoi (dec n) = n.
Proof.
  intros Hn. unfold atoi. rewrite <- (app_nil_r (dec n)), strtol_dec_int by done.
  by apply s32_int_id.
Qed.

Lemma strtoul_dec n : 0 <= n <= ULONG_MAX → strtoul (dec n) = n.
Proof.
  intros Hn. unfold strtoul. rewrite <- (app_nil_r (dec n)), scan_dec by (done || lia).
  rewrite Z.gtb_ltb, (proj2 (Z.ltb_ge _ _)) by lia. done.
Qed.

(** The characters of a printed number and how many there are. *)
Lemma dec_loop_length f n k tail : 0 <= n < 10 ^ Z.of_nat k → (0 < k)%nat →
  (length (dec_loop f n tail) <= k + length tail)%nat.
Proof.
  revert n k tail. induction f as [|f IH]; intros n k tail Hn Hk; cbn [dec_loop]; [lia|].
  destruct (Z.ltb_spec n 10); [cbn [length]; lia|].
  destruct k as [|k]; [lia|].
  assert (0 <= n / 10 < 10 ^ Z.of_nat k).
  { rewrite Nat2Z.inj_succ, Z.pow_succ_r in Hn by lia.
    split; [apply Z.div_pos; lia|apply Z.div_lt_upper_bound; lia]. }
  destruct k as [|k]; [change (10 ^ Z.of_nat 0) with 1 in *; Z.div_mod_to_equations; lia|].
  specialize (IH (n / 10) (S k) ((48 + n mod 10) :: tail) ltac:(lia) ltac:(lia)). cbn [length] in IH. lia.
Qed.

Lemma dec_length n : - 2 ^ 32 <= n <= 2 ^ 32 → zlen (dec n) <= 11.
Proof.
  intros Hn. change (2 ^ 32) with 4294967296 in Hn. unfold dec, zlen.
  pose proof (dec_loop_length (S (Z.to_nat (Z.log2 (Z.abs n)))) (Z.abs n) 10 []
    ltac:(change (10 ^ Z.of_nat 10) with 10000000000; lia) ltac:(lia)) as Hl.
  cbn [length] in Hl. destruct (n <? 0); cbn [length]; lia.
Qed.

Lemma dec_loop_all f n tail : 0 <= n → Forall isdigit tail → Forall isdigit (dec_loop f n tail).
Proof.
  revert n tail. induction f as [|f IH]; intros n tail Hn Ht; cbn [dec_loop]; [done|].
  pose proof (Z.mod_pos_bound n 10 ltac:(lia)).
  assert (Forall isdigit ((48 + n mod 10) :: tail)).
  { constructor; [|done]. unfold isdigit.
    by rewrite (proj2 (Z.leb_le _ _)), (proj2 (Z.leb_le _ _)) by lia. }
  destruct (n <? 10); [done|]. apply IH; [apply Z.div_pos; lia|done].
Qed.

Lemma dec_nonempty n : dec n ≠ [].
Proof.
  unfold dec. destruct (n <? 0); [done|].
  destruct (dec_loop_digits (S (Z.to_nat (Z.log2 (Z.abs n)))) (Z.abs n) [] ltac:(lia) ltac:(lia))
    as (d & s & -> & _). done.
Qed.

Lemma dec_digits n : 0 <= n → Forall isdigit (dec n).
Proof.
  intros Hn. unfold dec. rewrite (proj2 (Z.ltb_ge n 0)) by lia. apply dec_loop_all; [lia|constructor].
Qed.

Lemma dec_text n : Forall (λ c, 45 <= c < 58) (dec n).
Proof.
  unfold dec. assert (Forall (λ c, 45 <= c < 58) (dec_loop (S (Z.to_nat (Z.log2 (Z.abs n)))) (Z.abs n) [])).
  { eapply Forall_impl; [apply dec_loop_all; [lia|constructor]|]. intros c. unfold isdigit.
    intros Hc. apply andb_prop_elim in Hc as [H1 H2]. apply Is_true_true, Z.leb_le in H1, H2. lia. }
  destruct (n <? 0); [constructor; [lia|done]|done].
Qed.

Lemma snprintf_fits size s : zlen s < size → snprintf size s = s.
Proof. intros. unfold snprintf. apply take_ge. unfold zlen in *. lia. Qed.

(** ** Scanning past a class *)

Lemma skip_while_all (p : Z → bool) a b : Forall p a → skip_while p (a ++ b) = skip_while p b.
Proof. induction 1 as [|x a Hx _ IH]; [done|]. cbn. by rewrite (Is_true_true_1 _ Hx). Qed.

Lemma take_while_all (p : Z → bool) a b : Forall p a → take_while p (a ++ b) = a ++ take_while p b.
Proof. induction 1 as [|x a Hx _ IH]; [done|]. cbn. by rewrite (Is_true_true_1 _ Hx), IH. Qed.

(** The labels of a host name, joined by dots. *)
Fixpoint join (ls : list (list Z)) : list Z :=
  match ls with
  | [] => []
  | [l] => l
  | l :: ls => l ++ 46 :: join ls
  end.
