(* ===== verification/Awg.v ===== *)
(** * awg.h: the shared data types and the platform's entropy

    The parsed configuration, the obfuscation templates and the timing ranges,
    with the field names of the header. [Entropy] is the byte stream behind
    [awg_random_bytes] (awg_rand.c): a computation that draws bytes is given the
    position it starts from and returns the one it stops at. *)
From S2P Require Import Prelude.

Definition AWG_KEY_LEN : nat := 32.
Definition AWG_MAX_I : nat := 5.

(** ** Obfuscation templates *)

Inductive awg_obf_kind : Set :=
| AWG_OBF_BYTES | AWG_OBF_RAND | AWG_OBF_RANDCHARS | AWG_OBF_RANDDIGITS
| AWG_OBF_TIMESTAMP | AWG_OBF_DATA | AWG_OBF_DATASTRING | AWG_OBF_DATASIZE.

#[export] Instance awg_obf_kind_eq_dec : EqDecision awg_obf_kind.
Proof. solve_decision. Defined.

(** [data_len] is the length of [data]. *)
Record awg_obf := Obf { kind : awg_obf_kind; olen : Z; data : list Z }.

Record awg_obf_chain := Chain { items : list awg_obf; spec : list Z }.

#[export] Instance awg_obf_eq_dec : EqDecision awg_obf.
Proof. solve_decision. Defined.

(** ** Configuration *)

Record awg_range := Range { rmin : Z; rmax : Z }.

(** [dns] holds the first [dns_n] entries of the array; [c_i] is [i[AWG_MAX_I]]. *)
Record awg_config := Config {
  private_key : list Z; have_private_key : bool;
  address : Z; address_cidr : Z; dns : list Z;
  jc : Z; jmin : Z; jmax : Z;
  s1 : Z; s2 : Z; s3 : Z; s4 : Z;
  h1 : Z; h2 : Z; h3 : Z; h4 : Z;
  header_protection_key : list Z; have_header_protection : bool;
  rekey_after_time : awg_range; rekey_timeout : awg_range;
  reject_after_time : awg_range; keepalive_timeout : awg_range;
  max_handshake_attempts : awg_range; content_padding_addition : awg_range;
  c_i : list (option awg_obf_chain);
  peer_public_key : list Z; have_peer_public_key : bool;
  preshared_key : list Z; have_preshared_key : bool;
  endpoint_host : list Z; endpoint_port : Z;
  persistent_keepalive : awg_range
}.

#[export] Instance awg_config_eta : Eta awg_config := λ c, Config
  c.(private_key) c.(have_private_key) c.(address) c.(address_cidr) c.(dns)
  c.(jc) c.(jmin) c.(jmax) c.(s1) c.(s2) c.(s3) c.(s4) c.(h1) c.(h2) c.(h3) c.(h4)
  c.(header_protection_key) c.(have_header_protection)
  c.(rekey_after_time) c.(rekey_timeout) c.(reject_after_time) c.(keepalive_timeout)
  c.(max_handshake_attempts) c.(content_padding_addition) c.(c_i)
  c.(peer_public_key) c.(have_peer_public_key) c.(preshared_key) c.(have_preshared_key)
  c.(endpoint_host) c.(endpoint_port) c.(persistent_keepalive).

(** The structure zeroed by [memset]. *)
Definition config_zero : awg_config := Config
  (replicate AWG_KEY_LEN 0) false 0 0 [] 0 0 0 0 0 0 0 0 0 0 0
  (replicate AWG_KEY_LEN 0) false (Range 0 0) (Range 0 0) (Range 0 0) (Range 0 0)
  (Range 0 0) (Range 0 0) (replicate AWG_MAX_I None)
  (replicate AWG_KEY_LEN 0) false (replicate AWG_KEY_LEN 0) false [] 0 (Range 0 0).

(** ** Entropy *)

Class Entropy := rnd : nat → Z.

Section Entropy.
Context `{Entropy}.

(** [awg_random_bytes(dst, n)]: what it writes and the next position. *)
Definition awg_random_bytes (n pos : nat) : list Z * nat :=
  ((λ i, u8 (rnd i)) <$> seq pos n, (pos + n)%nat).

Lemma length_random n pos : length (awg_random_bytes n pos).1 = n.
Proof. cbn. len. Qed.

Lemma random_bytes n pos : is_bytes (awg_random_bytes n pos).1.
Proof. apply Forall_fmap, Forall_true. intros. cbn. auto with word. Qed.

(** [uint32_t v; awg_random_bytes(&v, sizeof(v))] on a little-endian machine. *)
Definition awg_random_u32 (pos : nat) : Z * nat :=
  let '(b, pos) := awg_random_bytes 4 pos in (le_val b, pos).

Lemma random_u32_bound pos : is_u 32 (awg_random_u32 pos).1.
Proof.
  cbn. pose proof (le_val_bound (awg_random_bytes 4 pos).1 (random_bytes _ _)) as Hb.
  unfold zlen in Hb. by rewrite length_random in Hb.
Qed.

End Entropy.
#[export] Hint Rewrite @length_random : len.
#[export] Hint Resolve random_bytes random_u32_bound : word.

(** ** Drawing from a range (awg_obf.c) *)

Section RangePick.
Context `{Entropy}.

Definition awg_range_pick (r : awg_range) (pos : nat) : Z * nat :=
  if r.(rmax) <=? r.(rmin) then (r.(rmin), pos)
  else
    let '(v, pos) := awg_random_u32 pos in
    (r.(rmin) + s32 (v mod u32 (r.(rmax) - r.(rmin) + 1)), pos).

Lemma range_pick_bounds r pos : r.(rmax) - r.(rmin) < 2 ^ 31 - 1 →
  r.(rmin) <= (awg_range_pick r pos).1 <= Z.max r.(rmin) r.(rmax).
Proof.
  intros Hr. unfold awg_range_pick. destruct (Z.leb_spec r.(rmax) r.(rmin)); [cbn; lia|].
  destruct (awg_random_u32 pos) as [v q]. cbn [fst].
  rewrite u32_small by (unfold is_u; lia).
  pose proof (Z.mod_pos_bound v (r.(rmax) - r.(rmin) + 1) ltac:(lia)).
  assert (∀ x, 0 <= x < 2 ^ 31 → s32 x = x) as Hs.
  { intros x Hx. unfold s32. rewrite u32_small by (unfold is_u; lia). cbn zeta.
    by rewrite (proj2 (Z.ltb_lt x _)) by lia. }
  rewrite Hs by lia. lia.
Qed.

End RangePick.
