(* ===== verification/Crypto.v ===== *)
(** * crypto/crypto.h and crypto/crypto.c

    The byte-order helpers the primitives are written with, the memory wipe and
    the constant-time comparison, with the lemmas that relate the helpers to the
    integer values of byte strings. *)
From S2P Require Import Prelude.

(** ** Byte order *)

Definition U8TO32_LITTLE (p : list Z) : Z :=
  p.[0] .| (p.[1] .<< 8) .| (p.[2] .<< 16) .| (p.[3] .<< 24).

Definition U8TO64_LITTLE (p : list Z) : Z :=
  p.[0] .| (p.[1] .<< 8) .| (p.[2] .<< 16) .| (p.[3] .<< 24) .|
  (p.[4] .<< 32) .| (p.[5] .<< 40) .| (p.[6] .<< 48) .| (p.[7] .<< 56).

Definition U16TO8_BIG (v : Z) : list Z := [u8 (v .>> 8); u8 v].

Definition U32TO8_LITTLE (v : Z) : list Z :=
  [u8 v; u8 (v .>> 8); u8 (v .>> 16); u8 (v .>> 24)].

Definition U32TO8_BIG (v : Z) : list Z :=
  [u8 (v .>> 24); u8 (v .>> 16); u8 (v .>> 8); u8 v].

Definition U64TO8_LITTLE (v : Z) : list Z :=
  [u8 v; u8 (v .>> 8); u8 (v .>> 16); u8 (v .>> 24);
   u8 (v .>> 32); u8 (v .>> 40); u8 (v .>> 48); u8 (v .>> 56)].

Definition U64TO8_BIG (v : Z) : list Z :=
  [u8 (v .>> 56); u8 (v .>> 48); u8 (v .>> 40); u8 (v .>> 32);
   u8 (v .>> 24); u8 (v .>> 16); u8 (v .>> 8); u8 v].

(** ** crypto.c *)

Definition crypto_zero (dest : list Z) : list Z := replicate (length dest) 0.

(** [diff |= (uint8_t)(x[i] ^ y[i])], over the first [size] bytes. *)
Definition crypto_diff (a b : list Z) (size : nat) : Z :=
  foldl (λ diff i, diff .| u8 (a.[i] .^ b.[i])) 0 (seq 0 size).

Definition crypto_equal (a b : list Z) (size : nat) : bool := crypto_diff a b size =? 0.

(** ** Lemmas *)

Lemma U8TO32_LITTLE_get p : U8TO32_LITTLE p = get_le32 p.
Proof. reflexivity. Qed.

Lemma U32TO8_LITTLE_le v : U32TO8_LITTLE v = le_bytes 4 v.
Proof. unfold U32TO8_LITTLE. simpl. by rewrite !Z.shiftr_shiftr by lia. Qed.

Lemma U64TO8_LITTLE_le v : U64TO8_LITTLE v = le_bytes 8 v.
Proof. unfold U64TO8_LITTLE. simpl. by rewrite !Z.shiftr_shiftr by lia. Qed.

Lemma U32TO8_BIG_be v : U32TO8_BIG v = be_bytes 4 v.
Proof. unfold U32TO8_BIG, be_bytes. simpl. by rewrite !Z.shiftr_shiftr by lia. Qed.

Lemma U64TO8_BIG_be v : U64TO8_BIG v = be_bytes 8 v.
Proof. unfold U64TO8_BIG, be_bytes. simpl. by rewrite !Z.shiftr_shiftr by lia. Qed.

Lemma U8TO64_LITTLE_val p :
  is_bytes p → (8 <= length p)%nat → U8TO64_LITTLE p = le_val (take 8 p).
Proof.
  intros Hp Hl. rewrite <- (take_drop 8 p) in Hp |- *.
  assert (length (take 8 p) = 8%nat) as H8 by len.
  revert Hp H8. generalize (take 8 p) (drop 8 p). intros q r Hp H8.
  explode q H8. unfold U8TO64_LITTLE, get. cbn.
  apply Forall_app in Hp as [Hq _]. rewrite !Forall_cons in Hq. unfold is_u in *.
  rewrite (lor_add_shift _ _ 8) by (unfold is_u; lia).
  rewrite (lor_add_shift _ _ 16) by (unfold is_u; lia).
  rewrite (lor_add_shift _ _ 24) by (unfold is_u; lia).
  rewrite (lor_add_shift _ _ 32) by (unfold is_u; lia).
  rewrite (lor_add_shift _ _ 40) by (unfold is_u; lia).
  rewrite (lor_add_shift _ _ 48) by (unfold is_u; lia).
  rewrite (lor_add_shift _ _ 56) by (unfold is_u; lia).
  rewrite take_0. cbn [le_val]. lia.
Qed.

Lemma foldl_lor_zero (f : nat → Z) (l : list nat) (d : Z) :
  foldl (λ diff i, diff .| f i) d l = 0 ↔ d = 0 ∧ Forall (λ i, f i = 0) l.
Proof.
  revert d; induction l as [|i l IH]; intros d; simpl.
  - split; [intros ->; split; done|intros [? _]; done].
  - rewrite IH, Z.lor_eq_0_iff, Forall_cons. tauto.
Qed.

Lemma u8_lxor_zero x y : is_byte x → is_byte y → u8 (x .^ y) = 0 ↔ x = y.
Proof.
  intros Hx Hy. rewrite u8_small by auto with word. rewrite Z.lxor_eq_0_iff. done.
Qed.

(** The comparison decides equality of the first [n] bytes. *)
Lemma crypto_equal_spec a b n :
  is_bytes a → is_bytes b → (n <= length a)%nat → (n <= length b)%nat →
  crypto_equal a b n = true ↔ take n a = take n b.
Proof.
  intros Ha Hb Hla Hlb. unfold crypto_equal, crypto_diff.
  rewrite Z.eqb_eq, foldl_lor_zero, Forall_forall. split.
  - intros [_ H]. apply list_eq_same_length with n; [len..|].
    intros i x y Hi Hx Hy. rewrite lookup_take_lt in Hx, Hy by lia.
    specialize (H i). rewrite u8_lxor_zero in H by auto with word.
    apply get_lookup in Hx, Hy. rewrite <- Hx, <- Hy. apply H, elem_of_seq. lia.
  - intros H. split; [done|]. intros i [_ Hi]%elem_of_seq.
    apply u8_lxor_zero; [auto with word..|].
    rewrite <- (get_take a n), <- (get_take b n) by lia. by rewrite H.
Qed.

Lemma crypto_equal_refl a n : crypto_equal a a n = true.
Proof.
  unfold crypto_equal, crypto_diff. apply Z.eqb_eq, foldl_lor_zero. split; [done|].
  apply Forall_forall. intros i _. by rewrite Z.lxor_nilpotent.
Qed.

(** ** Properties *)

(** The constant-time comparison is equality: it says true exactly when the two
    buffers agree on their first [n] bytes. *)
Theorem crypto_equal_correct a b n :
  is_bytes a → is_bytes b → (n <= length a)%nat → (n <= length b)%nat →
  crypto_equal a b n = true ↔ take n a = take n b.
Proof. apply crypto_equal_spec. Qed.

Lemma crypto_equal_correct_witness :
  crypto_equal [1; 2; 3] [1; 2; 4] 2 = true ↔ take 2 [1; 2; 3] = take 2 [1; 2; 4].
Proof.
  apply (crypto_equal_correct [1; 2; 3] [1; 2; 4] 2); [word_list|word_list|cbn; lia|cbn; lia].
Defined.
