(* ===== verification/ChaCha20.v ===== *)
(** * crypto/chacha20.c: the ChaCha20 stream cipher and HChaCha20

    A context is the array of sixteen 32-bit words. The block-wise loop of
    [chacha20] is shown to XOR the input with the key stream its blocks form, so
    that applying it twice from the same context is the identity. *)
From S2P Require Import Prelude Crypto.

Definition CHACHA20_BLOCK_SIZE : Z := 64.
Definition CHACHA20_KEY_SIZE : Z := 32.
Definition CHACHA20_CONSTANT_1 : Z := 0x61707865.
Definition CHACHA20_CONSTANT_2 : Z := 0x3320646e.
Definition CHACHA20_CONSTANT_3 : Z := 0x79622d32.
Definition CHACHA20_CONSTANT_4 : Z := 0x6b206574.

Definition ROTL32 (v n : Z) : Z := u32 (v .<< n) .| (v .>> (32 - n)).
Definition PLUS (v w : Z) : Z := u32 (v + w).
Definition PLUSONE (v : Z) : Z := PLUS v 1.

(** ** The block function *)

Definition QUARTERROUND (a b c d : Z) : Z * Z * Z * Z :=
  let a := PLUS a b in let d := d .^ a in let d := ROTL32 d 16 in
  let c := PLUS c d in let b := b .^ c in let b := ROTL32 b 12 in
  let a := PLUS a b in let d := d .^ a in let d := ROTL32 d 8 in
  let c := PLUS c d in let b := b .^ c in let b := ROTL32 b 7 in
  (a, b, c, d).

(** The macro applied to four elements of the block. *)
Definition quarter (i j k l : nat) (block : list Z) : list Z :=
  let '(a, b, c, d) := QUARTERROUND block.[i] block.[j] block.[k] block.[l] in
  <[i := a]> (<[j := b]> (<[k := c]> (<[l := d]> block))).

Definition INNER_BLOCK (block : list Z) : list Z :=
  let block := quarter 0 4 8 12 block in
  let block := quarter 1 5 9 13 block in
  let block := quarter 2 6 10 14 block in
  let block := quarter 3 7 11 15 block in
  let block := quarter 0 5 10 15 block in
  let block := quarter 1 6 11 12 block in
  let block := quarter 2 7 8 13 block in
  quarter 3 4 9 14 block.

Definition TWENTY_ROUNDS (x : list Z) : list Z := Nat.iter 10 INNER_BLOCK x.

Definition chacha20_block (ctx : list Z) : list Z :=
  let working_state := TWENTY_ROUNDS ctx in
  concat ((λ i, U32TO8_LITTLE (PLUS working_state.[i] ctx.[i])) <$> seq 0 16).

(** [ctx->state[12] = PLUSONE(ctx->state[12])]: the block counter. *)
Definition bump (ctx : list Z) : list Z := <[12%nat := PLUSONE ctx.[12]]> ctx.

(** ** The stream *)

(** One turn of the loop per 64 bytes; [fuel] bounds the turns, and
    [chacha20_loop_keystream] shows that the length of the input is enough. *)
Fixpoint chacha20_loop (fuel : nat) (ctx input : list Z) : list Z * list Z :=
  match fuel with
  | O => (ctx, [])
  | S fuel =>
    let output := chacha20_block ctx in
    let ctx := bump ctx in
    if zlen input <=? 64 then (ctx, xor_bytes input output)
    else
      let '(ctx, rest) := chacha20_loop fuel ctx (drop 64 input) in
      (ctx, xor_bytes (take 64 input) output ++ rest)
  end.

Definition chacha20 (ctx input : list Z) : list Z * list Z :=
  if zlen input =? 0 then (ctx, []) else chacha20_loop (length input) ctx input.

Definition chacha20_init (key : list Z) (nonce : Z) : list Z :=
  [CHACHA20_CONSTANT_1; CHACHA20_CONSTANT_2; CHACHA20_CONSTANT_3; CHACHA20_CONSTANT_4;
   U8TO32_LITTLE (drop 0 key); U8TO32_LITTLE (drop 4 key);
   U8TO32_LITTLE (drop 8 key); U8TO32_LITTLE (drop 12 key);
   U8TO32_LITTLE (drop 16 key); U8TO32_LITTLE (drop 20 key);
   U8TO32_LITTLE (drop 24 key); U8TO32_LITTLE (drop 28 key);
   0; 0; nonce .& 0xFFFFFFFF; u32 (nonce .>> 32)].

Definition hchacha20 (nonce key : list Z) : list Z :=
  let state :=
    [CHACHA20_CONSTANT_1; CHACHA20_CONSTANT_2; CHACHA20_CONSTANT_3; CHACHA20_CONSTANT_4;
     U8TO32_LITTLE (drop 0 key); U8TO32_LITTLE (drop 4 key);
     U8TO32_LITTLE (drop 8 key); U8TO32_LITTLE (drop 12 key);
     U8TO32_LITTLE (drop 16 key); U8TO32_LITTLE (drop 20 key);
     U8TO32_LITTLE (drop 24 key); U8TO32_LITTLE (drop 28 key);
     U8TO32_LITTLE (drop 0 nonce); U8TO32_LITTLE (drop 4 nonce);
     U8TO32_LITTLE (drop 8 nonce); U8TO32_LITTLE (drop 12 nonce)] in
  let state := TWENTY_ROUNDS state in
  U32TO8_LITTLE state.[0] ++ U32TO8_LITTLE state.[1] ++
  U32TO8_LITTLE state.[2] ++ U32TO8_LITTLE state.[3] ++
  U32TO8_LITTLE state.[12] ++ U32TO8_LITTLE state.[13] ++
  U32TO8_LITTLE state.[14] ++ U32TO8_LITTLE state.[15].

(** ** Specification: the key stream *)

(** The first [n] blocks of key stream from a context. *)
Fixpoint keystream (n : nat) (ctx : list Z) : list Z :=
  match n with
  | O => []
  | S n => chacha20_block ctx ++ keystream n (bump ctx)
  end.

(** The blocks needed for [len] bytes. *)
Definition blocks_for (len : nat) : nat := (len + 63) / 64.

(** ** Lemmas *)

Lemma length_U32TO8_LITTLE v : length (U32TO8_LITTLE v) = 4%nat.
Proof. done. Qed.
Lemma U32TO8_LITTLE_bytes v : is_bytes (U32TO8_LITTLE v).
Proof. rewrite U32TO8_LITTLE_le. auto with word. Qed.

Lemma length_chacha20_block ctx : length (chacha20_block ctx) = 64%nat.
Proof. reflexivity. Qed.

Lemma chacha20_block_bytes ctx : is_bytes (chacha20_block ctx).
Proof.
  unfold chacha20_block. apply Forall_concat, Forall_fmap, Forall_true.
  intros i. apply U32TO8_LITTLE_bytes.
Qed.

Lemma length_keystream n ctx : length (keystream n ctx) = (64 * n)%nat.
Proof.
  revert ctx; induction n as [|n IH]; intros ctx; [done|].
  cbn [keystream]. rewrite length_app, IH, length_chacha20_block. lia.
Qed.

Lemma keystream_bytes n ctx : is_bytes (keystream n ctx).
Proof.
  revert ctx; induction n; intros ctx; cbn [keystream]; [done|].
  apply is_bytes_app; [apply chacha20_block_bytes|auto].
Qed.

#[export] Hint Rewrite length_chacha20_block length_keystream : len.
#[export] Hint Resolve chacha20_block_bytes keystream_bytes U32TO8_LITTLE_bytes : word.

Lemma blocks_for_pos n : (0 < n)%nat → (0 < blocks_for n)%nat.
Proof. intros. unfold blocks_for. apply Nat.div_str_pos. lia. Qed.

Lemma blocks_for_enough n : (n <= 64 * blocks_for n)%nat.
Proof. unfold blocks_for. pose proof (Nat.div_mod_eq (n + 63) 64). 
  pose proof (Nat.mod_upper_bound (n + 63) 64). lia. Qed.

Lemma blocks_for_step n : (64 < n)%nat → blocks_for n = S (blocks_for (n - 64)).
Proof.
  intros. unfold blocks_for. replace (n + 63)%nat with (n - 64 + 63 + 1 * 64)%nat by lia.
  rewrite Nat.div_add by lia. lia.
Qed.

Lemma blocks_for_one n : (0 < n)%nat → (n <= 64)%nat → blocks_for n = 1%nat.
Proof. intros. unfold blocks_for. symmetry. apply Nat.div_unique with (n - 1)%nat; lia. Qed.

Lemma chacha20_loop_keystream fuel ctx input :
  (0 < length input)%nat → (blocks_for (length input) <= fuel)%nat →
  chacha20_loop fuel ctx input =
    (Nat.iter (blocks_for (length input)) bump ctx,
     xor_bytes input (keystream (blocks_for (length input)) ctx)).
Proof.
  revert ctx input; induction fuel as [|fuel IH]; intros ctx input Hpos Hf.
  { pose proof (blocks_for_pos _ Hpos). lia. }
  cbn [chacha20_loop]. unfold zlen. case_match eqn:E.
  - rewrite (blocks_for_one (length input)) by lia. cbn [keystream Nat.iter].
    by rewrite app_nil_r.
  - assert (64 < length input)%nat as Hlen by lia.
    rewrite (blocks_for_step (length input)) in * by lia.
    assert (length (drop 64 input) = length input - 64)%nat as Hd by len.
    rewrite IH by (rewrite ?Hd; lia). rewrite Hd. f_equal.
    + by rewrite <- Nat.iter_succ_r.
    + cbn [keystream]. rewrite <- xor_bytes_app by len. by rewrite take_drop.
Qed.

(** The fuel [length input] always suffices, and the result is the key stream. *)
Lemma chacha20_keystream ctx input :
  chacha20 ctx input =
    (Nat.iter (blocks_for (length input)) bump ctx,
     xor_bytes input (keystream (blocks_for (length input)) ctx)).
Proof.
  unfold chacha20, zlen. case_match eqn:E.
  - destruct input; [done|simpl in *; lia].
  - apply chacha20_loop_keystream; [lia|].
    unfold blocks_for. pose proof (Nat.div_mod_eq (length input + 63) 64).
    pose proof (Nat.mod_upper_bound (length input + 63) 64). lia.
Qed.

Lemma length_chacha20 ctx input : length (chacha20 ctx input).2 = length input.
Proof.
  rewrite chacha20_keystream. simpl. pose proof (blocks_for_enough (length input)). len.
Qed.

Lemma chacha20_bytes ctx input : is_bytes input → is_bytes (chacha20 ctx input).2.
Proof. intros. rewrite chacha20_keystream. simpl. auto with word. Qed.

(** Decryption is encryption. *)
Lemma chacha20_twice ctx input : (chacha20 ctx (chacha20 ctx input).2).2 = input.
Proof.
  rewrite (chacha20_keystream ctx (_.2)), length_chacha20, (chacha20_keystream ctx input).
  simpl. apply xor_bytes_involutive. rewrite length_keystream. apply blocks_for_enough.
Qed.

Lemma chacha20_length_ctx ctx input input' :
  length input = length input' → (chacha20 ctx input).1 = (chacha20 ctx input').1.
Proof. intros H. by rewrite !chacha20_keystream, H. Qed.

#[export] Hint Rewrite length_chacha20 : len.
#[export] Hint Resolve chacha20_bytes : word.

Lemma length_chacha20_init key nonce : length (chacha20_init key nonce) = 16%nat.
Proof. done. Qed.

Lemma length_hchacha20 nonce key : length (hchacha20 nonce key) = 32%nat.
Proof. done. Qed.

Lemma hchacha20_bytes nonce key : is_bytes (hchacha20 nonce key).
Proof. unfold hchacha20. repeat apply is_bytes_app; apply U32TO8_LITTLE_bytes. Qed.

#[export] Hint Rewrite length_chacha20_init length_hchacha20 : len.
#[export] Hint Resolve hchacha20_bytes : word.

(** ** Properties *)

(** The cipher is the key stream of its blocks, the counter word advanced once
    per block, for an input of any length (the loop ends and has covered it), and
    applying it twice with the same context is the identity. *)
Theorem chacha20_stream ctx input :
  chacha20 ctx input =
    (Nat.iter (blocks_for (length input)) bump ctx,
     xor_bytes input (keystream (blocks_for (length input)) ctx)) ∧
  (chacha20 ctx (chacha20 ctx input).2).2 = input.
Proof. split; [apply chacha20_keystream|apply chacha20_twice]. Qed.

(** The state of RFC 7539 section 2.3.2: key 00..1f, counter 1. *)
Definition rfc7539_state : list Z :=
  <[15%nat := 0]> (<[14%nat := 0x4a000000]> (<[13%nat := 0x09000000]> (<[12%nat := 1]>
    (chacha20_init (Z.of_nat <$> seq 0 32) 0)))).

(** The block function gives the key stream block of RFC 7539 section 2.3.2. *)
Theorem chacha20_block_rfc7539 :
  chacha20_block rfc7539_state =
  [0x10; 0xf1; 0xe7; 0xe4; 0xd1; 0x3b; 0x59; 0x15; 0x50; 0x0f; 0xdd; 0x1f; 0xa3; 0x20; 0x71; 0xc4;
   0xc7; 0xd1; 0xf4; 0xc7; 0x33; 0xc0; 0x68; 0x03; 0x04; 0x22; 0xaa; 0x9a; 0xc3; 0xd4; 0x6c; 0x4e;
   0xd2; 0x82; 0x64; 0x46; 0x07; 0x9f; 0xaa; 0x09; 0x14; 0xc2; 0xd7; 0x05; 0xd9; 0x8b; 0x02; 0xa2;
   0xb5; 0x12; 0x9c; 0xd1; 0xde; 0x16; 0x4e; 0xb9; 0xcb; 0xd0; 0x83; 0xe8; 0xa2; 0x50; 0x3c; 0x4e].
Proof. vm_compute. reflexivity. Qed.
