(* ===== verification/Poly1305.v ===== *)
(** * crypto/poly1305-donna-32.h and poly1305-donna.c: the one-time authenticator

    The 26-bit limb implementation, with [unsigned long] at its 64 bits on the
    two targets (LP64), and its refinement of the mathematical definition of
    RFC 7539 section 2.5: feeding the message in any number of pieces produces
    [((blocks of the message evaluated at r) mod 2^130-5 + s) mod 2^128]. *)
From S2P Require Import Prelude Crypto.

Definition poly1305_block_size : nat := 16.

(** A five-limb number, [h[0] + 2^26 h[1] + ... + 2^104 h[4]]. *)
Record limb5 := L5 { l0 : Z; l1 : Z; l2 : Z; l3 : Z; l4 : Z }.

Record poly1305_state := {
  st_r : limb5;
  st_h : limb5;
  st_pad : list Z;          (* pad[4] *)
  st_leftover : nat;
  st_buffer : list Z;       (* buffer[16] *)
  st_final : bool
}.

Definition U8TO32 (p : list Z) : Z :=
  (p.[0] .& 0xff) .| ((p.[1] .& 0xff) .<< 8) .| ((p.[2] .& 0xff) .<< 16) .|
  ((p.[3] .& 0xff) .<< 24).

Definition U32TO8 (v : Z) : list Z :=
  [v .& 0xff; (v .>> 8) .& 0xff; (v .>> 16) .& 0xff; (v .>> 24) .& 0xff].

Definition poly1305_init (key : list Z) : poly1305_state :=
  {| st_r := L5 (U8TO32 (drop 0 key) .& 0x3ffffff)
                ((U8TO32 (drop 3 key) .>> 2) .& 0x3ffff03)
                ((U8TO32 (drop 6 key) .>> 4) .& 0x3ffc0ff)
                ((U8TO32 (drop 9 key) .>> 6) .& 0x3f03fff)
                ((U8TO32 (drop 12 key) .>> 8) .& 0x00fffff);
     st_h := L5 0 0 0 0 0;
     st_pad := [U8TO32 (drop 16 key); U8TO32 (drop 20 key);
                U8TO32 (drop 24 key); U8TO32 (drop 28 key)];
     st_leftover := 0;
     st_buffer := replicate 16 0;
     st_final := false |}.

(** The carry chain of one turn: [(partial) h %= p]. *)
Definition poly1305_carry (d0 d1 d2 d3 d4 : Z) : limb5 :=
  let c := d0 .>> 26 in let h0 := d0 .& 0x3ffffff in
  let d1 := u64 (d1 + c) in let c := d1 .>> 26 in let h1 := d1 .& 0x3ffffff in
  let d2 := u64 (d2 + c) in let c := d2 .>> 26 in let h2 := d2 .& 0x3ffffff in
  let d3 := u64 (d3 + c) in let c := d3 .>> 26 in let h3 := d3 .& 0x3ffffff in
  let d4 := u64 (d4 + c) in let c := d4 .>> 26 in let h4 := d4 .& 0x3ffffff in
  let h0 := u64 (h0 + u64 (c * 5)) in
  let c := h0 .>> 26 in let h0 := h0 .& 0x3ffffff in
  let h1 := u64 (h1 + c) in
  L5 h0 h1 h2 h3 h4.

(** One turn of the loop of [poly1305_blocks]: [h = (h + m) * r], partially
    reduced. *)
Definition poly1305_block (r : limb5) (hibit : Z) (h : limb5) (m : list Z) : limb5 :=
  let '(L5 r0 r1 r2 r3 r4) := r in
  let '(L5 h0 h1 h2 h3 h4) := h in
  let s1 := u64 (r1 * 5) in
  let s2 := u64 (r2 * 5) in
  let s3 := u64 (r3 * 5) in
  let s4 := u64 (r4 * 5) in
  (* h += m[i] *)
  let h0 := u64 (h0 + (U8TO32 (drop 0 m) .& 0x3ffffff)) in
  let h1 := u64 (h1 + ((U8TO32 (drop 3 m) .>> 2) .& 0x3ffffff)) in
  let h2 := u64 (h2 + ((U8TO32 (drop 6 m) .>> 4) .& 0x3ffffff)) in
  let h3 := u64 (h3 + ((U8TO32 (drop 9 m) .>> 6) .& 0x3ffffff)) in
  let h4 := u64 (h4 + ((U8TO32 (drop 12 m) .>> 8) .| hibit)) in
  (* h *= r *)
  let d0 := u64 (h0 * r0 + h1 * s4 + h2 * s3 + h3 * s2 + h4 * s1) in
  let d1 := u64 (h0 * r1 + h1 * r0 + h2 * s4 + h3 * s3 + h4 * s2) in
  let d2 := u64 (h0 * r2 + h1 * r1 + h2 * r0 + h3 * s4 + h4 * s3) in
  let d3 := u64 (h0 * r3 + h1 * r2 + h2 * r1 + h3 * r0 + h4 * s4) in
  let d4 := u64 (h0 * r4 + h1 * r3 + h2 * r2 + h3 * r1 + h4 * r0) in
  poly1305_carry d0 d1 d2 d3 d4.

(** [while (bytes >= poly1305_block_size)]: [m] holds the [bytes] bytes. *)
Fixpoint poly1305_blocks_loop (fuel : nat) (r : limb5) (hibit : Z) (h : limb5)
    (m : list Z) : limb5 :=
  match fuel with
  | O => h
  | S fuel =>
    if (poly1305_block_size <=? length m)%nat
    then poly1305_blocks_loop fuel r hibit (poly1305_block r hibit h m)
           (drop poly1305_block_size m)
    else h
  end.

Definition poly1305_blocks (st : poly1305_state) (m : list Z) : poly1305_state :=
  let hibit := if st.(st_final) then 0 else 1 .<< 24 in
  {| st_r := st.(st_r);
     st_h := poly1305_blocks_loop (length m) st.(st_r) hibit st.(st_h) m;
     st_pad := st.(st_pad); st_leftover := st.(st_leftover);
     st_buffer := st.(st_buffer); st_final := st.(st_final) |}.

Definition set_buffer (st : poly1305_state) (leftover : nat) (buffer : list Z) :=
  {| st_r := st.(st_r); st_h := st.(st_h); st_pad := st.(st_pad);
     st_leftover := leftover; st_buffer := buffer; st_final := st.(st_final) |}.

(** The second half of [poly1305_update]: full blocks straight from the input,
    then the remainder into the buffer. *)
Definition poly1305_update_rest (st : poly1305_state) (m : list Z) : poly1305_state :=
  let bytes := length m in
  let '(st, m) :=
    if (poly1305_block_size <=? bytes)%nat then
      let want := (bytes - bytes mod poly1305_block_size)%nat in
      (poly1305_blocks st (take want m), drop want m)
    else (st, m) in
  if (0 <? length m)%nat
  then set_buffer st (st.(st_leftover) + length m) (blit st.(st_leftover) m st.(st_buffer))
  else st.

Definition poly1305_update (st : poly1305_state) (m : list Z) : poly1305_state :=
  if (0 <? st.(st_leftover))%nat then
    let want := Nat.min (poly1305_block_size - st.(st_leftover)) (length m) in
    let buffer := blit st.(st_leftover) (take want m) st.(st_buffer) in
    let m := drop want m in
    let leftover := (st.(st_leftover) + want)%nat in
    let st := set_buffer st leftover buffer in
    if (leftover <? poly1305_block_size)%nat then st
    else poly1305_update_rest (set_buffer (poly1305_blocks st buffer) 0 buffer) m
  else poly1305_update_rest st m.

(** [poly1305_finish], first part: the remaining partial block. *)
Definition poly1305_last (st : poly1305_state) : poly1305_state :=
  if (0 <? st.(st_leftover))%nat then
    let buffer := take (st.(st_leftover)) st.(st_buffer) ++ [1] ++
                  replicate (poly1305_block_size - st.(st_leftover) - 1) 0 in
    poly1305_blocks
      {| st_r := st.(st_r); st_h := st.(st_h); st_pad := st.(st_pad);
         st_leftover := st.(st_leftover); st_buffer := buffer; st_final := true |} buffer
  else st.

(** [poly1305_finish]: fully carry h. *)
Definition poly1305_full_carry (h : limb5) : limb5 :=
  let '(L5 h0 h1 h2 h3 h4) := h in
  let c := h1 .>> 26 in let h1 := h1 .& 0x3ffffff in
  let h2 := u64 (h2 + c) in let c := h2 .>> 26 in let h2 := h2 .& 0x3ffffff in
  let h3 := u64 (h3 + c) in let c := h3 .>> 26 in let h3 := h3 .& 0x3ffffff in
  let h4 := u64 (h4 + c) in let c := h4 .>> 26 in let h4 := h4 .& 0x3ffffff in
  let h0 := u64 (h0 + u64 (c * 5)) in let c := h0 .>> 26 in let h0 := h0 .& 0x3ffffff in
  let h1 := u64 (h1 + c) in
  L5 h0 h1 h2 h3 h4.

(** [poly1305_finish]: compute h + -p, and select h if h < p, or h + -p if h >= p. *)
Definition poly1305_select (h : limb5) : limb5 :=
  let '(L5 h0 h1 h2 h3 h4) := h in
  let g0 := u64 (h0 + 5) in let c := g0 .>> 26 in let g0 := g0 .& 0x3ffffff in
  let g1 := u64 (h1 + c) in let c := g1 .>> 26 in let g1 := g1 .& 0x3ffffff in
  let g2 := u64 (h2 + c) in let c := g2 .>> 26 in let g2 := g2 .& 0x3ffffff in
  let g3 := u64 (h3 + c) in let c := g3 .>> 26 in let g3 := g3 .& 0x3ffffff in
  let g4 := u64 (u64 (h4 + c) - (1 .<< 26)) in
  let mask := u64 ((g4 .>> (8 * 8 - 1)) - 1) in
  let g0 := g0 .& mask in
  let g1 := g1 .& mask in
  let g2 := g2 .& mask in
  let g3 := g3 .& mask in
  let g4 := g4 .& mask in
  let mask := u64 (Z.lnot mask) in
  let h0 := (h0 .& mask) .| g0 in
  let h1 := (h1 .& mask) .| g1 in
  let h2 := (h2 .& mask) .| g2 in
  let h3 := (h3 .& mask) .| g3 in
  let h4 := (h4 .& mask) .| g4 in
  L5 h0 h1 h2 h3 h4.

(** [poly1305_finish]: h = h % (2^128), then mac = (h + pad) % (2^128). *)
Definition poly1305_mac (h : limb5) (pad : list Z) : list Z :=
  let '(L5 h0 h1 h2 h3 h4) := h in
  let h0 := (h0 .| u64 (h1 .<< 26)) .& 0xffffffff in
  let h1 := ((h1 .>> 6) .| u64 (h2 .<< 20)) .& 0xffffffff in
  let h2 := ((h2 .>> 12) .| u64 (h3 .<< 14)) .& 0xffffffff in
  let h3 := ((h3 .>> 18) .| u64 (h4 .<< 8)) .& 0xffffffff in
  let f := u64 (h0 + pad.[0]) in let h0 := f in
  let f := u64 (h1 + pad.[1] + (f .>> 32)) in let h1 := f in
  let f := u64 (h2 + pad.[2] + (f .>> 32)) in let h2 := f in
  let f := u64 (h3 + pad.[3] + (f .>> 32)) in let h3 := f in
  U32TO8 h0 ++ U32TO8 h1 ++ U32TO8 h2 ++ U32TO8 h3.

Definition poly1305_finish (st : poly1305_state) : list Z :=
  let st := poly1305_last st in
  poly1305_mac (poly1305_select (poly1305_full_carry st.(st_h))) st.(st_pad).

(** ** Specification: RFC 7539 section 2.5 *)

Definition p1305 : Z := 2 ^ 130 - 5.
Definition clamp_mask : Z := 0x0ffffffc0ffffffc0ffffffc0fffffff.

(** The accumulator over the 16-byte blocks of a message, each with a one bit
    appended; the last block may be short. *)
Fixpoint poly_acc (fuel : nat) (r acc : Z) (m : list Z) : Z :=
  match fuel with
  | O => acc
  | S fuel =>
    match m with
    | [] => acc
    | _ =>
      let block := take 16 m in
      poly_acc fuel r ((acc + le_val block + 2 ^ (8 * zlen block)) * r mod p1305) (drop 16 m)
    end
  end.

Definition poly1305_spec (key m : list Z) : list Z :=
  let r := le_val (take 16 key) .& clamp_mask in
  let s := le_val (drop 16 key) in
  le_bytes 16 (poly_acc (length m) r 0 m + s).

(** ** The limbs and their value *)

Definition eval5 (x : limb5) : Z :=
  x.(l0) + 2 ^ 26 * x.(l1) + 2 ^ 52 * x.(l2) + 2 ^ 78 * x.(l3) + 2 ^ 104 * x.(l4).

(** The bounds the block loop keeps: [h1] alone may pass 26 bits, by a carry. *)
Definition good_h (h : limb5) : Prop :=
  0 <= h.(l0) < 2 ^ 26 ∧ 0 <= h.(l1) < 2 ^ 26 + 2 ^ 11 ∧ 0 <= h.(l2) < 2 ^ 26 ∧
  0 <= h.(l3) < 2 ^ 26 ∧ 0 <= h.(l4) < 2 ^ 26.

Definition good_r (r : limb5) : Prop :=
  0 <= r.(l0) < 2 ^ 26 ∧ 0 <= r.(l1) < 2 ^ 26 ∧ 0 <= r.(l2) < 2 ^ 26 ∧
  0 <= r.(l3) < 2 ^ 26 ∧ 0 <= r.(l4) < 2 ^ 26.

Lemma U8TO32_get p : is_bytes p → U8TO32 p = get_le32 p.
Proof.
  intros Hp. unfold U8TO32, get_le32.
  pose proof (λ i, u8_small _ (is_u_get 8 p i ltac:(lia) Hp)) as Hb. unfold u8 in Hb.
  by rewrite !Hb.
Qed.

Lemma U32TO8_le v : U32TO8 v = le_bytes 4 v.
Proof. apply U32TO8_LITTLE_le. Qed.

Lemma U8TO32_slice l k : is_bytes l → (k + 4 <= length l)%nat →
  U8TO32 (drop k l) = (le_val l .>> (8 * Z.of_nat k)) .& Z.ones 32.
Proof. intros. rewrite U8TO32_get by auto with word. by apply get_le32_slice. Qed.

(** A masked limb of a 4-byte load is a masked slice of the whole value. *)
Lemma limb_slice l k s c : is_bytes l → (k + 4 <= length l)%nat → 0 <= s <= 32 →
  Z.ones (32 - s) .& c = c →
  (U8TO32 (drop k l) .>> s) .& c = (le_val l .>> (8 * Z.of_nat k + s)) .& c.
Proof.
  intros Hl Hk Hs Hc. rewrite U8TO32_slice by done.
  rewrite Z.shiftr_land, Z.shiftr_shiftr, <- Z.land_assoc by lia. f_equal.
  rewrite <- Hc at 2. f_equal. rewrite Z.ones_equiv, <- Z.sub_1_r.
  rewrite Z.shiftr_div_pow2 by lia.
  rewrite (Z.ones_equiv (32 - s)), <- Z.sub_1_r.
  replace (2 ^ 32) with (2 ^ (32 - s) * 2 ^ s) by (rewrite <- Z.pow_add_r by lia; f_equal; lia).
  replace (2 ^ (32 - s) * 2 ^ s - 1) with ((2 ^ (32 - s) - 1) * 2 ^ s + (2 ^ s - 1)) by lia.
  rewrite Z.div_add_l, Z.div_small; [lia| |apply Z.pow_nonzero; lia].
  pose proof (Z.pow_pos_nonneg 2 s); lia.
Qed.

Lemma limb_slice0 l k c : is_bytes l → (k + 4 <= length l)%nat → Z.ones 32 .& c = c →
  U8TO32 (drop k l) .& c = (le_val l .>> (8 * Z.of_nat k)) .& c.
Proof.
  intros Hl Hk Hc. pose proof (limb_slice l k 0 c Hl Hk ltac:(lia) Hc) as H.
  by rewrite Z.shiftr_0_r, Z.add_0_r in H.
Qed.

(** The five limbs of a 16-byte block. *)
Definition msg_limbs (hibit : Z) (m : list Z) : limb5 :=
  L5 (U8TO32 (drop 0 m) .& 0x3ffffff) ((U8TO32 (drop 3 m) .>> 2) .& 0x3ffffff)
     ((U8TO32 (drop 6 m) .>> 4) .& 0x3ffffff) ((U8TO32 (drop 9 m) .>> 6) .& 0x3ffffff)
     ((U8TO32 (drop 12 m) .>> 8) .| hibit).

(** [v]'s slices of 26 bits. *)
Definition slices (v : Z) : limb5 :=
  L5 (v .& Z.ones 26) ((v .>> 26) .& Z.ones 26) ((v .>> 52) .& Z.ones 26)
     ((v .>> 78) .& Z.ones 26) (v .>> 104).

Lemma eval5_slices v : eval5 (slices v) = v.
Proof.
  unfold eval5, slices; cbn [l0 l1 l2 l3 l4].
  pose proof (slice_recompose v 26 0). pose proof (slice_recompose v 26 26).
  pose proof (slice_recompose v 26 52). pose proof (slice_recompose v 26 78).
  rewrite Z.shiftr_0_r in *.
  change (0 + 26) with 26 in *. change (26 + 26) with 52 in *.
  change (52 + 26) with 78 in *. change (78 + 26) with 104 in *. lia.
Qed.

Lemma ones26_bound x : 0 <= x .& Z.ones 26 < 2 ^ 26.
Proof. rewrite Z.land_ones by lia. apply Z.mod_pos_bound. lia. Qed.

Lemma msg_limbs_spec hibit m : is_bytes m → length m = 16%nat →
  hibit = 0 ∨ hibit = 2 ^ 24 →
  eval5 (msg_limbs hibit m) = le_val m + hibit * 2 ^ 104 ∧
  good_r (msg_limbs 0 m) ∧ 0 <= l4 (msg_limbs hibit m) < 2 ^ 25.
Proof.
  intros Hm Hl Hhi. unfold msg_limbs.
  rewrite (limb_slice0 m 0), (limb_slice m 3 2), (limb_slice m 6 4), (limb_slice m 9 6)
    by (done || lia).
  rewrite U8TO32_slice by (done || lia).
  pose proof (le_val_bound m Hm) as Hb. unfold zlen in Hb. rewrite Hl in Hb.
  change (8 * Z.of_nat 16) with 128 in Hb.
  assert (((le_val m .>> (8 * Z.of_nat 12)) .& Z.ones 32) .>> 8 = le_val m .>> 104) as ->.
  { rewrite Z.shiftr_land, Z.shiftr_shiftr by lia. change (Z.ones 32 .>> 8) with (Z.ones 24).
    change (8 * Z.of_nat 12 + 8) with 104. rewrite Z.land_ones by lia. apply Z.mod_small.
    rewrite Z.shiftr_div_pow2 by lia. Z.div_mod_to_equations. lia. }
  assert (0 <= le_val m .>> 104 < 2 ^ 24).
  { rewrite Z.shiftr_div_pow2 by lia. Z.div_mod_to_equations. lia. }
  assert ((le_val m .>> 104) .| hibit = (le_val m .>> 104) + hibit) as ->.
  { destruct Hhi as [->| ->]; [by rewrite Z.lor_0_r, Z.add_0_r|].
    change (2 ^ 24) with (1 .<< 24). rewrite (lor_add_shift _ 1 24) by (unfold is_u; lia).
    rewrite Z.shiftl_mul_pow2 by lia. lia. }
  pose proof (eval5_slices (le_val m)) as He. unfold slices, eval5 in He.
  unfold eval5, good_r. cbn [l0 l1 l2 l3 l4] in *. rewrite Z.lor_0_r.
  change 0x3ffffff with (Z.ones 26). change (8 * Z.of_nat 0) with 0. rewrite Z.shiftr_0_r.
  change (8 * Z.of_nat 3 + 2) with 26. change (8 * Z.of_nat 6 + 4) with 52.
  change (8 * Z.of_nat 9 + 6) with 78.
  repeat split; try apply ones26_bound; lia.
Qed.

(** ** One block: the residue and the bounds *)

Lemma ones26_mod x : x .& 0x3ffffff = x mod 2 ^ 26.
Proof. change 0x3ffffff with (Z.ones 26). by rewrite Z.land_ones by lia. Qed.

(** The carry chain changes the value by a multiple of [2^130 - 5]. *)
Lemma poly1305_carry_spec d0 d1 d2 d3 d4 :
  0 <= d0 < 2 ^ 60 → 0 <= d1 < 2 ^ 60 → 0 <= d2 < 2 ^ 60 → 0 <= d3 < 2 ^ 60 →
  0 <= d4 < 2 ^ 57 →
  good_h (poly1305_carry d0 d1 d2 d3 d4) ∧
  ∃ k, eval5 (poly1305_carry d0 d1 d2 d3 d4) = eval5 (L5 d0 d1 d2 d3 d4) - k * p1305.
Proof.
  intros. unfold poly1305_carry. rewrite !ones26_mod, !Z.shiftr_div_pow2 by lia.
  set (c0 := d0 / 2 ^ 26).
  assert (0 <= c0 < 2 ^ 34) by (unfold c0; Z.div_mod_to_equations; lia).
  rewrite (u64_small (d1 + c0)) by (unfold is_u; lia).
  set (c1 := (d1 + c0) / 2 ^ 26).
  assert (0 <= c1 < 2 ^ 35) by (unfold c1; Z.div_mod_to_equations; lia).
  rewrite (u64_small (d2 + c1)) by (unfold is_u; lia).
  set (c2 := (d2 + c1) / 2 ^ 26).
  assert (0 <= c2 < 2 ^ 35) by (unfold c2; Z.div_mod_to_equations; lia).
  rewrite (u64_small (d3 + c2)) by (unfold is_u; lia).
  set (c3 := (d3 + c2) / 2 ^ 26).
  assert (0 <= c3 < 2 ^ 35) by (unfold c3; Z.div_mod_to_equations; lia).
  rewrite (u64_small (d4 + c3)) by (unfold is_u; lia).
  set (c4 := (d4 + c3) / 2 ^ 26).
  assert (0 <= c4 < 2 ^ 32) by (unfold c4; Z.div_mod_to_equations; lia).
  rewrite (u64_small (c4 * 5)) by (unfold is_u; lia).
  pose proof (Z.mod_pos_bound d0 (2 ^ 26) ltac:(lia)).
  rewrite (u64_small (d0 mod 2 ^ 26 + _)) by (unfold is_u; lia).
  set (c5 := (d0 mod 2 ^ 26 + c4 * 5) / 2 ^ 26).
  assert (0 <= c5 < 2 ^ 10) by (unfold c5; Z.div_mod_to_equations; lia).
  pose proof (Z.mod_pos_bound (d1 + c0) (2 ^ 26) ltac:(lia)).
  rewrite (u64_small (_ + c5)) by (unfold is_u; lia).
  split.
  - unfold good_h; cbn [l0 l1 l2 l3 l4].
    repeat split; try apply Z.mod_pos_bound; lia.
  - exists c4. unfold eval5, p1305; cbn [l0 l1 l2 l3 l4].
    pose proof (Z.div_mod d0 (2 ^ 26) ltac:(lia)) as E0.
    pose proof (Z.div_mod (d1 + c0) (2 ^ 26) ltac:(lia)) as E1.
    pose proof (Z.div_mod (d2 + c1) (2 ^ 26) ltac:(lia)) as E2.
    pose proof (Z.div_mod (d3 + c2) (2 ^ 26) ltac:(lia)) as E3.
    pose proof (Z.div_mod (d4 + c3) (2 ^ 26) ltac:(lia)) as E4.
    pose proof (Z.div_mod (d0 mod 2 ^ 26 + c4 * 5) (2 ^ 26) ltac:(lia)) as E5.
    fold c0 in E0. fold c1 in E1. fold c2 in E2. fold c3 in E3. fold c4 in E4. fold c5 in E5.
    clearbody c0 c1 c2 c3 c4 c5. lia.
Qed.

Lemma mul_bound a b A B : 0 <= a <= A → 0 <= b <= B → 0 <= a * b <= A * B.
Proof. intros. split; [apply Z.mul_nonneg_nonneg; lia|apply Z.mul_le_mono_nonneg; lia]. Qed.

Lemma dot5_bound A B a0 a1 a2 a3 a4 b0 b1 b2 b3 b4 :
  0 <= a0 <= A → 0 <= a1 <= A → 0 <= a2 <= A → 0 <= a3 <= A → 0 <= a4 <= A →
  0 <= b0 <= B → 0 <= b1 <= B → 0 <= b2 <= B → 0 <= b3 <= B → 0 <= b4 <= B →
  0 <= a0 * b0 + a1 * b1 + a2 * b2 + a3 * b3 + a4 * b4 <= 5 * (A * B).
Proof.
  intros. pose proof (mul_bound a0 b0 A B). pose proof (mul_bound a1 b1 A B).
  pose proof (mul_bound a2 b2 A B). pose proof (mul_bound a3 b3 A B).
  pose proof (mul_bound a4 b4 A B). lia.
Qed.

(** The five products modulo [2^130 - 5]: [2^130] folds back as [5]. *)
Lemma mul_limbs_mod h0 h1 h2 h3 h4 r0 r1 r2 r3 r4 k :
  (eval5 (L5 (h0 * r0 + h1 * (r4 * 5) + h2 * (r3 * 5) + h3 * (r2 * 5) + h4 * (r1 * 5))
             (h0 * r1 + h1 * r0 + h2 * (r4 * 5) + h3 * (r3 * 5) + h4 * (r2 * 5))
             (h0 * r2 + h1 * r1 + h2 * r0 + h3 * (r4 * 5) + h4 * (r3 * 5))
             (h0 * r3 + h1 * r2 + h2 * r1 + h3 * r0 + h4 * (r4 * 5))
             (h0 * r4 + h1 * r3 + h2 * r2 + h3 * r1 + h4 * r0)) - k * p1305) mod p1305 =
  eval5 (L5 h0 h1 h2 h3 h4) * eval5 (L5 r0 r1 r2 r3 r4) mod p1305.
Proof.
  set (K := h1 * r4 + h2 * r3 + h3 * r2 + h4 * r1 + 2 ^ 26 * (h2 * r4 + h3 * r3 + h4 * r2) +
            2 ^ 52 * (h3 * r4 + h4 * r3) + 2 ^ 78 * (h4 * r4)).
  match goal with |- (?a - _) mod _ = ?b mod _ => assert (a = b + (- K) * p1305) as -> end.
  { unfold eval5, K, p1305. cbn [l0 l1 l2 l3 l4]. ring. }
  replace (_ + - K * p1305 - k * p1305) with
    (eval5 (L5 h0 h1 h2 h3 h4) * eval5 (L5 r0 r1 r2 r3 r4) + (- K - k) * p1305) by ring.
  apply Z.mod_add. done.
Qed.

(** One block: [h := (h + m) * r] modulo [2^130 - 5]. *)
Lemma poly1305_block_spec r hibit h m :
  good_r r → good_h h → is_bytes m → length m = 16%nat → hibit = 0 ∨ hibit = 2 ^ 24 →
  good_h (poly1305_block r hibit h m) ∧
  eval5 (poly1305_block r hibit h m) mod p1305 =
    (eval5 h + le_val m + hibit * 2 ^ 104) * eval5 r mod p1305.
Proof.
  intros Hr Hh Hm Hl Hhi.
  destruct (msg_limbs_spec hibit m Hm Hl Hhi) as (He & Hg & Hm4).
  destruct r as [r0 r1 r2 r3 r4], h as [h0 h1 h2 h3 h4].
  unfold poly1305_block. unfold msg_limbs, good_r in *. unfold good_h in Hh.
  cbn [l0 l1 l2 l3 l4] in *.
  revert He Hg Hm4.
  generalize (U8TO32 (drop 0 m) .& 0x3ffffff) ((U8TO32 (drop 3 m) .>> 2) .& 0x3ffffff)
    ((U8TO32 (drop 6 m) .>> 4) .& 0x3ffffff) ((U8TO32 (drop 9 m) .>> 6) .& 0x3ffffff)
    ((U8TO32 (drop 12 m) .>> 8) .| hibit).
  intros m0 m1 m2 m3 m4 He Hg Hm4.
  rewrite !(u64_small (_ * 5)) by (unfold is_u; lia).
  rewrite (u64_small (h0 + _)), (u64_small (h1 + _)), (u64_small (h2 + _)),
    (u64_small (h3 + _)), (u64_small (h4 + _)) by (unfold is_u; lia).
  assert (∀ a b c d e, 0 <= a <= 5 * 2 ^ 26 → 0 <= b <= 5 * 2 ^ 26 → 0 <= c <= 5 * 2 ^ 26 →
    0 <= d <= 5 * 2 ^ 26 → 0 <= e <= 5 * 2 ^ 26 →
    0 <= (h0 + m0) * a + (h1 + m1) * b + (h2 + m2) * c + (h3 + m3) * d + (h4 + m4) * e < 2 ^ 60)
    as Hdot.
  { intros. pose proof (dot5_bound (2 ^ 27 + 2 ^ 12) (5 * 2 ^ 26)
      (h0 + m0) (h1 + m1) (h2 + m2) (h3 + m3) (h4 + m4) a b c d e). lia. }
  assert (0 <= (h0 + m0) * r4 + (h1 + m1) * r3 + (h2 + m2) * r2 + (h3 + m3) * r1 +
    (h4 + m4) * r0 < 2 ^ 57) as Hdot4.
  { pose proof (dot5_bound (2 ^ 27 + 2 ^ 12) (2 ^ 26)
      (h0 + m0) (h1 + m1) (h2 + m2) (h3 + m3) (h4 + m4) r4 r3 r2 r1 r0). lia. }
  assert (∀ x, 0 <= x < 2 ^ 60 → u64 x = x) as Hu by (intros; apply u64_small; unfold is_u; lia).
  rewrite !Hu by (apply Hdot; lia).
  match goal with |- context [poly1305_carry ?a ?b ?c ?d ?e] =>
    destruct (poly1305_carry_spec a b c d e) as [Hgood [k ->]] end;
    [apply Hdot; lia..|exact Hdot4|].
  split; [exact Hgood|]. rewrite mul_limbs_mod. do 2 f_equal.
  revert He. unfold eval5; cbn [l0 l1 l2 l3 l4]. lia.
Qed.

(** ** The accumulator of the specification *)

Definition acc_of (r acc : Z) (m : list Z) : Z := poly_acc (length m) r acc m.

Definition absorb (r acc : Z) (block : list Z) : Z :=
  (acc + le_val block + 2 ^ (8 * zlen block)) * r mod p1305.

Lemma poly_acc_fuel f r acc m :
  (length m <= f)%nat → poly_acc f r acc m = acc_of r acc m.
Proof.
  unfold acc_of. remember (length m) as n eqn:Hn. revert f acc m Hn.
  induction (lt_wf n) as [n _ IH]. intros f acc m Hn Hf.
  destruct m as [|x m]; [subst; by destruct f|].
  destruct f as [|f]; [simpl in *; lia|]. subst n. cbn [length poly_acc].
  assert (length (drop 16 (x :: m)) < S (length m))%nat by (simpl; len).
  cbn [length] in *.
  rewrite (IH (length (drop 16 (x :: m)))) by (done || lia).
  symmetry. apply (IH (length (drop 16 (x :: m)))); done || lia.
Qed.

Lemma acc_of_step r acc m : m ≠ [] →
  acc_of r acc m = acc_of r (absorb r acc (take 16 m)) (drop 16 m).
Proof.
  intros Hm. destruct m as [|x m]; [done|]. unfold acc_of at 1. cbn [length poly_acc].
  apply poly_acc_fuel. simpl. len.
Qed.

Lemma acc_of_app r acc k pre rest : length pre = (16 * k)%nat →
  acc_of r acc (pre ++ rest) = acc_of r (acc_of r acc pre) rest.
Proof.
  revert acc pre; induction k as [|k IH]; intros acc pre Hl.
  { apply nil_length_inv in Hl. by subst. }
  assert (pre ≠ []) by (intros ->; simpl in *; lia).
  rewrite (acc_of_step _ _ (pre ++ rest)) by (destruct pre; done).
  rewrite (acc_of_step _ _ pre) by done.
  rewrite take_app_le, drop_app_le by lia. apply IH. len.
Qed.

Lemma absorb_mod r acc block : absorb r (acc mod p1305) block = absorb r acc block.
Proof.
  unfold absorb. rewrite <- !Z.add_assoc, Z.mul_mod, Z.add_mod_idemp_l, <- Z.mul_mod by done.
  done.
Qed.

Lemma acc_of_mod r acc m : acc_of r (acc mod p1305) m mod p1305 = acc_of r acc m mod p1305.
Proof.
  destruct (decide (m = [])) as [->|Hm]; [cbn; by rewrite Z.mod_mod|].
  rewrite !(acc_of_step _ _ m) by done. by rewrite absorb_mod.
Qed.

(** ** The block loop refines the accumulator *)

Lemma poly1305_blocks_loop_spec fuel k r h m :
  good_r r → good_h h → is_bytes m → length m = (16 * k)%nat → (k <= fuel)%nat →
  good_h (poly1305_blocks_loop fuel r (2 ^ 24) h m) ∧
  eval5 (poly1305_blocks_loop fuel r (2 ^ 24) h m) mod p1305 =
    acc_of (eval5 r) (eval5 h) m mod p1305.
Proof.
  revert k h m; induction fuel as [|fuel IH]; intros k h m Hr Hh Hm Hl Hf.
  { destruct m; [done|simpl in *; lia]. }
  cbn [poly1305_blocks_loop]. unfold poly1305_block_size. case_match eqn:E.
  - apply Nat.leb_le in E. destruct k as [|k]; [lia|].
    assert (length (take 16 m) = 16%nat) as Ht by len.
    assert (poly1305_block r (2 ^ 24) h m = poly1305_block r (2 ^ 24) h (take 16 m)) as ->.
    { rewrite <- (take_drop 16 m) at 1. revert Ht. generalize (take 16 m) (drop 16 m).
      intros a b Ha. by explode a Ha. }
    destruct (poly1305_block_spec r (2 ^ 24) h (take 16 m)) as [Hg He];
      [auto with word..|].
    destruct (IH k (poly1305_block r (2 ^ 24) h (take 16 m)) (drop 16 m)) as [Hg' He'];
      [auto with word; len..|].
    split; [done|]. rewrite He'. rewrite <- acc_of_mod, He.
    rewrite (acc_of_step _ _ m) by (intros ->; simpl in *; lia).
    unfold absorb, zlen. by rewrite Ht.
  - apply Nat.leb_gt in E. destruct m; [done|]. simpl in *; lia.
Qed.

(** ** The initial state *)

Definition key_r (key : list Z) : Z := le_val (take 16 key) .& clamp_mask.

Lemma clamp_limb v k c : 0 <= k → (clamp_mask .>> k) .& Z.ones 26 = c →
  (v .>> k) .& c = ((v .& clamp_mask) .>> k) .& Z.ones 26.
Proof. intros Hk <-. by rewrite Z.shiftr_land, Z.land_assoc. Qed.

Lemma poly1305_init_r key : is_bytes key → length key = 32%nat →
  eval5 (poly1305_init key).(st_r) = key_r key ∧ good_r (poly1305_init key).(st_r).
Proof.
  intros Hk Hl. unfold poly1305_init; cbn [st_r].
  set (v := le_val (take 16 key)).
  assert (∀ k, (k + 4 <= 16)%nat → U8TO32 (drop k key) = U8TO32 (drop k (take 16 key))) as Hd.
  { intros k Hk4. unfold U8TO32. rewrite !get_drop, !get_take by lia. done. }
  rewrite !Hd by lia.
  rewrite (limb_slice0 _ 0), (limb_slice _ 3 2), (limb_slice _ 6 4), (limb_slice _ 9 6),
    (limb_slice _ 12 8) by (auto with word; done || len).
  fold v. change (8 * Z.of_nat 0) with 0. change (8 * Z.of_nat 3 + 2) with 26.
  change (8 * Z.of_nat 6 + 4) with 52. change (8 * Z.of_nat 9 + 6) with 78.
  change (8 * Z.of_nat 12 + 8) with 104.
  rewrite (clamp_limb v 0), (clamp_limb v 26), (clamp_limb v 52), (clamp_limb v 78),
    (clamp_limb v 104) by done.
  assert (((v .& clamp_mask) .>> 104) .& Z.ones 26 = (v .& clamp_mask) .>> 104) as H4.
  { rewrite Z.shiftr_land, <- Z.land_assoc. f_equal. }
  split.
  - unfold key_r. fold v. rewrite H4, Z.shiftr_0_r. apply eval5_slices.
  - unfold good_r; cbn [l0 l1 l2 l3 l4]. repeat split; apply ones26_bound.
Qed.

(** ** Incremental update *)

(** [st] has absorbed the bytes [m]: the full blocks are in [h], the remainder
    waits in the buffer. *)
Record poly_inv (key m : list Z) (st : poly1305_state) : Prop := {
  pi_r : st.(st_r) = (poly1305_init key).(st_r);
  pi_pad : st.(st_pad) = (poly1305_init key).(st_pad);
  pi_final : st.(st_final) = false;
  pi_buffer : length st.(st_buffer) = 16%nat;
  pi_bytes : is_bytes st.(st_buffer);
  pi_leftover : (st.(st_leftover) < 16)%nat;
  pi_good : good_h st.(st_h);
  pi_split : ∃ k pre, m = pre ++ take st.(st_leftover) st.(st_buffer) ∧
    length pre = (16 * k)%nat ∧
    eval5 st.(st_h) mod p1305 = acc_of (key_r key) 0 pre mod p1305
}.

Section Update.
  Context (key : list Z) (Hkey : is_bytes key) (Hlen : length key = 32%nat).

Lemma poly_inv_init : poly_inv key [] (poly1305_init key).
Proof.
  split; try done; cbn.
  - apply (is_bytes_zeros 16).
  - lia.
  - exists 0%nat, []. done.
Qed.

(** Full blocks extend what [h] has absorbed. *)
Lemma poly1305_blocks_inv st k pre x j :
  poly_inv key pre st → st.(st_leftover) = 0%nat → is_bytes x →
  length pre = (16 * k)%nat → length x = (16 * j)%nat →
  poly_inv key (pre ++ x) (poly1305_blocks st x).
Proof.
  intros [Hr Hp Hf Hb Hbb Hlo Hg (k' & pre' & Hm & Hk' & He)] Hz Hx Hpre Hj.
  rewrite Hz, take_0, app_nil_r in Hm. subst pre'.
  destruct (poly1305_init_r key Hkey Hlen) as [Her Hgr].
  destruct (poly1305_blocks_loop_spec (length x) j st.(st_r) st.(st_h) x)
    as [Hg' He']; [by rewrite Hr|done|done|done|lia|].
  split; try done; cbn; rewrite Hf.
  - exact Hg'.
  - exists (k + j)%nat, (pre ++ x). rewrite Hz, take_0, app_nil_r.
    split; [done|]. split; [len|]. change (1 .<< 24) with (2 ^ 24).
    rewrite He', Hr, Her, <- acc_of_mod, He, acc_of_mod.
    by rewrite (acc_of_app _ _ k) by done.
Qed.

Lemma poly_inv_set_buffer st m n buf :
  poly_inv key m st → st.(st_leftover) = 0%nat → length buf = 16%nat → is_bytes buf →
  (n < 16)%nat → poly_inv key (m ++ take n buf) (set_buffer st n buf).
Proof.
  intros [Hr Hp Hf Hb Hbb Hlo Hg (k & pre & Hm & Hk & He)] Hz Hl Hbuf Hn.
  split; try done; cbn. exists k, pre. split; [|done].
  by rewrite Hm, Hz, take_0, app_nil_r.
Qed.

Lemma poly1305_update_rest_inv st m x :
  poly_inv key m st → st.(st_leftover) = 0%nat → is_bytes x →
  poly_inv key (m ++ x) (poly1305_update_rest st x).
Proof.
  intros Hi Hz Hx. unfold poly1305_update_rest, poly1305_block_size.
  pose proof (Nat.div_mod_eq (length x) 16) as Hdm.
  pose proof (Nat.mod_upper_bound (length x) 16 ltac:(lia)) as Hub.
  set (want := (length x - length x mod 16)%nat).
  assert (∃ k, length m = (16 * k)%nat) as [k Hk].
  { destruct (pi_split _ _ _ Hi) as (k & pre & -> & Hk & _). exists k.
    rewrite Hz, take_0. len. }
  assert (∀ st' y, poly_inv key y st' → st_leftover st' = 0%nat →
    poly_inv key (y ++ drop want x)
      (if (0 <? length (drop want x))%nat
       then set_buffer st' (st_leftover st' + length (drop want x))
              (blit (st_leftover st') (drop want x) (st_buffer st'))
       else st')) as Htail.
  { intros st' y Hi' Hz'. pose proof (pi_buffer _ _ _ Hi') as Hb.
    pose proof (pi_bytes _ _ _ Hi').
    assert (length (drop want x) < 16)%nat by (unfold want; len).
    case_match eqn:E.
    - rewrite Hz'. cbn [Nat.add].
      replace (drop want x) with (take (length (drop want x))
        (blit 0 (drop want x) (st_buffer st'))) at 1.
      + apply poly_inv_set_buffer; [done|done| |auto with word|done].
        rewrite length_blit; lia.
      + apply (take_blit 0). lia.
    - apply Nat.ltb_ge in E. destruct (drop want x); [|simpl in *; lia].
      by rewrite app_nil_r. }
  destruct (16 <=? length x)%nat eqn:E.
  - rewrite <- (take_drop want x) at 1. rewrite app_assoc. apply Htail; [|done].
    apply (poly1305_blocks_inv _ k _ _ (length x / 16)); auto with word. unfold want; len.
  - apply Nat.leb_gt in E. assert (want = 0%nat) as Hw.
    { unfold want. rewrite Nat.mod_small by done. lia. }
    specialize (Htail st m Hi Hz). by rewrite Hw, drop_0 in Htail.
Qed.

Lemma poly1305_update_inv st m x :
  poly_inv key m st → is_bytes x → poly_inv key (m ++ x) (poly1305_update st x).
Proof.
  intros Hi Hx. unfold poly1305_update. destruct (0 <? st_leftover st)%nat eqn:E0.
  2: { apply Nat.ltb_ge in E0. apply poly1305_update_rest_inv; [done|lia|done]. }
  apply Nat.ltb_lt in E0. unfold poly1305_block_size.
  pose proof Hi as [Hr Hp Hf Hb Hbb Hlo Hg (k & pre & Hm & Hk & He)].
  set (lo := st_leftover st) in *. set (want := Nat.min (16 - lo) (length x)).
  assert (length (take want x) = want) as Hw by (unfold want; len).
  assert (take (lo + want) (blit lo (take want x) (st_buffer st)) =
          take lo (st_buffer st) ++ take want x) as Htb.
  { rewrite <- Hw at 1. apply take_blit. unfold want in *; lia. }
  assert (length (blit lo (take want x) (st_buffer st)) = 16%nat) as Hbl.
  { rewrite length_blit; unfold want in *; lia. }
  destruct (lo + want <? 16)%nat eqn:E1.
  - apply Nat.ltb_lt in E1. assert (want = length x) as Hwx by (unfold want in *; lia).
    split; cbn; try done; auto with word.
    exists k, pre. split; [|done].
    rewrite Htb, Hwx, (take_ge x) by lia. by rewrite Hm, app_assoc.
  - apply Nat.ltb_ge in E1. assert (lo + want = 16)%nat as Hfull by (unfold want in *; lia).
    rewrite Hfull, take_ge in Htb by lia.
    rewrite <- (take_drop want x) at 1. rewrite app_assoc.
    apply poly1305_update_rest_inv; [|done|auto with word].
    rewrite Hm, <- app_assoc, <- Htb.
    set (buf := blit lo (take want x) (st_buffer st)) in *.
    set (st0 := set_buffer st 0 buf).
    assert (poly_inv key pre st0) as Hi0.
    { split; cbn; try done; [unfold buf; auto with word|lia|].
      exists k, pre. by rewrite app_nil_r. }
    pose proof (poly1305_blocks_inv st0 k pre buf 1 Hi0 eq_refl
      ltac:(unfold buf; auto with word) Hk ltac:(lia)) as Hb1.
    destruct Hb1 as [Hr1 Hp1 Hf1 Hb1 Hbb1 Hlo1 Hg1 Hs1].
    split; done.
Qed.

Lemma poly1305_updates_inv st m xs :
  poly_inv key m st → Forall (λ x, is_bytes x) xs →
  poly_inv key (m ++ concat xs) (foldl poly1305_update st xs).
Proof.
  intros Hi Hxs. revert st m Hi. induction Hxs as [|x xs Hx _ IH]; intros st m Hi; simpl.
  - by rewrite app_nil_r.
  - rewrite app_assoc. apply IH. by apply poly1305_update_inv.
Qed.
End Update.

(** ** Finishing *)

(** Every limb below [2^26]. *)
Definition tight (h : limb5) : Prop :=
  0 <= h.(l0) < 2 ^ 26 ∧ 0 <= h.(l1) < 2 ^ 26 ∧ 0 <= h.(l2) < 2 ^ 26 ∧
  0 <= h.(l3) < 2 ^ 26 ∧ 0 <= h.(l4) < 2 ^ 26.

Lemma poly1305_full_carry_spec h : good_h h →
  tight (poly1305_full_carry h) ∧
  eval5 (poly1305_full_carry h) mod p1305 = eval5 h mod p1305.
Proof.
  destruct h as [h0 h1 h2 h3 h4]. unfold good_h; cbn [l0 l1 l2 l3 l4]. intros Hh.
  unfold poly1305_full_carry. rewrite !ones26_mod, !Z.shiftr_div_pow2 by lia.
  set (c1 := h1 / 2 ^ 26).
  assert (0 <= c1 <= 1) by (unfold c1; Z.div_mod_to_equations; lia).
  rewrite (u64_small (h2 + c1)) by (unfold is_u; lia).
  set (c2 := (h2 + c1) / 2 ^ 26).
  assert (0 <= c2 <= c1) by (unfold c2; Z.div_mod_to_equations; lia).
  rewrite (u64_small (h3 + c2)) by (unfold is_u; lia).
  set (c3 := (h3 + c2) / 2 ^ 26).
  assert (0 <= c3 <= c2) by (unfold c3; Z.div_mod_to_equations; lia).
  rewrite (u64_small (h4 + c3)) by (unfold is_u; lia).
  set (c4 := (h4 + c3) / 2 ^ 26).
  assert (0 <= c4 <= c3) by (unfold c4; Z.div_mod_to_equations; lia).
  rewrite (u64_small (c4 * 5)) by (unfold is_u; lia).
  rewrite (u64_small (h0 + c4 * 5)) by (unfold is_u; lia).
  set (c0 := (h0 + c4 * 5) / 2 ^ 26).
  assert (0 <= c0 <= c4) by (unfold c0; Z.div_mod_to_equations; lia).
  pose proof (Z.div_mod h1 (2 ^ 26) ltac:(lia)) as E1.
  pose proof (Z.mod_pos_bound h1 (2 ^ 26) ltac:(lia)).
  fold c1 in E1.
  rewrite (u64_small (_ + c0)) by (unfold is_u; lia).
  pose proof (Z.div_mod (h2 + c1) (2 ^ 26) ltac:(lia)) as E2.
  pose proof (Z.div_mod (h3 + c2) (2 ^ 26) ltac:(lia)) as E3.
  pose proof (Z.div_mod (h4 + c3) (2 ^ 26) ltac:(lia)) as E4.
  pose proof (Z.div_mod (h0 + c4 * 5) (2 ^ 26) ltac:(lia)) as E0.
  fold c2 in E2. fold c3 in E3. fold c4 in E4. fold c0 in E0.
  split.
  - unfold tight; cbn [l0 l1 l2 l3 l4]. repeat split; try apply Z.mod_pos_bound; lia.
  - rewrite <- (Z.mod_add (eval5 (L5 h0 h1 h2 h3 h4)) (- c4)) by done. f_equal.
    unfold eval5, p1305; cbn [l0 l1 l2 l3 l4]. clearbody c0 c1 c2 c3 c4. lia.
Qed.

Lemma land_all_ones x : is_u 64 x → x .& 0xFFFFFFFFFFFFFFFF = x.
Proof. apply u64_small. Qed.

(** The branch-free choice between [h] and [h - p]. *)
Lemma poly1305_select_spec h : tight h →
  tight (poly1305_select h) ∧ eval5 (poly1305_select h) = eval5 h mod p1305.
Proof.
  destruct h as [h0 h1 h2 h3 h4]. unfold tight; cbn [l0 l1 l2 l3 l4]. intros Hh.
  unfold poly1305_select. rewrite !ones26_mod, !(Z.shiftr_div_pow2 _ 26) by lia.
  rewrite (u64_small (h0 + 5)) by (unfold is_u; lia).
  set (c0 := (h0 + 5) / 2 ^ 26).
  assert (0 <= c0 <= 1) by (unfold c0; Z.div_mod_to_equations; lia).
  rewrite (u64_small (h1 + c0)) by (unfold is_u; lia).
  set (c1 := (h1 + c0) / 2 ^ 26).
  assert (0 <= c1 <= 1) by (unfold c1; Z.div_mod_to_equations; lia).
  rewrite (u64_small (h2 + c1)) by (unfold is_u; lia).
  set (c2 := (h2 + c1) / 2 ^ 26).
  assert (0 <= c2 <= 1) by (unfold c2; Z.div_mod_to_equations; lia).
  rewrite (u64_small (h3 + c2)) by (unfold is_u; lia).
  set (c3 := (h3 + c2) / 2 ^ 26).
  assert (0 <= c3 <= 1) by (unfold c3; Z.div_mod_to_equations; lia).
  rewrite (u64_small (h4 + c3)) by (unfold is_u; lia).
  change (1 .<< 26) with (2 ^ 26). change (8 * 8 - 1) with 63.
  pose proof (Z.div_mod (h0 + 5) (2 ^ 26) ltac:(lia)) as E0.
  pose proof (Z.div_mod (h1 + c0) (2 ^ 26) ltac:(lia)) as E1.
  pose proof (Z.div_mod (h2 + c1) (2 ^ 26) ltac:(lia)) as E2.
  pose proof (Z.div_mod (h3 + c2) (2 ^ 26) ltac:(lia)) as E3.
  fold c0 in E0. fold c1 in E1. fold c2 in E2. fold c3 in E3.
  pose proof (Z.mod_pos_bound (h0 + 5) (2 ^ 26) ltac:(lia)).
  pose proof (Z.mod_pos_bound (h1 + c0) (2 ^ 26) ltac:(lia)).
  pose proof (Z.mod_pos_bound (h2 + c1) (2 ^ 26) ltac:(lia)).
  pose proof (Z.mod_pos_bound (h3 + c2) (2 ^ 26) ltac:(lia)).
  revert E0 E1 E2 E3 H3 H4 H5 H6.
  generalize ((h0 + 5) mod 2 ^ 26) ((h1 + c0) mod 2 ^ 26) ((h2 + c1) mod 2 ^ 26)
    ((h3 + c2) mod 2 ^ 26).
  clearbody c0 c1 c2 c3. intros g0 g1 g2 g3 E0 E1 E2 E3 B0 B1 B2 B3.
  destruct (decide (h4 + c3 < 2 ^ 26)) as [Hlt|Hge].
  - (* h < p: the subtraction wraps and its top bit is set *)
    assert (u64 (h4 + c3 - 2 ^ 26) = h4 + c3 - 2 ^ 26 + 2 ^ 64) as ->.
    { rewrite u64_mod. symmetry. apply Z.mod_unique with (-1); lia. }
    assert ((h4 + c3 - 2 ^ 26 + 2 ^ 64) .>> 63 = 1) as ->.
    { rewrite Z.shiftr_div_pow2 by lia. symmetry.
      apply Z.div_unique with (h4 + c3 - 2 ^ 26 + 2 ^ 63); lia. }
    change (u64 (1 - 1)) with 0. change (u64 (Z.lnot 0)) with 0xFFFFFFFFFFFFFFFF.
    rewrite !Z.land_0_r, !Z.lor_0_r.
    rewrite !land_all_ones by (unfold is_u; lia).
    split; [unfold tight; cbn [l0 l1 l2 l3 l4]; lia|].
    symmetry. apply Z.mod_small. unfold eval5, p1305; cbn [l0 l1 l2 l3 l4]. lia.
  - (* h >= p *)
    rewrite (u64_small (h4 + c3 - 2 ^ 26)) by (unfold is_u; lia).
    assert ((h4 + c3 - 2 ^ 26) .>> 63 = 0) as ->.
    { rewrite Z.shiftr_div_pow2 by lia. apply Z.div_small; lia. }
    change (u64 (0 - 1)) with 0xFFFFFFFFFFFFFFFF.
    change (u64 (Z.lnot 0xFFFFFFFFFFFFFFFF)) with 0.
    rewrite !Z.land_0_r, !Z.lor_0_l. rewrite !land_all_ones by (unfold is_u; lia).
    split; [unfold tight; cbn [l0 l1 l2 l3 l4]; lia|].
    apply Z.mod_unique with 1; unfold eval5, p1305; cbn [l0 l1 l2 l3 l4]; lia.
Qed.

(** The final packing into four 32-bit words and the addition of the pad. *)
Lemma poly1305_mac_spec h pad : tight h → 
  (∀ i, is_u 32 pad.[i]) →
  poly1305_mac h pad =
    le_bytes 16 (eval5 h + (pad.[0] + 2 ^ 32 * pad.[1] + 2 ^ 64 * pad.[2] + 2 ^ 96 * pad.[3])).
Proof.
  destruct h as [h0 h1 h2 h3 h4]. unfold tight; cbn [l0 l1 l2 l3 l4]. intros Hh Hpad.
  unfold poly1305_mac.
  generalize (Hpad 0%nat) (Hpad 1%nat) (Hpad 2%nat) (Hpad 3%nat).
  generalize pad.[0] pad.[1] pad.[2] pad.[3]. intros p0 p1 p2 p3 Hp0 Hp1 Hp2 Hp3.
  change 0xffffffff with (Z.ones 32). rewrite !Z.land_ones by lia.
  rewrite !(u64_small (_ .<< _)) by (rewrite Z.shiftl_mul_pow2 by lia; unfold is_u; lia).
  rewrite (lor_add_shift h0 h1 26) by (unfold is_u; lia).
  rewrite (lor_add_shift (h1 .>> 6) h2 20) by
    (lia || (rewrite Z.shiftr_div_pow2 by lia; unfold is_u; Z.div_mod_to_equations; lia)).
  rewrite (lor_add_shift (h2 .>> 12) h3 14) by
    (lia || (rewrite Z.shiftr_div_pow2 by lia; unfold is_u; Z.div_mod_to_equations; lia)).
  rewrite (lor_add_shift (h3 .>> 18) h4 8) by
    (lia || (rewrite Z.shiftr_div_pow2 by lia; unfold is_u; Z.div_mod_to_equations; lia)).
  rewrite !(Z.shiftr_div_pow2 _ 6), !(Z.shiftr_div_pow2 _ 12), !(Z.shiftr_div_pow2 _ 18) by lia.
  assert (∃ w0 w1 w2 w3 k, w0 = (h0 + h1 * 2 ^ 26) mod 2 ^ 32 ∧
    w1 = (h1 / 2 ^ 6 + h2 * 2 ^ 20) mod 2 ^ 32 ∧ w2 = (h2 / 2 ^ 12 + h3 * 2 ^ 14) mod 2 ^ 32 ∧
    w3 = (h3 / 2 ^ 18 + h4 * 2 ^ 8) mod 2 ^ 32 ∧
    0 <= w0 < 2 ^ 32 ∧ 0 <= w1 < 2 ^ 32 ∧ 0 <= w2 < 2 ^ 32 ∧ 0 <= w3 < 2 ^ 32 ∧
    eval5 (L5 h0 h1 h2 h3 h4) = w0 + 2 ^ 32 * w1 + 2 ^ 64 * w2 + 2 ^ 96 * w3 + 2 ^ 128 * k)
    as (w0 & w1 & w2 & w3 & k & <- & <- & <- & <- & B0 & B1 & B2 & B3 & ->).
  { do 4 eexists. exists (h4 / 2 ^ 24). repeat (split; [reflexivity|]).
    unfold eval5; cbn [l0 l1 l2 l3 l4]. 
    repeat (split; [apply Z.mod_pos_bound; lia|]).
    Z.div_mod_to_equations. lia. }
  rewrite !(Z.shiftr_div_pow2 _ 32) by lia.
  unfold is_u in *.
  rewrite (u64_small (w0 + p0)) by (unfold is_u; lia).
  set (c0 := (w0 + p0) / 2 ^ 32).
  assert (0 <= c0 <= 1) by (unfold c0; Z.div_mod_to_equations; lia).
  rewrite (u64_small (w1 + p1 + c0)) by (unfold is_u; lia).
  set (c1 := (w1 + p1 + c0) / 2 ^ 32).
  assert (0 <= c1 <= 1) by (unfold c1; Z.div_mod_to_equations; lia).
  rewrite (u64_small (w2 + p2 + c1)) by (unfold is_u; lia).
  set (c2 := (w2 + p2 + c1) / 2 ^ 32).
  assert (0 <= c2 <= 1) by (unfold c2; Z.div_mod_to_equations; lia).
  rewrite (u64_small (w3 + p3 + c2)) by (unfold is_u; lia).
  rewrite (U32TO8_le (w0 + p0)), (U32TO8_le (w1 + p1 + c0)), (U32TO8_le (w2 + p2 + c1)),
    (U32TO8_le (w3 + p3 + c2)).
  apply le_val_inj; [auto with word..|by len|].
  rewrite !le_val_app, !le_val_le_bytes. unfold zlen. rewrite !length_le_bytes.
  change (8 * Z.of_nat 4) with 32. change (8 * Z.of_nat 16) with 128.
  unfold c0, c1, c2. Z.div_mod_to_equations. lia.
Qed.

(** The last, partial block carries its own one bit instead of [hibit]. *)
Lemma poly1305_last_spec key m st : is_bytes key → length key = 32%nat →
  poly_inv key m st →
  (poly1305_last st).(st_pad) = (poly1305_init key).(st_pad) ∧
  good_h (poly1305_last st).(st_h) ∧
  eval5 (poly1305_last st).(st_h) mod p1305 = acc_of (key_r key) 0 m mod p1305.
Proof.
  intros Hkey Hlen [Hr Hp Hf Hb Hbb Hlo Hg (k & pre & -> & Hk & He)].
  destruct (poly1305_init_r key Hkey Hlen) as [Her Hgr].
  unfold poly1305_last, poly1305_block_size. case_match eqn:E.
  2: { apply Nat.ltb_ge in E. replace (st_leftover st) with 0%nat by lia.
       rewrite take_0, app_nil_r. done. }
  apply Nat.ltb_lt in E. set (lo := st_leftover st) in *.
  set (rest := take lo (st_buffer st)).
  assert (length rest = lo) as Hrest by (unfold rest; len).
  assert (is_bytes rest) as Hrb by (unfold rest; auto with word).
  set (buf := rest ++ [1] ++ replicate (16 - lo - 1) 0).
  assert (length buf = 16%nat) as Hbuf by (unfold buf; len).
  assert (is_bytes buf) as Hbufb.
  { unfold buf. apply is_bytes_app; [done|]. constructor; [unfold is_u; lia|].
    apply is_bytes_zeros. }
  cbn [poly1305_blocks st_pad st_h st_r st_final]. rewrite Hbuf.
  cbn [poly1305_blocks_loop]. unfold poly1305_block_size.
  rewrite (proj2 (Nat.leb_le 16 (length buf))) by lia.
  rewrite (proj2 (Nat.leb_gt 16 (length (drop 16 buf)))) by len.
  destruct (poly1305_block_spec (st_r st) 0 (st_h st) buf) as [Hg' He'];
    [by rewrite Hr|done..|by left|].
  split; [done|]. split; [done|].
  rewrite He'. rewrite (acc_of_app _ _ k) by done.
  rewrite <- acc_of_mod, <- He, acc_of_mod.
  rewrite acc_of_step by (intros Hn; rewrite Hn in Hrest; simpl in *; lia).
  rewrite take_ge, drop_ge by lia. unfold acc_of at 1; cbn [length poly_acc].
  unfold absorb. rewrite Z.mod_mod by done. rewrite Hr, Her. f_equal. f_equal.
  unfold buf, zlen. rewrite Hrest, !le_val_app. unfold zlen. rewrite Hrest.
  replace (le_val (replicate (16 - lo - 1) 0)) with 0; [cbn [le_val]; lia|].
  clear. induction (16 - lo - 1)%nat as [|n IH]; [done|]. cbn [replicate le_val]. lia.
Qed.

Lemma poly1305_init_pad key : is_bytes key → length key = 32%nat →
  let pad := (poly1305_init key).(st_pad) in
  (∀ i, is_u 32 pad.[i]) ∧
  pad.[0] + 2 ^ 32 * pad.[1] + 2 ^ 64 * pad.[2] + 2 ^ 96 * pad.[3] = le_val (drop 16 key).
Proof.
  intros Hk Hl. cbn zeta. unfold poly1305_init; cbn [st_pad].
  split.
  - intros i. apply is_u_get; [lia|].
    rewrite !U8TO32_get by auto with word.
    repeat (apply Forall_cons; split; [auto with word|]). by apply Forall_nil.
  - rewrite !U8TO32_get by auto with word. unfold get at 1 2 3 4; cbn.
    rewrite !get_le32_val by (auto with word; len).
    rewrite <- (drop_drop key 4 16 : _ = drop 20 key), <- (drop_drop key 8 16 : _ = drop 24 key),
      <- (drop_drop key 12 16 : _ = drop 28 key).
    assert (length (drop 16 key) = 16%nat) as Hl16 by len.
    revert Hl16. generalize (drop 16 key). intros l Hl16. explode l Hl16. cbn. lia.
Qed.

Lemma poly_acc_reduced r acc m : acc_of r (acc mod p1305) m = acc_of r acc m mod p1305.
Proof.
  destruct (decide (m = [])) as [->|Hm]; [done|].
  rewrite (acc_of_step _ _ m), (acc_of_step _ acc m) by done. rewrite absorb_mod.
  assert (∀ f x l, poly_acc f r (x mod p1305) l = poly_acc f r (x mod p1305) l mod p1305) as H.
  { intros f; induction f as [|f IH]; intros x l; cbn; [by rewrite Z.mod_mod|].
    destruct l; [by rewrite Z.mod_mod|]. apply IH. }
  apply H.
Qed.

(** Incremental authentication is the RFC's function of the concatenation. *)
Lemma poly1305_correct key xs : is_bytes key → length key = 32%nat →
  Forall (λ x, is_bytes x) xs →
  poly1305_finish (foldl poly1305_update (poly1305_init key) xs) =
    poly1305_spec key (concat xs).
Proof.
  intros Hk Hl Hxs.
  pose proof (poly1305_updates_inv key Hk Hl _ [] xs (poly_inv_init key Hl) Hxs) as Hi.
  destruct (poly1305_last_spec key _ _ Hk Hl Hi) as (Hp & Hg & He).
  destruct (poly1305_init_pad key Hk Hl) as [Hp32 Hpv].
  unfold poly1305_finish.
  destruct (poly1305_full_carry_spec _ Hg) as [Ht Hc].
  destruct (poly1305_select_spec _ Ht) as [Ht' Hs].
  rewrite poly1305_mac_spec by (rewrite ?Hp; done).
  rewrite Hs, Hc, He, Hp, Hpv. unfold poly1305_spec. f_equal. f_equal.
  rewrite <- poly_acc_reduced. done.
Qed.

Lemma length_poly1305_finish st : length (poly1305_finish st) = 16%nat.
Proof.
  unfold poly1305_finish.
  by destruct (poly1305_select (poly1305_full_carry (st_h (poly1305_last st)))).
Qed.

Lemma length_poly1305_spec key m : length (poly1305_spec key m) = 16%nat.
Proof. apply length_le_bytes. Qed.
#[export] Hint Rewrite length_poly1305_finish length_poly1305_spec : len.

(** ** Properties *)

(** C6: Poly1305. Whatever the pieces the message is fed in, the 26-bit limb
    arithmetic with its lazy carries and constant-time selection computes the
    RFC 7539 section 2.5 polynomial of the whole message modulo [2^130 - 5]. *)
Theorem poly1305_is_rfc7539 key pieces : is_bytes key → length key = 32%nat →
  Forall (λ x, is_bytes x) pieces →
  poly1305_finish (foldl poly1305_update (poly1305_init key) pieces) =
    poly1305_spec key (concat pieces).
Proof. apply poly1305_correct. Qed.

Lemma poly1305_is_rfc7539_witness :
  poly1305_finish (foldl poly1305_update (poly1305_init (replicate 32 1)) [[1; 2]; [3]]) =
    poly1305_spec (replicate 32 1) [1; 2; 3].
Proof.
  apply (poly1305_is_rfc7539 (replicate 32 1) [[1; 2]; [3]]); [cbn; word_list|reflexivity|].
  apply Forall_cons_2; [word_list|]. apply Forall_cons_2; [word_list|]. apply Forall_nil_2.
Defined.
