(* ===== verification/AEAD.v ===== *)
(** * crypto/chacha20poly1305.c: authenticated encryption

    The AEAD of RFC 7539 section 2.8 with WireGuard's 64-bit nonce, and its
    XChaCha20 variant: the output is the RFC's (key stream, then Poly1305 over the
    padded additional data and ciphertext and their lengths); decryption inverts
    encryption and succeeds exactly on a matching tag. *)
From S2P Require Import Prelude Crypto ChaCha20 Poly1305.

Definition POLY1305_KEY_SIZE : nat := 32.
Definition POLY1305_MAC_SIZE : nat := 16.

Definition zero : list Z := replicate 64 0.

(** Section 2.6: the one-time key is the first half of block 0. The cipher state
    comes back with its counter at 1. *)
Definition generate_poly1305_key (key : list Z) (nonce : Z) : poly1305_state * list Z :=
  let block := replicate POLY1305_KEY_SIZE 0 in
  let chacha20_state := chacha20_init key nonce in
  let '(chacha20_state, block) := chacha20 chacha20_state block in
  (poly1305_init block, chacha20_state).

(** [padded_len = (len + 15) & 0xFFFFFFF0]: round up to the next 16 bytes. *)
Definition padded_len (len : Z) : Z := u64 (len + 15) .& 0xFFFFFFF0.

(** The sequence of updates both directions authenticate with. *)
Definition authenticate (st : poly1305_state) (ad ct : list Z) : list Z :=
  let st := poly1305_update st ad in
  let st := poly1305_update st (ztake (u64 (padded_len (zlen ad) - zlen ad)) zero) in
  let st := poly1305_update st ct in
  let st := poly1305_update st (ztake (u64 (padded_len (zlen ct) - zlen ct)) zero) in
  let st := poly1305_update st (U64TO8_LITTLE (zlen ad)) in
  let st := poly1305_update st (U64TO8_LITTLE (zlen ct)) in
  poly1305_finish st.

(** The ciphertext followed by the tag, as written at [dst]. *)
Definition chacha20poly1305_encrypt (src ad : list Z) (nonce : Z) (key : list Z) : list Z :=
  let '(poly1305_state, chacha20_state) := generate_poly1305_key key nonce in
  let '(_, dst) := chacha20 chacha20_state src in
  dst ++ authenticate poly1305_state ad dst.

(** [None] is the result [false]. *)
Definition chacha20poly1305_decrypt (src ad : list Z) (nonce : Z) (key : list Z)
    : option (list Z) :=
  if (POLY1305_MAC_SIZE <=? length src)%nat then
    let dst_len := (length src - POLY1305_MAC_SIZE)%nat in
    let '(poly1305_state, chacha20_state) := generate_poly1305_key key nonce in
    let mac := authenticate poly1305_state ad (take dst_len src) in
    if crypto_equal mac (drop dst_len src) POLY1305_MAC_SIZE then
      let '(_, dst) := chacha20 chacha20_state (take dst_len src) in Some dst
    else None
  else None.

Definition xchacha20poly1305_encrypt (src ad nonce key : list Z) : list Z :=
  let new_nonce := U8TO64_LITTLE (drop 16 nonce) in
  let subkey := hchacha20 nonce key in
  chacha20poly1305_encrypt src ad new_nonce subkey.

Definition xchacha20poly1305_decrypt (src ad nonce key : list Z) : option (list Z) :=
  let new_nonce := U8TO64_LITTLE (drop 16 nonce) in
  let subkey := hchacha20 nonce key in
  chacha20poly1305_decrypt src ad new_nonce subkey.

(** ** Specification: RFC 7539 section 2.8 *)

Definition pad16 (l : list Z) : list Z :=
  l ++ replicate ((16 - length l mod 16) mod 16) 0.

Definition aead_mac_data (ad ct : list Z) : list Z :=
  pad16 ad ++ pad16 ct ++ le_bytes 8 (zlen ad) ++ le_bytes 8 (zlen ct).

Definition one_time_key (key : list Z) (nonce : Z) : list Z :=
  take 32 (chacha20_block (chacha20_init key nonce)).

Definition aead_ct (src : list Z) (nonce : Z) (key : list Z) : list Z :=
  xor_bytes src (keystream (blocks_for (length src)) (bump (chacha20_init key nonce))).

Definition aead_tag (ad ct : list Z) (nonce : Z) (key : list Z) : list Z :=
  poly1305_spec (one_time_key key nonce) (aead_mac_data ad ct).

(** ** Lemmas *)

(** C lengths: every buffer of the program is far below this. *)
Definition small_len (l : list Z) : Prop := zlen l < 2 ^ 31.

Lemma padded_len_gap n : 0 <= n < 2 ^ 31 →
  u64 (padded_len n - n) = Z.of_nat ((16 - Z.to_nat n mod 16) mod 16).
Proof.
  intros Hn. unfold padded_len. rewrite (u64_small (n + 15)) by (unfold is_u; lia).
  assert ((n + 15) .& 0xFFFFFFF0 = (n + 15) / 16 * 16) as ->.
  { change 16 with (2 ^ 4). rewrite <- Z.shiftr_div_pow2, <- Z.shiftl_mul_pow2 by lia.
    apply Z.bits_inj'. intros i Hi. rewrite Z.land_spec.
    change 0xFFFFFFF0 with (Z.ones 28 .<< 4).
    destruct (decide (i < 4)).
    - rewrite !Z.shiftl_spec_low by lia. apply andb_false_r.
    - rewrite !Z.shiftl_spec_high, Z.shiftr_spec by lia.
      replace (i - 4 + 4) with i by lia.
      destruct (decide (i < 32)).
      + rewrite Z.ones_spec_low by lia. apply andb_true_r.
      + rewrite Z.ones_spec_high by lia. rewrite (is_u_testbit 32) by (unfold is_u; lia).
        done. }
  rewrite u64_small by (unfold is_u; Z.div_mod_to_equations; lia).
  rewrite !Nat2Z.inj_mod, Nat2Z.inj_sub, Nat2Z.inj_mod, Z2Nat.id
    by (pose proof (Nat.mod_upper_bound (Z.to_nat n) 16); lia).
  change (Z.of_nat 16) with 16. Z.div_mod_to_equations. lia.
Qed.

Lemma pad_zeros l : small_len l →
  ztake (u64 (padded_len (zlen l) - zlen l)) zero = replicate ((16 - length l mod 16) mod 16) 0.
Proof.
  intros Hl. unfold small_len in Hl. rewrite padded_len_gap by (unfold zlen in *; lia).
  unfold ztake, zlen. rewrite !Nat2Z.id. unfold zero.
  rewrite take_replicate. f_equal.
  pose proof (Nat.mod_upper_bound (16 - length l mod 16) 16). lia.
Qed.

Definition aead_pieces (ad ct : list Z) : list (list Z) :=
  [ad; replicate ((16 - length ad mod 16) mod 16) 0;
   ct; replicate ((16 - length ct mod 16) mod 16) 0;
   le_bytes 8 (zlen ad); le_bytes 8 (zlen ct)].

Lemma aead_mac_data_concat ad ct : aead_mac_data ad ct = concat (aead_pieces ad ct).
Proof.
  unfold aead_mac_data, pad16, aead_pieces. cbn [concat].
  by rewrite <- !app_assoc, app_nil_r.
Qed.

Lemma authenticate_spec key ad ct :
  is_bytes key → length key = 32%nat → is_bytes ad → is_bytes ct →
  small_len ad → small_len ct →
  authenticate (poly1305_init key) ad ct = poly1305_spec key (aead_mac_data ad ct).
Proof.
  intros Hk Hl Ha Hc Hsa Hsc. unfold authenticate. rewrite !pad_zeros by done.
  rewrite (U64TO8_LITTLE_le (zlen ad)), (U64TO8_LITTLE_le (zlen ct)).
  rewrite aead_mac_data_concat. unfold aead_pieces.
  symmetry. etransitivity; [symmetry; apply poly1305_correct; [done|done|]|reflexivity].
  repeat (apply Forall_cons; split; [auto with word|]). by apply Forall_nil.
Qed.

Lemma generate_poly1305_key_eq key nonce :
  generate_poly1305_key key nonce =
    (poly1305_init (one_time_key key nonce), bump (chacha20_init key nonce)).
Proof.
  unfold generate_poly1305_key. rewrite chacha20_keystream.
  change (blocks_for (length (replicate POLY1305_KEY_SIZE 0))) with 1%nat.
  cbn [Nat.iter keystream]. rewrite app_nil_r. apply (f_equal (λ k, (poly1305_init k, _))).
  unfold one_time_key.
  rewrite <- (xor_bytes_take_r (replicate POLY1305_KEY_SIZE 0)), length_replicate.
  assert (length (take 32 (chacha20_block (chacha20_init key nonce))) = 32%nat) as Hl by len.
  unfold POLY1305_KEY_SIZE. revert Hl. generalize (take 32 (chacha20_block (chacha20_init key nonce))).
  generalize 32%nat. intros n l <-. induction l as [|x l IH]; [done|].
  cbn. unfold xor_bytes in *. by rewrite Z.lxor_0_l, IH.
Qed.

Lemma one_time_key_bytes key nonce : is_bytes (one_time_key key nonce).
Proof. unfold one_time_key. auto with word. Qed.
Lemma length_one_time_key key nonce : length (one_time_key key nonce) = 32%nat.
Proof. unfold one_time_key. len. Qed.

Lemma length_aead_ct src nonce key : length (aead_ct src nonce key) = length src.
Proof.
  unfold aead_ct. pose proof (blocks_for_enough (length src)). len.
Qed.
Lemma aead_ct_bytes src nonce key : is_bytes src → is_bytes (aead_ct src nonce key).
Proof. intros. unfold aead_ct. auto with word. Qed.
Lemma length_aead_tag ad ct nonce key : length (aead_tag ad ct nonce key) = 16%nat.
Proof. apply length_poly1305_spec. Qed.
Lemma aead_tag_bytes ad ct nonce key : is_bytes (aead_tag ad ct nonce key).
Proof. apply le_bytes_bytes. Qed.
#[export] Hint Rewrite length_aead_ct length_aead_tag : len.
#[export] Hint Resolve aead_ct_bytes aead_tag_bytes : word.

Lemma aead_ct_involutive src nonce key : aead_ct (aead_ct src nonce key) nonce key = src.
Proof.
  unfold aead_ct at 1. rewrite length_aead_ct. unfold aead_ct.
  apply xor_bytes_involutive. rewrite length_keystream. apply blocks_for_enough.
Qed.

(** Encryption is the RFC's ciphertext and tag. *)
Lemma encrypt_spec src ad nonce key :
  is_bytes src → is_bytes ad → small_len src → small_len ad →
  chacha20poly1305_encrypt src ad nonce key =
    aead_ct src nonce key ++ aead_tag ad (aead_ct src nonce key) nonce key.
Proof.
  intros Hs Ha Hls Hla. unfold chacha20poly1305_encrypt.
  rewrite generate_poly1305_key_eq, chacha20_keystream. fold (aead_ct src nonce key).
  f_equal. apply authenticate_spec; auto using one_time_key_bytes, length_one_time_key with word.
  unfold small_len in *. len.
Qed.

(** Decryption succeeds exactly when the tag is the one encryption would give. *)
Lemma decrypt_spec src ad nonce key :
  is_bytes src → is_bytes ad → small_len src → small_len ad →
  chacha20poly1305_decrypt src ad nonce key =
    if decide (16 <= length src)%nat then
      let ct := take (length src - 16) src in
      if decide (drop (length src - 16) src = aead_tag ad ct nonce key)
      then Some (aead_ct ct nonce key) else None
    else None.
Proof.
  intros Hs Ha Hls Hla. unfold chacha20poly1305_decrypt, POLY1305_MAC_SIZE.
  destruct (16 <=? length src)%nat eqn:E.
  2: { apply Nat.leb_gt in E. case_decide; [lia|done]. }
  apply Nat.leb_le in E. rewrite decide_True by done. cbn zeta.
  rewrite generate_poly1305_key_eq.
  set (ct := take _ src). set (tag := drop _ src).
  assert (is_bytes ct) as Hct by (unfold ct; auto with word).
  assert (is_bytes tag) as Htag by (unfold tag; auto with word).
  assert (length tag = 16%nat) as Hlt by (unfold tag; len).
  assert (small_len ct) as Hlct by (unfold small_len, ct in *; len).
  rewrite authenticate_spec
    by (done || apply one_time_key_bytes || apply length_one_time_key).
  fold (aead_tag ad ct nonce key).
  pose proof (crypto_equal_spec (aead_tag ad ct nonce key) tag 16
    (aead_tag_bytes _ _ _ _) Htag ltac:(len) ltac:(lia)) as Heq.
  rewrite !take_ge in Heq by len.
  rewrite chacha20_keystream. fold (aead_ct ct nonce key).
  destruct (crypto_equal _ _ _).
  - rewrite decide_True; [done|]. symmetry. by apply Heq.
  - rewrite decide_False; [done|]. intros H. symmetry in H. apply Heq in H. done.
Qed.

Lemma length_encrypt src ad nonce key :
  length (chacha20poly1305_encrypt src ad nonce key) = (length src + 16)%nat.
Proof.
  unfold chacha20poly1305_encrypt, authenticate. rewrite generate_poly1305_key_eq.
  pose proof (length_chacha20 (bump (chacha20_init key nonce)) src) as H.
  destruct (chacha20 _ src) as [c d]. simpl in H. len.
Qed.
#[export] Hint Rewrite length_encrypt : len.

Lemma encrypt_bytes src ad nonce key :
  is_bytes src → is_bytes ad → small_len src → small_len ad →
  is_bytes (chacha20poly1305_encrypt src ad nonce key).
Proof. intros. rewrite encrypt_spec by done. auto with word. Qed.

Lemma decrypt_encrypt src ad nonce key :
  is_bytes src → is_bytes ad → zlen src < 2 ^ 31 - 16 → small_len ad →
  chacha20poly1305_decrypt (chacha20poly1305_encrypt src ad nonce key) ad nonce key = Some src.
Proof.
  intros Hs Ha Hls Hla.
  assert (small_len src) by (unfold small_len; lia).
  rewrite decrypt_spec; [|by apply encrypt_bytes|done|unfold small_len; len|done].
  rewrite length_encrypt, decide_True by lia. cbn zeta.
  rewrite encrypt_spec by done. replace (length src + 16 - 16)%nat with (length src) by lia.
  rewrite take_app_length', drop_app_length' by len.
  by rewrite decide_True, aead_ct_involutive by done.
Qed.

(** ** Properties *)

(** Opening what was sealed gives the plaintext back, for both AEADs. *)
Theorem aead_roundtrip src ad nonce key xnonce :
  is_bytes src → is_bytes ad → zlen src < 2 ^ 31 - 16 → zlen ad < 2 ^ 31 →
  chacha20poly1305_decrypt (chacha20poly1305_encrypt src ad nonce key) ad nonce key = Some src ∧
  xchacha20poly1305_decrypt (xchacha20poly1305_encrypt src ad xnonce key) ad xnonce key = Some src.
Proof. intros. split; by apply decrypt_encrypt. Qed.

Lemma aead_roundtrip_witness :
  chacha20poly1305_decrypt (chacha20poly1305_encrypt [1; 2; 3] [4] 5 (replicate 32 6)) [4] 5
    (replicate 32 6) = Some [1; 2; 3].
Proof.
  exact (proj1 (aead_roundtrip [1; 2; 3] [4] 5 (replicate 32 6) (replicate 24 7)
    ltac:(word_list) ltac:(word_list) ltac:(reflexivity) ltac:(reflexivity))).
Defined.

(** C7: decryption accepts exactly the ciphertexts that carry the Poly1305 tag of
    their contents and additional data; it then returns the key stream's XOR, and
    the RFC 7539 section 2.8 ciphertext and tag are what encryption writes. *)
Theorem aead_is_rfc7539 src ad nonce key :
  is_bytes src → is_bytes ad → zlen src < 2 ^ 31 → zlen ad < 2 ^ 31 →
  chacha20poly1305_encrypt src ad nonce key =
    aead_ct src nonce key ++ aead_tag ad (aead_ct src nonce key) nonce key ∧
  chacha20poly1305_decrypt src ad nonce key =
    if decide (16 <= length src)%nat then
      let ct := take (length src - 16) src in
      if decide (drop (length src - 16) src = aead_tag ad ct nonce key)
      then Some (aead_ct ct nonce key) else None
    else None.
Proof. intros. split; [by apply encrypt_spec|by apply decrypt_spec]. Qed.

Lemma aead_is_rfc7539_witness :
  chacha20poly1305_encrypt [1; 2; 3] [] 5 (replicate 32 6) =
    aead_ct [1; 2; 3] 5 (replicate 32 6) ++
    aead_tag [] (aead_ct [1; 2; 3] 5 (replicate 32 6)) 5 (replicate 32 6).
Proof.
  exact (proj1 (aead_is_rfc7539 [1; 2; 3] [] 5 (replicate 32 6)
    ltac:(word_list) ltac:(word_list) ltac:(reflexivity) ltac:(reflexivity))).
Defined.
