(* ===== verification/Blake2s.v ===== *)
(** * crypto/blake2s.c: the BLAKE2s hash (RFC 7693)

    The incremental context (buffer, chained state, 64-bit byte count in two
    words) and its refinement of the RFC's block-wise definition: the buffer is
    compressed only when another byte arrives, so that the last block, full or
    not, is the one flagged. *)
From S2P Require Import Prelude Crypto.

Definition BLAKE2S_BLOCK_SIZE : nat := 64.

Record blake2s_ctx := {
  bl_b : list Z;        (* input buffer, b[64] *)
  bl_h : list Z;        (* chained state, h[8] *)
  bl_t0 : Z;            (* total number of bytes, low word *)
  bl_t1 : Z;            (* high word *)
  bl_c : nat;           (* pointer for b[] *)
  bl_outlen : nat       (* digest size *)
}.

Definition ROTR32 (x y : Z) : Z := (x .>> y) .^ u32 (x .<< (32 - y)).

(** Mixing function G on the elements [a], [b], [c], [d] of the work vector. *)
Definition B2S_G (a b c d : nat) (x y : Z) (v : list Z) : list Z :=
  let v := <[a := u32 (v.[a] + v.[b] + x)]> v in
  let v := <[d := ROTR32 (v.[d] .^ v.[a]) 16]> v in
  let v := <[c := u32 (v.[c] + v.[d])]> v in
  let v := <[b := ROTR32 (v.[b] .^ v.[c]) 12]> v in
  let v := <[a := u32 (v.[a] + v.[b] + y)]> v in
  let v := <[d := ROTR32 (v.[d] .^ v.[a]) 8]> v in
  let v := <[c := u32 (v.[c] + v.[d])]> v in
  <[b := ROTR32 (v.[b] .^ v.[c]) 7]> v.

Definition blake2s_iv : list Z :=
  [0x6A09E667; 0xBB67AE85; 0x3C6EF372; 0xA54FF53A;
   0x510E527F; 0x9B05688C; 0x1F83D9AB; 0x5BE0CD19].

Definition sigma : list (list nat) :=
  [[0; 1; 2; 3; 4; 5; 6; 7; 8; 9; 10; 11; 12; 13; 14; 15];
   [14; 10; 4; 8; 9; 15; 13; 6; 1; 12; 0; 2; 11; 7; 5; 3];
   [11; 8; 12; 0; 5; 2; 15; 13; 10; 14; 3; 6; 7; 1; 9; 4];
   [7; 9; 3; 1; 13; 12; 11; 14; 2; 6; 5; 10; 4; 0; 15; 8];
   [9; 0; 5; 7; 2; 4; 10; 15; 14; 1; 11; 12; 6; 8; 3; 13];
   [2; 12; 6; 10; 0; 11; 8; 3; 4; 13; 7; 5; 15; 14; 1; 9];
   [12; 5; 1; 15; 14; 13; 4; 10; 0; 7; 6; 3; 9; 2; 8; 11];
   [13; 11; 7; 14; 12; 1; 3; 9; 5; 0; 15; 4; 8; 6; 2; 10];
   [6; 15; 14; 9; 11; 3; 0; 8; 12; 2; 13; 7; 1; 4; 10; 5];
   [10; 2; 8; 4; 7; 6; 1; 5; 15; 11; 9; 14; 3; 12; 13; 0]]%nat.

(** One of the ten rounds, with the message words in the order of [s]. *)
Definition blake2s_round (m : list Z) (v : list Z) (s : list nat) : list Z :=
  let w i := m.[default 0%nat (s !! i)] in
  let v := B2S_G 0 4 8 12 (w 0%nat) (w 1%nat) v in
  let v := B2S_G 1 5 9 13 (w 2%nat) (w 3%nat) v in
  let v := B2S_G 2 6 10 14 (w 4%nat) (w 5%nat) v in
  let v := B2S_G 3 7 11 15 (w 6%nat) (w 7%nat) v in
  let v := B2S_G 0 5 10 15 (w 8%nat) (w 9%nat) v in
  let v := B2S_G 1 6 11 12 (w 10%nat) (w 11%nat) v in
  let v := B2S_G 2 7 8 13 (w 12%nat) (w 13%nat) v in
  B2S_G 3 4 9 14 (w 14%nat) (w 15%nat) v.

(** The compression function on the chained state [h], the block [b], the byte
    count [t1:t0] and the last-block flag. *)
Definition compress (h b : list Z) (t0 t1 : Z) (last : bool) : list Z :=
  let v := h ++ blake2s_iv in
  let v := <[12%nat := v.[12] .^ t0]> v in
  let v := <[13%nat := v.[13] .^ t1]> v in
  let v := if last then <[14%nat := u32 (Z.lnot v.[14])]> v else v in
  let m := (λ i, U8TO32_LITTLE (drop (4 * i) b)) <$> seq 0 16 in
  let v := foldl (blake2s_round m) v sigma in
  (λ i, h.[i] .^ (v.[i] .^ v.[i + 8])) <$> seq 0 8.

Definition blake2s_compress (ctx : blake2s_ctx) (last : bool) : blake2s_ctx :=
  {| bl_b := ctx.(bl_b);
     bl_h := compress ctx.(bl_h) ctx.(bl_b) ctx.(bl_t0) ctx.(bl_t1) last;
     bl_t0 := ctx.(bl_t0); bl_t1 := ctx.(bl_t1);
     bl_c := ctx.(bl_c); bl_outlen := ctx.(bl_outlen) |}.

(** [ctx->t[0] += ctx->c; if (ctx->t[0] < ctx->c) ctx->t[1]++;] *)
Definition add_count (ctx : blake2s_ctx) : blake2s_ctx :=
  let c := Z.of_nat ctx.(bl_c) in
  let t0 := u32 (ctx.(bl_t0) + c) in
  let t1 := if t0 <? c then u32 (ctx.(bl_t1) + 1) else ctx.(bl_t1) in
  {| bl_b := ctx.(bl_b); bl_h := ctx.(bl_h); bl_t0 := t0; bl_t1 := t1;
     bl_c := ctx.(bl_c); bl_outlen := ctx.(bl_outlen) |}.

Definition set_bc (ctx : blake2s_ctx) (b : list Z) (c : nat) : blake2s_ctx :=
  {| bl_b := b; bl_h := ctx.(bl_h); bl_t0 := ctx.(bl_t0); bl_t1 := ctx.(bl_t1);
     bl_c := c; bl_outlen := ctx.(bl_outlen) |}.

(** The body of the loop of [blake2s_update]: one byte. *)
Definition blake2s_byte (ctx : blake2s_ctx) (x : Z) : blake2s_ctx :=
  let ctx :=
    if (ctx.(bl_c) =? 64)%nat then
      let ctx := blake2s_compress (add_count ctx) false in
      set_bc ctx ctx.(bl_b) 0
    else ctx in
  set_bc ctx (<[ctx.(bl_c) := x]> ctx.(bl_b)) (S ctx.(bl_c)).

Definition blake2s_update (ctx : blake2s_ctx) (inp : list Z) : blake2s_ctx :=
  foldl blake2s_byte ctx inp.

(** [None] is the result -1. The bytes of [b] below [keylen], which the code
    leaves as they were, are overwritten by the update before they are read. *)
Definition blake2s_init (outlen : nat) (key : list Z) : option blake2s_ctx :=
  let keylen := length key in
  if ((outlen =? 0) || (32 <? outlen) || (32 <? keylen))%nat then None
  else
    let h := <[0%nat := blake2s_iv.[0] .^
                 (0x01010000 .^ (Z.of_nat keylen .<< 8) .^ Z.of_nat outlen)]> blake2s_iv in
    let ctx := {| bl_b := replicate 64 0; bl_h := h; bl_t0 := 0; bl_t1 := 0;
                  bl_c := 0; bl_outlen := outlen |} in
    if (0 <? keylen)%nat then
      let ctx := blake2s_update ctx key in Some (set_bc ctx ctx.(bl_b) 64)
    else Some ctx.

Definition blake2s_final (ctx : blake2s_ctx) : list Z :=
  let ctx := add_count ctx in
  let ctx := set_bc ctx (take ctx.(bl_c) ctx.(bl_b) ++ replicate (64 - ctx.(bl_c)) 0) 64 in
  let ctx := blake2s_compress ctx true in
  (λ i, (ctx.(bl_h).[i / 4] .>> (8 * Z.of_nat (i mod 4))) .& 0xFF) <$> seq 0 ctx.(bl_outlen).

Definition blake2s (outlen : nat) (key inp : list Z) : option (list Z) :=
  match blake2s_init outlen key with
  | None => None
  | Some ctx => Some (blake2s_final (blake2s_update ctx inp))
  end.

(** ** Specification: RFC 7693

    Apart from the code: the initial vector from the square roots of the first eight
    primes, the words of a block as little-endian numbers, rotation by division, and the
    message schedule as the ten rows of the RFC's table, a hexadecimal digit for each
    index. *)
Module RFC.

Definition rotr (n x : Z) : Z := x / 2 ^ n + 2 ^ (32 - n) * (x mod 2 ^ n).

Definition IV : list Z := (λ p, Z.sqrt (p * 2 ^ 64) mod 2 ^ 32) <$> [2; 3; 5; 7; 11; 13; 17; 19].

Definition SIGMA : list Z :=
  [0x0123456789ABCDEF; 0xEA489FD61C02B753; 0xB8C052FDAE367194; 0x7931DCBE265A40F8; 0x905724AFE1BC683D;
   0x2C6A0B834D75FE19; 0xC51FED4A0763928B; 0xDB7EC13950F4862A; 0x6FE9B308C2D714A5; 0xA2847615FB9E3CD0].

Definition schedule (r i : nat) : nat := Z.to_nat (SIGMA.[r] / 16 ^ (15 - Z.of_nat i) mod 16).

(** Section 3.1: the mixing function. *)
Definition mix (a b c d x y : Z) : Z * Z * Z * Z :=
  let a := (a + b + x) mod 2 ^ 32 in let d := rotr 16 (Z.lxor d a) in
  let c := (c + d) mod 2 ^ 32 in let b := rotr 12 (Z.lxor b c) in
  let a := (a + b + y) mod 2 ^ 32 in let d := rotr 8 (Z.lxor d a) in
  let c := (c + d) mod 2 ^ 32 in let b := rotr 7 (Z.lxor b c) in
  (a, b, c, d).

Definition mix_at (a b c d : nat) (x y : Z) (v : list Z) : list Z :=
  let '(p, q, r, s) := mix v.[a] v.[b] v.[c] v.[d] x y in <[a := p]> (<[b := q]> (<[c := r]> (<[d := s]> v))).

(** The four columns of the 4x4 matrix, then its four diagonals. *)
Definition round (m : nat → Z) (v : list Z) (r : nat) : list Z :=
  foldl (λ v i, let k := (i mod 4)%nat in let s := (i / 4)%nat in
    mix_at k (4 + (k + s) mod 4) (8 + (k + 2 * s) mod 4) (12 + (k + 3 * s) mod 4)
      (m (schedule r (2 * i))) (m (schedule r (2 * i + 1))) v) v (seq 0 8).

(** Section 3.2: the compression function, [t] the number of bytes so far. *)
Definition compression (h block : list Z) (t : Z) (last : bool) : list Z :=
  let m i := le_val (slice (4 * i) 4 block) in
  let tweak := replicate 12 0 ++ [t mod 2 ^ 32; t / 2 ^ 32 mod 2 ^ 32; if last then 2 ^ 32 - 1 else 0; 0] in
  let v := foldl (round m) (zip_with Z.lxor (h ++ IV) tweak) (seq 0 10) in
  zip_with Z.lxor h (zip_with Z.lxor (take 8 v) (drop 8 v)).

(** Section 3.3: block [i] of the data, padded with zeros; an empty message has a block,
    too; a key is a block of its own in front. *)
Definition block (data : list Z) (i : nat) : list Z :=
  let b := slice (64 * i) 64 data in b ++ replicate (64 - length b) 0.

Definition blocks (data : list Z) : nat := Nat.max 1 ((length data + 63) / 64).

Definition chain (h : list Z) (t : Z) (data : list Z) : list Z :=
  let dd := blocks data in
  let h := foldl (λ h i, compression h (block data i) (t + 64 * (Z.of_nat i + 1)) false) h (seq 0 (dd - 1)) in
  compression h (block data (dd - 1)) (t + zlen data) true.

Definition hash (nn : nat) (key inp : list Z) : list Z :=
  let h := zip_with Z.lxor IV (0x01010000 + 256 * zlen key + Z.of_nat nn :: replicate 7 0) in
  let data := (if decide (key = []) then [] else key ++ replicate (64 - length key) 0) ++ inp in
  take nn (concat (le_bytes 4 <$> chain h 0 data)).

End RFC.

(** *** The code's compression function is the RFC's *)

Lemma ROTR32_rotr x n : 0 < n < 32 → is_u 32 x → ROTR32 x n = RFC.rotr n x ∧ is_u 32 (ROTR32 x n).
Proof.
  intros Hn Hx. assert (is_u 32 (ROTR32 x n)) as Hu.
  { unfold ROTR32. apply is_u_lxor; [lia|by apply is_u_shiftr; [lia|]|apply u32_bound]. }
  split; [|done]. unfold ROTR32, RFC.rotr. rewrite u32_mod, Z.shiftl_mul_pow2, Z.shiftr_div_pow2 by lia.
  unfold is_u in Hx. replace (2 ^ 32) with (2 ^ n * 2 ^ (32 - n)) at 1 by (rewrite <- Z.pow_add_r by lia; f_equal; lia).
  assert (0 < 2 ^ n) by lia. assert (0 < 2 ^ (32 - n)) by lia.
  rewrite Z.mul_mod_distr_r, Z.mul_comm by lia.
  assert (0 <= x / 2 ^ n < 2 ^ (32 - n)).
  { split; [apply Z.div_pos; lia|]. apply Z.div_lt_upper_bound; [lia|]. rewrite <- Z.pow_add_r by lia. replace (n + (32 - n)) with 32 by lia. lia. }
  symmetry. rewrite Z.mul_comm. rewrite <- Z.add_nocarry_lxor; [lia|].
  apply Z.bits_inj'. intros i Hi. rewrite Z.land_spec, Z.bits_0.
  destruct (decide (i < 32 - n)).
  - rewrite Z.mul_pow2_bits_low by lia. apply andb_false_r.
  - rewrite (is_u_testbit (32 - n) (x / 2 ^ n)) by (done || lia). done.
Qed.

(** The code's steps on the four words. *)
Definition mix_words (a b c d x y : Z) : Z * Z * Z * Z :=
  let a := u32 (a + b + x) in let d := ROTR32 (d .^ a) 16 in
  let c := u32 (c + d) in let b := ROTR32 (b .^ c) 12 in
  let a := u32 (a + b + y) in let d := ROTR32 (d .^ a) 8 in
  let c := u32 (c + d) in let b := ROTR32 (b .^ c) 7 in
  (a, b, c, d).

Lemma rotated x y n : 0 < n < 32 → is_u 32 x → is_u 32 y →
  ROTR32 (x .^ y) n = RFC.rotr n (Z.lxor x y) ∧ is_u 32 (RFC.rotr n (Z.lxor x y)).
Proof.
  intros Hn Hx Hy. destruct (ROTR32_rotr (x .^ y) n Hn) as [<- ?]; [by apply is_u_lxor|]. done.
Qed.

Lemma mix_words_rfc a b c d x y : is_u 32 a → is_u 32 b → is_u 32 c → is_u 32 d →
  mix_words a b c d x y = RFC.mix a b c d x y ∧
  let '(p, q, r, s) := RFC.mix a b c d x y in Forall (is_u 32) [p; q; r; s].
Proof.
  intros Ha Hb Hc Hd. unfold mix_words, RFC.mix. rewrite !u32_mod. cbv zeta.
  pose proof (is_u_mod 32 (a + b + x) ltac:(lia)) as H1. set (a1 := (a + b + x) mod 2 ^ 32) in *.
  destruct (rotated d a1 16 ltac:(lia) Hd H1) as [-> H2]. set (d1 := RFC.rotr 16 (Z.lxor d a1)) in *.
  pose proof (is_u_mod 32 (c + d1) ltac:(lia)) as H3. set (c1 := (c + d1) mod 2 ^ 32) in *.
  destruct (rotated b c1 12 ltac:(lia) Hb H3) as [-> H4]. set (b1 := RFC.rotr 12 (Z.lxor b c1)) in *.
  pose proof (is_u_mod 32 (a1 + b1 + y) ltac:(lia)) as H5. set (a2 := (a1 + b1 + y) mod 2 ^ 32) in *.
  destruct (rotated d1 a2 8 ltac:(lia) H2 H5) as [-> H6]. set (d2 := RFC.rotr 8 (Z.lxor d1 a2)) in *.
  pose proof (is_u_mod 32 (c1 + d2) ltac:(lia)) as H7. set (c2 := (c1 + d2) mod 2 ^ 32) in *.
  destruct (rotated b1 c2 7 ltac:(lia) H4 H7) as [-> H8]. split; [done|]. by repeat (apply Forall_cons_2; [done|]).
Qed.

Lemma B2S_G_rfc a b c d x y v : length v = 16%nat → Forall (is_u 32) v → NoDup [a; b; c; d] → Forall (λ i, i < 16)%nat [a; b; c; d] →
  B2S_G a b c d x y v = RFC.mix_at a b c d x y v ∧ length (B2S_G a b c d x y v) = 16%nat ∧ Forall (is_u 32) (B2S_G a b c d x y v).
Proof.
  intros Hl Hv Hnd Hlt. rewrite !Forall_cons in Hlt. destruct Hlt as (Ha & Hb & Hc & Hd & _).
  rewrite !NoDup_cons, !not_elem_of_cons in Hnd. destruct Hnd as ((Hab & Hac & Had & _) & (Hbc & Hbd & _) & (Hcd & _) & _).
  assert (∀ (l : list Z) i z, (i < length l)%nat → (<[i := z]> l).[i] = z) as Geq.
  { intros l i z Hi. unfold get. by rewrite list_lookup_insert_eq. }
  assert (∀ (l : list Z) i j z, i ≠ j → (<[i := z]> l).[j] = l.[j]) as Gne.
  { intros l i j z Hi. unfold get. by rewrite list_lookup_insert_ne. }
  assert (B2S_G a b c d x y v =
    let '(p, q, r, s) := mix_words v.[a] v.[b] v.[c] v.[d] x y in <[a := p]> (<[b := q]> (<[c := r]> (<[d := s]> v)))) as ->.
  { unfold B2S_G, mix_words.
    repeat first [rewrite Geq by (rewrite ?length_insert; lia) | rewrite Gne by congruence].
    apply list_eq. intros i.
    destruct (decide (i = a)) as [->|]; [|destruct (decide (i = b)) as [->|]; [|destruct (decide (i = c)) as [->|]; [|destruct (decide (i = d)) as [->|]]]];
      repeat first [rewrite list_lookup_insert_eq by (rewrite ?length_insert; lia) | rewrite list_lookup_insert_ne by congruence]; done. }
  destruct (mix_words_rfc v.[a] v.[b] v.[c] v.[d] x y) as [-> Hu]; try (by apply is_u_get).
  unfold RFC.mix_at. destruct (RFC.mix _ _ _ _ _ _) as [[[p q] r] s]. split; [done|]. split; [by rewrite !length_insert|].
  rewrite !Forall_cons in Hu. destruct Hu as (? & ? & ? & ? & _). by repeat apply Forall_insert.
Qed.

(** The places of a round's mixes. *)
Definition places (i : nat) : list nat :=
  let k := (i mod 4)%nat in let s := (i / 4)%nat in
  [k; 4 + (k + s) mod 4; 8 + (k + 2 * s) mod 4; 12 + (k + 3 * s) mod 4]%nat.

#[local] Opaque B2S_G.
Lemma round_steps m v s : blake2s_round m v s = foldl (λ v i,
  B2S_G (nth 0 (places i) 0%nat) (nth 1 (places i) 0%nat) (nth 2 (places i) 0%nat) (nth 3 (places i) 0%nat)
    m.[default 0%nat (s !! (2 * i)%nat)] m.[default 0%nat (s !! (2 * i + 1)%nat)] v) v (seq 0 8).
Proof. reflexivity. Qed.
#[local] Transparent B2S_G.

(** One round, the words in the order of the table's row. *)
Lemma round_rfc m v r : length v = 16%nat → Forall (is_u 32) v → (r < 10)%nat →
  blake2s_round ((λ i, le_val (slice (4 * i) 4 m)) <$> seq 0 16) v (RFC.schedule r <$> seq 0 16) =
    RFC.round (λ i, le_val (slice (4 * i) 4 m)) v r ∧
  length (RFC.round (λ i, le_val (slice (4 * i) 4 m)) v r) = 16%nat ∧
  Forall (is_u 32) (RFC.round (λ i, le_val (slice (4 * i) 4 m)) v r).
Proof.
  intros Hl Hv Hr. set (w := λ i, le_val (slice (4 * i) 4 m)). set (code := w <$> seq 0 16).
  assert (∀ i, (i < 16)%nat → code.[default 0%nat ((RFC.schedule r <$> seq 0 16) !! i)] = w (RFC.schedule r i)) as Hw.
  { intros i Hi. rewrite list_lookup_fmap, lookup_seq_lt by lia. cbn [fmap option_fmap option_map default from_option id].
    unfold code, get. rewrite list_lookup_fmap, lookup_seq_lt; [done|]. change (0 + i)%nat with i. unfold RFC.schedule.
    pose proof (Z.mod_pos_bound (RFC.SIGMA.[r] / 16 ^ (15 - Z.of_nat i)) 16 ltac:(lia)). lia. }
  rewrite round_steps.
  unfold RFC.round. assert (Forall (λ i, i < 8)%nat (seq 0 8)) as Hs by (apply Forall_seq; lia).
  revert v Hl Hv Hs. generalize (seq 0 8) as l. intros l. induction l as [|i l IH]; intros v Hl Hv Hs; [done|].
  inversion_clear Hs as [|?? Hi Hs']. cbn [foldl]. rewrite !Hw by lia.
  destruct (B2S_G_rfc (nth 0 (places i) 0%nat) (nth 1 (places i) 0%nat) (nth 2 (places i) 0%nat) (nth 3 (places i) 0%nat)
    (w (RFC.schedule r (2 * i))) (w (RFC.schedule r (2 * i + 1))) v Hl Hv) as (E & El & Ev).
  - do 8 (destruct i as [|i]; [refine (bool_decide_unpack _ _); by vm_compute|]). lia.
  - do 8 (destruct i as [|i]; [refine (bool_decide_unpack _ _); by vm_compute|]). lia.
  - rewrite E in El, Ev |- *. by apply IH.
Qed.

Lemma sigma_rfc : sigma = (λ r, RFC.schedule r <$> seq 0 16) <$> seq 0 10.
Proof. by vm_compute. Qed.

Lemma iv_rfc : blake2s_iv = RFC.IV.
Proof. by vm_compute. Qed.

Lemma le_word b i : is_bytes b → (4 * i + 4 <= length b)%nat → U8TO32_LITTLE (drop (4 * i) b) = le_val (slice (4 * i) 4 b).
Proof. intros Hb Hl. rewrite U8TO32_LITTLE_get, get_le32_val by (len || auto with word). done. Qed.

Lemma rounds_rfc m v : length v = 16%nat → Forall (is_u 32) v → length m = 64%nat → is_bytes m →
  let v' := foldl (blake2s_round ((λ i, U8TO32_LITTLE (drop (4 * i) m)) <$> seq 0 16)) v sigma in
  v' = foldl (RFC.round (λ i, le_val (slice (4 * i) 4 m))) v (seq 0 10) ∧ length v' = 16%nat ∧ Forall (is_u 32) v'.
Proof.
  intros Hl Hv Hm Hb. assert ((λ i, U8TO32_LITTLE (drop (4 * i) m)) <$> seq 0 16 = (λ i, le_val (slice (4 * i) 4 m)) <$> seq 0 16) as ->.
  { apply list_fmap_ext. intros k i Hk%lookup_seq. apply le_word; [done|lia]. }
  rewrite sigma_rfc. assert (Forall (λ i, i < 10)%nat (seq 0 10)) as Hs by (apply Forall_seq; lia).
  revert v Hl Hv Hs. generalize (seq 0 10) as l. intros l. induction l as [|r l IH]; intros v Hl Hv Hs; [done|].
  inversion_clear Hs as [|?? Hr Hs']. rewrite fmap_cons. cbn [foldl]. destruct (round_rfc m v r Hl Hv Hr) as (-> & El & Ev). by apply IH.
Qed.

Lemma xor_words l k : Forall (is_u 32) l → Forall (is_u 32) k → Forall (is_u 32) (zip_with Z.lxor l k).
Proof.
  intros Hl. revert k. induction Hl as [|x l Hx _ IH]; intros k Hk; [constructor|]. destruct Hk as [|y k Hy Hk]; [constructor|].
  cbn [zip_with]. constructor; [by apply is_u_lxor|by apply IH].
Qed.

Lemma compress_rfc h b t last : length h = 8%nat → Forall (is_u 32) h → length b = 64%nat → is_bytes b →
  compress h b (t mod 2 ^ 32) (t / 2 ^ 32 mod 2 ^ 32) last = RFC.compression h b t last ∧
  Forall (is_u 32) (RFC.compression h b t last).
Proof.
  intros Hl Hh Hb Hby. unfold compress, RFC.compression. rewrite <- iv_rfc.
  pose proof (is_u_mod 32 t ltac:(lia)) as Ht0. pose proof (is_u_mod 32 (t / 2 ^ 32) ltac:(lia)) as Ht1.
  set (t0 := t mod 2 ^ 32) in *. set (t1 := t / 2 ^ 32 mod 2 ^ 32) in *. clearbody t0 t1.
  assert (Forall (is_u 32) blake2s_iv) as Hiv by (unfold blake2s_iv; word_list).
  set (tweak := replicate 12 0 ++ [t0; t1; if last then 2 ^ 32 - 1 else 0; 0]).
  match goal with |- context [foldl (blake2s_round _) ?w sigma] => assert (w = zip_with Z.lxor (h ++ blake2s_iv) tweak) as -> end.
  { clear Hh Hiv. explode h Hl. unfold tweak. destruct last; cbn; rewrite !Z.lxor_0_r; reflexivity. }
  destruct (rounds_rfc b (zip_with Z.lxor (h ++ blake2s_iv) tweak)) as (-> & El & Ev); [| |done|done|].
  { rewrite length_zip_with, length_app, Hl. done. }
  { assert (Forall (is_u 32) (h ++ blake2s_iv)) as Hw by (by apply Forall_app).
    assert (Forall (is_u 32) tweak) as Ht by (unfold tweak; destruct last; repeat (apply Forall_cons_2; [by (done || unfold is_u; lia)|]); constructor).
    by apply xor_words. }
  set (v := foldl _ _ _) in *. clearbody v tweak. clear tweak. split.
  - explode h Hl. explode v El. done.
  - apply xor_words, xor_words; [done|by apply Forall_take|by apply Forall_drop].
Qed.

(** ** The hash block by block

    What the buffer and the byte count amount to, still with the code's own
    compression function. *)
Definition F (h block : list Z) (t : Z) (last : bool) : list Z :=
  compress h (block ++ replicate (64 - length block) 0)
    (t mod 2 ^ 32) (t / 2 ^ 32 mod 2 ^ 32) last.

(** The chained state after the data blocks, the last one flagged. *)
Fixpoint hash_blocks (fuel : nat) (h : list Z) (t : Z) (data : list Z) : list Z :=
  match fuel with
  | O => h
  | S fuel =>
    if (length data <=? 64)%nat then F h data (t + zlen data) true
    else hash_blocks fuel (F h (take 64 data) (t + 64) false) (t + 64) (drop 64 data)
  end.

(** A key makes a first block of its own. *)
Definition keyed_data (key inp : list Z) : list Z :=
  if (0 <? length key)%nat then key ++ replicate (64 - length key) 0 ++ inp else inp.

Definition blake2s_spec (outlen : nat) (key inp : list Z) : list Z :=
  let h := <[0%nat := blake2s_iv.[0] .^
               (0x01010000 .^ (zlen key .<< 8) .^ Z.of_nat outlen)]> blake2s_iv in
  let data := keyed_data key inp in
  take outlen (concat (le_bytes 4 <$> hash_blocks (S (length data)) h 0 data)).

(** ** Lemmas *)

Lemma length_compress h b t0 t1 last : length (compress h b t0 t1 last) = 8%nat.
Proof. unfold compress. by rewrite length_fmap, length_seq. Qed.

#[local] Opaque compress hash_blocks.

(** The two words of the byte count. *)
Definition count_is (ctx : blake2s_ctx) (t : Z) : Prop :=
  ctx.(bl_t0) = t mod 2 ^ 32 ∧ ctx.(bl_t1) = t / 2 ^ 32 mod 2 ^ 32.

(** The carry test of the code is right for any increment below a word. *)
Lemma add_count_is ctx t : 0 <= t → Z.of_nat ctx.(bl_c) < 2 ^ 32 →
  count_is ctx t → count_is (add_count ctx) (t + Z.of_nat ctx.(bl_c)).
Proof.
  intros Ht Hc [H0 H1]. unfold count_is, add_count; cbn [bl_t0 bl_t1]. rewrite H0, H1.
  rewrite !u32_mod. set (c := Z.of_nat (bl_c ctx)) in *.
  assert (0 <= c) by (unfold c; lia). clearbody c.
  split; [by rewrite Z.add_mod_idemp_l|].
  pose proof (Z.div_mod t (2 ^ 32) ltac:(lia)) as Ed.
  pose proof (Z.mod_pos_bound t (2 ^ 32) ltac:(lia)) as Hb.
  destruct (decide (t mod 2 ^ 32 + c < 2 ^ 32)) as [Hlt|Hge].
  - rewrite (Z.mod_small (t mod 2 ^ 32 + c)) by lia.
    rewrite (proj2 (Z.ltb_ge (t mod 2 ^ 32 + c) c)) by lia.
    f_equal. apply Z.div_unique with (t mod 2 ^ 32 + c); lia.
  - replace ((t mod 2 ^ 32 + c) mod 2 ^ 32) with (t mod 2 ^ 32 + c - 2 ^ 32)
      by (apply Z.mod_unique with 1; lia).
    rewrite (proj2 (Z.ltb_lt _ c)) by lia. rewrite Z.add_mod_idemp_l by lia. f_equal.
    apply Z.div_unique with (t mod 2 ^ 32 + c - 2 ^ 32); lia.
Qed.

Definition hb (h : list Z) (t : Z) (data : list Z) : list Z :=
  hash_blocks (S (length data)) h t data.

#[local] Transparent hash_blocks.
Lemma hash_blocks_fuel f h t data :
  (length data < f)%nat → hash_blocks f h t data = hb h t data.
Proof.
  unfold hb. remember (length data) as n eqn:Hn. revert f h t data Hn.
  induction (lt_wf n) as [n _ IH]. intros f h t data Hn Hf.
  destruct f as [|f]; [lia|]. cbn [hash_blocks]. rewrite <- Hn.
  destruct (n <=? 64)%nat eqn:E; [done|]. apply Nat.leb_gt in E.
  assert (length (drop 64 data) < n)%nat by len.
  rewrite (IH (length (drop 64 data))) by (done || lia).
  symmetry. apply (IH (length (drop 64 data))); done || lia.
Qed.

Lemma hb_step h t data : (64 < length data)%nat →
  hb h t data = hb (F h (take 64 data) (t + 64) false) (t + 64) (drop 64 data).
Proof.
  intros Hl. unfold hb at 1. cbn [hash_blocks].
  rewrite (proj2 (Nat.leb_gt _ _)) by done. apply hash_blocks_fuel. len.
Qed.

Lemma hb_last h t data : (length data <= 64)%nat →
  hb h t data = F h data (t + zlen data) true.
Proof. intros Hl. unfold hb. cbn [hash_blocks]. by rewrite (proj2 (Nat.leb_le _ _)). Qed.

#[local] Opaque hash_blocks.

(** [ctx] has absorbed [data], from the chained state [h0]: what is still to be
    hashed is the buffered part. *)
Record blake_inv (outlen : nat) (h0 data : list Z) (ctx : blake2s_ctx) : Prop := {
  bi_out : ctx.(bl_outlen) = outlen;
  bi_b : length ctx.(bl_b) = 64%nat;
  bi_c : (ctx.(bl_c) <= 64)%nat;
  bi_hash : ∃ t, 0 <= t ∧ count_is ctx t ∧
    ∀ z, hb h0 0 (data ++ z) = hb ctx.(bl_h) t (take ctx.(bl_c) ctx.(bl_b) ++ z)
}.

Lemma blake2s_byte_inv outlen h0 data ctx x :
  blake_inv outlen h0 data ctx → blake_inv outlen h0 (data ++ [x]) (blake2s_byte ctx x).
Proof.
  intros [Ho Hb Hc (t & Ht & Hcnt & Hh)]. unfold blake2s_byte.
  destruct (bl_c ctx =? 64)%nat eqn:E.
  - apply Nat.eqb_eq in E.
    split; cbn [set_bc blake2s_compress add_count bl_outlen bl_b bl_c bl_h];
      [exact Ho|by rewrite length_insert|lia|].
    exists (t + 64). split; [lia|].
    pose proof (add_count_is ctx t Ht ltac:(lia) Hcnt) as Hcnt'. rewrite E in Hcnt'.
    change (Z.of_nat 64) with 64 in Hcnt'.
    split; [exact Hcnt'|]. intros z.
    rewrite <- app_assoc, Hh, E. rewrite (take_ge (bl_b ctx)) by lia.
    rewrite hb_step by (simpl; len). rewrite take_app_le, drop_app_le by lia.
    rewrite take_ge, drop_ge by lia.
    replace (take 1 (<[0%nat:=x]> (bl_b ctx))) with [x]
      by (destruct (bl_b ctx); [discriminate Hb|reflexivity]).
    unfold F. rewrite Hb. cbn [replicate Nat.sub]. rewrite app_nil_r.
    destruct Hcnt' as [<- <-]. reflexivity.
  - apply Nat.eqb_neq in E.
    split; cbn [set_bc bl_outlen bl_b bl_c bl_h]; [exact Ho|by rewrite length_insert|lia|].
    exists t. split; [done|]. split; [done|]. intros z.
    rewrite <- app_assoc, Hh. f_equal.
    rewrite (take_S_r _ _ x) by (apply list_lookup_insert_eq; lia).
    rewrite take_insert_ge by lia. by rewrite <- app_assoc.
Qed.

Lemma blake2s_update_inv outlen h0 data ctx inp :
  blake_inv outlen h0 data ctx → blake_inv outlen h0 (data ++ inp) (blake2s_update ctx inp).
Proof.
  revert data ctx; induction inp as [|x inp IH]; intros data ctx Hi; cbn.
  - by rewrite app_nil_r.
  - replace (data ++ x :: inp) with ((data ++ [x]) ++ inp) by (by rewrite <- app_assoc).
    apply IH. by apply blake2s_byte_inv.
Qed.

(** The digest bytes are the little-endian words. *)
Lemma digest_bytes h n : length h = 8%nat → (n <= 32)%nat →
  (λ i, (h.[i / 4] .>> (8 * Z.of_nat (i mod 4))) .& 0xFF) <$> seq 0 n =
  take n (concat (le_bytes 4 <$> h)).
Proof.
  intros Hl Hn.
  assert ((λ i, (h.[i / 4] .>> (8 * Z.of_nat (i mod 4))) .& 0xFF) <$> seq 0 32 =
    concat (le_bytes 4 <$> h)) as <-.
  - explode h Hl. cbn [fmap list_fmap concat].
    rewrite <- (U32TO8_LITTLE_le x), <- (U32TO8_LITTLE_le x0), <- (U32TO8_LITTLE_le x1),
      <- (U32TO8_LITTLE_le x2), <- (U32TO8_LITTLE_le x3), <- (U32TO8_LITTLE_le x4),
      <- (U32TO8_LITTLE_le x5), <- (U32TO8_LITTLE_le x6).
    unfold U32TO8_LITTLE, u8. cbn [seq fmap list_fmap]. cbn [app].
    change (8 * Z.of_nat (0 mod 4)) with 0.
    unfold get; cbn. rewrite ?Z.shiftr_0_r.
    repeat (apply (f_equal2 cons); [rewrite ?Z.shiftr_0_r; reflexivity|]). done.
  - rewrite <- fmap_take. f_equal. symmetry. rewrite take_seq. f_equal. lia.
Qed.

Lemma blake2s_final_spec outlen h0 data ctx :
  blake_inv outlen h0 data ctx → (outlen <= 32)%nat →
  blake2s_final ctx = take outlen (concat (le_bytes 4 <$> hb h0 0 data)).
Proof.
  intros [Ho Hb Hc (t & Ht & Hcnt & Hh)] Hlen. unfold blake2s_final.
  rewrite digest_bytes; cbn; [|apply length_compress|lia].
  rewrite Ho. do 3 f_equal.
  specialize (Hh []). rewrite !app_nil_r in Hh. rewrite Hh, hb_last by len.
  unfold F. assert (length (take (bl_c ctx) (bl_b ctx)) = bl_c ctx) as Hl by len.
  unfold zlen. rewrite Hl.
  by destruct (add_count_is ctx t Ht ltac:(lia) Hcnt) as [<- <-].
Qed.

(** While the buffer does not fill, the update only stores bytes. *)
Lemma blake2s_update_short ctx inp :
  (ctx.(bl_c) + length inp <= 64)%nat → length ctx.(bl_b) = 64%nat →
  blake2s_update ctx inp =
    set_bc ctx (take ctx.(bl_c) ctx.(bl_b) ++ inp ++ drop (ctx.(bl_c) + length inp) ctx.(bl_b))
      (ctx.(bl_c) + length inp).
Proof.
  revert ctx; induction inp as [|x inp IH]; intros ctx Hl Hb; cbn [blake2s_update foldl].
  - cbn [length app]. rewrite !Nat.add_0_r, take_drop. by destruct ctx.
  - simpl in Hl. unfold blake2s_update in IH. unfold blake2s_byte at 2.
    rewrite (proj2 (Nat.eqb_neq _ _)) by lia.
    rewrite IH; cbn [set_bc bl_b bl_c]; [|lia|by rewrite length_insert].
    unfold set_bc; cbn. f_equal; [|lia].
    rewrite (take_S_r _ _ x) by (apply list_lookup_insert_eq; lia).
    rewrite take_insert_ge, drop_insert_lt by lia.
    rewrite <- app_assoc. cbn [app]. do 4 f_equal. lia.
Qed.

Definition init_h (outlen : nat) (key : list Z) : list Z :=
  <[0%nat := blake2s_iv.[0] .^ (0x01010000 .^ (zlen key .<< 8) .^ Z.of_nat outlen)]> blake2s_iv.

Lemma blake2s_init_inv outlen key ctx : blake2s_init outlen key = Some ctx →
  (0 < outlen <= 32)%nat ∧ (length key <= 32)%nat ∧
  blake_inv outlen (init_h outlen key) (keyed_data key []) ctx.
Proof.
  unfold blake2s_init.
  destruct (outlen =? 0)%nat eqn:E1; [done|]. destruct (32 <? outlen)%nat eqn:E2; [done|].
  destruct (32 <? length key)%nat eqn:E3; [done|]. cbn [orb].
  apply Nat.eqb_neq in E1. apply Nat.ltb_ge in E2, E3.
  fold (init_h outlen key).
  set (ctx0 := {| bl_b := replicate 64 0; bl_h := init_h outlen key; bl_t0 := 0; bl_t1 := 0;
                  bl_c := 0; bl_outlen := outlen |}).
  unfold keyed_data. intros H. split; [lia|]. split; [lia|].
  destruct (0 <? length key)%nat eqn:E4; apply (inj Some) in H; subst ctx.
  - rewrite blake2s_update_short by (cbn [ctx0 bl_c bl_b]; len).
    cbn [ctx0 set_bc bl_b bl_c]. rewrite take_0. cbn [app Nat.add].
    rewrite drop_replicate, app_nil_r.
    split; cbn [set_bc bl_outlen bl_b bl_c]; [done|len|lia|].
    exists 0. split; [lia|]. split; [done|]. intros z.
    rewrite take_ge by len. done.
  - split; [done|done|cbn; lia|]. exists 0. split; [lia|]. split; [done|]. done.
Qed.

(** The hash is the RFC's, in all the cases the code accepts. *)
Lemma blake2s_correct outlen key inp :
  (0 < outlen <= 32)%nat → (length key <= 32)%nat →
  blake2s outlen key inp = Some (blake2s_spec outlen key inp).
Proof.
  intros Ho Hk. unfold blake2s.
  destruct (blake2s_init outlen key) as [ctx|] eqn:E.
  - destruct (blake2s_init_inv _ _ _ E) as (_ & _ & Hi).
    f_equal. rewrite (blake2s_final_spec outlen (init_h outlen key) (keyed_data key [] ++ inp));
      [|by apply blake2s_update_inv|lia].
    unfold blake2s_spec. fold (init_h outlen key). fold (hb (init_h outlen key) 0 (keyed_data key inp)).
    do 4 f_equal. unfold keyed_data. case_match; [|done].
    by rewrite app_nil_r, <- app_assoc.
  - exfalso. unfold blake2s_init in E. revert E.
    rewrite (proj2 (Nat.eqb_neq outlen 0)), (proj2 (Nat.ltb_ge 32 outlen)),
      (proj2 (Nat.ltb_ge 32 (length key))) by lia.
    cbn [orb]. by case_match.
Qed.

(** The context interface: hashing pieces in sequence hashes the concatenation. *)
Lemma blake2s_pieces outlen key ctx inp :
  blake2s_init outlen key = Some ctx →
  blake2s_final (blake2s_update ctx inp) = blake2s_spec outlen key inp.
Proof.
  intros E. destruct (blake2s_init_inv _ _ _ E) as (Ho & Hk & _).
  pose proof (blake2s_correct outlen key inp Ho Hk) as H.
  unfold blake2s in H. rewrite E in H. congruence.
Qed.

Lemma blake2s_update_app ctx a b :
  blake2s_update ctx (a ++ b) = blake2s_update (blake2s_update ctx a) b.
Proof. apply foldl_app. Qed.

Lemma length_hb h t data : length (hb h t data) = 8%nat.
Proof.
  remember (length data) as n eqn:Hn. revert h t data Hn.
  induction (lt_wf n) as [n _ IH]. intros h t data Hn.
  destruct (decide (n <= 64)%nat).
  - rewrite hb_last by lia. apply length_compress.
  - rewrite hb_step by lia. apply (IH (length (drop 64 data))); [len|done].
Qed.

Lemma length_blake2s_spec outlen key inp :
  (outlen <= 32)%nat → length (blake2s_spec outlen key inp) = outlen.
Proof.
  intros Ho. unfold blake2s_spec. fold (init_h outlen key).
  fold (hb (init_h outlen key) 0 (keyed_data key inp)).
  pose proof (length_hb (init_h outlen key) 0 (keyed_data key inp)) as H8.
  revert H8. generalize (hb (init_h outlen key) 0 (keyed_data key inp)). intros l H8.
  rewrite length_take. explode l H8. simpl. lia.
Qed.

Lemma blake2s_spec_bytes outlen key inp : is_bytes (blake2s_spec outlen key inp).
Proof.
  unfold blake2s_spec. apply is_bytes_take, Forall_concat, Forall_fmap, Forall_true.
  intros. apply le_bytes_bytes.
Qed.
#[export] Hint Resolve blake2s_spec_bytes : word.

(** *** Chaining *)

Lemma F_rfc h d t last : length h = 8%nat → Forall (is_u 32) h → is_bytes d → (length d <= 64)%nat →
  F h d t last = RFC.compression h (d ++ replicate (64 - length d) 0) t last ∧ length (F h d t last) = 8%nat ∧ Forall (is_u 32) (F h d t last).
Proof.
  intros Hl Hh Hd Hz. unfold F. destruct (compress_rfc h (d ++ replicate (64 - length d) 0) t last Hl Hh) as [-> Hu]; [len|auto with word|].
  split; [done|]. split; [|done]. rewrite <- (proj1 (compress_rfc h (d ++ replicate (64 - length d) 0) t last Hl Hh ltac:(len) ltac:(auto with word))).
  apply length_compress.
Qed.

Lemma blocks_more data : (64 < length data)%nat → RFC.blocks data = S (RFC.blocks (drop 64 data)).
Proof.
  intros Hl. unfold RFC.blocks. rewrite length_drop. replace (length data + 63)%nat with ((length data - 64 + 63) + 1 * 64)%nat by lia.
  rewrite Nat.div_add by lia. assert (1 <= (length data - 64 + 63) / 64)%nat by (apply Nat.div_le_lower_bound; lia). lia.
Qed.

Lemma block_more data i : RFC.block data (S i) = RFC.block (drop 64 data) i.
Proof. unfold RFC.block, slice. by replace (drop (64 * S i) data) with (drop (64 * i) (drop 64 data)) by (rewrite drop_drop; f_equal; lia). Qed.

(** A number below [2 ^ n] shares no bit with a multiple of it. *)
Lemma land_low_high n a b : 0 <= n → 0 <= b < 2 ^ n → (∃ k, a = k * 2 ^ n) → a .& b = 0.
Proof.
  intros Hn Hb [k ->]. apply Z.bits_inj'. intros i Hi. rewrite Z.land_spec, Z.bits_0.
  destruct (decide (i < n)); [by rewrite Z.mul_pow2_bits_low|]. rewrite (is_u_testbit n b) by (done || lia). apply andb_false_r.
Qed.

Lemma foldl_same {A B} (f g : A → B → A) x l : (∀ a b, f a b = g a b) → foldl f x l = foldl g x l.
Proof. intros H. revert x. induction l as [|b l IH]; intros x; [done|]. cbn [foldl]. by rewrite H. Qed.

Lemma chain_rfc data : ∀ h t, length h = 8%nat → Forall (is_u 32) h → is_bytes data → hb h t data = RFC.chain h t data.
Proof.
  remember (length data) as n eqn:Hn. revert data Hn. induction (lt_wf n) as [n _ IH]. intros data Hn h t Hl Hh Hd.
  destruct (decide (n <= 64)%nat) as [Hle|Hgt].
  - rewrite hb_last by lia. unfold RFC.chain. assert (RFC.blocks data = 1%nat) as ->.
    { unfold RFC.blocks. rewrite <- Hn. destruct (decide (n = 0)%nat) as [->|]; [done|].
      assert ((n + 63) / 64 < 2)%nat by (apply Nat.Div0.div_lt_upper_bound; lia). lia. }
    cbn [Nat.sub seq foldl]. destruct (F_rfc h data (t + zlen data) true Hl Hh Hd ltac:(lia)) as [-> _].
    f_equal. unfold RFC.block, slice. cbn [Nat.mul]. by rewrite drop_0, take_ge by lia.
  - rewrite hb_step by lia. destruct (F_rfc h (take 64 data) (t + 64) false Hl Hh ltac:(auto with word) ltac:(len)) as (E & El & Eh).
    rewrite (IH (length (drop 64 data))); [|len|done|done|done|auto with word].
    unfold RFC.chain. rewrite (blocks_more data) by lia. pose proof (Nat.le_max_l 1 ((length (drop 64 data) + 63) / 64)) as Hb1.
    fold (RFC.blocks (drop 64 data)) in Hb1. set (dd := RFC.blocks (drop 64 data)) in *. cbn [Nat.sub].
    destruct dd as [|dd]; [lia|]. cbn [Nat.sub]. rewrite Nat.sub_0_r. cbn [seq foldl]. rewrite <- fmap_S_seq.
    rewrite foldl_fmap, E. assert (RFC.block data 0 = take 64 data ++ replicate (64 - length (take 64 data)) 0) as <-.
    { unfold RFC.block, slice. cbn [Nat.mul]. by rewrite drop_0. }
    rewrite (block_more data dd). assert (t + 64 + zlen (drop 64 data) = t + zlen data) as -> by (unfold zlen; rewrite length_drop; lia).
    refine (f_equal (λ x, RFC.compression x _ _ true) _). replace (t + 64 * (Z.of_nat 0 + 1)) with (t + 64) by lia.
    apply foldl_same. intros h' i. rewrite block_more. by replace (t + 64 + 64 * (Z.of_nat i + 1)) with (t + 64 * (Z.of_nat (S i) + 1)) by lia.
Qed.

Lemma spec_rfc outlen key inp : (0 < outlen <= 32)%nat → (length key <= 32)%nat → is_bytes key → is_bytes inp →
  blake2s_spec outlen key inp = RFC.hash outlen key inp.
Proof.
  intros Ho Hk Hkb Hi. unfold blake2s_spec, RFC.hash. fold (init_h outlen key). fold (hb (init_h outlen key) 0 (keyed_data key inp)).
  assert (keyed_data key inp = (if decide (key = []) then [] else key ++ replicate (64 - length key) 0) ++ inp) as ->.
  { unfold keyed_data. destruct key as [|x key]; [done|]. rewrite decide_False by done. rewrite (proj2 (Nat.ltb_lt 0 _)) by (cbn; lia). by rewrite <- app_assoc. }
  assert (0 <= zlen key <= 32) as Hz by (unfold zlen; lia).
  assert (init_h outlen key = zip_with Z.lxor RFC.IV (0x01010000 + 256 * zlen key + Z.of_nat outlen :: replicate 7 0)) as E.
  { rewrite <- iv_rfc. unfold init_h.
    assert (0x01010000 .^ (zlen key .<< 8) .^ Z.of_nat outlen = 0x01010000 + 256 * zlen key + Z.of_nat outlen) as ->.
    { rewrite Z.shiftl_mul_pow2 by lia. rewrite <- (Z.add_nocarry_lxor 0x01010000), <- Z.add_nocarry_lxor; [lia|..].
      - apply (land_low_high 8); [lia..|]. exists (0x010100 + zlen key). lia.
      - apply (land_low_high 16); [lia..|]. exists 257. lia. }
    reflexivity. }
  assert (Forall (is_u 32) (init_h outlen key)) as Hw.
  { rewrite E. apply xor_words; [rewrite <- iv_rfc; unfold blake2s_iv; word_list|].
    apply Forall_cons_2; [unfold is_u; lia|]. by apply Forall_replicate. }
  rewrite E in Hw |- *. rewrite chain_rfc; [done|by rewrite length_zip_with|exact Hw|].
  apply is_bytes_app; [|done]. destruct (decide _); [constructor|auto with word].
Qed.

(** ** Properties *)

(** C11: BLAKE2s. The one-shot function gives RFC 7693's digest for every accepted
    digest and key length, and a context fed in pieces gives the digest of the
    concatenation. The RFC's function is written apart from the code down to the rounds:
    its own initial vector, message schedule, mixing, rotation and byte order. *)
Theorem blake2s_is_rfc7693 outlen key pieces :
  (0 < outlen <= 32)%nat → (length key <= 32)%nat → is_bytes key → Forall (λ p, is_bytes p) pieces →
  blake2s outlen key (concat pieces) = Some (RFC.hash outlen key (concat pieces)) ∧
  ∃ ctx, blake2s_init outlen key = Some ctx ∧
    blake2s_final (foldl blake2s_update ctx pieces) = RFC.hash outlen key (concat pieces).
Proof.
  intros Ho Hk Hkb Hp. assert (is_bytes (concat pieces)) as Hb by (by apply Forall_concat).
  rewrite <- spec_rfc by (done || lia). split; [by apply blake2s_correct|].
  pose proof (blake2s_correct outlen key [] Ho Hk) as H. unfold blake2s in H.
  destruct (blake2s_init outlen key) as [ctx|] eqn:E; [|discriminate H].
  exists ctx. split; [done|]. rewrite <- (blake2s_pieces outlen key ctx) by done.
  f_equal. clear. revert ctx. induction pieces as [|p ps IH]; intros ctx; [done|].
  cbn [foldl concat]. by rewrite IH, blake2s_update_app.
Qed.

Lemma blake2s_is_rfc7693_witness :
  blake2s 32 [] [97; 98; 99] = Some (RFC.hash 32 [] [97; 98; 99]).
Proof.
  refine (proj1 (blake2s_is_rfc7693 32 [] [[97]; [98; 99]] ltac:(lia) ltac:(cbn; lia) _ _)); [constructor|].
  repeat (constructor; [word_list|]). constructor.
Defined.

(** The digest of "abc" is RFC 7693 appendix B's. *)
Theorem blake2s_abc : blake2s 32 [] [97; 98; 99] =
  Some (be_bytes 32 0x508c5e8c327c14e2e1a72ba34eeb452f37458b209ed63a294d999b4c86675982).
Proof. vm_compute. reflexivity. Qed.
