(* ===== verification/X25519.v ===== *)
(** * crypto/x25519.c: the X25519 function

    Field elements are eight 32-bit limbs ([X25519_WBITS] is 32, so [NLIMBS] is 8;
    the signing code is compiled out). The limb routines are shown to compute in
    [Z/(2^255-19)], the precomputed chain to compute the inverse by Fermat, and
    the whole function to be the Montgomery ladder of RFC 7748 over that field. *)
From S2P Require Import Prelude Crypto.

Definition NLIMBS : nat := 8.
Definition X25519_BYTES : nat := 32.

(** ** Limb arithmetic: each returns the limb and the new carry *)

Definition umaal (carry acc mand mier : Z) : Z * Z :=
  let tmp := u64 (mand * mier + acc + carry) in (u32 tmp, u32 (tmp .>> 32)).

Definition adc (carry acc mand : Z) : Z * Z :=
  let total := u64 (carry + acc + mand) in (u32 total, u32 (total .>> 32)).

Definition adc0 (carry acc : Z) : Z * Z :=
  let total := u64 (carry + acc) in (u32 total, u32 (total .>> 32)).

(** [for (i...) x[i] = adc0(&carry, x[i])] *)
Fixpoint adc0_loop (carry : Z) (x : list Z) : list Z * Z :=
  match x with
  | [] => ([], carry)
  | xi :: x =>
    let '(o, carry) := adc0 carry xi in
    let '(out, carry) := adc0_loop carry x in (o :: out, carry)
  end.

Definition propagate (x : list Z) (over : Z) : list Z :=
  let over := (x.[7] .>> 31) .| u32 (over .<< 1) in
  let x := <[7%nat := x.[7] .& u32 (Z.lnot (1 .<< 31))]> x in
  let carry := u32 (over * 19) in
  (adc0_loop carry x).1.

(** [for (i...) out[i] = adc(&carry, a[i], b[i])] *)
Fixpoint adc_loop (carry : Z) (a b : list Z) : list Z * Z :=
  match a, b with
  | ai :: a, bi :: b =>
    let '(o, carry) := adc carry ai bi in
    let '(out, carry) := adc_loop carry a b in (o :: out, carry)
  | _, _ => ([], carry)
  end.

Definition add (a b : list Z) : list Z :=
  let '(out, carry) := adc_loop 0 a b in propagate out carry.

(** [out[i] = carry = carry + a[i] - b[i]; carry >>= 32], the carry signed. *)
Fixpoint sbc_loop (carry : Z) (a b : list Z) : list Z * Z :=
  match a, b with
  | ai :: a, bi :: b =>
    let carry := carry + ai - bi in
    let '(out, carry') := sbc_loop (carry .>> 32) a b in (u32 carry :: out, carry')
  | _, _ => ([], carry)
  end.

Definition sub (a b : list Z) : list Z :=
  let '(out, carry) := sbc_loop (-38) a b in propagate out (u32 (1 + carry)).

(** The inner loop of [mul]: [accum[i+j] = umaal(&carry2, accum[i+j], mand, a[j])]. *)
Fixpoint mul_row (carry mand : Z) (accum a : list Z) : list Z * Z :=
  match accum, a with
  | acc :: accum, aj :: a =>
    let '(o, carry) := umaal carry acc mand aj in
    let '(out, carry) := mul_row carry mand accum a in (o :: out, carry)
  | _, _ => ([], carry)
  end.

(** One turn of the outer loop, which ends with [accum[i+j] = carry2]. *)
Definition mul_step (a b : list Z) (accum : list Z) (i : nat) : list Z :=
  let '(row, carry2) := mul_row 0 b.[i] (take NLIMBS (drop i accum)) a in
  blit i (row ++ [carry2]) accum.

(** [out[j] = umaal(&carry2, accum[j], 38, accum[j+NLIMBS])] *)
Definition mul (a b : list Z) (nb : nat) : list Z :=
  let accum := foldl (mul_step a b) (replicate (2 * NLIMBS) 0) (seq 0 nb) in
  let '(out, carry2) := mul_row 0 38 (take NLIMBS accum) (drop NLIMBS accum) in
  propagate out carry2.

Definition sqr (a : list Z) : list Z := mul a a NLIMBS.

(** [mul1(out, a)] computes [out := a * out]. *)
Definition mul1 (out a : list Z) : list Z := mul a out NLIMBS.
Definition sqr1 (a : list Z) : list Z := mul1 a a.

Definition condswap (a b : list Z) (doswap : Z) : list Z * list Z :=
  let xors := zip_with (λ x y, (x .^ y) .& doswap) a b in
  (zip_with Z.lxor a xors, zip_with Z.lxor b xors).

(** [res |= x[i] = carry += x[i]; carry >>= 32], the carry signed. *)
Fixpoint canon_loop (carry res : Z) (x : list Z) : list Z * Z :=
  match x with
  | [] => ([], res)
  | xi :: x =>
    let carry := carry + xi in
    let '(out, res') := canon_loop (carry .>> 32) (res .| u32 carry) x in
    (u32 carry :: out, res')
  end.

(** The least residue, and the [limb_t] the code returns: all ones for zero. *)
Definition canon (x : list Z) : list Z * Z :=
  let '(x, carry0) := adc0_loop 19 x in
  let x := propagate x carry0 in
  let '(x, res) := canon_loop (-19) 0 x in
  (x, u32 (u64 (res - 1) .>> 32)).

Definition swapin (inp : list Z) : list Z :=
  (λ i, get_le32 (drop (4 * i) inp)) <$> seq 0 NLIMBS.
Definition swapout (x : list Z) : list Z := concat (le_bytes 4 <$> x).

(** ** The Montgomery ladder *)

Definition a24 : list Z := [121665].

(** The five registers [xs[0..4]]: x2, z2, x3, z3, t1. *)
Record fe5 := FE5 { x2 : list Z; z2 : list Z; x3 : list Z; z3 : list Z; t1 : list Z }.

Definition ladder_part1 (xs : fe5) : fe5 :=
  let '(FE5 x2 z2 x3 z3 t1) := xs in
  let t1 := add x2 z2 in
  let z2 := sub x2 z2 in
  let x2 := add x3 z3 in
  let z3 := sub x3 z3 in
  let z3 := mul1 z3 t1 in
  let x2 := mul1 x2 z2 in
  let x3 := add z3 x2 in
  let z3 := sub z3 x2 in
  let t1 := sqr1 t1 in
  let z2 := sqr1 z2 in
  let x2 := sub t1 z2 in
  let z2 := mul x2 a24 1 in
  let z2 := add z2 t1 in
  FE5 x2 z2 x3 z3 t1.

Definition ladder_part2 (xs : fe5) (x1 : list Z) : fe5 :=
  let '(FE5 x2 z2 x3 z3 t1) := xs in
  let z3 := sqr1 z3 in
  let z3 := mul1 z3 x1 in
  let x3 := sqr1 x3 in
  let z2 := mul1 z2 x2 in
  let x2 := sub t1 x2 in
  let x2 := mul1 x2 t1 in
  FE5 x2 z2 x3 z3 t1.

(** [condswap(x2,x3,...)] runs over [2*NLIMBS] limbs: it swaps (x2,z2) with (x3,z3). *)
Definition swap_regs (xs : fe5) (doswap : Z) : fe5 :=
  let '(FE5 x2 z2 x3 z3 t1) := xs in
  let '(a, b) := condswap (x2 ++ z2) (x3 ++ z3) doswap in
  FE5 (take NLIMBS a) (drop NLIMBS a) (take NLIMBS b) (drop NLIMBS b) t1.

(** The byte of the scalar used at bit [i], clamped when asked. *)
Definition scalar_byte (scalar : list Z) (clamp : bool) (i : nat) : Z :=
  let bytei := scalar.[i / 8] in
  if clamp then
    if (i / 8 =? 0)%nat then bytei .& u8 (Z.lnot 7)
    else if (i / 8 =? X25519_BYTES - 1)%nat then (bytei .& 0x7F) .| 0x40
    else bytei
  else bytei.

Definition scalar_bit (scalar : list Z) (clamp : bool) (i : nat) : Z :=
  (scalar_byte scalar clamp i .>> Z.of_nat (i mod 8)) .& 1.

(** One turn of the loop of [x25519_core], for bit [i]. *)
Definition core_step (scalar x1 : list Z) (clamp : bool) (st : fe5 * Z) (i : nat) : fe5 * Z :=
  let '(xs, swap) := st in
  let doswap := u32 (- scalar_bit scalar clamp i) in
  let xs := swap_regs xs (swap .^ doswap) in
  (ladder_part2 (ladder_part1 xs) x1, doswap).

Definition x25519_core (scalar x1 : list Z) (clamp : bool) : fe5 :=
  let x1 := swapin x1 in
  let one := 1 :: replicate 7 0 in
  let xs := FE5 one (replicate 8 0) x1 one (replicate 8 0) in
  let '(xs, swap) := foldl (core_step scalar x1 clamp) (xs, 0) (reverse (seq 0 256)) in
  swap_regs xs swap.

(** ** The inversion chain *)

Definition steps : list (nat * nat * nat) :=
  [(2, 1, 1); (2, 1, 1); (4, 2, 3); (2, 4, 6); (3, 1, 1); (3, 2, 12); (4, 3, 25);
   (2, 3, 25); (2, 4, 50); (3, 2, 125); (3, 1, 2); (3, 1, 2); (3, 1, 1)]%nat.

(** [for (j=n; j>0; j--) { sqr(a, prev); prev = a; }] on the registers. *)
Fixpoint sqr_times (n : nat) (a prev : nat) (xs : list (list Z)) : list (list Z) :=
  match n with
  | O => xs
  | S n => sqr_times n a a (<[a := sqr (default [] (xs !! prev))]> xs)
  end.

(** One entry [(a, c, n)] of the table; the second component is [prev]. *)
Definition chain_step (st : list (list Z) * nat) (s : nat * nat * nat) : list (list Z) * nat :=
  let '(xs, prev) := st in
  let '(a, c, n) := s in
  let xs := sqr_times n a prev xs in
  (<[a := mul1 (default [] (xs !! a)) (default [] (xs !! c))]> xs, a).

Definition x25519 (scalar x1 : list Z) (clamp : bool) : list Z * Z :=
  let '(FE5 x2 z2 x3 z3 t1) := x25519_core scalar x1 clamp in
  let xs := (foldl chain_step ([x2; z2; x3; z3; t1], 1%nat) steps).1 in
  let x2 := mul1 x2 (default [] (xs !! 3%nat)) in
  let '(x2, ret) := canon x2 in
  (swapout x2, if clamp then s32 ret else 0).

Definition X25519_BASE_POINT : list Z := 9 :: replicate 31 0.

Definition x25519_base (scalar : list Z) (clamp : bool) : list Z * Z :=
  x25519 scalar X25519_BASE_POINT clamp.

(** ** Specification: RFC 7748 section 5, over [Z/(2^255-19)] *)

Definition p25519 : Z := 2 ^ 255 - 19.
Definition fadd (a b : Z) : Z := (a + b) mod p25519.
Definition fsub (a b : Z) : Z := (a - b) mod p25519.
Definition fmul (a b : Z) : Z := a * b mod p25519.

(** One ladder step on (x2, z2, x3, z3). *)
Definition ladder_spec (u : Z) (s : Z * Z * Z * Z) : Z * Z * Z * Z :=
  let '(x2, z2, x3, z3) := s in
  let A := fadd x2 z2 in let AA := fmul A A in
  let B := fsub x2 z2 in let BB := fmul B B in
  let E := fsub AA BB in
  let C := fadd x3 z3 in let D := fsub x3 z3 in
  let DA := fmul D A in let CB := fmul C B in
  let s := fadd DA CB in let d := fsub DA CB in
  (fmul AA BB, fmul E (fadd AA (fmul 121665 E)), fmul s s, fmul u (fmul d d)).

Definition swap_spec (swap : bool) (s : Z * Z * Z * Z) : Z * Z * Z * Z :=
  let '(x2, z2, x3, z3) := s in if swap then (x3, z3, x2, z2) else s.

(** The bits of the scalar from the top, each step between two swaps. *)
Definition ladder_bit_spec (u : Z) (s : Z * Z * Z * Z) (b : bool) : Z * Z * Z * Z :=
  swap_spec b (ladder_spec u (swap_spec b s)).

Definition scalar_bits (scalar : list Z) (clamp : bool) : list bool :=
  (λ i, Z.eqb (scalar_bit scalar clamp i) 1) <$> reverse (seq 0 256).

Definition x25519_spec (scalar x1 : list Z) (clamp : bool) : Z :=
  let u := le_val x1 mod p25519 in
  let '(x2, z2, x3, z3) :=
    foldl (ladder_bit_spec u) (1, 0, u, 1) (scalar_bits scalar clamp) in
  fmul x2 (z2 ^ (p25519 - 2) mod p25519).

(** ** Values of limb lists *)

Definition words : list Z → Prop := Forall (is_u 32).

Fixpoint val32 (x : list Z) : Z :=
  match x with [] => 0 | xi :: x => xi + 2 ^ 32 * val32 x end.

(** The weight of the limb after [n]. *)
Definition W (n : nat) : Z := 2 ^ (32 * Z.of_nat n).

Lemma W_0 : W 0 = 1.
Proof. done. Qed.
Lemma W_S n : W (S n) = 2 ^ 32 * W n.
Proof.
  unfold W. rewrite Nat2Z.inj_succ.
  replace (32 * Z.succ (Z.of_nat n)) with (32 + 32 * Z.of_nat n) by lia.
  by rewrite Z.pow_add_r by lia.
Qed.
Lemma W_pos n : 0 < W n.
Proof. apply Z.pow_pos_nonneg; lia. Qed.
Lemma W_8 : W 8 = 2 ^ 256.
Proof. done. Qed.
Lemma W_add n m : W (n + m) = W n * W m.
Proof. induction n as [|n IH]; cbn [Nat.add]; [rewrite W_0|rewrite !W_S, IH]; ring. Qed.

Lemma val32_bound x : words x → 0 <= val32 x < W (length x).
Proof.
  induction 1 as [|xi x [? Hx] _ IH]; [done|].
  cbn [val32 length]. rewrite W_S. lia.
Qed.

Lemma val32_app x y : val32 (x ++ y) = val32 x + W (length x) * val32 y.
Proof.
  induction x as [|xi x IH]; cbn [val32 app length]; [rewrite W_0; lia|].
  rewrite IH, W_S. ring.
Qed.

Lemma val32_zeros n : val32 (replicate n 0) = 0.
Proof. induction n as [|n IH]; cbn [replicate val32]; lia. Qed.

Lemma val32_inj x y :
  words x → words y → length x = length y → val32 x = val32 y → x = y.
Proof.
  intros Hx. revert y; induction Hx as [|xi x Hxi Hx IH]; intros y Hy Hl Hv.
  - by destruct y.
  - destruct Hy as [|yi y Hyi Hy]; [done|]. cbn [val32 length] in *.
    unfold is_u in *. f_equal; [lia|]. apply IH; [done|lia|lia].
Qed.

Lemma words_app x y : words x → words y → words (x ++ y).
Proof. intros. by apply Forall_app. Qed.
Lemma words_take n x : words x → words (take n x).
Proof. apply Forall_take. Qed.
Lemma words_drop n x : words x → words (drop n x).
Proof. apply Forall_drop. Qed.
Lemma words_zeros n : words (replicate n 0).
Proof. apply Forall_replicate. unfold is_u. lia. Qed.
#[export] Hint Resolve words_app words_take words_drop words_zeros : word.

(** A limb with its carry, from a value below [2^64]. *)
Lemma limb_carry t : 0 <= t < 2 ^ 64 →
  is_u 32 (u32 (u64 t)) ∧ is_u 32 (u32 (u64 t .>> 32)) ∧
  u32 (u64 t) + 2 ^ 32 * u32 (u64 t .>> 32) = t.
Proof.
  intros Ht. split; [auto with word|]. split; [auto with word|].
  rewrite (u64_small t) by done. rewrite !u32_mod, Z.shiftr_div_pow2 by lia.
  rewrite (Z.mod_small (t / 2 ^ 32)) by (Z.div_mod_to_equations; lia).
  pose proof (Z.div_mod t (2 ^ 32) ltac:(lia)). lia.
Qed.

Lemma adc0_loop_spec carry x : is_u 32 carry → words x →
  let '(out, c) := adc0_loop carry x in
  words out ∧ is_u 32 c ∧ length out = length x ∧
  val32 out + W (length x) * c = val32 x + carry.
Proof.
  intros Hc Hx. revert carry Hc. induction Hx as [|xi x Hxi Hx IH]; intros carry Hc.
  - cbn. rewrite W_0. split_and!; [constructor|done|done|lia].
  - cbn [adc0_loop adc0].
    destruct (limb_carry (carry + xi)) as (H1 & H2 & H3); [unfold is_u in *; lia|].
    specialize (IH _ H2). destruct (adc0_loop _ x) as [out c].
    destruct IH as (Ho & Hc' & Hl & Hv). cbn [val32 length]. rewrite W_S.
    split_and!; [by constructor|done|by rewrite Hl|]. lia.
Qed.

Lemma adc_loop_spec carry a b : is_u 32 carry → words a → words b → length a = length b →
  let '(out, c) := adc_loop carry a b in
  words out ∧ is_u 32 c ∧ length out = length a ∧
  val32 out + W (length a) * c = val32 a + val32 b + carry.
Proof.
  intros Hc Ha. revert carry b Hc. induction Ha as [|ai a Hai Ha IH]; intros carry b Hc Hb Hl.
  - destruct b; [|done]. cbn. rewrite W_0. split_and!; [constructor|done|done|lia].
  - destruct Hb as [|bi b Hbi Hb]; [done|]. cbn [adc_loop adc].
    destruct (limb_carry (carry + ai + bi)) as (H1 & H2 & H3); [unfold is_u in *; lia|].
    injection Hl as Hl. specialize (IH _ b H2 Hb Hl). destruct (adc_loop _ a b) as [out c].
    destruct IH as (Ho & Hc' & Hl' & Hv). cbn [val32 length]. rewrite W_S.
    split_and!; [by constructor|done|by rewrite Hl'|]. lia.
Qed.

Lemma sbc_loop_spec carry a b : words a → words b → length a = length b →
  let '(out, c) := sbc_loop carry a b in
  words out ∧ length out = length a ∧
  val32 out + W (length a) * c = val32 a - val32 b + carry.
Proof.
  intros Ha. revert carry b. induction Ha as [|ai a Hai Ha IH]; intros carry b Hb Hl.
  - destruct b; [|done]. cbn. rewrite W_0. split_and!; [constructor|done|lia].
  - destruct Hb as [|bi b Hbi Hb]; [done|]. cbn [sbc_loop].
    injection Hl as Hl. specialize (IH ((carry + ai - bi) .>> 32) b Hb Hl).
    destruct (sbc_loop _ a b) as [out c].
    destruct IH as (Ho & Hl' & Hv). cbn [val32 length]. rewrite W_S.
    split_and!; [constructor; auto with word|by rewrite Hl'|].
    rewrite Z.shiftr_div_pow2 in Hv by lia. rewrite u32_mod.
    pose proof (Z.div_mod (carry + ai - bi) (2 ^ 32) ltac:(lia)). lia.
Qed.

Lemma mul_row_spec carry mand accum a :
  is_u 32 carry → is_u 32 mand → words accum → words a → length accum = length a →
  let '(out, c) := mul_row carry mand accum a in
  words out ∧ is_u 32 c ∧ length out = length accum ∧
  val32 out + W (length accum) * c = val32 accum + mand * val32 a + carry.
Proof.
  intros Hc Hm Hacc. revert carry a Hc.
  induction Hacc as [|xi x Hxi Hx IH]; intros carry a Hc Ha Hl.
  - destruct a; [|done]. cbn. rewrite W_0. split_and!; [constructor|done|done|lia].
  - destruct Ha as [|ai a Hai Ha]; [done|]. cbn [mul_row umaal].
    destruct (limb_carry (mand * ai + xi + carry)) as (H1 & H2 & H3).
    { unfold is_u in *. nia. }
    injection Hl as Hl. specialize (IH _ a H2 Ha Hl).
    destruct (mul_row _ mand x a) as [out c].
    destruct IH as (Ho & Hc' & Hl' & Hv). cbn [val32 length]. rewrite W_S.
    split_and!; [by constructor|done|by rewrite Hl'|]. lia.
Qed.

(** ** Field elements *)

(** Eight limbs: any value below [2^256]. *)
Definition fe (x : list Z) : Prop := words x ∧ length x = 8%nat.

Lemma fe_bound x : fe x → 0 <= val32 x < 2 ^ 256.
Proof. intros [Hw Hl]. pose proof (val32_bound x Hw) as H. by rewrite Hl in H. Qed.

(** Folding the bits above 255 back in, times 19. *)
Lemma propagate_spec x o : fe x → 0 <= o < 2 ^ 25 →
  fe (propagate x o) ∧
  val32 (propagate x o) = val32 x mod 2 ^ 255 + 19 * (2 * o + val32 x / 2 ^ 255).
Proof.
  intros [Hw Hl] Ho. unfold propagate.
  destruct x as [|y0 [|y1 [|y2 [|y3 [|y4 [|y5 [|y6 [|y7 [|? ?]]]]]]]]]; try discriminate Hl.
  unfold words in Hw. rewrite !Forall_cons in Hw.
  destruct Hw as (B0 & B1 & B2 & B3 & B4 & B5 & B6 & B7 & _).
  unfold get; cbn [lookup list_lookup default id from_option insert list_insert].
  assert ((y7 .>> 31) .| u32 (o .<< 1) = y7 / 2 ^ 31 + 2 * o) as ->.
  { rewrite u32_small by (rewrite Z.shiftl_mul_pow2 by lia; unfold is_u; lia).
    rewrite Z.shiftr_div_pow2 by lia.
    rewrite (lor_add_shift _ o 1) by (unfold is_u in *; Z.div_mod_to_equations; lia). lia. }
  change (u32 (Z.lnot (1 .<< 31))) with (Z.ones 31). rewrite Z.land_ones by lia.
  rewrite u32_small by (unfold is_u in *; Z.div_mod_to_equations; lia).
  set (y := [y0; y1; y2; y3; y4; y5; y6; y7 mod 2 ^ 31]).
  set (c := (y7 / 2 ^ 31 + 2 * o) * 19).
  unfold is_u in *.
  assert (is_u 32 c) as Hc by (unfold c, is_u; Z.div_mod_to_equations; lia).
  assert (words y) as Hy.
  { unfold y. repeat (constructor; [done|]). constructor; [|constructor].
    unfold is_u. Z.div_mod_to_equations; lia. }
  pose proof (adc0_loop_spec c y Hc Hy) as H. destruct (adc0_loop c y) as [out c'].
  destruct H as (Ho' & Hc' & Hl' & Hv). cbn [fst].
  split; [by split; [|rewrite Hl']|].
  change (W (length y)) with (2 ^ 256) in Hv.
  assert (val32 [y0; y1; y2; y3; y4; y5; y6; y7] = val32 y + 2 ^ 255 * (y7 / 2 ^ 31)) as Hx.
  { unfold y. cbn [val32]. pose proof (Z.div_mod y7 (2 ^ 31) ltac:(lia)). lia. }
  assert (0 <= val32 y < 2 ^ 255) as Hvy.
  { unfold y. cbn [val32]. pose proof (Z.mod_pos_bound y7 (2 ^ 31) ltac:(lia)). lia. }
  rewrite Hx.
  replace ((val32 y + 2 ^ 255 * (y7 / 2 ^ 31)) / 2 ^ 255) with (y7 / 2 ^ 31)
    by (apply Z.div_unique with (val32 y); lia).
  replace ((val32 y + 2 ^ 255 * (y7 / 2 ^ 31)) mod 2 ^ 255) with (val32 y)
    by (apply Z.mod_unique with (y7 / 2 ^ 31); lia).
  pose proof (val32_bound out Ho') as Hbo. rewrite Hl' in Hbo. 
  change (W (length y)) with (2 ^ 256) in Hbo.
  unfold c in *. unfold is_u in *. lia.
Qed.

(** [propagate] keeps the residue of [x + 2^256 over] and bounds the result. *)
Lemma propagate_mod x o : fe x → 0 <= o < 2 ^ 25 →
  val32 (propagate x o) mod p25519 = (val32 x + 2 ^ 256 * o) mod p25519.
Proof.
  intros Hx Ho. destruct (propagate_spec x o Hx Ho) as [_ ->].
  rewrite <- (Z.mod_add (_ + _) (2 * o + val32 x / 2 ^ 255)) by done. f_equal.
  pose proof (Z.div_mod (val32 x) (2 ^ 255) ltac:(lia)). unfold p25519. lia.
Qed.

Definition tight (x : list Z) : Prop := val32 x < 2 ^ 255 + 2 ^ 12.

Lemma propagate_tight x o : fe x → 0 <= o <= 76 → fe (propagate x o) ∧ tight (propagate x o).
Proof.
  intros Hx Ho. destruct (propagate_spec x o Hx ltac:(lia)) as [Hf Hv].
  split; [done|]. unfold tight. rewrite Hv. pose proof (fe_bound x Hx).
  Z.div_mod_to_equations. lia.
Qed.

(** ** The refinement relation: limbs [x] represent the residue [z] *)

Definition repr (x : list Z) (z : Z) : Prop :=
  fe x ∧ tight x ∧ val32 x mod p25519 = z.

(** An element that may still have its top bit, as the input [x1]. *)
Definition reprw (x : list Z) (z : Z) : Prop := fe x ∧ val32 x mod p25519 = z.

Lemma repr_reprw x z : repr x z → reprw x z.
Proof. intros (? & _ & ?). by split. Qed.
#[local] Hint Resolve repr_reprw : core.

Lemma add_repr a b za zb : reprw a za → reprw b zb → repr (add a b) (fadd za zb).
Proof.
  intros [[Hwa Hla] <-] [[Hwb Hlb] <-]. unfold add.
  pose proof (adc_loop_spec 0 a b ltac:(unfold is_u; lia) Hwa Hwb ltac:(lia)) as H.
  destruct (adc_loop 0 a b) as [out c]. destruct H as (Ho & Hc & Hl & Hv).
  rewrite Hla in Hv, Hl. rewrite W_8 in Hv.
  pose proof (fe_bound a (conj Hwa Hla)). pose proof (fe_bound b (conj Hwb Hlb)).
  assert (fe out) as Hf by done. pose proof (fe_bound out Hf).
  unfold is_u in Hc.
  destruct (propagate_tight out c Hf ltac:(lia)). split_and!; [done|done|].
  rewrite propagate_mod by (done || lia). unfold fadd.
  rewrite <- Z.add_mod by done. f_equal. lia.
Qed.

Lemma sub_repr a b za zb : reprw a za → repr b zb → repr (sub a b) (fsub za zb).
Proof.
  intros [[Hwa Hla] <-] ([Hwb Hlb] & Htb & <-). unfold sub.
  pose proof (sbc_loop_spec (-38) a b Hwa Hwb ltac:(lia)) as H.
  destruct (sbc_loop (-38) a b) as [out c]. destruct H as (Ho & Hl & Hv).
  rewrite Hla in Hv, Hl. rewrite W_8 in Hv. unfold tight in Htb.
  pose proof (fe_bound a (conj Hwa Hla)). pose proof (fe_bound b (conj Hwb Hlb)).
  assert (fe out) as Hf by done. pose proof (fe_bound out Hf).
  rewrite u32_small by (unfold is_u; lia).
  destruct (propagate_tight out (1 + c) Hf ltac:(lia)). split_and!; [done|done|].
  rewrite propagate_mod by (done || lia). unfold fsub.
  rewrite <- Zminus_mod. rewrite <- (Z.mod_add (val32 a - val32 b) 2) by done. f_equal.
  unfold p25519. lia.
Qed.

Lemma reprw_fe x z : reprw x z → fe x.
Proof. by intros []. Qed.

(** ** Multiplication *)

Lemma val32_split x n : val32 x = val32 (take n x) + W (length (take n x)) * val32 (drop n x).
Proof. by rewrite <- val32_app, take_drop. Qed.

Lemma val32_take_S b i : (i < length b)%nat →
  val32 (take (S i) b) = val32 (take i b) + W i * b.[i].
Proof.
  intros Hi. rewrite (take_S_r _ _ b.[i]) by (by apply lookup_get).
  rewrite val32_app, length_take_le by lia. cbn [val32]. lia.
Qed.

Record mul_inv (a b accum : list Z) (i : nat) : Prop := {
  mi_len : length accum = 16%nat;
  mi_words : words accum;
  mi_val : val32 accum = val32 a * val32 (take i b);
  mi_zero : drop (i + 8) accum = replicate (8 - i) 0
}.

Lemma mul_step_inv a b accum i :
  fe a → words b → (i < 8)%nat → (i < length b)%nat →
  mul_inv a b accum i → mul_inv a b (mul_step a b accum i) (S i).
Proof.
  intros [Hwa Hla] Hwb Hi Hib [Hl Hw Hv Hz]. unfold mul_step, NLIMBS.
  assert (length (take 8 (drop i accum)) = 8%nat) as Hlw by len.
  pose proof (mul_row_spec 0 b.[i] (take 8 (drop i accum)) a ltac:(unfold is_u; lia)
    (is_u_get 32 b i ltac:(lia) Hwb) ltac:(auto with word) Hwa ltac:(lia)) as H.
  destruct (mul_row 0 b.[i] _ a) as [row c]. destruct H as (Hwr & Hc & Hlr & Hr).
  rewrite Hlw in Hr, Hlr. rewrite W_8 in Hr.
  assert (length (row ++ [c]) = 9%nat) as Hl9 by len.
  assert (drop (i + 8) accum = 0 :: drop (i + 9) accum) as Hd.
  { rewrite Hz. replace (drop (i + 9) accum) with (drop 1 (drop (i + 8) accum))
      by (rewrite drop_drop; f_equal; lia).
    rewrite Hz. by replace (8 - i)%nat with (S (7 - i)) by lia. }
  assert (val32 accum = val32 (take i accum) + W i * (val32 (take 8 (drop i accum)) +
    2 ^ 256 * (2 ^ 32 * val32 (drop (i + 9) accum)))) as Hold.
  { rewrite (val32_split accum i) at 1. rewrite length_take_le by lia. do 2 f_equal.
    rewrite (val32_split (drop i accum) 8) at 1. rewrite Hlw, W_8, drop_drop, Hd.
    cbn [val32]. lia. }
  split.
  - rewrite length_blit; lia.
  - unfold blit. apply words_app; [auto with word|]. apply words_app; [|auto with word].
    apply words_app; [done|]. constructor; [done|constructor].
  - unfold blit. rewrite Hl9, !val32_app, length_take_le, Hlr, Hl9 by lia.
    rewrite val32_take_S by done. cbn [val32].
    replace (val32 a * (val32 (take i b) + W i * b.[i]))
      with (val32 accum + W i * (b.[i] * val32 a)) by (rewrite Hv; ring).
    rewrite Hold. change (W 9) with (2 ^ 256 * 2 ^ 32). change (W 8) with (2 ^ 256).
    replace (b.[i] * val32 a) with (val32 row + 2 ^ 256 * c - val32 (take 8 (drop i accum))) by lia.
    ring.
  - unfold blit. rewrite Hl9, drop_app_ge by len.
    rewrite length_take_le by lia. replace (S i + 8 - i)%nat with 9%nat by lia.
    rewrite drop_app_ge, Hl9 by lia. cbn [Nat.sub drop].
    replace (drop (i + 9) accum) with (drop 1 (drop (i + 8) accum))
      by (rewrite drop_drop; f_equal; lia).
    rewrite Hz. by replace (8 - i)%nat with (S (7 - i)) by lia.
Qed.

Lemma mul_rows_inv a b n : fe a → words b → (n <= 8)%nat → (n <= length b)%nat →
  mul_inv a b (foldl (mul_step a b) (replicate (2 * NLIMBS) 0) (seq 0 n)) n.
Proof.
  intros Ha Hb. induction n as [|n IH]; intros Hn Hnb.
  - cbn [seq foldl]. split; [done|apply words_zeros|rewrite val32_zeros, take_0; cbn [val32]; ring|done].
  - rewrite seq_S, foldl_app. cbn [foldl Nat.add]. apply mul_step_inv; [done|done|lia|lia|].
    apply IH; lia.
Qed.

Lemma mul_repr a b nb za : reprw a za → words b → (nb <= 8)%nat → (nb <= length b)%nat →
  repr (mul a b nb) (fmul za (val32 (take nb b))).
Proof.
  intros [Ha <-] Hb Hn Hnb. unfold mul, NLIMBS.
  destruct (mul_rows_inv a b nb Ha Hb Hn Hnb) as [Hl Hw Hv Hz]. unfold NLIMBS in *.
  set (accum := foldl _ _ _) in *. clearbody accum.
  pose proof (mul_row_spec 0 38 (take 8 accum) (drop 8 accum) ltac:(unfold is_u; lia)
    ltac:(unfold is_u; lia) ltac:(auto with word) ltac:(auto with word) ltac:(len)) as H.
  destruct (mul_row 0 38 _ _) as [out c]. destruct H as (Ho & Hc & Hlo & Hr).
  rewrite length_take_le in Hlo, Hr by lia. rewrite W_8 in Hr.
  rewrite (val32_split accum 8), length_take_le, W_8 in Hv by lia.
  pose proof (val32_bound (take 8 accum) ltac:(auto with word)) as Bl.
  pose proof (val32_bound (drop 8 accum) ltac:(auto with word)) as Bh.
  rewrite length_take_le in Bl by lia. rewrite length_drop, Hl in Bh.
  change (W (16 - 8)) with (2 ^ 256) in Bh. rewrite W_8 in Bl.
  assert (fe out) as Hf by done. pose proof (fe_bound out Hf).
  unfold is_u in Hc.
  destruct (propagate_tight out c Hf ltac:(lia)). split_and!; [done|done|].
  rewrite propagate_mod by (done || lia). unfold fmul.
  rewrite Z.mul_mod_idemp_l, <- Hv by done.
  rewrite <- (Z.mod_add (val32 (take 8 accum) + _) (- 2 * val32 (drop 8 accum))) by done.
  f_equal. unfold p25519. lia.
Qed.

Lemma mul1_repr out a zo za : reprw out zo → reprw a za → repr (mul1 out a) (fmul za zo).
Proof.
  intros [[Hw Hl] <-] Ha. unfold mul1, NLIMBS.
  destruct (mul_repr a out 8 za Ha Hw ltac:(lia) ltac:(lia)) as (? & ? & Hv).
  split_and!; [done|done|]. rewrite Hv, take_ge by lia. unfold fmul.
  by rewrite Z.mul_mod_idemp_r.
Qed.

Lemma sqr_repr a z : reprw a z → repr (sqr a) (fmul z z).
Proof. intros Ha. apply (mul1_repr a a); done. Qed.

Lemma sqr1_repr a z : reprw a z → repr (sqr1 a) (fmul z z).
Proof. apply sqr_repr. Qed.

Lemma mul_a24_repr a z : reprw a z → repr (mul a a24 1) (fmul z 121665).
Proof.
  intros Ha. apply (mul_repr a a24 1 z Ha); [|lia|by cbn; lia].
  repeat constructor; unfold is_u; lia.
Qed.

(** ** Conditional swaps *)

Definition mask (b : bool) : Z := if b then 0xFFFFFFFF else 0.

Lemma mask_xor a b : mask a .^ mask b = mask (xorb a b).
Proof. by destruct a, b. Qed.

Lemma condswap_mask a b s : words a → words b → length a = length b →
  condswap a b (mask s) = if s then (b, a) else (a, b).
Proof.
  intros Ha. revert b. induction Ha as [|x a Hx Ha IH]; intros b Hb Hl.
  - destruct b; [by destruct s|done].
  - destruct Hb as [|y b Hy Hb]; [done|]. injection Hl as Hl.
    specialize (IH b Hb Hl). unfold condswap in *. cbn [zip_with].
    assert ((x .^ y) .& mask s = if s then x .^ y else 0) as ->.
    { destruct s; cbn [mask]; [|apply Z.land_0_r].
      apply u32_small. auto with word. }
    destruct s; cbn [mask] in *; injection IH as IH1 IH2; rewrite IH1, IH2.
    + rewrite <- Z.lxor_assoc, Z.lxor_nilpotent, Z.lxor_0_l.
      by rewrite (Z.lxor_comm x y), <- Z.lxor_assoc, Z.lxor_nilpotent, Z.lxor_0_l.
    + by rewrite !Z.lxor_0_r.
Qed.

(** ** The ladder refines RFC 7748's *)

Definition ladder_rel (xs : fe5) (s : Z * Z * Z * Z) : Prop :=
  let '(zx2, zz2, zx3, zz3) := s in
  reprw xs.(x2) zx2 ∧ repr xs.(z2) zz2 ∧ reprw xs.(x3) zx3 ∧ repr xs.(z3) zz3.

Lemma fmul_comm a b : fmul a b = fmul b a.
Proof. unfold fmul. by rewrite Z.mul_comm. Qed.
Lemma fadd_comm a b : fadd a b = fadd b a.
Proof. unfold fadd. by rewrite Z.add_comm. Qed.

Lemma fsub_fsub a b : b mod p25519 = b → fsub a (fsub a b) = b.
Proof.
  intros Hb. unfold fsub. rewrite Zminus_mod_idemp_r.
  by replace (a - (a - b)) with b by lia.
Qed.
Lemma fmul_mod a b : fmul a b mod p25519 = fmul a b.
Proof. unfold fmul. by rewrite Z.mod_mod. Qed.

Lemma ladder_step_rel xs x1 u s : ladder_rel xs s → reprw x1 u →
  ladder_rel (ladder_part2 (ladder_part1 xs) x1) (ladder_spec u s).
Proof.
  destruct s as [[[zx2 zz2] zx3] zz3], xs as [x2 z2 x3 z3 t]. cbn [ladder_rel].
  intros (H2 & Hz2 & H3 & Hz3) Hu. cbn [X25519.x2 X25519.z2 X25519.x3 X25519.z3] in *.
  unfold ladder_part1, ladder_part2, ladder_spec. cbn zeta.
  pose proof (add_repr _ _ _ _ H2 (repr_reprw _ _ Hz2)) as HA.
  pose proof (sub_repr _ _ _ _ H2 Hz2) as HB.
  pose proof (add_repr _ _ _ _ H3 (repr_reprw _ _ Hz3)) as HC.
  pose proof (sub_repr _ _ _ _ H3 Hz3) as HD.
  revert HA HB HC HD.
  generalize (add x2 z2) (sub x2 z2) (add x3 z3) (sub x3 z3). intros lA lB lC lD HA HB HC HD.
  pose proof (mul1_repr _ _ _ _ (repr_reprw _ _ HD) (repr_reprw _ _ HA)) as HDA.
  pose proof (mul1_repr _ _ _ _ (repr_reprw _ _ HC) (repr_reprw _ _ HB)) as HCB.
  rewrite fmul_comm in HDA, HCB.
  revert HDA HCB. generalize (mul1 lD lA) (mul1 lC lB). intros lDA lCB HDA HCB.
  pose proof (add_repr _ _ _ _ (repr_reprw _ _ HDA) (repr_reprw _ _ HCB)) as Hs.
  pose proof (sub_repr _ _ _ _ (repr_reprw _ _ HDA) HCB) as Hd.
  pose proof (sqr1_repr _ _ (repr_reprw _ _ HA)) as HAA.
  pose proof (sqr1_repr _ _ (repr_reprw _ _ HB)) as HBB.
  revert Hs Hd HAA HBB. generalize (add lDA lCB) (sub lDA lCB) (sqr1 lA) (sqr1 lB).
  intros ls ld lAA lBB Hs Hd HAA HBB.
  pose proof (sub_repr _ _ _ _ (repr_reprw _ _ HAA) HBB) as HE.
  revert HE. generalize (sub lAA lBB). intros lE HE.
  pose proof (mul_a24_repr _ _ (repr_reprw _ _ HE)) as HEa. rewrite fmul_comm in HEa.
  pose proof (add_repr _ _ _ _ (repr_reprw _ _ HEa) (repr_reprw _ _ HAA)) as Hz.
  rewrite fadd_comm in Hz.
  pose proof (mul1_repr _ _ _ _ (repr_reprw _ _ Hz) (repr_reprw _ _ HE)) as Hz2'.
  pose proof (sub_repr _ _ _ _ (repr_reprw _ _ HAA) HE) as HBB'.
  rewrite fsub_fsub in HBB' by apply fmul_mod.
  pose proof (mul1_repr _ _ _ _ (repr_reprw _ _ HBB') (repr_reprw _ _ HAA)) as Hx2'.
  pose proof (sqr1_repr _ _ (repr_reprw _ _ Hs)) as Hx3'.
  pose proof (sqr1_repr _ _ (repr_reprw _ _ Hd)) as Hdd.
  pose proof (mul1_repr _ _ _ _ (repr_reprw _ _ Hdd) Hu) as Hz3'.
  cbn [X25519.x2 X25519.z2 X25519.x3 X25519.z3].
  split_and!; [by apply repr_reprw|done|by apply repr_reprw|done].
Qed.

Lemma swap_regs_rel xs s b : ladder_rel xs s → ladder_rel (swap_regs xs (mask b)) (swap_spec b s).
Proof.
  destruct s as [[[zx2 zz2] zx3] zz3], xs as [x2 z2 x3 z3 t]. cbn [ladder_rel].
  intros (H2 & Hz2 & H3 & Hz3). cbn [X25519.x2 X25519.z2 X25519.x3 X25519.z3] in *.
  pose proof (reprw_fe _ _ H2) as [W2 L2]. pose proof (reprw_fe _ _ H3) as [W3 L3].
  pose proof (reprw_fe _ _ (repr_reprw _ _ Hz2)) as [Wz2 Lz2].
  pose proof (reprw_fe _ _ (repr_reprw _ _ Hz3)) as [Wz3 Lz3].
  unfold swap_regs, NLIMBS. rewrite condswap_mask by (auto with word; len).
  destruct b; cbn [swap_spec ladder_rel X25519.x2 X25519.z2 X25519.x3 X25519.z3];
    rewrite !take_app_length', !drop_app_length' by done; done.
Qed.

Lemma swap_spec_swap a b s : swap_spec (xorb a b) (swap_spec a s) = swap_spec b s.
Proof. destruct s as [[[? ?] ?] ?]. by destruct a, b. Qed.

Lemma scalar_bit_01 scalar clamp i : scalar_bit scalar clamp i = 0 ∨ scalar_bit scalar clamp i = 1.
Proof.
  unfold scalar_bit. change 1 with (Z.ones 1). rewrite Z.land_ones by lia.
  pose proof (Z.mod_pos_bound (scalar_byte scalar clamp i .>> Z.of_nat (i mod 8)) (2 ^ 1)).
  change (Z.ones 1) with 1. lia.
Qed.

Lemma core_loop_rel scalar x1 clamp u idx xs s b : reprw x1 u →
  ladder_rel xs (swap_spec b s) →
  let '(xs, swap) := foldl (core_step scalar x1 clamp) (xs, mask b) idx in
  ∃ b', swap = mask b' ∧
    ladder_rel xs (swap_spec b' (foldl (ladder_bit_spec u) s
      ((λ i, Z.eqb (scalar_bit scalar clamp i) 1) <$> idx))).
Proof.
  intros Hu. revert xs s b. induction idx as [|i idx IH]; intros xs s b Hr; cbn [foldl fmap list_fmap].
  - by exists b.
  - cbn [core_step].
    assert (u32 (- scalar_bit scalar clamp i) = mask (scalar_bit scalar clamp i =? 1)) as ->
      by (by destruct (scalar_bit_01 scalar clamp i) as [-> | ->]).
    set (b' := scalar_bit scalar clamp i =? 1).
    apply IH. rewrite mask_xor.
    pose proof (swap_regs_rel _ _ (xorb b b') Hr) as Hs. rewrite swap_spec_swap in Hs.
    apply ladder_step_rel with (u := u) (x1 := x1) in Hs; [|done].
    unfold ladder_bit_spec at 1.
    replace (swap_spec b' (swap_spec b' (ladder_spec u (swap_spec b' s))))
      with (ladder_spec u (swap_spec b' s)); [done|].
    destruct (ladder_spec u (swap_spec b' s)) as [[[? ?] ?] ?]. by destruct b'.
Qed.

(** ** The canonical form *)

Lemma canon_loop_spec x : words x → ∀ carry res, is_u 32 res →
  let '(out, res') := canon_loop carry res x in
  words out ∧ length out = length x ∧
  (∃ c, val32 out + W (length x) * c = val32 x + carry) ∧
  is_u 32 res' ∧ (res' = 0 ↔ res = 0 ∧ val32 out = 0).
Proof.
  induction 1 as [|xi x Hxi Hx IH]; intros carry res Hres.
  - cbn. split_and!; [constructor|done|exists carry; rewrite W_0; lia|done|tauto].
  - cbn [canon_loop].
    specialize (IH ((carry + xi) .>> 32) (res .| u32 (carry + xi)) ltac:(auto with word)).
    destruct (canon_loop _ _ x) as [out res']. destruct IH as (Ho & Hl & (c & Hv) & Hr & Hz).
    split_and!; [constructor; auto with word|by cbn; rewrite Hl| |done|].
    + exists c. cbn [val32 length]. rewrite W_S.
      rewrite Z.shiftr_div_pow2 in Hv by lia. rewrite u32_mod.
      pose proof (Z.div_mod (carry + xi) (2 ^ 32) ltac:(lia)). lia.
    + rewrite Hz, Z.lor_eq_0_iff. cbn [val32].
      pose proof (u32_bound (carry + xi)) as [? _]. pose proof (val32_bound out Ho). lia.
Qed.

Lemma canon_spec x z : repr x z →
  let '(out, ret) := canon x in
  fe out ∧ val32 out = z ∧ ret = if decide (z = 0) then 0xFFFFFFFF else 0.
Proof.
  intros (Hf & Ht & <-). unfold canon. destruct (Hf) as [Hw Hl]. unfold tight in Ht.
  pose proof (adc0_loop_spec 19 x ltac:(unfold is_u; lia) Hw) as H.
  destruct (adc0_loop 19 x) as [y c]. destruct H as (Hwy & Hc & Hly & Hv).
  rewrite Hl in Hv, Hly. rewrite W_8 in Hv.
  pose proof (fe_bound x Hf). pose proof (fe_bound y (conj Hwy Hly)). unfold is_u in Hc.
  assert (c = 0) as -> by lia.
  destruct (propagate_spec y 0 (conj Hwy Hly) ltac:(lia)) as [[Hwp Hlp] Hvp].
  revert Hwp Hlp Hvp. generalize (propagate y 0). intros q Hwp Hlp Hvp.
  assert (val32 q - 19 = val32 x mod p25519) as Hq.
  { rewrite Hvp. destruct (decide (val32 y < 2 ^ 255)).
    - rewrite (Z.div_small (val32 y)), (Z.mod_small (val32 y)) by lia.
      rewrite Z.mod_small by (unfold p25519; lia). lia.
    - replace (val32 y / 2 ^ 255) with 1 by (Z.div_mod_to_equations; lia).
      replace (val32 y mod 2 ^ 255) with (val32 y - 2 ^ 255) by (Z.div_mod_to_equations; lia).
      apply Z.mod_unique_pos with 1; unfold p25519; lia. }
  pose proof (canon_loop_spec q Hwp (-19) 0 ltac:(unfold is_u; lia)) as Hcl.
  destruct (canon_loop (-19) 0 q) as [out res].
  destruct Hcl as (Hwo & Hlo & (c & Hvo) & Hr & Hz).
  rewrite Hlp in Hvo, Hlo. rewrite W_8 in Hvo.
  pose proof (fe_bound out (conj Hwo Hlo)).
  assert (0 <= val32 x mod p25519 < p25519) as Hb by (apply Z.mod_pos_bound; done).
  assert (val32 out = val32 x mod p25519) as Hout by (unfold p25519 in *; lia).
  split_and!; [done|done|]. rewrite <- Hout.
  destruct (decide (val32 out = 0)) as [E|E].
  - assert (res = 0) as -> by tauto. done.
  - unfold is_u in Hr. assert (0 < res) by lia.
    rewrite u64_small, Z.shiftr_div_pow2, Z.div_small by (unfold is_u; lia). done.
Qed.

(** ** The byte codec *)

Lemma swapin_words b : is_bytes b → words (swapin b).
Proof.
  intros Hb. apply Forall_fmap, Forall_true. intros i. cbn. auto with word.
Qed.

Lemma val32_get_le32 b n : is_bytes b → length b = (4 * n)%nat →
  val32 ((λ i, get_le32 (drop (4 * i) b)) <$> seq 0 n) = le_val b.
Proof.
  revert b. induction n as [|n IH]; intros b Hb Hl.
  - by apply nil_length_inv in Hl as ->.
  - cbn [seq]. rewrite fmap_cons. cbn [val32].
    rewrite <- fmap_S_seq, <- list_fmap_compose.
    rewrite (list_fmap_ext _ (λ i, get_le32 (drop (4 * i) (drop 4 b)))).
    2:{ intros i x _. cbn. f_equal. rewrite drop_drop. f_equal. lia. }
    rewrite IH by (auto with word; len).
    rewrite get_le32_val by (auto with word; len).
    rewrite Nat.mul_0_r, drop_0. rewrite <- (take_drop 4 b) at 3.
    rewrite le_val_app. unfold zlen. rewrite length_take_le by lia. done.
Qed.

Lemma swapin_val b : is_bytes b → length b = 32%nat →
  fe (swapin b) ∧ val32 (swapin b) = le_val b.
Proof.
  intros Hb Hl. split; [split; [by apply swapin_words|done]|].
  by apply val32_get_le32.
Qed.

Lemma swapout_val x : words x → swapout x = le_bytes (4 * length x) (val32 x).
Proof.
  unfold swapout. induction 1 as [|xi x Hxi Hx IH]; [done|].
  rewrite fmap_cons. cbn [concat length val32]. rewrite IH.
  apply le_val_inj.
  - auto with word.
  - auto with word.
  - len.
  - rewrite le_val_app. unfold zlen. rewrite !le_val_le_bytes, length_le_bytes.
    change (2 ^ (8 * Z.of_nat 4)) with (2 ^ 32).
    pose proof (val32_bound x Hx) as Hb. unfold W in Hb. unfold is_u in Hxi.
    replace (8 * Z.of_nat (4 * length x)) with (32 * Z.of_nat (length x)) by lia.
    replace (8 * Z.of_nat (4 * S (length x))) with (32 + 32 * Z.of_nat (length x)) by lia.
    rewrite Z.pow_add_r by lia.
    rewrite !Z.mod_small by lia. done.
Qed.

(** ** The inversion chain raises to [p - 2]

    The chain run on exponents: [None] for a register whose content is unknown. *)

Definition exp_at (es : list (option Z)) (i : nat) : option Z := mjoin (es !! i).

Fixpoint exp_sqr (n : nat) (a prev : nat) (es : list (option Z)) : list (option Z) :=
  match n with
  | O => es
  | S n => exp_sqr n a a (<[a := Z.mul 2 <$> exp_at es prev]> es)
  end.

Definition exp_step (st : list (option Z) * nat) (s : nat * nat * nat) : list (option Z) * nat :=
  let '(es, prev) := st in
  let '(a, c, n) := s in
  let es := exp_sqr n a prev es in
  (<[a := e ← exp_at es a; f ← exp_at es c; Some (e + f)]> es, a).

(** The exponents the chain leaves, from [z] alone in register 1. *)
Lemma steps_exponent :
  exp_at (foldl exp_step ([None; Some 1; None; None; None], 1%nat) steps).1 3 =
  Some (p25519 - 2).
Proof. vm_compute. reflexivity. Qed.

Definition is_power (z : Z) (x : list Z) (e : option Z) : Prop :=
  match e with None => True | Some e => 0 <= e ∧ reprw x (z ^ e mod p25519) end.

Definition powers (z : Z) : list (list Z) → list (option Z) → Prop := Forall2 (is_power z).

Lemma powers_at z xs es i : powers z xs es → is_power z (default [] (xs !! i)) (exp_at es i).
Proof.
  intros H. unfold exp_at. destruct (es !! i) as [e|] eqn:E; [|done].
  destruct (Forall2_lookup_r _ _ _ _ _ H E) as (x & -> & Hx). done.
Qed.

Lemma fmul_pow z e f : 0 <= e → 0 <= f →
  fmul (z ^ e mod p25519) (z ^ f mod p25519) = z ^ (e + f) mod p25519.
Proof. intros. unfold fmul. by rewrite <- Z.mul_mod, Z.pow_add_r by done. Qed.

Lemma is_power_mul z a c e f : is_power z a e → is_power z c f →
  is_power z (mul1 a c) (e ← e; f ← f; Some (e + f)).
Proof.
  destruct e as [e|], f as [f|]; cbn; [|done..]. intros [He Ha] [Hf Hc].
  split; [lia|]. apply repr_reprw. rewrite <- fmul_pow, fmul_comm by done. by apply mul1_repr.
Qed.

Lemma is_power_sqr z a e : is_power z a e → is_power z (sqr a) (Z.mul 2 <$> e).
Proof.
  destruct e as [e|]; [|done]. intros [He Ha]. cbn. split; [lia|].
  apply repr_reprw. replace (2 * e) with (e + e) by lia.
  rewrite <- fmul_pow by done. by apply sqr_repr.
Qed.

Lemma powers_sqr_times z n a prev xs es :
  powers z xs es → powers z (sqr_times n a prev xs) (exp_sqr n a prev es).
Proof.
  revert prev xs es. induction n as [|n IH]; intros prev xs es H; [done|].
  apply IH, Forall2_insert; [done|]. by apply is_power_sqr, powers_at.
Qed.

Lemma powers_chain z ss st es : powers z st.1 es →
  powers z (foldl chain_step st ss).1 (foldl exp_step (es, st.2) ss).1.
Proof.
  revert st es. induction ss as [|[[a c] n] ss IH]; intros [xs prev] es H; [done|].
  cbn [foldl fst snd] in *.
  apply (IH (chain_step (xs, prev) (a, c, n))). cbn [chain_step fst].
  pose proof (powers_sqr_times z n a prev xs es H) as Hs.
  apply Forall2_insert; [done|]. by apply is_power_mul; apply powers_at.
Qed.

Lemma chain_inverse z xs : length xs = 5%nat → reprw (default [] (xs !! 1%nat)) z →
  reprw (default [] ((foldl chain_step (xs, 1%nat) steps).1 !! 3%nat)) (z ^ (p25519 - 2) mod p25519).
Proof.
  intros Hl Hz. explode xs Hl. cbn in Hz.
  pose proof (powers_chain z steps ([x; x0; x1; x4; x5], 1%nat) [None; Some 1; None; None; None]) as H.
  cbn [fst snd] in H.
  assert (powers z [x; x0; x1; x4; x5] [None; Some 1; None; None; None]) as H0.
  { constructor; [done|]. constructor; [|repeat (constructor; [done|]); constructor].
    cbn [is_power]. split; [lia|]. rewrite Z.pow_1_r. destruct Hz as [Hf <-]. split; [done|].
    by rewrite Z.mod_mod. }
  specialize (H H0). apply (powers_at _ _ _ 3) in H. rewrite steps_exponent in H.
  apply H.
Qed.

(** ** The whole function *)

Lemma ladder_start u x1 : reprw x1 u → ladder_rel (FE5 (1 :: replicate 7 0) (replicate 8 0) x1
  (1 :: replicate 7 0) (replicate 8 0)) (1, 0, u, 1).
Proof.
  intros Hu. cbn [ladder_rel X25519.x2 X25519.z2 X25519.x3 X25519.z3].
  assert (∀ n, is_u 32 n → n < 2 → repr (n :: replicate 7 0) n) as Hn.
  { intros n Hn Hn2. pose proof (words_zeros 7) as H0.
    assert (val32 (n :: replicate 7 0) = n) as Hv by (cbn [val32]; rewrite val32_zeros; lia).
    unfold is_u in *. repeat split; [by constructor|unfold tight; lia|].
    rewrite Hv. apply Z.mod_small. unfold p25519. lia. }
  refine (conj (repr_reprw _ _ (Hn 1 _ _)) (conj (Hn 0 _ _) (conj Hu (Hn 1 _ _)))); unfold is_u; lia.
Qed.

Lemma x25519_core_rel scalar x1 clamp : is_bytes x1 → length x1 = 32%nat →
  ladder_rel (x25519_core scalar x1 clamp)
    (foldl (ladder_bit_spec (le_val x1 mod p25519)) (1, 0, le_val x1 mod p25519, 1)
      (scalar_bits scalar clamp)).
Proof.
  intros Hb Hl. destruct (swapin_val x1 Hb Hl) as [Hf Hv].
  assert (reprw (swapin x1) (le_val x1 mod p25519)) as Hu by (split; [done|by rewrite Hv]).
  unfold x25519_core, scalar_bits.
  pose proof (core_loop_rel scalar (swapin x1) clamp _ (reverse (seq 0 256)) _
    (1, 0, le_val x1 mod p25519, 1) false Hu
    (ladder_start _ _ Hu)) as H.
  change (mask false) with 0 in H.
  destruct (foldl (core_step _ _ _) _ _) as [xs swap]. destruct H as (b & -> & H).
  apply (swap_regs_rel _ _ b) in H. revert H.
  generalize (foldl (ladder_bit_spec (le_val x1 mod p25519)) (1, 0, le_val x1 mod p25519, 1)
    ((λ i, scalar_bit scalar clamp i =? 1) <$> reverse (seq 0 256))).
  intros [[[? ?] ?] ?]. by destruct b.
Qed.

Lemma x25519_refines scalar x1 clamp : is_bytes x1 → length x1 = 32%nat →
  x25519 scalar x1 clamp =
  (le_bytes 32 (x25519_spec scalar x1 clamp),
   if clamp then if decide (x25519_spec scalar x1 clamp = 0) then -1 else 0 else 0).
Proof.
  intros Hb Hl. unfold x25519, x25519_spec.
  pose proof (x25519_core_rel scalar x1 clamp Hb Hl) as H.
  destruct (x25519_core scalar x1 clamp) as [l2 lz2 l3 lz3 lt].
  destruct (foldl _ _ _) as [[[zx2 zz2] zx3] zz3]. cbn [ladder_rel] in H.
  destruct H as (H2 & Hz2 & _ & _). cbn [X25519.x2 X25519.z2] in *.
  pose proof (chain_inverse zz2 [l2; lz2; l3; lz3; lt] eq_refl (repr_reprw _ _ Hz2)) as Hi.
  revert Hi. generalize (default [] ((foldl chain_step ([l2; lz2; l3; lz3; lt], 1%nat) steps).1 !! 3%nat)).
  intros li Hi. pose proof (mul1_repr _ _ _ _ H2 Hi) as Hm. rewrite fmul_comm in Hm.
  pose proof (canon_spec _ _ Hm) as Hc. destruct (canon (mul1 l2 li)) as [out ret].
  destruct Hc as ([Hw Hlo] & Hv & ->).
  rewrite swapout_val, Hlo, Hv by done. f_equal.
  destruct clamp; [|done]. by destruct (decide _).
Qed.

(** A point whose coordinate is zero: every ladder value stays at zero or infinity. *)
Definition degenerate (s : Z * Z * Z * Z) : Prop :=
  let '(x2, z2, x3, z3) := s in (x2 = 0 ∨ z2 = 0) ∧ (x3 = 0 ∨ z3 = 0).

Lemma degenerate_step s : degenerate s → degenerate (ladder_spec 0 s).
Proof.
  destruct s as [[[a b] c] d]. intros [H _]. unfold ladder_spec. cbn zeta.
  assert (fsub (fmul (fadd a b) (fadd a b)) (fmul (fsub a b) (fsub a b)) = 0) as ->.
  { unfold fsub, fmul, fadd. rewrite !Z.mul_mod_idemp_l, !Z.mul_mod_idemp_r by done.
    rewrite <- Zminus_mod.
    replace ((a + b) * (a + b) - (a - b) * (a - b)) with (4 * (a * b)) by ring.
    by destruct H as [-> | ->]; rewrite ?Z.mul_0_l, ?Z.mul_0_r. }
  split; right; [unfold fmul; by rewrite Z.mul_0_l|unfold fmul at 1; by rewrite Z.mul_0_l].
Qed.

Lemma degenerate_swap b s : degenerate s → degenerate (swap_spec b s).
Proof. destruct s as [[[? ?] ?] ?]. destruct b; cbn; tauto. Qed.

Lemma degenerate_ladder bits s : degenerate s → degenerate (foldl (ladder_bit_spec 0) s bits).
Proof.
  revert s. induction bits as [|b bits IH]; intros s H; [done|].
  apply IH. by apply degenerate_swap, degenerate_step, degenerate_swap.
Qed.

Lemma x25519_spec_zero scalar x1 clamp :
  le_val x1 mod p25519 = 0 → x25519_spec scalar x1 clamp = 0.
Proof.
  intros Hu. unfold x25519_spec. rewrite Hu.
  pose proof (degenerate_ladder (scalar_bits scalar clamp) (1, 0, 0, 1)
    ltac:(split; [by right|by left])) as H.
  destruct (foldl _ _ _) as [[[a b] c] d]. destruct H as [[-> | ->] _].
  - unfold fmul. by rewrite Z.mul_0_l.
  - rewrite Z.pow_0_l by (unfold p25519; lia). unfold fmul. by rewrite Z.mul_0_r.
Qed.

(** ** Properties *)

(** C5: X25519. The 32-bit limb code, with its carries, masked swaps and
    precomputed inversion chain, computes the RFC 7748 Montgomery ladder over
    [Z/(2^255-19)] on every scalar and every 32-byte point, and when clamping is
    asked for it returns -1 exactly when the result is zero. Unlike RFC 7748 the code
    does not mask the top bit of the point, and neither does [x25519_spec]. *)
Theorem x25519_is_rfc7748 scalar x1 clamp : is_bytes x1 → length x1 = 32%nat →
  x25519 scalar x1 clamp =
  (le_bytes 32 (x25519_spec scalar x1 clamp),
   if clamp then if decide (x25519_spec scalar x1 clamp = 0) then -1 else 0 else 0).
Proof. apply x25519_refines. Qed.

Lemma x25519_is_rfc7748_witness :
  (x25519 (replicate 32 3) X25519_BASE_POINT true).1 =
  le_bytes 32 (x25519_spec (replicate 32 3) X25519_BASE_POINT true).
Proof.
  exact (f_equal fst (x25519_is_rfc7748 (replicate 32 3) X25519_BASE_POINT true
    ltac:(cbn; word_list) eq_refl)).
Defined.

(** A peer's point that is zero modulo the prime (the neutral contribution) is
    reported: the result is 32 zero bytes and the return value is -1. *)
Theorem x25519_zero_point scalar x1 : is_bytes x1 → length x1 = 32%nat →
  le_val x1 mod p25519 = 0 →
  x25519 scalar x1 true = (replicate 32 0, -1).
Proof.
  intros Hb Hl Hz. rewrite x25519_refines, x25519_spec_zero by done. reflexivity.
Qed.

Lemma x25519_zero_point_witness :
  x25519 (replicate 32 3) (le_bytes 32 p25519) true = (replicate 32 0, -1).
Proof.
  exact (x25519_zero_point (replicate 32 3) (le_bytes 32 p25519) (le_bytes_bytes 32 p25519)
    eq_refl eq_refl).
Defined.
