(* ===== verification/Noise.v ===== *)
(** * awg_noise.c: the Noise_IKpsk2 handshake, AmneziaWG framing and transport

    Both roles of the handshake are step functions on [awg_handshake]; the curve
    is an interface ([Curve], [CurveLaws]) that crypto/x25519.c implements. The
    framing functions work on whole datagrams; the entropy they draw comes from
    [Entropy] at an explicit position. *)
From S2P Require Import Prelude Awg Crypto ChaCha20 Poly1305 AEAD Blake2s X25519.

Definition AWG_MSG_INIT_SIZE : nat := 148.
Definition AWG_MSG_RESP_SIZE : nat := 92.

Inductive awg_kind : Set :=
| AWG_KIND_INIT | AWG_KIND_RESPONSE | AWG_KIND_COOKIE | AWG_KIND_TRANSPORT.

Record awg_handshake := Handshake {
  ck : list Z; hh : list Z;
  s_priv : list Z; s_pub : list Z; e_priv : list Z; e_pub : list Z;
  peer_pub : list Z; peer_eph : list Z; psk : list Z;
  local_index : Z; remote_index : Z;
  send_key : list Z; recv_key : list Z; hs_established : bool
}.

#[export] Instance awg_handshake_eta : Eta awg_handshake := λ s, Handshake
  s.(ck) s.(hh) s.(s_priv) s.(s_pub) s.(e_priv) s.(e_pub)
  s.(peer_pub) s.(peer_eph) s.(psk) s.(local_index) s.(remote_index)
  s.(send_key) s.(recv_key) s.(hs_established).

(** The structure zeroed by [memset]. *)
Definition handshake_zero : awg_handshake :=
  let z := replicate 32 0 in Handshake z z z z z z z z z 0 0 z z false.

(** ** The curve

    [curve scalar x1 clamp] is what [x25519] writes and returns. *)
Class Curve := curve : list Z → list Z → bool → list Z * Z.

Class CurveLaws `{Curve} : Prop := {
  curve_length scalar x1 clamp :
    is_bytes x1 → length x1 = 32%nat → length (curve scalar x1 clamp).1 = 32%nat;
  curve_bytes scalar x1 clamp :
    is_bytes x1 → length x1 = 32%nat → is_bytes (curve scalar x1 clamp).1
}.

(** crypto/x25519.c implements it. *)
Definition x25519_curve : Curve := x25519.

Lemma x25519_curve_laws : @CurveLaws x25519_curve.
Proof.
  split; intros scalar x1 clamp Hb Hl; unfold curve, x25519_curve;
    rewrite x25519_refines by done; cbn [fst]; [apply length_le_bytes|apply le_bytes_bytes].
Qed.

(** ** Hashing *)

Definition CONSTRUCTION : list Z := str "Noise_IKpsk2_25519_ChaChaPoly_BLAKE2s".
Definition IDENTIFIER : list Z := str "WireGuard v1 zx2c4 Jason@zx2c4.com".
Definition LABEL_MAC1 : list Z := str "mac1----".

(** A context for a 32-byte unkeyed digest, fed with pieces in sequence: the
    initialisation cannot fail with these parameters, and a piece of length 0,
    which the code skips, leaves the context as it is. *)
Definition hash_pieces (pieces : list (list Z)) : list Z :=
  match blake2s_init 32 [] with
  | Some c => blake2s_final (foldl blake2s_update c pieces)
  | None => []
  end.

Definition hash2 (a b : list Z) : list Z := hash_pieces [a; b].

Definition mix_hash (h data : list Z) : list Z := hash2 h data.

Definition hmac_blake2s (key inp : list Z) : list Z :=
  let k := if (BLAKE2S_BLOCK_SIZE <? length key)%nat
           then default [] (blake2s 32 [] key) ++ replicate 32 0
           else key ++ replicate (BLAKE2S_BLOCK_SIZE - length key) 0 in
  let ipad := (λ x, u8 (x .^ 0x36)) <$> k in
  let opad := (λ x, u8 (x .^ 0x5c)) <$> k in
  let inner := hash_pieces [ipad; inp] in
  hash_pieces [opad; inner].

(** [t1], [t2] and [t3]; a caller that passes NULL uses a prefix. *)
Definition kdf (ck data : list Z) : list Z * list Z * list Z :=
  let t0 := hmac_blake2s ck data in
  let t1 := hmac_blake2s t0 [1] in
  let t2 := hmac_blake2s t0 (t1 ++ [2]) in
  let t3 := hmac_blake2s t0 (t2 ++ [3]) in
  (t1, t2, t3).

Definition put_u32_le (v : Z) : list Z := [u8 v; u8 (v .>> 8); u8 (v .>> 16); u8 (v .>> 24)].
Definition get_u32_le (p : list Z) : Z :=
  p.[0] .| (p.[1] .<< 8) .| (p.[2] .<< 16) .| (p.[3] .<< 24).

Definition mac1 (recv_pub msg : list Z) : list Z :=
  let key := hash_pieces [LABEL_MAC1; recv_pub] in
  default [] (blake2s 16 key msg).

Section Handshake.
Context `{Entropy} `{Curve}.

(** The 12 bytes, from the platform's clock [now] in seconds. *)
Definition tai64n (now : Z) (pos : nat) : list Z * nat :=
  let secs := u64 (now + 0x400000000000000a) in
  let '(nanos, pos) := awg_random_u32 pos in
  let nanos := nanos mod 1000000000 in
  (be_bytes 8 secs ++ [u8 (nanos .>> 24); u8 (nanos .>> 16); u8 (nanos .>> 8); u8 nanos], pos).

(** [x25519_base(pub, priv, 1)]. *)
Definition awg_public_from_private (priv : list Z) : list Z :=
  (curve priv X25519_BASE_POINT true).1.

Definition awg_generate_private (pos : nat) : list Z * nat :=
  let '(priv, pos) := awg_random_bytes 32 pos in
  let priv := <[0%nat := priv.[0] .& 248]> priv in
  let priv := <[31%nat := priv.[31] .& 127]> priv in
  let priv := <[31%nat := priv.[31] .| 64]> priv in
  (priv, pos).

(** [psk] is [None] for a NULL pointer, as is [peer]. *)
Definition awg_handshake_begin (priv : list Z) (peer psk' : option (list Z)) (idx : Z)
    : awg_handshake :=
  let hs := handshake_zero <| s_priv := priv |> <| s_pub := awg_public_from_private priv |> in
  let hs := match peer with Some p => hs <| peer_pub := p |> | None => hs end in
  let hs := match psk' with Some k => hs <| psk := k |> | None => hs end in
  hs <| local_index := idx |>.

Definition chain_start (hs : awg_handshake) (responder_pub : list Z) : awg_handshake :=
  let hs := hs <| ck := hash2 CONSTRUCTION [] |> in
  let hs := hs <| hh := hash2 hs.(ck) IDENTIFIER |> in
  hs <| hh ::= λ h, mix_hash h responder_pub |>.

(** [kdf(hs->ck, NULL, NULL, hs->ck, data, ..)]. *)
Definition mix_ck (hs : awg_handshake) (data : list Z) : awg_handshake :=
  hs <| ck := (kdf hs.(ck) data).1.1 |>.

(** [kdf(hs->ck, k, NULL, hs->ck, data, ..)]: the handshake and [k]. *)
Definition mix_key (hs : awg_handshake) (data : list Z) : awg_handshake * list Z :=
  let '(t1, k, _) := kdf hs.(ck) data in (hs <| ck := t1 |>, k).

(** [mix_hash(hs->h, data, ..)]. *)
Definition mix_h (hs : awg_handshake) (data : list Z) : awg_handshake :=
  hs <| hh ::= λ h, mix_hash h data |>.

(** The handshake state, the message ([None] is -1) and the entropy position. *)
Definition awg_create_initiation (hs : awg_handshake) (now : Z) (pos : nat)
    : awg_handshake * option (list Z) * nat :=
  let hs := chain_start hs hs.(peer_pub) in
  let '(priv, pos) := awg_generate_private pos in
  let hs := hs <| e_priv := priv |> <| e_pub := awg_public_from_private priv |> in
  let out := replicate AWG_MSG_INIT_SIZE 0 in
  let out := blit 0 (put_u32_le 1) out in
  let out := blit 4 (put_u32_le hs.(local_index)) out in
  let out := blit 8 hs.(e_pub) out in
  let hs := mix_ck hs hs.(e_pub) in
  let hs := mix_h hs hs.(e_pub) in
  let '(dh, r) := curve hs.(e_priv) hs.(peer_pub) true in
  if negb (r =? 0) then (hs, None, pos) else
  let '(hs, k) := mix_key hs dh in
  let enc := chacha20poly1305_encrypt hs.(s_pub) hs.(hh) 0 k in
  let out := blit 40 enc out in
  let hs := mix_h hs enc in
  let '(dh, r) := curve hs.(s_priv) hs.(peer_pub) true in
  if negb (r =? 0) then (hs, None, pos) else
  let '(hs, k) := mix_key hs dh in
  let '(stamp, pos) := tai64n now pos in
  let enc := chacha20poly1305_encrypt stamp hs.(hh) 0 k in
  let out := blit 88 enc out in
  let hs := mix_h hs enc in
  let out := blit 116 (mac1 hs.(peer_pub) (take 116 out)) out in
  (hs, Some out, pos).

(** The handshake state and whether the result is 0. *)
Definition awg_consume_initiation (hs : awg_handshake) (inp : list Z) : awg_handshake * bool :=
  if negb (get_u32_le inp =? 1) then (hs, false) else
  let hs := chain_start hs hs.(s_pub) in
  let expect := mac1 hs.(s_pub) (take 116 inp) in
  if negb (crypto_equal expect (drop 116 inp) 16) then (hs, false) else
  let hs := hs <| remote_index := get_u32_le (drop 4 inp) |>
               <| peer_eph := slice 8 32 inp |> in
  let hs := mix_ck hs hs.(peer_eph) in
  let hs := mix_h hs hs.(peer_eph) in
  let '(dh, r) := curve hs.(s_priv) hs.(peer_eph) true in
  if negb (r =? 0) then (hs, false) else
  let '(hs, k) := mix_key hs dh in
  match chacha20poly1305_decrypt (slice 40 48 inp) hs.(hh) 0 k with
  | None => (hs, false)
  | Some pub =>
    let hs := hs <| peer_pub := pub |> in
    let hs := mix_h hs (slice 40 48 inp) in
    let '(dh, r) := curve hs.(s_priv) hs.(peer_pub) true in
    if negb (r =? 0) then (hs, false) else
    let '(hs, k) := mix_key hs dh in
    match chacha20poly1305_decrypt (slice 88 28 inp) hs.(hh) 0 k with
    | None => (hs, false)
    | Some stamp => (mix_h hs (slice 88 28 inp), true)
    end
  end.

Definition awg_create_response (hs : awg_handshake) (pos : nat)
    : awg_handshake * option (list Z) * nat :=
  let '(priv, pos) := awg_generate_private pos in
  let hs := hs <| e_priv := priv |> <| e_pub := awg_public_from_private priv |> in
  let out := replicate AWG_MSG_RESP_SIZE 0 in
  let out := blit 0 (put_u32_le 2) out in
  let out := blit 4 (put_u32_le hs.(local_index)) out in
  let out := blit 8 (put_u32_le hs.(remote_index)) out in
  let out := blit 12 hs.(e_pub) out in
  let hs := mix_ck hs hs.(e_pub) in
  let hs := mix_h hs hs.(e_pub) in
  let '(dh, r) := curve hs.(e_priv) hs.(peer_eph) true in
  if negb (r =? 0) then (hs, None, pos) else
  let hs := mix_ck hs dh in
  let '(dh, r) := curve hs.(e_priv) hs.(peer_pub) true in
  if negb (r =? 0) then (hs, None, pos) else
  let hs := mix_ck hs dh in
  let '(t1, t, k) := kdf hs.(ck) hs.(psk) in
  let hs := hs <| ck := t1 |> in
  let hs := mix_h hs t in
  let enc := chacha20poly1305_encrypt [] hs.(hh) 0 k in
  let out := blit 44 enc out in
  let hs := mix_h hs enc in
  let out := blit 60 (mac1 hs.(peer_pub) (take 60 out)) out in
  let '(rk, sk, _) := kdf hs.(ck) [] in
  (hs <| recv_key := rk |> <| send_key := sk |> <| hs_established := true |>, Some out, pos).

Definition awg_consume_response (hs : awg_handshake) (inp : list Z) : awg_handshake * bool :=
  if negb (get_u32_le inp =? 2) then (hs, false) else
  if negb (get_u32_le (drop 8 inp) =? hs.(local_index)) then (hs, false) else
  let expect := mac1 hs.(s_pub) (take 60 inp) in
  if negb (crypto_equal expect (drop 60 inp) 16) then (hs, false) else
  let hs := hs <| remote_index := get_u32_le (drop 4 inp) |>
               <| peer_eph := slice 12 32 inp |> in
  let hs := mix_ck hs hs.(peer_eph) in
  let hs := mix_h hs hs.(peer_eph) in
  let '(dh, r) := curve hs.(e_priv) hs.(peer_eph) true in
  if negb (r =? 0) then (hs, false) else
  let hs := mix_ck hs dh in
  let '(dh, r) := curve hs.(s_priv) hs.(peer_eph) true in
  if negb (r =? 0) then (hs, false) else
  let hs := mix_ck hs dh in
  let '(t1, t, k) := kdf hs.(ck) hs.(psk) in
  let hs := hs <| ck := t1 |> in
  let hs := mix_h hs t in
  match chacha20poly1305_decrypt (slice 44 16 inp) hs.(hh) 0 k with
  | None => (hs, false)
  | Some _ =>
    let hs := mix_h hs (slice 44 16 inp) in
    let '(sk, rk, _) := kdf hs.(ck) [] in
    (hs <| send_key := sk |> <| recv_key := rk |> <| hs_established := true |>, true)
  end.

End Handshake.

(** ** Framing *)

Definition padding_for (cfg : awg_config) (kind : awg_kind) : Z :=
  match kind with
  | AWG_KIND_INIT => cfg.(s1)
  | AWG_KIND_RESPONSE => cfg.(s2)
  | AWG_KIND_COOKIE => cfg.(s3)
  | AWG_KIND_TRANSPORT => cfg.(s4)
  end.

Definition header_cipher_init (key nonce : list Z) : list Z :=
  let ctx := <[12%nat := 0]> (chacha20_init key 0) in
  foldl (λ ctx w, <[(13 + w)%nat := get_u32_le (drop (4 * w) nonce)]> ctx) ctx (seq 0 3).

(** The header cipher over [l], keyed by the datagram's first bytes, when the
    configuration has header protection. *)
Definition header_xor (cfg : awg_config) (nonce l : list Z) : list Z :=
  if cfg.(have_header_protection)
  then (chacha20 (header_cipher_init cfg.(header_protection_key) nonce) l).2
  else l.

Section Framing.
Context `{Entropy}.

(** The datagram written at [out] and the entropy position, or the result -1. *)
Definition awg_wrap (cfg : awg_config) (kind : awg_kind) (msg : list Z) (out_cap : Z) (pos : nat)
    : res (list Z * nat) :=
  let pad := padding_for cfg kind in
  if cfg.(have_header_protection) && (pad <? 12) then Err else
  if (pad <? 0) || (pad + zlen msg >? out_cap) then Err else
  let '(prefix, pos) := awg_random_bytes (Z.to_nat pad) pos in
  Ok (prefix ++ header_xor cfg prefix msg, pos).

(** The datagram as it is left, the message offset and the message length. The header
    cipher's nonce is read from the datagram's first twelve bytes: a [Fault] when it is
    shorter. *)
Definition awg_unwrap (cfg : awg_config) (kind : awg_kind) (pkt : list Z)
    : res (list Z * Z * Z) :=
  let pad := padding_for cfg kind in
  if cfg.(have_header_protection) && (pad <? 12) then Err else
  if zlen pkt <=? pad then Err else
  if cfg.(have_header_protection) && negb (within 0 12 (zlen pkt)) then Fault else
  let pkt := if cfg.(have_header_protection)
             then ztake pad pkt ++ header_xor cfg pkt (zdrop pad pkt) else pkt in
  Ok (pkt, pad, zlen pkt - pad).

(** ** Transport *)

Definition TRANSPORT_HDR : nat := 16.
Definition AEAD_TAG : nat := 16.

(** [for (i...8) { p[i] = (uint8_t)v; v >>= 8; }] *)
Definition put_u64_le (v : Z) : list Z :=
  (foldl (λ '(p, v) (_ : nat), (p ++ [u8 v], v .>> 8)) ([], v) (seq 0 8)).1.

(** [for (i = 7...0) v = (v << 8) | p[i]] *)
Definition get_u64_le (p : list Z) : Z :=
  foldl (λ v i, u64 (v .<< 8) .| p.[i]) 0 (reverse (seq 0 8)).

(** [(payload_len + 15) & ~15] *)
Definition padded_to_16 (payload_len : Z) : Z := (payload_len + 15) .& Z.lnot 15.

(** The padding, the header and the body with its tag are written at [out], at
    [hdr = out + pad] and at [hdr + TRANSPORT_HDR]: a [Fault] when one of them is not
    within the [out_cap] bytes of the buffer. *)
Definition awg_transport_seal (cfg : awg_config) (hs : awg_handshake) (counter : Z)
    (payload : list Z) (out_cap : Z) (pos : nat) : res (list Z * nat) :=
  let pad := cfg.(s4) in
  if cfg.(have_header_protection) && (pad <? 12) then Err else
  let padded := padded_to_16 (zlen payload) in
  let total := pad + Z.of_nat TRANSPORT_HDR + padded + Z.of_nat AEAD_TAG in
  if total >? out_cap then Err else
  if negb (within 0 pad out_cap && within pad (Z.of_nat TRANSPORT_HDR) out_cap &&
           within (pad + Z.of_nat TRANSPORT_HDR) (padded + Z.of_nat AEAD_TAG) out_cap) then Fault else
  let '(prefix, pos) := awg_random_bytes (Z.to_nat pad) pos in
  let hdr := put_u32_le cfg.(h4) ++ put_u32_le hs.(remote_index) ++ put_u64_le counter in
  let body := payload ++ replicate (Z.to_nat (padded - zlen payload)) 0 in
  let body := chacha20poly1305_encrypt body [] counter hs.(send_key) in
  Ok (prefix ++ header_xor cfg prefix hdr ++ body, pos).

(** [hdr[0..15]] passed through the header cipher, in place. *)
Definition xor_header_at (cfg : awg_config) (pad : Z) (pkt : list Z) : list Z :=
  ztake pad pkt ++ header_xor cfg pkt (take TRANSPORT_HDR (zdrop pad pkt)) ++
  drop TRANSPORT_HDR (zdrop pad pkt).

(** The datagram as it is left, with the plaintext and its counter or -1. A [Fault] when
    the nonce, the header or the ciphertext is not within the datagram, or the plaintext
    not within the [out_cap] bytes it is written to. *)
Definition awg_transport_open (cfg : awg_config) (hs : awg_handshake) (pkt : list Z)
    (out_cap : Z) : res (list Z * option (list Z * Z)) :=
  let pad := cfg.(s4) in
  if cfg.(have_header_protection) && (pad <? 12) then Ok (pkt, None) else
  if zlen pkt <? pad + Z.of_nat TRANSPORT_HDR + Z.of_nat AEAD_TAG then Ok (pkt, None) else
  if negb (within pad (Z.of_nat TRANSPORT_HDR) (zlen pkt)) ||
     cfg.(have_header_protection) && negb (within 0 12 (zlen pkt)) then Fault else
  let pkt := xor_header_at cfg pad pkt in
  let hdr := zdrop pad pkt in
  let REJECT := Ok (xor_header_at cfg pad pkt, None) in
  if negb (get_u32_le hdr =? cfg.(h4)) then REJECT else
  if negb (get_u32_le (drop 4 hdr) =? hs.(local_index)) then REJECT else
  let ctr := get_u64_le (drop 8 hdr) in
  let cipher_len := zlen pkt - pad - Z.of_nat TRANSPORT_HDR in
  let plain_len := cipher_len - Z.of_nat AEAD_TAG in
  if (plain_len <? 0) || (plain_len >? out_cap) then REJECT else
  if negb (within (pad + Z.of_nat TRANSPORT_HDR) cipher_len (zlen pkt) && within 0 plain_len out_cap) then Fault else
  match chacha20poly1305_decrypt (drop TRANSPORT_HDR hdr) [] ctr hs.(recv_key) with
  | None => REJECT
  | Some out => Ok (pkt, Some (out, ctr))
  end.

(** The junk datagrams, each at most [cap] bytes. *)
Fixpoint junk_loop (cfg : awg_config) (cap : Z) (n : nat) (pos : nat) : list (list Z) * nat :=
  match n with
  | O => ([], pos)
  | S n =>
    let span := cfg.(jmax) - cfg.(jmin) in
    let '(r, pos) := if span >? 0
                     then let '(r, pos) := awg_random_u32 pos in (r mod u32 span, pos)
                     else (0, pos) in
    let len := cfg.(jmin) + s32 r in
    let len := if len >? cap then cap else len in
    let len := if len <? 0 then 0 else len in
    let '(b, pos) := awg_random_bytes (Z.to_nat len) pos in
    let '(bs, pos) := junk_loop cfg cap n pos in
    (b :: bs, pos)
  end.

Definition awg_junk_packets (cfg : awg_config) (cap max_packets : Z) (pos : nat)
    : list (list Z) * nat :=
  let n := cfg.(jc) in
  let n := if n >? max_packets then max_packets else n in
  if n <=? 0 then ([], pos) else junk_loop cfg cap (Z.to_nat n) pos.

End Framing.

(** ** Codecs *)

Lemma put_u32_le_le v : put_u32_le v = le_bytes 4 v.
Proof. cbn [le_bytes]. unfold put_u32_le. by rewrite !Z.shiftr_shiftr by lia. Qed.

Lemma length_put_u32_le v : length (put_u32_le v) = 4%nat.
Proof. done. Qed.
Lemma put_u32_le_bytes v : is_bytes (put_u32_le v).
Proof. rewrite put_u32_le_le. auto with word. Qed.

#[export] Hint Rewrite length_put_u32_le : len.
#[export] Hint Resolve put_u32_le_bytes : word.

Lemma get_u32_le_val p : is_bytes p → (4 <= length p)%nat → get_u32_le p = le_val (take 4 p).
Proof. apply get_le32_val. Qed.

Lemma get_put_u32 v l : is_u 32 v → is_bytes l → get_u32_le (put_u32_le v ++ l) = v.
Proof.
  intros Hv Hl. rewrite get_u32_le_val by (auto using put_u32_le_bytes with word; len).
  rewrite take_app_length' by done. rewrite put_u32_le_le, le_val_le_bytes.
  by apply Z.mod_small.
Qed.

Lemma put_u64_le_le v : put_u64_le v = le_bytes 8 v.
Proof. reflexivity. Qed.

Lemma get_u64_le_val p : is_bytes p → (8 <= length p)%nat → get_u64_le p = le_val (take 8 p).
Proof.
  intros Hp Hl. rewrite <- (take_drop 8 p) in Hp |- *.
  assert (length (take 8 p) = 8%nat) as H8 by len.
  revert Hp H8. generalize (take 8 p) (drop 8 p). intros q r Hp H8. explode q H8.
  apply Forall_app in Hp as [Hq _]. rewrite !Forall_cons in Hq.
  destruct Hq as (B0 & B1 & B2 & B3 & B4 & B5 & B6 & B7 & _).
  unfold get_u64_le. change (reverse (seq 0 8)) with [7; 6; 5; 4; 3; 2; 1; 0]%nat.
  cbn [foldl]. unfold get. cbn [app lookup list_lookup default id from_option take le_val].
  unfold is_u in *.
  assert (∀ v b, 0 <= b < 256 → 0 <= v < 2 ^ 56 → u64 (v .<< 8) .| b = b + 256 * v) as Hs.
  { intros v b Hb Hv. rewrite u64_small
      by (rewrite Z.shiftl_mul_pow2 by lia; unfold is_u; lia).
    rewrite Z.lor_comm, lor_add_shift by (unfold is_u; lia). lia. }
  rewrite (Hs 0) by lia. repeat (rewrite (Hs (_ + _)) by lia). rewrite ?take_0. cbn [le_val]. lia.
Qed.

Lemma get_u64_le_bound p : is_bytes p → is_u 64 (get_u64_le p).
Proof.
  intros Hp. unfold get_u64_le. change (reverse (seq 0 8)) with [7; 6; 5; 4; 3; 2; 1; 0]%nat.
  cbn [foldl]. apply is_u_lor; [lia|auto with word|]. apply (is_u_mono 8); auto with word.
Qed.

Lemma get_put_u64 v l : is_u 64 v → is_bytes l → get_u64_le (put_u64_le v ++ l) = v.
Proof.
  intros Hv Hl. rewrite put_u64_le_le.
  rewrite get_u64_le_val by (auto with word; len).
  rewrite take_app_length' by done. rewrite le_val_le_bytes. by apply Z.mod_small.
Qed.

(** ** Hash lemmas *)

Lemma foldl_update_concat ps c :
  foldl blake2s_update c ps = blake2s_update c (concat ps).
Proof.
  revert c. induction ps as [|p ps IH]; intros c; [done|].
  cbn [foldl concat]. by rewrite IH, blake2s_update_app.
Qed.

Lemma hash_pieces_spec ps : hash_pieces ps = blake2s_spec 32 [] (concat ps).
Proof.
  unfold hash_pieces. destruct (blake2s_init 32 []) as [c|] eqn:E.
  - rewrite foldl_update_concat. by apply blake2s_pieces.
  - discriminate E.
Qed.

Lemma length_hash_pieces ps : length (hash_pieces ps) = 32%nat.
Proof. rewrite hash_pieces_spec. by apply length_blake2s_spec. Qed.
Lemma hash_pieces_bytes ps : is_bytes (hash_pieces ps).
Proof. rewrite hash_pieces_spec. apply blake2s_spec_bytes. Qed.
#[export] Hint Resolve hash_pieces_bytes : word.
#[export] Hint Rewrite length_hash_pieces : len.

Lemma length_mac1 p m : length (mac1 p m) = 16%nat.
Proof.
  unfold mac1. rewrite blake2s_correct by (len; lia). cbn [default from_option].
  apply length_blake2s_spec; lia.
Qed.
Lemma mac1_bytes p m : is_bytes (mac1 p m).
Proof.
  unfold mac1. rewrite blake2s_correct by (len; lia). apply blake2s_spec_bytes.
Qed.
#[export] Hint Rewrite length_mac1 : len.
#[export] Hint Resolve mac1_bytes : word.

Lemma length_hash2 a b : length (hash2 a b) = 32%nat.
Proof. apply length_hash_pieces. Qed.
Lemma hash2_bytes a b : is_bytes (hash2 a b).
Proof. apply hash_pieces_bytes. Qed.
#[export] Hint Rewrite length_hash2 : len.
#[export] Hint Resolve hash2_bytes : word.

(** RFC 2104 over BLAKE2s-256, whose block is 64 bytes. *)
Definition blake2s256 (m : list Z) : list Z := blake2s_spec 32 [] m.

Definition hmac_spec (key m : list Z) : list Z :=
  let key := if decide (length key <= 64)%nat then key else blake2s256 key in
  let k := key ++ replicate (64 - length key) 0 in
  blake2s256 (xor_bytes k (replicate 64 0x5c) ++
              blake2s256 (xor_bytes k (replicate 64 0x36) ++ m)).

Lemma xor_pad k c n : is_bytes k → is_byte c → length k = n →
  (λ x, u8 (x .^ c)) <$> k = xor_bytes k (replicate n c).
Proof.
  intros Hk Hc <-. induction Hk as [|x k Hx Hk IH]; [done|].
  cbn. unfold xor_bytes in *. rewrite IH. by rewrite u8_small by auto with word.
Qed.

Lemma hmac_blake2s_spec key inp : is_bytes key → hmac_blake2s key inp = hmac_spec key inp.
Proof.
  intros Hk. unfold hmac_blake2s, hmac_spec, BLAKE2S_BLOCK_SIZE.
  rewrite !hash_pieces_spec. cbn [concat]. rewrite !app_nil_r. fold (blake2s256 inp).
  assert (length (blake2s256 key) = 32%nat) as Hl by (by apply length_blake2s_spec).
  pose proof (blake2s_spec_bytes 32 [] key) as Hb. fold (blake2s256 key) in Hb.
  destruct (Nat.ltb_spec 64 (length key)).
  - rewrite decide_False by lia. rewrite blake2s_correct by (cbn; lia).
    cbn [default from_option]. fold (blake2s256 key).
    assert (length (blake2s256 key ++ replicate 32 0) = 64%nat) as Hl' by (len).
    assert (is_bytes (blake2s256 key ++ replicate 32 0)) as Hb' by auto with word.
    rewrite !(xor_pad _ _ 64) by (done || (unfold is_u; lia)).
    by rewrite Hl.
  - rewrite decide_True by lia.
    assert (length (key ++ replicate (64 - length key) 0) = 64%nat) by len.
    assert (is_bytes (key ++ replicate (64 - length key) 0)) by auto with word.
    by rewrite !(xor_pad _ _ 64) by (done || (unfold is_u; lia)).
Qed.

Lemma length_hmac key inp : length (hmac_blake2s key inp) = 32%nat.
Proof. apply length_hash_pieces. Qed.
Lemma hmac_bytes key inp : is_bytes (hmac_blake2s key inp).
Proof. apply hash_pieces_bytes. Qed.
#[export] Hint Rewrite length_hmac : len.
#[export] Hint Resolve hmac_bytes : word.

(** RFC 5869's extract-then-expand with the chaining key as salt: [T(i)] chains
    on [T(i-1)] and its one-byte index. *)
Fixpoint hkdf_expand (prk prev : list Z) (i : Z) (n : nat) : list (list Z) :=
  match n with
  | O => []
  | S n => let t := hmac_spec prk (prev ++ [i]) in t :: hkdf_expand prk t (i + 1) n
  end.

Definition hkdf_spec (ck data : list Z) (n : nat) : list (list Z) :=
  hkdf_expand (hmac_spec ck data) [] 1 n.

Lemma kdf_hkdf ck data : is_bytes ck →
  let '(t1, t2, t3) := kdf ck data in [t1; t2; t3] = hkdf_spec ck data 3.
Proof.
  intros Hk. unfold kdf, hkdf_spec.
  pose proof (hmac_bytes ck data) as H0. rewrite (hmac_blake2s_spec ck) in * by done.
  rewrite !(hmac_blake2s_spec (hmac_spec ck data)) by done. reflexivity.
Qed.

(** ** The header cipher *)

Lemma header_cipher_init_take key n m : (12 <= m)%nat →
  header_cipher_init key (take m n) = header_cipher_init key n.
Proof.
  intros Hm. unfold header_cipher_init. cbn [seq foldl].
  assert (∀ w, (w < 3)%nat → get_u32_le (drop (4 * w) (take m n)) = get_u32_le (drop (4 * w) n))
    as Hw; [|rewrite !Hw by lia; done].
  intros w Hw. unfold get_u32_le. rewrite !get_drop, !get_take by lia. done.
Qed.

Lemma header_cipher_init_app key n l : (12 <= length n)%nat →
  header_cipher_init key (n ++ l) = header_cipher_init key n.
Proof.
  intros Hn. rewrite <- (header_cipher_init_take _ (n ++ l) (length n)) by done.
  by rewrite take_app_length.
Qed.

Lemma length_header_xor cfg n l : length (header_xor cfg n l) = length l.
Proof. unfold header_xor. case_match; [apply length_chacha20|done]. Qed.
#[export] Hint Rewrite length_header_xor : len.

Lemma zlen_header_xor cfg n l : zlen (header_xor cfg n l) = zlen l.
Proof. unfold zlen. by rewrite length_header_xor. Qed.

Lemma header_xor_bytes cfg n l : is_bytes l → is_bytes (header_xor cfg n l).
Proof. intros. unfold header_xor. case_match; [by apply chacha20_bytes|done]. Qed.
#[export] Hint Resolve header_xor_bytes : word.

Lemma header_xor_twice cfg n l : header_xor cfg n (header_xor cfg n l) = l.
Proof. unfold header_xor. case_match; [apply chacha20_twice|done]. Qed.

(** A prefix of the length the padding check asks for is a whole nonce. *)
Definition nonce_ok (cfg : awg_config) (pad : Z) : Prop :=
  0 <= pad ∧ (cfg.(have_header_protection) = true → 12 <= pad).

Lemma header_xor_app cfg pad n m l : nonce_ok cfg pad → zlen n = pad →
  header_xor cfg (n ++ m) l = header_xor cfg n l.
Proof.
  intros [Hp Hh] Hn. unfold header_xor. destruct (have_header_protection cfg); [|done].
  rewrite header_cipher_init_app; [done|]. specialize (Hh eq_refl). unfold zlen in Hn. lia.
Qed.

Lemma nonce_ok_guard cfg pad : 0 <= pad →
  (cfg.(have_header_protection) && (pad <? 12) = false) ↔ nonce_ok cfg pad.
Proof.
  intros Hp. unfold nonce_ok. destruct (have_header_protection cfg); cbn [andb]; [|naive_solver].
  rewrite Z.ltb_ge. naive_solver.
Qed.

(** The cipher's nonce is within a datagram that holds the padding. *)
Lemma nonce_within cfg pad n : nonce_ok cfg pad → pad <= n →
  cfg.(have_header_protection) && negb (within 0 12 n) = false.
Proof.
  intros [H0 H12] Hn. destruct (have_header_protection cfg); [|done]. specialize (H12 eq_refl).
  by rewrite within_true by lia.
Qed.

Section FramingLemmas.
Context `{Entropy}.

Lemma zlen_random n pos : 0 <= n → zlen (awg_random_bytes (Z.to_nat n) pos).1 = n.
Proof. intros. unfold zlen. rewrite length_random. lia. Qed.

(** [awg_wrap] on every branch. *)
Lemma wrap_spec cfg kind msg out_cap pos :
  let pad := padding_for cfg kind in
  awg_wrap cfg kind msg out_cap pos =
    if decide (nonce_ok cfg pad ∧ pad + zlen msg <= out_cap) then
      let prefix := (awg_random_bytes (Z.to_nat pad) pos).1 in
      Ok (prefix ++ header_xor cfg prefix msg, (pos + Z.to_nat pad)%nat)
    else Err.
Proof.
  intros pad. unfold awg_wrap. fold pad.
  destruct (decide (0 <= pad)) as [Hp|Hp].
  2: { rewrite decide_False by (unfold nonce_ok; lia).
       case_match; [done|]. by rewrite (proj2 (Z.ltb_lt pad 0)) by lia. }
  rewrite (proj2 (Z.ltb_ge pad 0)) by lia. cbn [orb].
  destruct (have_header_protection cfg && (pad <? 12)) eqn:E.
  - rewrite decide_False; [done|]. intros [Hn _].
    apply (nonce_ok_guard cfg pad Hp) in Hn. congruence.
  - apply (nonce_ok_guard cfg pad Hp) in E. rewrite Z.gtb_ltb.
    destruct (Z.ltb_spec out_cap (pad + zlen msg)).
    + by rewrite decide_False by lia.
    + by rewrite decide_True by (split; [done|lia]).
Qed.

Lemma unwrap_spec cfg kind prefix body :
  let pad := padding_for cfg kind in
  nonce_ok cfg pad → zlen prefix = pad → body ≠ [] →
  awg_unwrap cfg kind (prefix ++ body) =
    Ok (prefix ++ header_xor cfg prefix body, pad, zlen body).
Proof.
  intros pad Hn Hl Hb. unfold awg_unwrap. fold pad.
  rewrite (proj2 (nonce_ok_guard cfg pad (proj1 Hn)) Hn). rewrite zlen_app, Hl.
  assert (0 < zlen body) by (unfold zlen; destruct body; [done|cbn; lia]).
  rewrite (proj2 (Z.leb_gt (pad + zlen body) pad)), (nonce_within cfg pad) by (done || lia).
  rewrite ztake_app, zdrop_app by done. rewrite (header_xor_app _ pad) by done.
  replace (if have_header_protection cfg then prefix ++ header_xor cfg prefix body
           else prefix ++ body) with (prefix ++ header_xor cfg prefix body)
    by (unfold header_xor; by case_match).
  rewrite zlen_app, Hl, zlen_header_xor.
  do 2 f_equal. lia.
Qed.

(** With a padding that is not negative the message lies in the datagram as it is left. *)
Lemma unwrap_total cfg kind pkt : 0 <= padding_for cfg kind →
  match awg_unwrap cfg kind pkt with
  | Ok (pkt', off, mlen) => off = padding_for cfg kind ∧ zlen pkt' = off + mlen
  | Err => True
  | Fault => False
  end.
Proof.
  intros Hp. unfold awg_unwrap. set (pad := padding_for cfg kind) in *. clearbody pad.
  destruct (have_header_protection cfg && (pad <? 12)) eqn:Hn; [done|]. destruct (Z.leb_spec (zlen pkt) pad); [done|].
  apply nonce_ok_guard in Hn; [|done]. rewrite (nonce_within cfg pad) by (done || lia).
  split; [done|]. lia.
Qed.

Lemma wrap_fits cfg kind msg cap pos :
  let pad := padding_for cfg kind in
  nonce_ok cfg pad → pad + zlen msg <= cap → msg ≠ [] →
  ∃ dgram pos' pkt, awg_wrap cfg kind msg cap pos = Ok (dgram, pos') ∧
    (is_bytes msg → is_bytes dgram) ∧ zlen dgram = pad + zlen msg ∧
    awg_unwrap cfg kind dgram = Ok (pkt, pad, zlen msg) ∧ zdrop pad pkt = msg.
Proof.
  intros pad Hn Hc Hm. rewrite wrap_spec, decide_True by done. cbv zeta. fold pad.
  set (prefix := (awg_random_bytes (Z.to_nat pad) pos).1).
  assert (zlen prefix = pad) as Hp by (apply zlen_random, Hn).
  do 3 eexists. split; [reflexivity|].
  split; [intros; unfold prefix; auto with word|].
  rewrite zlen_app, Hp, zlen_header_xor. split; [done|]. rewrite unwrap_spec; [|exact Hn|exact Hp|].
  - rewrite zlen_header_xor. split; [reflexivity|]. rewrite zdrop_app by exact Hp.
    apply header_xor_twice.
  - intros E. apply (f_equal length) in E. rewrite length_header_xor in E. by destruct msg.
Qed.

End FramingLemmas.

(** ** The transport *)

Lemma padded_to_16_eq n : padded_to_16 n = (n + 15) / 16 * 16.
Proof.
  unfold padded_to_16. rewrite <- Z.ldiff_land.
  change 15 with (Z.ones 4) at 2. rewrite Z.ldiff_ones_r by lia.
  by rewrite Z.shiftl_mul_pow2, Z.shiftr_div_pow2 by lia.
Qed.

Lemma padded_to_16_bounds n : 0 <= n → n <= padded_to_16 n < n + 16 ∧ padded_to_16 n mod 16 = 0.
Proof.
  intros. rewrite padded_to_16_eq. split; [Z.div_mod_to_equations; lia|].
  apply Z.mod_mul. lia.
Qed.

(** The payload as the peer decrypts it. *)
Definition padded_payload (payload : list Z) : list Z :=
  payload ++ replicate (Z.to_nat (padded_to_16 (zlen payload) - zlen payload)) 0.

Lemma zlen_padded_payload p : zlen (padded_payload p) = padded_to_16 (zlen p).
Proof.
  unfold padded_payload. rewrite zlen_app. unfold zlen at 2. rewrite length_replicate.
  pose proof (padded_to_16_bounds (zlen p) (zlen_nonneg p)). lia.
Qed.

Lemma padded_payload_bytes p : is_bytes p → is_bytes (padded_payload p).
Proof. intros. unfold padded_payload. auto with word. Qed.
#[export] Hint Resolve padded_payload_bytes : word.

Definition transport_header (type index counter : Z) : list Z :=
  put_u32_le type ++ put_u32_le index ++ put_u64_le counter.

(** What a sealed datagram is, for a given random prefix. *)
Definition sealed (cfg : awg_config) (hs : awg_handshake) (counter : Z)
    (prefix payload : list Z) : list Z :=
  prefix ++ header_xor cfg prefix (transport_header cfg.(h4) hs.(remote_index) counter) ++
  chacha20poly1305_encrypt (padded_payload payload) [] counter hs.(send_key).

Section Transport.
Context `{Entropy}.

Lemma seal_spec cfg hs counter payload out_cap pos :
  0 <= cfg.(s4) →
  awg_transport_seal cfg hs counter payload out_cap pos =
    if decide (nonce_ok cfg cfg.(s4) ∧
               cfg.(s4) + 16 + padded_to_16 (zlen payload) + 16 <= out_cap) then
      let prefix := (awg_random_bytes (Z.to_nat cfg.(s4)) pos).1 in
      Ok (sealed cfg hs counter prefix payload, (pos + Z.to_nat cfg.(s4))%nat)
    else Err.
Proof.
  intros Hp. unfold awg_transport_seal, TRANSPORT_HDR, AEAD_TAG.
  pose proof (padded_to_16_bounds (zlen payload) (zlen_nonneg payload)).
  pose proof (zlen_nonneg payload).
  change (Z.of_nat 16) with 16. rewrite Z.gtb_ltb.
  destruct (have_header_protection cfg && (s4 cfg <? 12)) eqn:E.
  - rewrite decide_False; [done|]. intros [Hn _].
    apply (nonce_ok_guard cfg _ Hp) in Hn. congruence.
  - apply (nonce_ok_guard cfg _ Hp) in E.
    destruct (Z.ltb_spec out_cap (cfg.(s4) + 16 + padded_to_16 (zlen payload) + 16)).
    + by rewrite decide_False by lia.
    + rewrite !within_true, decide_True by (lia || (split; [done|lia])). unfold sealed. generalize chacha20poly1305_encrypt. done.
Qed.

(** What [awg_transport_open] accepts, over the decrypted header. *)
Definition open_plain (cfg : awg_config) (hs : awg_handshake) (prefix hdr ct : list Z)
    (out_cap : Z) : option (list Z * Z) :=
  if decide (get_u32_le hdr = cfg.(h4) ∧ get_u32_le (drop 4 hdr) = hs.(local_index) ∧
             16 <= zlen ct ∧ zlen ct - 16 <= out_cap)
  then out ← chacha20poly1305_decrypt ct [] (get_u64_le (drop 8 hdr)) hs.(recv_key);
       Some (out, get_u64_le (drop 8 hdr))
  else None.

Lemma xor_header_at_app cfg pad prefix hdr ct :
  nonce_ok cfg pad → zlen prefix = pad → length hdr = 16%nat →
  xor_header_at cfg pad (prefix ++ hdr ++ ct) = prefix ++ header_xor cfg prefix hdr ++ ct.
Proof.
  intros Hn Hp Hh. unfold xor_header_at, TRANSPORT_HDR.
  rewrite ztake_app, zdrop_app, take_app_length', drop_app_length' by done.
  by rewrite (header_xor_app _ pad).
Qed.

Lemma open_spec cfg hs prefix hdr ct out_cap :
  nonce_ok cfg cfg.(s4) → zlen prefix = cfg.(s4) → length hdr = 16%nat →
  let pkt := prefix ++ header_xor cfg prefix hdr ++ ct in
  awg_transport_open cfg hs pkt out_cap =
    match open_plain cfg hs prefix hdr ct out_cap with
    | Some r => Ok (prefix ++ hdr ++ ct, Some r)
    | None => Ok (pkt, None)
    end.
Proof.
  intros Hn Hp Hh pkt. unfold awg_transport_open.
  rewrite (proj2 (nonce_ok_guard cfg _ (proj1 Hn)) Hn).
  assert (zlen (header_xor cfg prefix hdr) = 16) as Hx by (unfold zlen; len).
  assert (zlen hdr = 16) as Hz by (unfold zlen; lia).
  unfold pkt. rewrite !zlen_app, Hp, Hx. unfold open_plain, TRANSPORT_HDR, AEAD_TAG.
  change (Z.of_nat 16) with 16.
  destruct (Z.ltb_spec (cfg.(s4) + (16 + zlen ct)) (cfg.(s4) + 16 + 16)).
  { by rewrite decide_False by lia. }
  assert (0 <= cfg.(s4)) by apply Hn. rewrite (nonce_within cfg cfg.(s4)), within_true by (done || lia). cbn [negb orb].
  rewrite xor_header_at_app, header_xor_twice by (done || len).
  rewrite !xor_header_at_app, !zdrop_app by done.
  rewrite (drop_app_length' hdr ct 16) by done.
  rewrite !zlen_app, Hp, Hz.
  assert (get_u32_le (hdr ++ ct) = get_u32_le hdr) as ->.
  { unfold get_u32_le. by rewrite !get_app_l by lia. }
  assert (get_u32_le (drop 4 (hdr ++ ct)) = get_u32_le (drop 4 hdr)) as ->.
  { unfold get_u32_le. by rewrite !get_drop, !get_app_l by lia. }
  assert (get_u64_le (drop 8 (hdr ++ ct)) = get_u64_le (drop 8 hdr)) as ->.
  { unfold get_u64_le. change (reverse (seq 0 8)) with [7; 6; 5; 4; 3; 2; 1; 0]%nat.
    cbn [foldl]. by rewrite !get_drop, !get_app_l by lia. }
  destruct (Z.eqb_spec (get_u32_le hdr) cfg.(h4)); cbn [negb];
    [|by rewrite decide_False by naive_solver].
  destruct (Z.eqb_spec (get_u32_le (drop 4 hdr)) hs.(local_index)); cbn [negb];
    [|by rewrite decide_False by naive_solver].
  rewrite Z.gtb_ltb.
  replace (s4 cfg + (16 + zlen ct) - s4 cfg - 16 - 16) with (zlen ct - 16) by lia.
  rewrite (proj2 (Z.ltb_ge (zlen ct - 16) 0)) by lia. cbn [orb].
  destruct (Z.ltb_spec out_cap (zlen ct - 16)); [by rewrite decide_False by lia|].
  rewrite !within_true, decide_True by (lia || (split_and!; (done || lia))). cbn [andb negb].
  destruct (chacha20poly1305_decrypt _ _ _ _); done.
Qed.

Lemma zlen_xor_header_at cfg pad pkt : 0 <= pad → zlen (xor_header_at cfg pad pkt) = zlen pkt.
Proof.
  intros Hp. unfold xor_header_at. rewrite !zlen_app, zlen_header_xor. unfold ztake, zdrop, zlen.
  rewrite !length_take, !length_drop. lia.
Qed.

(** With a padding that is not negative no access leaves the datagram or the buffer. *)
Lemma transport_open_total cfg hs pkt cap : 0 <= cfg.(s4) → ∃ r, awg_transport_open cfg hs pkt cap = Ok r.
Proof.
  intros Hp. unfold awg_transport_open, TRANSPORT_HDR, AEAD_TAG. change (Z.of_nat 16) with 16.
  destruct (have_header_protection cfg && (s4 cfg <? 12)) eqn:Hn; [eauto|].
  apply nonce_ok_guard in Hn; [|done]. destruct (Z.ltb_spec (zlen pkt) (s4 cfg + 16 + 16)); [eauto|].
  rewrite (nonce_within cfg (s4 cfg)), within_true by (done || lia). cbn [negb orb].
  rewrite zlen_xor_header_at by done. do 2 (case_match; [eauto|]).
  destruct (Z.ltb_spec (zlen pkt - s4 cfg - 16 - 16) 0); [cbn [orb]; eauto|]. rewrite Z.gtb_ltb. cbn [orb].
  destruct (Z.ltb_spec cap (zlen pkt - s4 cfg - 16 - 16)); [eauto|].
  rewrite !within_true by lia. cbn [andb negb]. case_match; eauto.
Qed.

Lemma xor_header_at_bytes cfg pad pkt : is_bytes pkt → is_bytes (xor_header_at cfg pad pkt).
Proof. intros. unfold xor_header_at, ztake, zdrop. auto 10 with word. Qed.

(** The counter is a 64-bit word and the datagram stays bytes. *)
Lemma open_bytes cfg hs pkt cap pkt' r : is_bytes pkt →
  awg_transport_open cfg hs pkt cap = Ok (pkt', r) →
  is_bytes pkt' ∧ ∀ out ctr, r = Some (out, ctr) → is_u 64 ctr.
Proof.
  intros Hb. unfold awg_transport_open.
  destruct (have_header_protection cfg && (s4 cfg <? 12)); [by intros [= <- <-]|].
  destruct (_ <? _); [by intros [= <- <-]|]. destruct (_ || _); [done|].
  pose proof (xor_header_at_bytes cfg cfg.(s4) pkt Hb) as Hx.
  set (p := xor_header_at cfg (s4 cfg) pkt) in *. clearbody p.
  pose proof (xor_header_at_bytes cfg cfg.(s4) p Hx) as Hx'.
  assert (is_u 64 (get_u64_le (drop 8 (zdrop (s4 cfg) p)))) as Hc.
  { apply get_u64_le_bound. unfold zdrop. auto with word. }
  do 3 (case_match; [by intros [= <- <-]|]). case_match; [done|].
  destruct (chacha20poly1305_decrypt _ _ _ _); intros [= <- <-]; [|done].
  split; [done|]. by intros ? ? [= <- <-].
Qed.

(** Every datagram long enough is of the form [open_spec] speaks of. *)
Lemma datagram_split cfg pkt : nonce_ok cfg cfg.(s4) → cfg.(s4) + 16 <= zlen pkt →
  let prefix := ztake cfg.(s4) pkt in
  let hdr := header_xor cfg prefix (take 16 (zdrop cfg.(s4) pkt)) in
  let ct := drop 16 (zdrop cfg.(s4) pkt) in
  pkt = prefix ++ header_xor cfg prefix hdr ++ ct ∧
  zlen prefix = cfg.(s4) ∧ length hdr = 16%nat.
Proof.
  intros [Hn _] Hl. cbn zeta. rewrite header_xor_twice, length_header_xor.
  unfold ztake, zdrop, zlen in *. split_and!.
  - by rewrite !take_drop.
  - rewrite length_take. lia.
  - rewrite length_take, length_drop. lia.
Qed.

End Transport.

(** ** The handshake as a transcript

    What the two messages and the chaining state are, as functions of the public
    values and of the four shared secrets: both roles compute them. *)

(** [ck], [h] and the two sealed fields after the initiation. *)
Definition noise_init (rpub epub spub stamp es ss : list Z)
    : list Z * list Z * list Z * list Z :=
  let ck := hash2 CONSTRUCTION [] in
  let h := mix_hash (hash2 ck IDENTIFIER) rpub in
  let ck := (kdf ck epub).1.1 in
  let h := mix_hash h epub in
  let '(ck, k, _) := kdf ck es in
  let enc_s := chacha20poly1305_encrypt spub h 0 k in
  let h := mix_hash h enc_s in
  let '(ck, k, _) := kdf ck ss in
  let enc_t := chacha20poly1305_encrypt stamp h 0 k in
  (ck, mix_hash h enc_t, enc_s, enc_t).

Definition init_msg (idx : Z) (rpub epub enc_s enc_t : list Z) : list Z :=
  let body := put_u32_le 1 ++ put_u32_le idx ++ epub ++ enc_s ++ enc_t in
  body ++ mac1 rpub body ++ replicate 16 0.

(** [ck], [h] and the sealed empty field after the response. *)
Definition noise_resp (ck h epub ee se psk : list Z) : list Z * list Z * list Z :=
  let ck := (kdf ck epub).1.1 in
  let h := mix_hash h epub in
  let ck := (kdf ck ee).1.1 in
  let ck := (kdf ck se).1.1 in
  let '(ck, t, k) := kdf ck psk in
  let h := mix_hash h t in
  let enc := chacha20poly1305_encrypt [] h 0 k in
  (ck, mix_hash h enc, enc).

Definition resp_msg (idx ridx : Z) (ipub epub enc : list Z) : list Z :=
  let body := put_u32_le 2 ++ put_u32_le idx ++ put_u32_le ridx ++ epub ++ enc in
  body ++ mac1 ipub body ++ replicate 16 0.

(** The fields both message builders rely on. *)
Record hs_ok (hs : awg_handshake) : Prop := {
  ho_spub : length hs.(s_pub) = 32%nat;
  ho_spub_b : is_bytes hs.(s_pub);
  ho_idx : is_u 32 hs.(local_index)
}.

#[local] Opaque kdf hash2 mac1 chacha20poly1305_encrypt chacha20poly1305_decrypt
  CONSTRUCTION IDENTIFIER put_u32_le curve awg_generate_private.

(** The messages as the builders write them, field by field. *)
Lemma init_layout idx rpub epub enc_s enc_t :
  length epub = 32%nat → length enc_s = 48%nat → length enc_t = 28%nat →
  let out := blit 88 enc_t (blit 40 enc_s (blit 8 epub (blit 4 (put_u32_le idx)
               (blit 0 (put_u32_le 1) (replicate AWG_MSG_INIT_SIZE 0))))) in
  blit 116 (mac1 rpub (take 116 out)) out = init_msg idx rpub epub enc_s enc_t.
Proof.
  intros Le Ls Lt. unfold AWG_MSG_INIT_SIZE, init_msg.
  change (replicate 148 0) with ([] ++ replicate 148 0).
  rewrite (blit_next 0 4), (blit_next 4 4), (blit_next 8 32), (blit_next 40 48),
    (blit_next 88 28) by (done || len).
  rewrite take_app_length' by len. rewrite (blit_next 116 16) by len.
  by rewrite app_nil_l, <- !app_assoc.
Qed.

Lemma resp_layout idx ridx ipub epub enc :
  length epub = 32%nat → length enc = 16%nat →
  let out := blit 44 enc (blit 12 epub (blit 8 (put_u32_le ridx) (blit 4 (put_u32_le idx)
               (blit 0 (put_u32_le 2) (replicate AWG_MSG_RESP_SIZE 0))))) in
  blit 60 (mac1 ipub (take 60 out)) out = resp_msg idx ridx ipub epub enc.
Proof.
  intros Le Ls. unfold AWG_MSG_RESP_SIZE, resp_msg.
  change (replicate 92 0) with ([] ++ replicate 92 0).
  rewrite (blit_next 0 4), (blit_next 4 4), (blit_next 8 4), (blit_next 12 32),
    (blit_next 44 16) by (done || len).
  rewrite take_app_length' by len. rewrite (blit_next 60 16) by len.
  by rewrite app_nil_l, <- !app_assoc.
Qed.

Ltac hs_simpl :=
  cbn [modify ck hh s_priv s_pub e_priv e_pub peer_pub peer_eph psk local_index
       remote_index send_key recv_key hs_established chain_start mix_ck mix_h negb fst snd] in *.

(** Nested field updates, evaluated from the inside. *)
Ltac hs_flatten :=
  cbv beta iota delta [modify ck hh s_priv s_pub e_priv e_pub peer_pub peer_eph psk
    local_index remote_index send_key recv_key hs_established].

(** One step of a role: the record flattened, the tests of zero decided. *)
Ltac hs_step := hs_simpl; hs_flatten; rewrite ?Z.eqb_refl; hs_simpl.
Section Transcript.
Context `{Entropy} `{Curve} `{!CurveLaws}.

Lemma base_point_ok : is_bytes X25519_BASE_POINT ∧ length X25519_BASE_POINT = 32%nat.
Proof. split; [|done]. cbn. word_list. Qed.

Lemma length_public priv : length (awg_public_from_private priv) = 32%nat.
Proof. apply curve_length; apply base_point_ok. Qed.
Lemma public_bytes priv : is_bytes (awg_public_from_private priv).
Proof. apply curve_bytes; apply base_point_ok. Qed.

Lemma length_tai64n now pos : length (tai64n now pos).1 = 12%nat.
Proof. unfold tai64n. cbn. len. Qed.
Lemma tai64n_bytes now pos : is_bytes (tai64n now pos).1.
Proof.
  unfold tai64n. destruct (awg_random_u32 pos) as [v q]. cbn [fst].
  apply is_bytes_app; [auto with word|]. word_list.
Qed.

Lemma generate_private_bytes pos :
  is_bytes (awg_generate_private pos).1 ∧ length (awg_generate_private pos).1 = 32%nat.
Proof.
  Transparent awg_generate_private.
  unfold awg_generate_private. pose proof (length_random 32 pos) as Hl.
  pose proof (random_bytes 32 pos) as Hb. destruct (awg_random_bytes 32 pos) as [p q].
  cbn [fst] in *. split; [|len].
  assert (∀ (l : list Z) i f, is_bytes l → (∀ x, is_byte x → is_byte (f x)) →
    is_bytes (<[i := f l.[i]]> l)) as Hi.
  { intros l i f Hb' Hf. apply Forall_insert; [done|]. apply Hf. auto with word. }
  assert (∀ m x, is_byte x → is_byte (x .& m)) as Hand.
  { intros m x Hx. apply is_u_of_testbit; [lia|apply Z.land_nonneg; left; apply Hx|].
    intros i Hi'. by rewrite Z.land_spec, (is_u_testbit 8 x). }
  apply (Hi _ 31%nat (λ x, x .| 64)); [|intros; apply is_u_lor; [lia|done|unfold is_u; lia]].
  apply (Hi _ 31%nat (λ x, x .& 127)); [|apply Hand].
  by apply (Hi _ 0%nat (λ x, x .& 248)); [|apply Hand].
Qed.

(** *** Roles *)

#[local] Opaque awg_generate_private awg_public_from_private tai64n.

Lemma create_initiation_spec hs now pos es ss :
  hs_ok hs →
  let '(ep, pos1) := awg_generate_private pos in
  let '(stamp, pos2) := tai64n now pos1 in
  let epub := awg_public_from_private ep in
  curve ep hs.(peer_pub) true = (es, 0) →
  curve hs.(s_priv) hs.(peer_pub) true = (ss, 0) →
  let '(ck', h', enc_s, enc_t) := noise_init hs.(peer_pub) epub hs.(s_pub) stamp es ss in
  awg_create_initiation hs now pos =
    (hs <| ck := ck' |> <| hh := h' |> <| e_priv := ep |> <| e_pub := epub |>,
     Some (init_msg hs.(local_index) hs.(peer_pub) epub enc_s enc_t), pos2).
Proof.
  intros [Hs Hsb Hi].
  destruct (awg_generate_private pos) as [ep pos1] eqn:Ep.
  destruct (tai64n now pos1) as [stamp pos2] eqn:Et. cbn zeta. intros Hes Hss.
  unfold awg_create_initiation, noise_init. rewrite Ep.
  pose proof (length_public ep) as Le. pose proof (length_tai64n now pos1) as Lt.
  rewrite Et in Lt. destruct hs. unfold chain_start, mix_key, mix_ck, mix_h. hs_simpl.
  rewrite Hes. hs_simpl. rewrite Z.eqb_refl. hs_simpl.
  destruct (kdf _ es) as [[c2 k2] ?] eqn:E2. hs_simpl. rewrite Hss. hs_simpl.
  rewrite Z.eqb_refl. hs_simpl.
  destruct (kdf c2 ss) as [[c3 k3] ?] eqn:E3. hs_simpl. rewrite Et.
  match goal with |- context [chacha20poly1305_encrypt s_pub0 ?h 0 k2] =>
    set (enc_s := chacha20poly1305_encrypt s_pub0 h 0 k2) end.
  match goal with |- context [chacha20poly1305_encrypt stamp ?h 0 k3] =>
    set (enc_t := chacha20poly1305_encrypt stamp h 0 k3) end.
  assert (length enc_s = 48%nat) as Les by (unfold enc_s; len).
  assert (length enc_t = 28%nat) as Let by (unfold enc_t; len).
  pose proof (init_layout local_index0 peer_pub0 _ enc_s enc_t Le Les Let) as Hm.
  cbv zeta in Hm. rewrite Hm. hs_flatten. reflexivity.
Qed.

(** A message of this shape, read back field by field. *)
Lemma init_fields idx rpub epub enc_s enc_t :
  is_u 32 idx → length epub = 32%nat → length enc_s = 48%nat → length enc_t = 28%nat →
  is_bytes epub → is_bytes enc_s → is_bytes enc_t →
  let m := init_msg idx rpub epub enc_s enc_t in
  length m = 148%nat ∧ is_bytes m ∧
  get_u32_le m = 1 ∧ get_u32_le (drop 4 m) = idx ∧ slice 8 32 m = epub ∧
  slice 40 48 m = enc_s ∧ slice 88 28 m = enc_t ∧
  crypto_equal (mac1 rpub (take 116 m)) (drop 116 m) 16 = true.
Proof.
  intros Hi Le Ls Lt Be Bs Bt. unfold init_msg.
  set (body := put_u32_le 1 ++ put_u32_le idx ++ epub ++ enc_s ++ enc_t).
  assert (length body = 116%nat) as Lb by (unfold body; len).
  cbv zeta. rewrite (take_app_length' body _ 116), (drop_app_length' body _ 116) by done.
  assert (is_bytes (mac1 rpub body ++ replicate 16 0)) as Bm by auto with word.
  assert (length (mac1 rpub body ++ replicate 16 0) = 32%nat) as Lm by len.
  assert (crypto_equal (mac1 rpub body) (mac1 rpub body ++ replicate 16 0) 16 = true) as Hc.
  { apply crypto_equal_spec; [auto with word..|len|len|]. by rewrite take_app_length', take_ge by len. }
  revert Bm Lm Hc. generalize (mac1 rpub body ++ replicate 16 0) (mac1 rpub body).
  unfold body. intros tail m Bm Lm Hc. rewrite <- !app_assoc.
  split_and!; [len|auto 10 with word|apply get_put_u32; [unfold is_u; lia|auto 10 with word]
    |rewrite drop_app_length' by done; apply get_put_u32; [done|auto 10 with word]| | | |done];
  repeat (rewrite slice_skip by len; autorewrite with len; rewrite ?Le, ?Ls, ?Lt; cbn [Nat.sub]);
  by apply slice_here.
Qed.
Lemma encrypt_field_bytes src ad k : is_bytes src → is_bytes ad →
  (length src <= 64)%nat → (length ad <= 64)%nat →
  is_bytes (chacha20poly1305_encrypt src ad 0 k).
Proof. intros. apply encrypt_bytes; [done|done|unfold small_len, zlen; lia..]. Qed.

Lemma decrypt_field src ad k : is_bytes src → is_bytes ad →
  (length src <= 64)%nat → (length ad <= 64)%nat →
  chacha20poly1305_decrypt (chacha20poly1305_encrypt src ad 0 k) ad 0 k = Some src.
Proof. intros. apply decrypt_encrypt; [done|done|unfold small_len, zlen; lia..]. Qed.

Lemma mix_hash_ok h d : is_bytes (mix_hash h d) ∧ length (mix_hash h d) = 32%nat.
Proof. split; [apply hash2_bytes|apply length_hash2]. Qed.

Lemma noise_init_fields rpub epub spub stamp es ss :
  is_bytes spub → length spub = 32%nat → is_bytes stamp → length stamp = 12%nat →
  let '(_, _, enc_s, enc_t) := noise_init rpub epub spub stamp es ss in
  length enc_s = 48%nat ∧ length enc_t = 28%nat ∧ is_bytes enc_s ∧ is_bytes enc_t.
Proof.
  intros Bs Ls Bt Lt. unfold noise_init.
  destruct (kdf _ es) as [[c2 k2] ?]. destruct (kdf c2 ss) as [[c3 k3] ?].
  split_and!; [len|len| |]; apply encrypt_field_bytes; (done || apply mix_hash_ok || lia ||
    (rewrite (proj2 (mix_hash_ok _ _)); lia)).
Qed.

Lemma consume_initiation_accepts hs idx epub spub stamp es ss :
  let rpub := hs.(s_pub) in
  is_u 32 idx → is_bytes epub → length epub = 32%nat → is_bytes spub → length spub = 32%nat →
  is_bytes stamp → length stamp = 12%nat →
  curve hs.(s_priv) epub true = (es, 0) → curve hs.(s_priv) spub true = (ss, 0) →
  let '(ck', h', enc_s, enc_t) := noise_init rpub epub spub stamp es ss in
  awg_consume_initiation hs (init_msg idx rpub epub enc_s enc_t) =
    (hs <| ck := ck' |> <| hh := h' |> <| peer_pub := spub |> <| peer_eph := epub |>
        <| remote_index := idx |>, true).
Proof.
  intros rpub Hi Be Le Bs Ls Bt Lt Hes Hss.
  pose proof (noise_init_fields rpub epub spub stamp es ss Bs Ls Bt Lt) as Hf.
  unfold noise_init in *.
  destruct (kdf _ es) as [[c2 k2] ?] eqn:E2. destruct (kdf c2 ss) as [[c3 k3] ?] eqn:E3.
  destruct Hf as (Les & Let & Bes & Bet).
  destruct (init_fields idx rpub epub _ _ Hi Le Les Let Be Bes Bet)
    as (_ & _ & F1 & F2 & F3 & F4 & F5 & F6).
  unfold awg_consume_initiation. fold rpub. rewrite F1. hs_simpl.
  destruct hs. unfold chain_start, mix_key, mix_ck, mix_h. unfold rpub in *. hs_simpl.
  rewrite F6, F2, F3, F4, F5. hs_simpl. rewrite Hes. hs_simpl. rewrite E2. hs_simpl.
  rewrite decrypt_field by (done || apply mix_hash_ok || lia ||
    (rewrite (proj2 (mix_hash_ok _ _)); lia)).
  hs_simpl. rewrite Hss. hs_simpl. rewrite E3. hs_simpl.
  rewrite decrypt_field by (done || apply mix_hash_ok || lia ||
    (rewrite (proj2 (mix_hash_ok _ _)); lia)).
  hs_flatten. reflexivity.
Qed.

Lemma noise_resp_fields c h epub ee se psk' :
  let '(_, _, enc) := noise_resp c h epub ee se psk' in
  length enc = 16%nat ∧ is_bytes enc.
Proof.
  unfold noise_resp. destruct (kdf _ psk') as [[c3 t] k].
  split; [len|apply encrypt_field_bytes]; [apply Forall_nil_2|apply mix_hash_ok|cbn; lia|].
  rewrite (proj2 (mix_hash_ok _ _)). lia.
Qed.

Lemma create_response_spec hs pos ee se :
  let '(ep, pos1) := awg_generate_private pos in
  let epub := awg_public_from_private ep in
  curve ep hs.(peer_eph) true = (ee, 0) →
  curve ep hs.(peer_pub) true = (se, 0) →
  let '(ck', h', enc) := noise_resp hs.(ck) hs.(hh) epub ee se hs.(psk) in
  awg_create_response hs pos =
    (hs <| ck := ck' |> <| hh := h' |> <| e_priv := ep |> <| e_pub := epub |>
        <| recv_key := (kdf ck' []).1.1 |> <| send_key := (kdf ck' []).1.2 |>
        <| hs_established := true |>,
     Some (resp_msg hs.(local_index) hs.(remote_index) hs.(peer_pub) epub enc), pos1).
Proof.
  destruct (awg_generate_private pos) as [ep pos1] eqn:Ep. cbn zeta. intros Hee Hse.
  pose proof (noise_resp_fields hs.(ck) hs.(hh) (awg_public_from_private ep) ee se hs.(psk)) as Hf.
  unfold awg_create_response, noise_resp in *. rewrite Ep.
  pose proof (length_public ep) as Le. destruct hs. unfold mix_ck, mix_h. hs_simpl.
  rewrite Hee. hs_simpl. rewrite Z.eqb_refl. hs_simpl. rewrite Hse. hs_simpl.
  rewrite Z.eqb_refl. hs_simpl.
  destruct (kdf _ psk0) as [[c3 t] k] eqn:E3. hs_simpl.
  destruct (kdf c3 []) as [[rk sk] ?] eqn:E4. hs_simpl.
  set (enc := chacha20poly1305_encrypt _ _ _ _) in *. destruct Hf as [Len _].
  pose proof (resp_layout local_index0 remote_index0 peer_pub0 _ enc Le Len) as Hm.
  cbv zeta in Hm. rewrite Hm. hs_flatten. rewrite ?E4. reflexivity.
Qed.

Lemma resp_fields idx ridx ipub epub enc :
  is_u 32 idx → is_u 32 ridx → length epub = 32%nat → length enc = 16%nat →
  is_bytes epub → is_bytes enc →
  let m := resp_msg idx ridx ipub epub enc in
  length m = 92%nat ∧ is_bytes m ∧
  get_u32_le m = 2 ∧ get_u32_le (drop 4 m) = idx ∧ get_u32_le (drop 8 m) = ridx ∧
  slice 12 32 m = epub ∧ slice 44 16 m = enc ∧
  crypto_equal (mac1 ipub (take 60 m)) (drop 60 m) 16 = true.
Proof.
  intros Hi Hr Le Ls Be Bs. unfold resp_msg.
  set (body := put_u32_le 2 ++ put_u32_le idx ++ put_u32_le ridx ++ epub ++ enc).
  assert (length body = 60%nat) as Lb by (unfold body; len).
  cbv zeta. rewrite (take_app_length' body _ 60), (drop_app_length' body _ 60) by done.
  assert (is_bytes (mac1 ipub body ++ replicate 16 0)) as Bm by auto with word.
  assert (length (mac1 ipub body ++ replicate 16 0) = 32%nat) as Lm by len.
  assert (crypto_equal (mac1 ipub body) (mac1 ipub body ++ replicate 16 0) 16 = true) as Hc.
  { apply crypto_equal_spec; [auto with word..|len|len|]. by rewrite take_app_length', take_ge by len. }
  revert Bm Lm Hc. generalize (mac1 ipub body ++ replicate 16 0) (mac1 ipub body).
  unfold body. intros tail m Bm Lm Hc. rewrite <- !app_assoc.
  split_and!; [len|auto 10 with word|apply get_put_u32; [unfold is_u; lia|auto 10 with word]
    |rewrite drop_app_length' by done; apply get_put_u32; [done|auto 10 with word]
    |rewrite app_assoc, drop_app_length' by done; apply get_put_u32; [done|auto 10 with word]
    | | |done];
  repeat (rewrite slice_skip by len; autorewrite with len; rewrite ?Le, ?Ls; cbn [Nat.sub]);
  by apply slice_here.
Qed.

Lemma consume_response_accepts hs idx epub ee se :
  let ipub := hs.(s_pub) in
  is_u 32 idx → is_u 32 hs.(local_index) → is_bytes epub → length epub = 32%nat →
  curve hs.(e_priv) epub true = (ee, 0) → curve hs.(s_priv) epub true = (se, 0) →
  let '(ck', h', enc) := noise_resp hs.(ck) hs.(hh) epub ee se hs.(psk) in
  awg_consume_response hs (resp_msg idx hs.(local_index) ipub epub enc) =
    (hs <| ck := ck' |> <| hh := h' |> <| peer_eph := epub |> <| remote_index := idx |>
        <| send_key := (kdf ck' []).1.1 |> <| recv_key := (kdf ck' []).1.2 |>
        <| hs_established := true |>, true).
Proof.
  intros ipub Hi Hl Be Le Hee Hse.
  pose proof (noise_resp_fields hs.(ck) hs.(hh) epub ee se hs.(psk)) as Hf.
  unfold noise_resp in *. destruct (kdf _ (psk hs)) as [[c3 t] k] eqn:E3.
  destruct Hf as (Len & Ben).
  destruct (resp_fields idx hs.(local_index) ipub epub _ Hi Hl Le Len Be Ben)
    as (_ & _ & F1 & F2 & F3 & F4 & F5 & F6).
  unfold awg_consume_response. fold ipub. rewrite F1. hs_simpl.
  destruct hs. unfold mix_ck, mix_h. unfold ipub in *. hs_simpl.
  rewrite F3. hs_step. rewrite F6, F2, F4, F5. hs_step.
  rewrite Hee. hs_step. rewrite Hse. hs_step. rewrite E3. hs_step.
  rewrite decrypt_field by (apply Forall_nil_2 || apply mix_hash_ok || (cbn; lia) ||
    (rewrite (proj2 (mix_hash_ok _ _)); lia)).
  hs_step. destruct (kdf c3 []) as [[sk rk] ?]. hs_step. reflexivity.
Qed.

(** *** Agreement *)

(** Two private keys agree: each side computes the same secret, and the code's
    test for an all-zero secret passes. *)
Definition dh_agree (a b : list Z) : Prop :=
  (curve a (awg_public_from_private b) true).2 = 0 ∧
  curve a (awg_public_from_private b) true = curve b (awg_public_from_private a) true.

Lemma dh_agree_inv a b : dh_agree a b → ∃ s,
  curve a (awg_public_from_private b) true = (s, 0) ∧
  curve b (awg_public_from_private a) true = (s, 0).
Proof.
  intros [Hz He]. destruct (curve a _ true) as [s r]. cbn in Hz. subst r. eauto.
Qed.

(** The state [awg_handshake_begin] leaves on each side. *)
Definition begin_i (si sr : list Z) (psk : option (list Z)) (idx : Z) : awg_handshake :=
  awg_handshake_begin si (Some (awg_public_from_private sr)) psk idx.
Definition begin_r (sr : list Z) (psk : option (list Z)) (idx : Z) : awg_handshake :=
  awg_handshake_begin sr None psk idx.

Lemma begin_fields priv peer psk' idx :
  let hs := awg_handshake_begin priv peer psk' idx in
  hs.(s_priv) = priv ∧ hs.(s_pub) = awg_public_from_private priv ∧
  hs.(peer_pub) = default (replicate 32 0) peer ∧
  hs.(psk) = default (replicate 32 0) psk' ∧ hs.(local_index) = idx ∧
  hs.(hs_established) = false.
Proof. unfold awg_handshake_begin. by destruct peer, psk'. Qed.

(** The two exchanges, run in order with each side's own entropy position. *)
Definition run_handshake (hsI hsR : awg_handshake) (now : Z) (posI posR : nat)
    : option (awg_handshake * awg_handshake) :=
  match awg_create_initiation hsI now posI with
  | (hsI, Some m1, _) =>
    match awg_consume_initiation hsR m1 with
    | (hsR, true) =>
      match awg_create_response hsR posR with
      | (hsR, Some m2, _) =>
        match awg_consume_response hsI m2 with
        | (hsI, true) => Some (hsI, hsR)
        | _ => None
        end
      | _ => None
      end
    | _ => None
    end
  | _ => None
  end.

(** The initiation, built and consumed: both sides hold the same chain. *)
Lemma initiation_agrees hsI hsR now pos es ss :
  let ei := (awg_generate_private pos).1 in
  let epub := awg_public_from_private ei in
  hs_ok hsI → hsI.(peer_pub) = hsR.(s_pub) →
  curve ei hsI.(peer_pub) true = (es, 0) → curve hsR.(s_priv) epub true = (es, 0) →
  curve hsI.(s_priv) hsI.(peer_pub) true = (ss, 0) →
  curve hsR.(s_priv) hsI.(s_pub) true = (ss, 0) →
  ∃ c g m pos', length m = AWG_MSG_INIT_SIZE ∧ is_bytes m ∧
    awg_create_initiation hsI now pos =
      (hsI <| ck := c |> <| hh := g |> <| e_priv := ei |> <| e_pub := epub |>, Some m, pos') ∧
    awg_consume_initiation hsR m =
      (hsR <| ck := c |> <| hh := g |> <| peer_pub := hsI.(s_pub) |> <| peer_eph := epub |>
           <| remote_index := hsI.(local_index) |>, true).
Proof.
  intros ei epub [Ls Bs Hi] Hp Hes Hes' Hss Hss'.
  pose proof (create_initiation_spec hsI now pos es ss ltac:(done)) as M1.
  destruct (awg_generate_private pos) as [ei' pos1] eqn:Ei. cbn [fst] in ei. subst ei.
  pose proof (tai64n_bytes now pos1) as Bt. pose proof (length_tai64n now pos1) as Lt.
  destruct (tai64n now pos1) as [stamp pos2] eqn:Et. cbn [fst] in Bt, Lt.
  cbn zeta in M1. specialize (M1 Hes Hss). fold epub in M1.
  pose proof (consume_initiation_accepts hsR hsI.(local_index) epub hsI.(s_pub) stamp es ss
    Hi (public_bytes _) (length_public _) Bs Ls Bt Lt Hes' Hss') as M2.
  rewrite <- Hp in M2.
  pose proof (noise_init_fields hsI.(peer_pub) epub hsI.(s_pub) stamp es ss Bs Ls Bt Lt) as Hf.
  destruct (noise_init _ _ _ _ _ _) as [[[c g] enc_s] enc_t].
  destruct Hf as (Les & Let & Bes & Bet).
  destruct (init_fields hsI.(local_index) hsI.(peer_pub) epub enc_s enc_t Hi (length_public _)
    Les Let (public_bytes _) Bes Bet) as (Lm & Bm & _). eauto 10.
Qed.

(** The response, likewise, with the transport keys crossed. *)
Lemma response_agrees hsI hsR pos ee se :
  let er := (awg_generate_private pos).1 in
  let epub := awg_public_from_private er in
  hsI.(ck) = hsR.(ck) → hsI.(hh) = hsR.(hh) → hsI.(psk) = hsR.(psk) →
  hsR.(peer_pub) = hsI.(s_pub) → hsR.(remote_index) = hsI.(local_index) →
  is_u 32 hsI.(local_index) → is_u 32 hsR.(local_index) →
  curve er hsR.(peer_eph) true = (ee, 0) → curve hsI.(e_priv) epub true = (ee, 0) →
  curve er hsR.(peer_pub) true = (se, 0) → curve hsI.(s_priv) epub true = (se, 0) →
  ∃ c g k1 k2 m pos', length m = AWG_MSG_RESP_SIZE ∧ is_bytes m ∧
    awg_create_response hsR pos =
      (hsR <| ck := c |> <| hh := g |> <| e_priv := er |> <| e_pub := epub |>
           <| recv_key := k1 |> <| send_key := k2 |> <| hs_established := true |>,
       Some m, pos') ∧
    awg_consume_response hsI m =
      (hsI <| ck := c |> <| hh := g |> <| peer_eph := epub |>
           <| remote_index := hsR.(local_index) |>
           <| send_key := k1 |> <| recv_key := k2 |> <| hs_established := true |>, true).
Proof.
  intros er epub Hc Hh Hk Hp Hr HI HR Hee Hee' Hse Hse'.
  pose proof (create_response_spec hsR pos ee se) as M1.
  destruct (awg_generate_private pos) as [er' pos1] eqn:Er. cbn [fst] in er. subst er.
  cbn zeta in M1. specialize (M1 Hee Hse). fold epub in M1.
  pose proof (consume_response_accepts hsI hsR.(local_index) epub ee se
    HR HI (public_bytes _) (length_public _) Hee' Hse') as M2.
  rewrite <- Hc, <- Hh, <- Hk, Hr, Hp in M1.
  pose proof (noise_resp_fields hsI.(ck) hsI.(hh) epub ee se hsI.(psk)) as Hf.
  destruct (noise_resp _ _ _ _ _ _) as [[c g] enc]. destruct Hf as [Len Ben].
  destruct (resp_fields hsR.(local_index) hsI.(local_index) hsI.(s_pub) epub enc HR HI
    (length_public _) Len (public_bytes _) Ben) as (Lm & Bm & _).
  exists c, g, (kdf c []).1.1, (kdf c []).1.2. eauto 10.
Qed.

(** The four calls, with what each of them leaves. *)
Lemma steps_agree si sr psk' idxI idxR now posI posR :
  is_u 32 idxI → is_u 32 idxR →
  let ei := (awg_generate_private posI).1 in
  let er := (awg_generate_private posR).1 in
  dh_agree ei sr → dh_agree si sr → dh_agree er ei → dh_agree er si →
  ∃ hsI1 m1 p1 hsR1 hsR m2 p2 hsI,
    awg_create_initiation (begin_i si sr psk' idxI) now posI = (hsI1, Some m1, p1) ∧
    awg_consume_initiation (begin_r sr psk' idxR) m1 = (hsR1, true) ∧
    awg_create_response hsR1 posR = (hsR, Some m2, p2) ∧
    awg_consume_response hsI1 m2 = (hsI, true) ∧
    hsR1.(peer_pub) = awg_public_from_private si ∧ hsI1.(s_pub) = awg_public_from_private si ∧
    length m2 = AWG_MSG_RESP_SIZE ∧ is_bytes m2 ∧
    hsI.(send_key) = hsR.(recv_key) ∧ hsI.(recv_key) = hsR.(send_key) ∧
    hsI.(ck) = hsR.(ck) ∧ hsI.(hh) = hsR.(hh) ∧
    hsI.(remote_index) = idxR ∧ hsR.(remote_index) = idxI ∧
    hsI.(local_index) = idxI ∧ hsR.(local_index) = idxR ∧
    hsR.(peer_pub) = awg_public_from_private si ∧
    hsI.(hs_established) = true ∧ hsR.(hs_established) = true.
Proof.
  intros HiI HiR ei er (es & Hes1 & Hes2)%dh_agree_inv (ss & Hss1 & Hss2)%dh_agree_inv
    (ee & Hee1 & Hee2)%dh_agree_inv (se & Hse1 & Hse2)%dh_agree_inv.
  destruct (begin_fields si (Some (awg_public_from_private sr)) psk' idxI)
    as (I1 & I2 & I3 & I4 & I5 & I6).
  destruct (begin_fields sr None psk' idxR) as (R1 & R2 & R3 & R4 & R5 & R6).
  fold (begin_i si sr psk' idxI) in *. fold (begin_r sr psk' idxR) in *.
  destruct (initiation_agrees (begin_i si sr psk' idxI) (begin_r sr psk' idxR) now posI es ss)
    as (c & g & m1 & p1 & _ & _ & E1 & E2); rewrite ?I1, ?I2, ?I3, ?R1, ?R2; try done.
  { split; rewrite ?I2, ?I5; [apply length_public|apply public_bytes|done]. }
  rewrite ?I2, ?I5 in E2. fold ei in E1, E2.
  match type of E2 with _ = (?x, true) => set (hsR1 := x) in E2 end.
  match type of E1 with _ = (?x, Some m1, p1) => set (hsI1 := x) in E1 end.
  destruct (response_agrees hsI1 hsR1 posR ee se)
    as (c' & g' & k1 & k2 & m2 & p2 & L2 & B2 & E3 & E4); unfold hsI1, hsR1; hs_simpl;
    rewrite ?I1, ?I2, ?I4, ?I5, ?R4, ?R5; try done.
  exists hsI1, m1, p1, hsR1. do 4 eexists. split_and!; [exact E1|exact E2|exact E3|exact E4|..]; try done;
    unfold hsI1, hsR1; hs_simpl; by rewrite ?I2, ?I5, ?R5.
Qed.

Lemma handshake_agrees si sr psk' idxI idxR now posI posR :
  is_u 32 idxI → is_u 32 idxR →
  let ei := (awg_generate_private posI).1 in
  let er := (awg_generate_private posR).1 in
  dh_agree ei sr → dh_agree si sr → dh_agree er ei → dh_agree er si →
  ∃ hsI hsR,
    run_handshake (begin_i si sr psk' idxI) (begin_r sr psk' idxR) now posI posR =
      Some (hsI, hsR) ∧
    hsI.(send_key) = hsR.(recv_key) ∧ hsI.(recv_key) = hsR.(send_key) ∧
    hsI.(ck) = hsR.(ck) ∧ hsI.(hh) = hsR.(hh) ∧
    hsI.(remote_index) = idxR ∧ hsR.(remote_index) = idxI ∧
    hsI.(local_index) = idxI ∧ hsR.(local_index) = idxR ∧
    hsR.(peer_pub) = awg_public_from_private si ∧
    hsI.(hs_established) = true ∧ hsR.(hs_established) = true.
Proof.
  intros HiI HiR ei er D1 D2 D3 D4.
  destruct (steps_agree si sr psk' idxI idxR now posI posR HiI HiR D1 D2 D3 D4)
    as (hsI1 & m1 & p1 & hsR1 & hsR & m2 & p2 & hsI & E1 & E2 & E3 & E4 & _ & _ & _ & _ & Hres).
  exists hsI, hsR. split; [|exact Hres]. unfold run_handshake. by rewrite E1, E2, E3, E4.
Qed.

End Transcript.

(** ** What the two ends of a transport exchange *)

(** The receiver's end of the sender's keys. *)
Record peers (hsS hsR : awg_handshake) : Prop := {
  pr_key : hsS.(send_key) = hsR.(recv_key);
  pr_idx : hsS.(remote_index) = hsR.(local_index)
}.

Lemma transport_header_fields type index counter :
  is_u 32 type → is_u 32 index → is_u 64 counter →
  let hdr := transport_header type index counter in
  length hdr = 16%nat ∧ get_u32_le hdr = type ∧ get_u32_le (drop 4 hdr) = index ∧
  get_u64_le (drop 8 hdr) = counter.
Proof.
  intros Ht Hi Hc. unfold transport_header. rewrite put_u64_le_le.
  assert (is_bytes (put_u32_le index ++ le_bytes 8 counter)) by auto with word.
  split_and!.
  - len.
  - by apply get_put_u32.
  - rewrite drop_app_length' by done. apply get_put_u32; auto with word.
  - rewrite app_assoc, drop_app_length' by done.
    rewrite get_u64_le_val, take_ge, le_val_le_bytes by (auto with word; len).
    by apply Z.mod_small.
Qed.

Lemma open_sealed_at cfg hsS hsR counter prefix payload out_cap :
  peers hsS hsR → nonce_ok cfg cfg.(s4) → zlen prefix = cfg.(s4) →
  is_u 32 cfg.(h4) → is_u 32 hsS.(remote_index) → is_u 64 counter →
  is_bytes payload → padded_to_16 (zlen payload) <= out_cap → out_cap < 2 ^ 31 - 16 →
  awg_transport_open cfg hsR (sealed cfg hsS counter prefix payload) out_cap =
    Ok (prefix ++ transport_header cfg.(h4) hsS.(remote_index) counter ++
        chacha20poly1305_encrypt (padded_payload payload) [] counter hsS.(send_key),
        Some (padded_payload payload, counter)).
Proof.
  intros [Hk Hi] Hn Hp H4 Hr Hc Hb Hcap Hbig. unfold sealed.
  destruct (transport_header_fields cfg.(h4) hsS.(remote_index) counter H4 Hr Hc)
    as (L & F1 & F2 & F3).
  rewrite open_spec by done. unfold open_plain. rewrite F1, F2, F3.
  pose proof (zlen_padded_payload payload) as Hz.
  pose proof (padded_to_16_bounds (zlen payload) (zlen_nonneg _)) as [? _].
  pose proof (zlen_nonneg payload).
  assert (zlen (chacha20poly1305_encrypt (padded_payload payload) [] counter (send_key hsS)) =
    padded_to_16 (zlen payload) + 16) as He by (unfold zlen in *; rewrite length_encrypt; lia).
  rewrite decide_True by (rewrite He; split_and!; (done || lia)).
  rewrite Hk, decrypt_encrypt; [reflexivity|auto with word|apply Forall_nil_2|lia|].
  done.
Qed.

Lemma open_sealed cfg hsS hsR counter prefix payload out_cap :
  peers hsS hsR → nonce_ok cfg cfg.(s4) → zlen prefix = cfg.(s4) →
  is_u 32 cfg.(h4) → is_u 32 hsS.(remote_index) → is_u 64 counter →
  is_bytes payload → padded_to_16 (zlen payload) <= out_cap → out_cap < 2 ^ 31 - 16 →
  ∃ pkt', awg_transport_open cfg hsR (sealed cfg hsS counter prefix payload) out_cap =
    Ok (pkt', Some (padded_payload payload, counter)).
Proof. intros. eexists. by apply open_sealed_at. Qed.

(** An accepted datagram is left with its header in the clear, so it does not open again:
    the header is garbled before anything else is looked at. *)
Lemma open_again cfg hs prefix hdr ct cap :
  nonce_ok cfg cfg.(s4) → zlen prefix = cfg.(s4) → length hdr = 16%nat →
  get_u32_le (header_xor cfg prefix hdr) ≠ cfg.(h4) →
  awg_transport_open cfg hs (prefix ++ hdr ++ ct) cap = Ok (prefix ++ hdr ++ ct, None).
Proof.
  intros Hn Hp Hh Hg. pose proof (open_spec cfg hs prefix (header_xor cfg prefix hdr) ct cap Hn Hp) as E.
  rewrite length_header_xor, header_xor_twice in E. rewrite E by done.
  unfold open_plain. by rewrite decide_False by naive_solver.
Qed.

(** ** Junk *)

Lemma junk_loop_lens `{Entropy} cfg cap n pos :
  0 <= cap → 0 <= cfg.(jmin) → cfg.(jmax) < 2 ^ 31 →
  length (junk_loop cfg cap n pos).1 = n ∧
  Forall (λ b, is_bytes b ∧ Z.min cfg.(jmin) cap <= zlen b <= cap ∧
    (cfg.(jmin) < cfg.(jmax) → zlen b < cfg.(jmax)) ∧
    (cfg.(jmax) <= cfg.(jmin) → zlen b <= cfg.(jmin))) (junk_loop cfg cap n pos).1.
Proof.
  intros Hcap Hmin Hmax. revert pos. induction n as [|n IH]; intros pos; [by split|].
  cbn [junk_loop]. set (d := if _ >? 0 then _ else _).
  assert (0 <= d.1 < 2 ^ 31 ∧ (cfg.(jmin) < cfg.(jmax) → cfg.(jmin) + d.1 < cfg.(jmax)) ∧
    (cfg.(jmax) <= cfg.(jmin) → d.1 = 0)) as Hd.
  { unfold d. rewrite Z.gtb_ltb. destruct (Z.ltb_spec 0 (cfg.(jmax) - cfg.(jmin))); [|cbn; lia].
    destruct (awg_random_u32 pos) as [r q]. cbn [fst].
    rewrite u32_small by (unfold is_u; lia).
    pose proof (Z.mod_pos_bound r (cfg.(jmax) - cfg.(jmin)) ltac:(lia)). lia. }
  destruct d as [r p]. cbn [fst] in Hd.
  assert (s32 r = r) as ->.
  { unfold s32. rewrite u32_small by (unfold is_u; lia). cbn zeta.
    by rewrite (proj2 (Z.ltb_lt r _)) by lia. }
  rewrite Z.gtb_ltb.
  set (len := if cap <? jmin cfg + r then cap else jmin cfg + r).
  assert (len = Z.min cap (cfg.(jmin) + r)) as Hlen
    by (unfold len; destruct (Z.ltb_spec cap (jmin cfg + r)); lia).
  rewrite (proj2 (Z.ltb_ge len 0)) by lia.
  destruct (awg_random_bytes (Z.to_nat len) p) as [b q] eqn:Eb.
  specialize (IH q). destruct (junk_loop cfg cap n q) as [bs q'].
  destruct IH as [IHl IHf]. cbn [fst length] in *. split; [by rewrite IHl|].
  constructor; [|done]. split.
  - pose proof (random_bytes (Z.to_nat len) p) as Hb. by rewrite Eb in Hb.
  - pose proof (zlen_random len p ltac:(lia)) as Hz. rewrite Eb in Hz. cbn [fst] in Hz. lia.
Qed.

(** ** A response that fails its tag

    The tests that need no secret come first; from then on the pending handshake
    is overwritten, and the failure path does not restore it. *)

(** [peer_eph] taken from a response whose [mac1] holds, before any secret is used. *)
Definition absorb_response (hs : awg_handshake) (inp : list Z) : awg_handshake :=
  let hs := hs <| remote_index := get_u32_le (drop 4 inp) |> <| peer_eph := slice 12 32 inp |> in
  mix_h (mix_ck hs hs.(peer_eph)) hs.(peer_eph).

Definition response_addressed (hs : awg_handshake) (inp : list Z) : bool :=
  (get_u32_le inp =? 2) && (get_u32_le (drop 8 inp) =? hs.(local_index)) &&
  crypto_equal (mac1 hs.(s_pub) (take 60 inp)) (drop 60 inp) 16.

Lemma consume_response_rejects `{Curve} hs inp :
  (awg_consume_response hs inp).2 = false →
  let hs' := (awg_consume_response hs inp).1 in
  if response_addressed hs inp
  then hs'.(peer_eph) = slice 12 32 inp ∧ hs'.(remote_index) = get_u32_le (drop 4 inp) ∧
       (hs'.(hh) = (absorb_response hs inp).(hh) ∨
        ∃ t, hs'.(hh) = mix_hash (absorb_response hs inp).(hh) t)
  else hs' = hs.
Proof.
  unfold awg_consume_response, response_addressed.
  destruct (get_u32_le inp =? 2); cbn [negb andb]; [|done].
  destruct (get_u32_le (drop 8 inp) =? local_index hs); cbn [negb andb]; [|done].
  destruct (crypto_equal _ _ 16); cbn [negb]; [|done].
  unfold absorb_response. destruct hs. unfold mix_ck, mix_h. hs_simpl. hs_flatten.
  destruct (curve e_priv0 _ true) as [d1 r1]. destruct (r1 =? 0); hs_simpl; [|by repeat split; left].
  destruct (curve s_priv0 _ true) as [d2 r2]. destruct (r2 =? 0); hs_simpl; [|by repeat split; left].
  destruct (kdf _ psk0) as [[c t] k]. hs_simpl.
  destruct (chacha20poly1305_decrypt _ _ _ _); hs_simpl;
    [|by repeat split; right; exists t].
  destruct (kdf c []) as [[sk rk] x]. done.
Qed.

#[local] Transparent kdf hash2 mac1 chacha20poly1305_encrypt chacha20poly1305_decrypt
  CONSTRUCTION IDENTIFIER put_u32_le curve awg_generate_private awg_public_from_private tai64n.

(** ** Properties *)

(** A curve for concrete runs: multiplication modulo [2^256]. *)
Definition toy_curve : Curve :=
  λ scalar x1 _, (le_bytes 32 (le_val scalar * le_val x1), 0).

Lemma toy_curve_laws : @CurveLaws toy_curve.
Proof. split; intros; unfold curve, toy_curve; cbn [fst]; [apply length_le_bytes|apply le_bytes_bytes]. Qed.

Definition toy_entropy : Entropy := λ i, Z.of_nat i * 7 + 3.

Definition toy_config : awg_config :=
  config_zero <| s1 := 16 |> <| s2 := 20 |> <| s4 := 12 |> <| h4 := 4 |>
    <| have_header_protection := true |> <| header_protection_key := replicate 32 7 |>
    <| jc := 3 |> <| jmin := 8 |> <| jmax := 80 |>.

(** C1: the handshake completes and agrees. From any two key pairs with a common
    preshared key, if each of the four Diffie-Hellman pairs gives both sides the
    same secret, then the responder accepts the initiation and learns the
    initiator's static key, the initiator accepts the response, the transport keys
    are crossed, the transcripts are equal and each side addresses the other's index. *)
Theorem handshake_agreement `{Entropy} `{Curve} `{!CurveLaws}
    si sr psk idxI idxR now posI posR :
  is_u 32 idxI → is_u 32 idxR →
  dh_agree (awg_generate_private posI).1 sr → dh_agree si sr →
  dh_agree (awg_generate_private posR).1 (awg_generate_private posI).1 →
  dh_agree (awg_generate_private posR).1 si →
  ∃ hsI hsR,
    run_handshake (begin_i si sr psk idxI) (begin_r sr psk idxR) now posI posR =
      Some (hsI, hsR) ∧
    hsI.(send_key) = hsR.(recv_key) ∧ hsI.(recv_key) = hsR.(send_key) ∧
    hsI.(ck) = hsR.(ck) ∧ hsI.(hh) = hsR.(hh) ∧
    hsI.(remote_index) = idxR ∧ hsR.(remote_index) = idxI ∧
    hsI.(local_index) = idxI ∧ hsR.(local_index) = idxR ∧
    hsR.(peer_pub) = awg_public_from_private si ∧
    hsI.(hs_established) = true ∧ hsR.(hs_established) = true.
Proof. apply handshake_agrees. Qed.

Lemma handshake_agreement_witness :
  ∃ hsI hsR, @run_handshake toy_entropy toy_curve
    (@begin_i toy_curve (replicate 32 5) (replicate 32 9) None 77)
    (@begin_r toy_curve (replicate 32 9) None 88) 1700000000 0 100 = Some (hsI, hsR) ∧
    hsI.(send_key) = hsR.(recv_key).
Proof.
  pose proof toy_curve_laws as L.
  destruct (@handshake_agreement toy_entropy toy_curve L (replicate 32 5) (replicate 32 9) None
    77 88 1700000000 0 100) as (hsI & hsR & Hr & Hk & _);
    try (split; vm_compute; reflexivity); try (vm_compute; split; congruence).
  exists hsI, hsR. split; assumption.
Defined.

(** The key derivation is HKDF (RFC 5869, with HMAC from RFC 2104 over
    BLAKE2s-256), whatever the chaining key. *)
Theorem kdf_is_hkdf ck data : is_bytes ck →
  let '(t1, t2, t3) := kdf ck data in [t1; t2; t3] = hkdf_spec ck data 3.
Proof. apply kdf_hkdf. Qed.

Lemma kdf_is_hkdf_witness :
  let '(t1, t2, t3) := kdf (replicate 32 1) [2] in
  [t1; t2; t3] = hkdf_spec (replicate 32 1) [2] 3.
Proof.
  apply (kdf_is_hkdf (replicate 32 1) [2]). apply Forall_replicate. split; vm_compute; congruence.
Defined.

(** C10: wrapping is inverted by unwrapping. A message that fits is framed as
    [pad] bytes of prefix and the message; unwrapping that datagram gives back the
    message at offset [pad], with its length. *)
Theorem wrap_unwrap `{Entropy} cfg kind msg out_cap pos dgram pos' :
  awg_wrap cfg kind msg out_cap pos = Ok (dgram, pos') → msg ≠ [] →
  zlen dgram = padding_for cfg kind + zlen msg ∧ zlen dgram <= out_cap ∧
  ∃ pkt, awg_unwrap cfg kind dgram = Ok (pkt, padding_for cfg kind, zlen msg) ∧
    zdrop (padding_for cfg kind) pkt = msg.
Proof.
  intros Hw Hm. pose proof Hw as Hs. rewrite wrap_spec in Hs. cbv zeta in Hs.
  destruct (decide _) as [[Hn Hc]|]; [clear Hs|discriminate Hs].
  destruct (wrap_fits cfg kind msg out_cap pos Hn Hc Hm) as (d & p & pkt & Hw' & _ & Hl & Hu).
  assert (d = dgram) as -> by congruence. split_and!; [done|lia|]. by exists pkt.
Qed.

Lemma wrap_unwrap_witness :
  zlen (default [] (match @awg_wrap toy_entropy toy_config AWG_KIND_INIT [1; 2; 3] 100 0 with
                    | Ok (d, _) => Some d | _ => None end)) = 19.
Proof.
  destruct (@awg_wrap toy_entropy toy_config AWG_KIND_INIT [1; 2; 3] 100 0) as [[d p]| |] eqn:E;
    [|discriminate E..].
  exact (proj1 (@wrap_unwrap toy_entropy toy_config AWG_KIND_INIT [1; 2; 3] 100 0 d p E
    ltac:(discriminate))).
Defined.

(** C8: a sealed data packet opens. Whatever the random prefix, a receiver that
    shares the sender's key and index gets the payload back, zero-padded to a
    multiple of 16, with the sender's counter. *)
Theorem seal_open `{Entropy} cfg hsS hsR counter payload cap cap' pos dgram pos' :
  0 <= cfg.(s4) → is_u 32 cfg.(h4) → is_u 32 hsS.(remote_index) → is_u 64 counter →
  is_bytes payload → peers hsS hsR →
  awg_transport_seal cfg hsS counter payload cap pos = Ok (dgram, pos') →
  padded_to_16 (zlen payload) <= cap' → cap' < 2 ^ 31 - 16 →
  zlen dgram = cfg.(s4) + 32 + padded_to_16 (zlen payload) ∧ zlen dgram <= cap ∧
  ∃ pkt, awg_transport_open cfg hsR dgram cap' = Ok (pkt, Some (padded_payload payload, counter)).
Proof.
  intros Hp H4 Hr Hc Hb Hpeers Hs Hcap Hbig. rewrite seal_spec in Hs by done.
  destruct (decide _) as [[Hn Hfit]|]; [|discriminate Hs]. cbv zeta in Hs.
  set (prefix := (awg_random_bytes (Z.to_nat cfg.(s4)) pos).1) in Hs.
  assert (dgram = sealed cfg hsS counter prefix payload) as -> by congruence.
  assert (zlen prefix = cfg.(s4)) as Hl by (by apply zlen_random).
  assert (zlen (sealed cfg hsS counter prefix payload) =
    cfg.(s4) + 32 + padded_to_16 (zlen payload)) as Hz.
  { unfold sealed. rewrite !zlen_app, zlen_header_xor, Hl.
    pose proof (zlen_padded_payload payload) as He. unfold zlen in *. rewrite length_encrypt.
    rewrite (proj1 (transport_header_fields _ _ _ H4 Hr Hc)). lia. }
  split_and!; [done|lia|]. by apply open_sealed.
Qed.

Definition toy_sender : awg_handshake :=
  handshake_zero <| send_key := replicate 32 1 |> <| remote_index := 88 |>.
Definition toy_receiver : awg_handshake :=
  handshake_zero <| recv_key := replicate 32 1 |> <| local_index := 88 |>.

Lemma seal_open_witness : ∃ dgram pkt,
  awg_transport_open toy_config toy_receiver dgram 2048 =
    Ok (pkt, Some ([1; 2; 3] ++ replicate 13 0, 5)).
Proof.
  destruct (@awg_transport_seal toy_entropy toy_config toy_sender 5 [1; 2; 3] 2048 0)
    as [[d p]| |] eqn:E; [|discriminate E..].
  destruct (@seal_open toy_entropy toy_config toy_sender toy_receiver 5 [1; 2; 3] 2048 2048 0 d p)
    as (_ & _ & pkt & Ho).
  - vm_compute; congruence.
  - split; vm_compute; congruence.
  - split; vm_compute; congruence.
  - split; vm_compute; congruence.
  - repeat (apply Forall_cons_2; [split; vm_compute; congruence|]). apply Forall_nil_2.
  - split; reflexivity.
  - exact E.
  - vm_compute; congruence.
  - vm_compute; congruence.
  - exists d, pkt. exact Ho.
Defined.

(** C9: a datagram that is rejected is left as it came, so that it can be tried
    under another key; one that is accepted is addressed to this session, carries
    the configured type and the tag of its contents under the receive key. *)
Theorem open_restores_or_authentic `{Entropy} cfg hs pkt cap : nonce_ok cfg cfg.(s4) →
  is_bytes pkt → zlen pkt < 2 ^ 31 →
  match awg_transport_open cfg hs pkt cap with
  | Ok (pkt', None) => pkt' = pkt
  | Ok (pkt', Some (out, ctr)) =>
    let hdr := take 16 (zdrop cfg.(s4) pkt') in
    let ct := drop 16 (zdrop cfg.(s4) pkt') in
    get_u32_le hdr = cfg.(h4) ∧ get_u32_le (drop 4 hdr) = hs.(local_index) ∧
    get_u64_le (drop 8 hdr) = ctr ∧ zlen out <= cap ∧
    drop (length ct - 16) ct =
      aead_tag [] (take (length ct - 16) ct) ctr hs.(recv_key) ∧
    out = aead_ct (take (length ct - 16) ct) ctr hs.(recv_key)
  | Err | Fault => False
  end.
Proof.
  intros Hn Hb Hl.
  destruct (decide (cfg.(s4) + 32 <= zlen pkt)) as [Hs|Hs].
  2: { unfold awg_transport_open. rewrite (proj2 (nonce_ok_guard cfg _ (proj1 Hn)) Hn).
       unfold TRANSPORT_HDR, AEAD_TAG. change (Z.of_nat 16) with 16.
       by rewrite (proj2 (Z.ltb_lt _ _)) by lia. }
  destruct (datagram_split cfg pkt Hn ltac:(lia)) as (Hd & Hp & Hh).
  revert Hd Hp Hh. generalize (header_xor cfg (ztake (s4 cfg) pkt) (take 16 (zdrop (s4 cfg) pkt))).
  assert (is_bytes (drop 16 (zdrop (s4 cfg) pkt))) as Hbc by (unfold zdrop; auto with word).
  assert (zlen (drop 16 (zdrop (s4 cfg) pkt)) <= zlen pkt) as Hcl by (unfold zlen, zdrop; len).
  revert Hbc Hcl. generalize (ztake (s4 cfg) pkt) (drop 16 (zdrop (s4 cfg) pkt)).
  intros prefix ct Hbc Hcl hdr Hd Hp Hh. rewrite Hd. rewrite open_spec by done. unfold open_plain.
  destruct (decide _) as [(E1 & E2 & E3 & E4)|]; [|done].
  rewrite decrypt_spec by (done || apply Forall_nil_2 || (unfold small_len; lia)).
  destruct (decide (16 <= length ct)%nat) as [H16|]; [|unfold zlen in E3; lia]. cbv zeta.
  destruct (decide (_ = aead_tag _ _ _ _)) as [Et|]; cbn [mbind option_bind]; [|done].
  rewrite zdrop_app, take_app_length', drop_app_length' by done.
  split_and!; try done. unfold zlen in *. rewrite length_aead_ct, length_take. lia.
Qed.

Lemma open_restores_or_authentic_witness :
  awg_transport_open toy_config toy_receiver (replicate 60 9) 2048 ≠ Fault ∧
  awg_transport_open toy_config toy_receiver (replicate 60 9) 2048 ≠ Err.
Proof.
  pose proof (@open_restores_or_authentic toy_entropy toy_config toy_receiver (replicate 60 9) 2048
    ltac:(split; [vm_compute; congruence|intros _; vm_compute; congruence])
    ltac:(apply Forall_replicate; split; vm_compute; congruence) ltac:(vm_compute; congruence)) as H.
  split; intros E; rewrite E in H; exact H.
Defined.

(** The sender's datagram never runs past its buffer, and a negative S4 without
    header protection, which the padding test of [awg_wrap] refuses, makes
    [awg_transport_seal] write before its buffer. *)
Theorem seal_bounds `{Entropy} cfg hs counter payload cap pos :
  match awg_transport_seal cfg hs counter payload cap pos with
  | Ok (dgram, _) => 0 <= cfg.(s4) ∧ zlen dgram <= cap ∧
      zlen dgram = cfg.(s4) + 32 + padded_to_16 (zlen payload)
  | Err => nonce_ok cfg cfg.(s4) → cap < cfg.(s4) + 32 + padded_to_16 (zlen payload)
  | Fault => cfg.(s4) < 0 ∧ cfg.(have_header_protection) = false
  end.
Proof.
  destruct (decide (0 <= cfg.(s4))) as [Hp|Hp].
  - rewrite seal_spec by done. destruct (decide _) as [[Hn Hc]|Hd].
    + split_and!; [done|..]; unfold sealed; rewrite !zlen_app, zlen_random, zlen_header_xor by done;
        pose proof (zlen_padded_payload payload) as He; unfold zlen in *;
        rewrite length_encrypt; unfold transport_header; rewrite put_u64_le_le; len.
    + intros Hn. apply not_and_l in Hd as [?|Hd]; [done|]. lia.
  - unfold awg_transport_seal.
    rewrite (proj2 (Z.ltb_lt cfg.(s4) 12)) by lia. cbv zeta.
    destruct (have_header_protection cfg) eqn:E; cbn [andb]; [intros [? _]; lia|].
    destruct (_ >? cap); [intros [? _]; lia|]. rewrite (within_false cfg.(s4)) by lia. rewrite andb_false_r. cbn [negb]. split; [lia|done].
Qed.

(** The junk datagrams: [Jc] of them at most, each within the caller's buffer
    and of a length in [Jmin, Jmax) (exactly [Jmin] when the range is empty). *)
Theorem junk_bounds `{Entropy} cfg cap max_packets pos :
  0 <= cap → 0 <= cfg.(jmin) → cfg.(jmax) < 2 ^ 31 →
  let bufs := (awg_junk_packets cfg cap max_packets pos).1 in
  zlen bufs = Z.max 0 (Z.min cfg.(jc) max_packets) ∧
  Forall (λ b, is_bytes b ∧ Z.min cfg.(jmin) cap <= zlen b <= cap ∧
    (cfg.(jmin) < cfg.(jmax) → zlen b < cfg.(jmax)) ∧
    (cfg.(jmax) <= cfg.(jmin) → zlen b <= cfg.(jmin))) bufs.
Proof.
  intros Hc Hmin Hmax. unfold awg_junk_packets. rewrite Z.gtb_ltb.
  assert ((if max_packets <? cfg.(jc) then max_packets else cfg.(jc)) =
    Z.min cfg.(jc) max_packets) as -> by (destruct (Z.ltb_spec max_packets cfg.(jc)); lia).
  destruct (Z.leb_spec (Z.min cfg.(jc) max_packets) 0).
  - cbn. split; [unfold zlen; cbn; lia|apply Forall_nil_2].
  - destruct (junk_loop_lens cfg cap (Z.to_nat (Z.min (jc cfg) max_packets)) pos Hc Hmin Hmax)
      as [Hl Hf]. split; [unfold zlen; rewrite Hl; lia|done].
Qed.

Lemma junk_bounds_witness : zlen (@awg_junk_packets toy_entropy toy_config 100 8 0).1 = 3.
Proof.
  exact (proj1 (@junk_bounds toy_entropy toy_config 100 8 0 ltac:(vm_compute; congruence)
    ltac:(vm_compute; congruence) ltac:(vm_compute; reflexivity))).
Defined.

(** A rejected response. One that is not a response, not addressed to the
    pending handshake or without the right [mac1] leaves the handshake untouched.
    One that passes those tests, none of which needs a secret key, leaves the
    handshake with the sender's ephemeral key and index and a hash that has
    absorbed them: the pending attempt is no longer the one that was sent. *)
Theorem response_reject `{Curve} hs inp :
  (awg_consume_response hs inp).2 = false →
  let hs' := (awg_consume_response hs inp).1 in
  if response_addressed hs inp
  then hs'.(peer_eph) = slice 12 32 inp ∧ hs'.(remote_index) = get_u32_le (drop 4 inp) ∧
       (hs'.(hh) = (absorb_response hs inp).(hh) ∨
        ∃ t, hs'.(hh) = mix_hash (absorb_response hs inp).(hh) t)
  else hs' = hs.
Proof. apply consume_response_rejects. Qed.

Lemma response_reject_witness :
  (@awg_consume_response toy_curve toy_receiver (replicate 92 0)).1 = toy_receiver.
Proof.
  exact (@response_reject toy_curve toy_receiver (replicate 92 0) eq_refl).
Defined.
