(* ===== verification/Session.v ===== *)
(** * awg_session.c: session lifetime

    The key rotation, timers and the anti-replay window, as functions on
    [awg_session]. A session is then a transition system ([step]) whose traces
    record every nonce sent under and every counter accepted from each keypair. *)
From stdpp Require Import gmap.
From S2P Require Import Prelude Awg Noise.

Inductive awg_rx_result : Set :=
| AWG_RX_IGNORED | AWG_RX_HANDLED | AWG_RX_PAYLOAD | AWG_RX_ESTABLISHED.

#[export] Instance awg_rx_result_eq_dec : EqDecision awg_rx_result.
Proof. solve_decision. Defined.

Definition AWG_PREV_KEEP_MS : Z := 180 * 1000.

Record awg_session := Session {
  cur : awg_handshake; established : bool;
  prev : awg_handshake; have_prev : bool;
  pending : awg_handshake; handshaking : bool;
  handshake_sent_ms : Z; handshake_tries : Z;
  tx_counter : Z; rx_counter_max : Z;
  rx_window_max : Z; rx_window_bits : Z;
  prev_window_max : Z; prev_window_bits : Z;
  prev_since_ms : Z; replays_dropped : Z;
  last_replay_ctr : Z; last_replay_behind : Z;
  last_replay_old : bool; last_replay_prev : bool;
  established_ms : Z; last_tx_ms : Z; last_rx_ms : Z;
  rekey_after_s : Z; reject_after_s : Z; keepalive_s : Z;
  rekey_timeout_s : Z; max_tries : Z;
  handshakes_done : Z; rekeys : Z; packets_tx : Z; packets_rx : Z; keepalives_tx : Z
}.

#[export] Instance awg_session_eta : Eta awg_session := λ s, Session
  s.(cur) s.(established) s.(prev) s.(have_prev) s.(pending) s.(handshaking)
  s.(handshake_sent_ms) s.(handshake_tries) s.(tx_counter) s.(rx_counter_max)
  s.(rx_window_max) s.(rx_window_bits) s.(prev_window_max) s.(prev_window_bits)
  s.(prev_since_ms) s.(replays_dropped) s.(last_replay_ctr) s.(last_replay_behind)
  s.(last_replay_old) s.(last_replay_prev) s.(established_ms) s.(last_tx_ms)
  s.(last_rx_ms) s.(rekey_after_s) s.(reject_after_s) s.(keepalive_s)
  s.(rekey_timeout_s) s.(max_tries) s.(handshakes_done) s.(rekeys) s.(packets_tx)
  s.(packets_rx) s.(keepalives_tx).

(** The structure zeroed by [memset]. *)
Definition session_zero : awg_session := Session
  handshake_zero false handshake_zero false handshake_zero false 0 0 0 0 0 0 0 0 0 0 0 0
  false false 0 0 0 0 0 0 0 0 0 0 0 0 0.

(** The file's two static variables, which the replay test sets. *)
Record replay_static := ReplayStatic { g_replay_behind : Z; g_replay_too_old : bool }.
#[export] Instance replay_static_eta : Eta replay_static := λ g,
  ReplayStatic g.(g_replay_behind) g.(g_replay_too_old).

(** ** The sliding window *)

Definition REPLAY_WINDOW : Z := 64.

(** The answer, the new [*max] and [*bits] and the static variables. *)
Definition replay_ok (max bits ctr : Z) (g : replay_static) : bool * Z * Z * replay_static :=
  if ctr >? max then
    let shift := ctr - max in
    let bits := if shift >=? REPLAY_WINDOW then 0 else u64 (bits .<< shift) in
    let bits := bits .| 1 in
    (true, ctr, bits, g)
  else
    let behind := max - ctr in
    let g := g <| g_replay_behind := behind |> in
    if behind >=? REPLAY_WINDOW then (false, max, bits, g <| g_replay_too_old := true |>)
    else
      let bit := 1 .<< behind in
      if negb (bits .& bit =? 0) then (false, max, bits, g <| g_replay_too_old := false |>)
      else (true, max, bits .| bit, g).

(** ** Operations *)

(** [(a - b) >= (uint64_t)s * 1000], the difference unsigned. *)
Definition elapsed (now since : Z) : Z := u64 (now - since).
Definition ms_of_s (s : Z) : Z := u64 (u64 s * 1000).

Definition awg_session_needs_handshake (s : awg_session) (now_ms : Z) : bool :=
  if s.(handshaking) then elapsed now_ms s.(handshake_sent_ms) >=? ms_of_s s.(rekey_timeout_s)
  else if negb s.(established) then true
  else elapsed now_ms s.(established_ms) >=? ms_of_s s.(rekey_after_s).

Definition awg_session_needs_keepalive (s : awg_session) (now_ms : Z) : bool :=
  if negb s.(established) then false
  else elapsed now_ms s.(last_tx_ms) >=? ms_of_s s.(keepalive_s).

Definition awg_session_wipe (s : awg_session) : awg_session := session_zero.

Definition awg_session_age_s (s : awg_session) (now_ms : Z) : Z :=
  if negb s.(established) then 0 else u32 (elapsed now_ms s.(established_ms) / 1000).

(** [if (v <= 0) v = d] *)
Definition positive_or (d v : Z) : Z := if v <=? 0 then d else v.

Section Session.
Context `{Entropy} `{Curve}.

Definition awg_session_init (cfg : awg_config) (pos : nat) : awg_session * nat :=
  let s := session_zero in
  let '(v, pos) := awg_range_pick cfg.(rekey_after_time) pos in
  let s := s <| rekey_after_s := v |> in
  let '(v, pos) := awg_range_pick cfg.(reject_after_time) pos in
  let s := s <| reject_after_s := v |> in
  let '(v, pos) := awg_range_pick cfg.(rekey_timeout) pos in
  let s := s <| rekey_timeout_s := v |> in
  let '(v, pos) := awg_range_pick cfg.(persistent_keepalive) pos in
  let s := s <| keepalive_s := v |> in
  let '(v, pos) := awg_range_pick cfg.(max_handshake_attempts) pos in
  let s := s <| max_tries := v |> in
  let s := s <| rekey_after_s ::= positive_or 120 |> in
  let s := s <| reject_after_s ::= positive_or 180 |> in
  let s := s <| rekey_timeout_s ::= positive_or 5 |> in
  let s := s <| keepalive_s ::= positive_or 25 |> in
  let s := s <| max_tries ::= positive_or 18 |> in
  (s, pos).

(** The session, the datagram ([None] is -1) and the entropy position. *)
Definition awg_session_build_initiation (s : awg_session) (cfg : awg_config)
    (out_cap now_ms now_s : Z) (pos : nat) : awg_session * option (list Z) * nat :=
  let '(idx, pos) := awg_random_u32 pos in
  let s := s <| pending := awg_handshake_begin cfg.(private_key) (Some cfg.(peer_public_key))
                  (if cfg.(have_preshared_key) then Some cfg.(preshared_key) else None) idx |> in
  match awg_create_initiation s.(pending) now_s pos with
  | (hs, None, pos) => (s <| pending := hs |>, None, pos)
  | (hs, Some msg, pos) =>
    let s := s <| pending := hs |> in
    match awg_wrap cfg AWG_KIND_INIT msg out_cap pos with
    | Ok (out, pos) =>
      (s <| handshaking := true |> <| handshake_sent_ms := now_ms |>
         <| handshake_tries ::= λ n, n + 1 |>, Some out, pos)
    | _ => (s, None, pos)
    end
  end.

Definition awg_session_build_data (s : awg_session) (cfg : awg_config) (payload : list Z)
    (out_cap now_ms : Z) (pos : nat) : res (awg_session * option (list Z) * nat) :=
  if negb s.(established) then Ok (s, None, pos) else
  match awg_transport_seal cfg s.(cur) s.(tx_counter) payload out_cap pos with
  | Fault => Fault
  | Err => Ok (s, None, pos)
  | Ok (out, pos) =>
    Ok (s <| tx_counter ::= λ n, u64 (n + 1) |> <| packets_tx ::= λ n, u32 (n + 1) |>
          <| last_tx_ms := now_ms |>, Some out, pos)
  end.

Definition awg_session_build_keepalive (s : awg_session) (cfg : awg_config)
    (out_cap now_ms : Z) (pos : nat) : res (awg_session * option (list Z) * nat) :=
  '(s, n, pos) ← awg_session_build_data s cfg [] out_cap now_ms pos;
  match n with
  | Some out =>
    if 0 <? zlen out
    then Ok (s <| keepalives_tx ::= λ n, u32 (n + 1) |> <| packets_tx ::= λ n, u32 (n - 1) |>,
             n, pos)
    else Ok (s, n, pos)
  | None => Ok (s, n, pos)
  end.

(** The pending keypair becomes the current one. *)
Definition promote (s : awg_session) (now_ms : Z) : awg_session :=
  let s := if s.(established)
           then s <| rekeys ::= λ n, u32 (n + 1) |> <| prev := s.(cur) |> <| have_prev := true |>
                  <| prev_window_max := s.(rx_window_max) |>
                  <| prev_window_bits := s.(rx_window_bits) |> <| prev_since_ms := now_ms |>
           else s in
  s <| cur := s.(pending) |> <| established := true |> <| handshaking := false |>
    <| handshake_tries := 0 |> <| tx_counter := 0 |> <| rx_counter_max := 0 |>
    <| rx_window_max := 0 |> <| rx_window_bits := 0 |> <| established_ms := now_ms |>
    <| last_rx_ms := now_ms |> <| last_tx_ms := now_ms |>
    <| handshakes_done ::= λ n, u32 (n + 1) |>.

(** The retired keypair is erased when its time is up. *)
Definition expire_prev (s : awg_session) (now_ms : Z) : awg_session :=
  if s.(have_prev) && (elapsed now_ms s.(prev_since_ms) >? AWG_PREV_KEEP_MS)
  then s <| have_prev := false |> <| prev := handshake_zero |>
         <| prev_window_bits := 0 |> <| prev_window_max := 0 |>
  else s.

(** The current keypair, then the previous one: the plaintext, its counter and
    [on_prev]. *)
Definition open_either (s : awg_session) (cfg : awg_config) (pkt : list Z) (payload_cap : Z)
    : res (option (list Z * Z * bool)) :=
  '(pkt, r) ← awg_transport_open cfg s.(cur) pkt payload_cap;
  match r with
  | Some (out, ctr) => Ok (Some (out, ctr, false))
  | None =>
    if s.(have_prev) then
      '(_, r) ← awg_transport_open cfg s.(prev) pkt payload_cap;
      match r with
      | Some (out, ctr) => Ok (Some (out, ctr, true))
      | None => Ok None
      end
    else Ok None
  end.

(** The replay test on the window of the keypair that decrypted. *)
Definition session_replay (s : awg_session) (g : replay_static) (ctr : Z) (on_prev : bool)
    : bool * awg_session * replay_static :=
  if on_prev then
    let '(fresh, m, b, g) := replay_ok s.(prev_window_max) s.(prev_window_bits) ctr g in
    (fresh, s <| prev_window_max := m |> <| prev_window_bits := b |>, g)
  else
    let '(fresh, m, b, g) := replay_ok s.(rx_window_max) s.(rx_window_bits) ctr g in
    (fresh, s <| rx_window_max := m |> <| rx_window_bits := b |>, g).

(** The session, the static variables, the result and the payload handed up. A response
    is read in its whole length from its offset: a [Fault] when that is not within the
    datagram. *)
Definition awg_session_on_datagram (s : awg_session) (g : replay_static) (cfg : awg_config)
    (pkt : list Z) (payload_cap now_ms : Z)
    : res (awg_session * replay_static * awg_rx_result * list Z) :=
  if s.(handshaking) && (zlen pkt =? cfg.(s2) + Z.of_nat AWG_MSG_RESP_SIZE) then
    match awg_unwrap cfg AWG_KIND_RESPONSE pkt with
    | Ok (pkt, off, mlen) =>
      if negb (mlen =? Z.of_nat AWG_MSG_RESP_SIZE) then Ok (s, g, AWG_RX_IGNORED, []) else
      if negb (within off (Z.of_nat AWG_MSG_RESP_SIZE) (zlen pkt)) then Fault else
      let '(hs, ok) := awg_consume_response s.(pending) (zdrop off pkt) in
      let s := s <| pending := hs |> in
      if negb ok then Ok (s, g, AWG_RX_IGNORED, [])
      else Ok (promote s now_ms, g, AWG_RX_ESTABLISHED, [])
    | Fault => Fault
    | Err => Ok (s, g, AWG_RX_IGNORED, [])
    end
  else
  if negb s.(established) then Ok (s, g, AWG_RX_IGNORED, []) else
  let s := expire_prev s now_ms in
  r ← open_either s cfg pkt payload_cap;
  match r with
  | None => Ok (s, g, AWG_RX_IGNORED, [])
  | Some (plain, ctr, on_prev) =>
    let '(fresh, s, g) := session_replay s g ctr on_prev in
    if negb fresh then
      Ok (s <| replays_dropped ::= λ n, u32 (n + 1) |> <| last_replay_ctr := ctr |>
            <| last_replay_behind := g.(g_replay_behind) |>
            <| last_replay_old := g.(g_replay_too_old) |>
            <| last_replay_prev := on_prev |>, g, AWG_RX_IGNORED, [])
    else
      let s := s <| last_rx_ms := now_ms |> in
      let s := if ctr >? s.(rx_counter_max) then s <| rx_counter_max := ctr |> else s in
      if zlen plain =? 0 then Ok (s, g, AWG_RX_HANDLED, [])
      else Ok (s <| packets_rx ::= λ n, u32 (n + 1) |>, g, AWG_RX_PAYLOAD, plain)
  end.

End Session.

(** ** The window refines the set of accepted counters *)

Lemma testbit_one n : 0 <= n → Z.testbit 1 n = bool_decide (n = 0).
Proof.
  intros Hn. destruct (decide (n = 0)) as [->|].
  - done.
  - rewrite bool_decide_eq_false_2 by done. apply (is_u_testbit 1); unfold is_u; lia.
Qed.

Lemma testbit_bit n i : 0 <= n → 0 <= i → Z.testbit (1 .<< n) i = bool_decide (i = n).
Proof.
  intros Hn Hi. rewrite Z.shiftl_spec by done. destruct (decide (i < n)).
  - rewrite Z.testbit_neg_r by lia. symmetry. apply bool_decide_eq_false_2. lia.
  - rewrite testbit_one by lia. apply bool_decide_ext. lia.
Qed.

Lemma land_bit b n : 0 <= n → (b .& (1 .<< n) =? 0) = negb (Z.testbit b n).
Proof.
  intros Hn. destruct (Z.testbit b n) eqn:E; cbn [negb].
  - apply Z.eqb_neq. intros H. apply (f_equal (λ x, Z.testbit x n)) in H.
    rewrite Z.land_spec, testbit_bit, E, Z.bits_0 in H by lia.
    by rewrite bool_decide_eq_true_2 in H.
  - apply Z.eqb_eq, Z.bits_inj'. intros i Hi.
    rewrite Z.land_spec, testbit_bit, Z.bits_0 by lia.
    case_bool_decide; [subst; by rewrite E|apply andb_false_r].
Qed.

(** The abstract window: the counters accepted so far and the highest of them. A
    counter is accepted when it is new and less than 64 behind. *)
Definition accepts (seen : gset Z) (hi ctr : Z) : Prop := (ctr ∉ seen) ∧ hi - REPLAY_WINDOW < ctr.
#[export] Instance accepts_dec seen hi ctr : Decision (accepts seen hi ctr).
Proof. unfold accepts. apply _. Defined.

Record window_inv (max bits : Z) (seen : gset Z) : Prop := {
  wi_max : is_u 64 max;
  wi_bits : is_u 64 bits;
  wi_seen c : c ∈ seen → 0 <= c <= max;
  wi_window k : 0 <= k < REPLAY_WINDOW → Z.testbit bits k = bool_decide (max - k ∈ seen)
}.

Lemma window_inv_empty : window_inv 0 0 ∅.
Proof.
  split; [by unfold is_u|by unfold is_u|set_solver|].
  intros k Hk. rewrite Z.bits_0. symmetry. apply bool_decide_eq_false_2. set_solver.
Qed.

(** The window moved up to a new highest counter. *)
Lemma window_advance max bits seen ctr : window_inv max bits seen → is_u 64 ctr → max < ctr →
  let b := if ctr - max >=? REPLAY_WINDOW then 0 else u64 (bits .<< (ctr - max)) in
  window_inv ctr (b .| 1) ({[ctr]} ∪ seen).
Proof.
  intros [Hm Hb Hs Hw] Hc Hlt b. unfold REPLAY_WINDOW in *.
  assert (∀ c, c ∈ seen → c < ctr) as Hlow by (intros c Hc'; specialize (Hs c Hc'); lia).
  split; [done| | |].
  - apply is_u_lor; [lia| |unfold is_u; lia].
    unfold b. case_match; [unfold is_u; lia|auto with word].
  - intros c [->%elem_of_singleton|Hc']%elem_of_union; [unfold is_u in Hc; lia|].
    specialize (Hs c Hc'). lia.
  - unfold REPLAY_WINDOW. intros k Hk. rewrite Z.lor_spec, testbit_one by lia.
    destruct (decide (k = 0)) as [->|Hk0].
    { rewrite (bool_decide_eq_true_2 (0 = 0)), orb_true_r, Z.sub_0_r by done.
      symmetry. apply bool_decide_eq_true_2. set_solver. }
    rewrite (bool_decide_eq_false_2 (k = 0)), orb_false_r by done.
    replace (bool_decide (ctr - k ∈ {[ctr]} ∪ seen)) with (bool_decide (ctr - k ∈ seen))
      by (apply bool_decide_ext; set_solver by lia).
    unfold b. rewrite Z.geb_leb. destruct (Z.leb_spec 64 (ctr - max)).
    { rewrite Z.bits_0. symmetry. apply bool_decide_eq_false_2.
      intros Hin. specialize (Hs _ Hin). lia. }
    rewrite u64_mod, Z.mod_pow2_bits_low, Z.shiftl_spec by lia.
    destruct (decide (k < ctr - max)).
    + rewrite Z.testbit_neg_r by lia. symmetry. apply bool_decide_eq_false_2.
      intros Hin. specialize (Hs _ Hin). lia.
    + rewrite Hw by lia. by replace (max - (k - (ctr - max))) with (ctr - k) by lia.
Qed.

(** A counter inside the window marked as seen. *)
Lemma window_mark max bits seen ctr : window_inv max bits seen → 0 <= ctr <= max →
  max - ctr < REPLAY_WINDOW →
  window_inv max (bits .| (1 .<< (max - ctr))) ({[ctr]} ∪ seen).
Proof.
  intros [Hm Hb Hs Hw] Hc Hlt. unfold REPLAY_WINDOW in *. split; [done| | |].
  - apply is_u_of_testbit; [lia| |].
    + apply Z.lor_nonneg. split; [apply Hb|apply Z.shiftl_nonneg; lia].
    + intros i Hi. rewrite Z.lor_spec, (is_u_testbit 64 bits), testbit_bit by (done || lia).
      apply bool_decide_eq_false_2. lia.
  - intros c [->%elem_of_singleton|Hc']%elem_of_union; [lia|by apply Hs].
  - unfold REPLAY_WINDOW. intros k Hk. rewrite Z.lor_spec, testbit_bit, Hw by lia.
    destruct (decide (k = max - ctr)) as [->|].
    + rewrite (bool_decide_eq_true_2 (max - ctr = max - ctr)), orb_true_r by done.
      symmetry. apply bool_decide_eq_true_2. replace (max - (max - ctr)) with ctr by lia. set_solver.
    + rewrite (bool_decide_eq_false_2 (k = max - ctr)), orb_false_r by done.
      apply bool_decide_ext. set_solver by lia.
Qed.

Lemma replay_ok_spec max bits seen ctr g : window_inv max bits seen → is_u 64 ctr →
  let '(ok, max', bits', g') := replay_ok max bits ctr g in
  if decide (accepts seen max ctr)
  then ok = true ∧ max' = Z.max max ctr ∧ window_inv max' bits' ({[ctr]} ∪ seen)
  else ok = false ∧ max' = max ∧ bits' = bits ∧ g_replay_behind g' = max - ctr ∧
       g_replay_too_old g' = bool_decide (REPLAY_WINDOW <= max - ctr).
Proof.
  intros Hi Hc. unfold replay_ok. rewrite Z.gtb_ltb. destruct (Z.ltb_spec max ctr) as [Hlt|Hge].
  { rewrite decide_True.
    - split; [done|]. split; [lia|]. by apply window_advance.
    - split; [|unfold REPLAY_WINDOW; lia]. intros Hin. pose proof (wi_seen _ _ _ Hi _ Hin). lia. }
  rewrite Z.geb_leb. destruct (Z.leb_spec REPLAY_WINDOW (max - ctr)) as [Hold|Hin].
  { rewrite decide_False by (unfold accepts; lia). cbn.
    rewrite bool_decide_eq_true_2 by done. done. }
  unfold REPLAY_WINDOW in *. rewrite land_bit, negb_involutive by lia.
  rewrite (wi_window _ _ _ Hi) by (unfold REPLAY_WINDOW; lia).
  replace (max - (max - ctr)) with ctr by lia. case_bool_decide as Hs.
  - rewrite decide_False by (by intros [? _]). cbn.
    rewrite bool_decide_eq_false_2 by lia. done.
  - rewrite decide_True by (split; [done|unfold REPLAY_WINDOW; lia]).
    split; [done|]. split; [lia|]. apply window_mark; [done|unfold is_u in Hc; lia|done].
Qed.

(** The counters a window accepts out of a sequence, and the abstract window's. *)
Fixpoint replay_accepted (max bits : Z) (g : replay_static) (ctrs : list Z) : list Z :=
  match ctrs with
  | [] => []
  | c :: cs =>
    let '(ok, max, bits, g) := replay_ok max bits c g in
    if ok then c :: replay_accepted max bits g cs else replay_accepted max bits g cs
  end.

Fixpoint window_accepted (seen : gset Z) (hi : Z) (ctrs : list Z) : list Z :=
  match ctrs with
  | [] => []
  | c :: cs =>
    if decide (accepts seen hi c) then c :: window_accepted ({[c]} ∪ seen) (Z.max hi c) cs
    else window_accepted seen hi cs
  end.

Lemma replay_accepted_window max bits g seen ctrs :
  window_inv max bits seen → Forall (is_u 64) ctrs →
  replay_accepted max bits g ctrs = window_accepted seen max ctrs.
Proof.
  intros Hi Hc. revert max bits g seen Hi.
  induction Hc as [|c cs Hc _ IH]; intros max bits g seen Hi; [done|].
  cbn [replay_accepted window_accepted].
  pose proof (replay_ok_spec max bits seen c g Hi Hc) as H.
  destruct (replay_ok max bits c g) as [[[ok m] b] g']. case_decide.
  - destruct H as (-> & -> & Hi'). f_equal. by apply IH.
  - destruct H as (-> & -> & -> & _). by apply IH.
Qed.

Lemma window_accepted_NoDup seen hi ctrs :
  NoDup (window_accepted seen hi ctrs) ∧
  ∀ c, c ∈ window_accepted seen hi ctrs → c ∉ seen.
Proof.
  revert seen hi. induction ctrs as [|c cs IH]; intros seen hi; cbn [window_accepted].
  { split; [constructor|]. intros c Hc. by apply elem_of_nil in Hc. }
  case_decide as Ha; [|apply IH].
  destruct (IH ({[c]} ∪ seen) (Z.max hi c)) as [Hn Hs]. split.
  - apply NoDup_cons. split; [|done]. intros Hc. apply Hs in Hc. set_solver.
  - intros d [->|Hd]%elem_of_cons; [apply Ha|]. apply Hs in Hd. set_solver.
Qed.

(** ** The session as a transition system *)

Inductive dir : Set := SENT | RCVD.
#[export] Instance dir_eq_dec : EqDecision dir.
Proof. solve_decision. Defined.

(** A nonce used to seal, or a counter accepted, under the keypair of an epoch: the
    number of handshakes completed so far. *)
Record event := Event { ev_dir : dir; ev_epoch : nat; ev_ctr : Z }.
#[export] Instance event_eq_dec : EqDecision event.
Proof. solve_decision. Defined.

Section Machine.
Context `{Entropy} `{Curve}.

(** The keypair and counter a datagram decrypts under. *)
Definition rx_counter (s : awg_session) (cfg : awg_config) (pkt : list Z) (cap now : Z)
    : option (Z * bool) :=
  match open_either (expire_prev s now) cfg pkt cap with
  | Ok (Some (_, ctr, on_prev)) => Some (ctr, on_prev)
  | _ => None
  end.

(** What a call of [awg_session_on_datagram] adds to the epoch and the trace. *)
Definition rx_record (s : awg_session) (cfg : awg_config) (pkt : list Z) (cap now : Z)
    (r : awg_rx_result) (ep : nat) (tr : list event) : nat * list event :=
  match r with
  | AWG_RX_IGNORED => (ep, tr)
  | AWG_RX_ESTABLISHED => (S ep, tr)
  | AWG_RX_HANDLED | AWG_RX_PAYLOAD =>
    match rx_counter s cfg pkt cap now with
    | Some (ctr, on_prev) => (ep, Event RCVD (if on_prev then pred ep else ep) ctr :: tr)
    | None => (ep, tr)
    end
  end.

Definition tx_record (s : awg_session) (out : option (list Z)) (ep : nat) (tr : list event)
    : list event :=
  match out with Some _ => Event SENT ep s.(tx_counter) :: tr | None => tr end.

(** States, epochs and traces (latest event first) the operations reach. *)
Inductive reach (cfg : awg_config) : awg_session → replay_static → nat → list event → Prop :=
| reach_init pos s pos' g :
    awg_session_init cfg pos = (s, pos') → reach cfg s g 0 []
| reach_initiation s g ep tr cap now now_s pos s' out pos' :
    reach cfg s g ep tr →
    awg_session_build_initiation s cfg cap now now_s pos = (s', out, pos') →
    reach cfg s' g ep tr
| reach_data s g ep tr payload cap now pos s' out pos' :
    reach cfg s g ep tr →
    awg_session_build_data s cfg payload cap now pos = Ok (s', out, pos') →
    reach cfg s' g ep (tx_record s out ep tr)
| reach_keepalive s g ep tr cap now pos s' out pos' :
    reach cfg s g ep tr →
    awg_session_build_keepalive s cfg cap now pos = Ok (s', out, pos') →
    reach cfg s' g ep (tx_record s out ep tr)
| reach_datagram s g ep tr pkt cap now s' g' r pl ep' tr' :
    reach cfg s g ep tr → is_bytes pkt →
    awg_session_on_datagram s g cfg pkt cap now = Ok (s', g', r, pl) →
    rx_record s cfg pkt cap now r ep tr = (ep', tr') →
    reach cfg s' g' ep' tr'.

(** *** The invariant *)

Definition seen_at (tr : list event) (ep : nat) : gset Z :=
  list_to_set (ev_ctr <$> filter (λ e, ev_dir e = RCVD ∧ ev_epoch e = ep) tr).

Lemma elem_of_seen tr ep c : c ∈ seen_at tr ep ↔ Event RCVD ep c ∈ tr.
Proof.
  unfold seen_at. rewrite elem_of_list_to_set, list_elem_of_fmap. split.
  - intros ([d e c'] & -> & [[Hd He] Hin]%list_elem_of_filter). cbn in *. by subst.
  - intros Hin. exists (Event RCVD ep c). split; [done|]. by apply list_elem_of_filter.
Qed.

Record trace_inv (s : awg_session) (ep : nat) (tr : list event) : Prop := {
  ti_nodup : NoDup tr;
  ti_epoch e : e ∈ tr → (ev_epoch e <= ep)%nat;
  ti_tx c : Event SENT ep c ∈ tr → c < s.(tx_counter);
  ti_count : 0 <= s.(tx_counter) <= zlen tr;
  ti_fresh : s.(established) = false → ep = 0%nat ∧ s.(have_prev) = false;
  ti_est : s.(established) = true → (0 < ep)%nat;
  ti_window : window_inv s.(rx_window_max) s.(rx_window_bits) (seen_at tr ep);
  ti_prev : s.(have_prev) = true →
    window_inv s.(prev_window_max) s.(prev_window_bits) (seen_at tr (pred ep))
}.

(** The fields the invariant speaks of. *)
Ltac fields := cbn [modify tx_counter established have_prev rx_window_max rx_window_bits
  prev_window_max prev_window_bits].

Definition same_core (s s' : awg_session) : Prop :=
  s.(tx_counter) = s'.(tx_counter) ∧ s.(established) = s'.(established) ∧
  s.(have_prev) = s'.(have_prev) ∧
  s.(rx_window_max) = s'.(rx_window_max) ∧ s.(rx_window_bits) = s'.(rx_window_bits) ∧
  s.(prev_window_max) = s'.(prev_window_max) ∧ s.(prev_window_bits) = s'.(prev_window_bits).

Lemma trace_inv_core s s' ep tr : same_core s s' → trace_inv s ep tr → trace_inv s' ep tr.
Proof.
  intros (E1 & E2 & E3 & E4 & E5 & E6 & E7) [].
  split; rewrite <- ?E1, <- ?E2, <- ?E3, <- ?E4, <- ?E5, <- ?E6, <- ?E7; done.
Qed.

Lemma init_core cfg pos : same_core (awg_session_init cfg pos).1 session_zero.
Proof.
  unfold awg_session_init. repeat (destruct (awg_range_pick _ _)).
  unfold same_core. cbn. done.
Qed.

Lemma init_inv cfg pos : trace_inv (awg_session_init cfg pos).1 0 [].
Proof.
  destruct (init_core cfg pos) as (E1 & E2 & E3 & E4 & E5 & E6 & E7).
  split; rewrite ?E1, ?E2, ?E3, ?E4, ?E5; cbn; try done.
  - constructor.
  - intros e He. by apply elem_of_nil in He.
  - intros c Hc. by apply elem_of_nil in Hc.
  - apply window_inv_empty.
Qed.

Lemma initiation_core s cfg cap now now_s pos s' out pos' :
  awg_session_build_initiation s cfg cap now now_s pos = (s', out, pos') → same_core s s'.
Proof.
  unfold awg_session_build_initiation. destruct (awg_random_u32 pos) as [idx p].
  destruct (awg_create_initiation _ _ _) as [[hs [msg|]] p'].
  - destruct (awg_wrap _ _ _ _ _) as [[d q]| |]; intros [= <- _ _]; done.
  - intros [= <- _ _]. done.
Qed.

(** A nonce used: the trace's next event. *)
Lemma tx_inv s s' ep tr : trace_inv s ep tr → zlen tr < 2 ^ 64 - 1 →
  same_core (s <| tx_counter ::= λ n, u64 (n + 1) |>) s' →
  trace_inv s' ep (Event SENT ep s.(tx_counter) :: tr).
Proof.
  intros [Hn He Ht Hc Hf Hest Hw Hp] Hl Hs. apply (trace_inv_core _ _ _ _ Hs).
  assert (∀ e, seen_at (Event SENT ep (tx_counter s) :: tr) e = seen_at tr e) as Hseen.
  { intros e. apply set_eq. intros c. rewrite !elem_of_seen. set_solver. }
  assert (u64 (s.(tx_counter) + 1) = s.(tx_counter) + 1) as Hu
    by (apply u64_small; unfold is_u; lia).
  split; fields; rewrite ?Hseen, ?Hu; try done.
  - apply NoDup_cons. split; [|done]. intros Hin. apply Ht in Hin. lia.
  - intros e [->|Hin]%elem_of_cons; [done|by apply He].
  - intros c [[= ->]|Hin]%elem_of_cons; [lia|]. apply Ht in Hin. lia.
  - unfold zlen in *. cbn [length]. lia.
Qed.

Lemma build_data_inv s cfg payload cap now pos s' out pos' ep tr :
  trace_inv s ep tr → zlen (tx_record s out ep tr) < 2 ^ 64 →
  awg_session_build_data s cfg payload cap now pos = Ok (s', out, pos') →
  trace_inv s' ep (tx_record s out ep tr).
Proof.
  intros Hi Hl. unfold awg_session_build_data.
  destruct (established s); cbn [negb]; [|by intros [= <- <- _]].
  destruct (awg_transport_seal _ _ _ _ _ _) as [[d p]| |]; [|by intros [= <- <- _]|done].
  intros [= <- <- _]. apply tx_inv; [done| |done].
  unfold tx_record, zlen in *. cbn [length] in Hl. lia.
Qed.

Lemma build_data_ok s cfg payload cap now pos :
  s.(established) = true → nonce_ok cfg cfg.(s4) →
  cfg.(s4) + 16 + padded_to_16 (zlen payload) + 16 <= cap →
  ∃ s' d pos', awg_session_build_data s cfg payload cap now pos = Ok (s', Some d, pos') ∧
    s'.(established) = true ∧ s'.(tx_counter) = u64 (s.(tx_counter) + 1).
Proof.
  intros He Hn Hc. unfold awg_session_build_data.
  rewrite He, seal_spec, decide_True by (done || apply Hn). cbn [negb].
  do 3 eexists. split; [reflexivity|done].
Qed.

Lemma build_keepalive_inv s cfg cap now pos s' out pos' ep tr :
  trace_inv s ep tr → zlen (tx_record s out ep tr) < 2 ^ 64 →
  awg_session_build_keepalive s cfg cap now pos = Ok (s', out, pos') →
  trace_inv s' ep (tx_record s out ep tr).
Proof.
  intros Hi Hl. unfold awg_session_build_keepalive.
  destruct (awg_session_build_data s cfg [] cap now pos) as [[[s1 n] p]| |] eqn:E; [|done..].
  pose proof (λ Hl, build_data_inv s cfg [] cap now pos s1 n p ep tr Hi Hl E) as Hd.
  cbn [mbind res_bind]. destruct n as [d|]; [|intros [= <- <- _]; exact (Hd Hl)].
  destruct (0 <? zlen d); intros [= <- <- _]; [|exact (Hd Hl)]. specialize (Hd Hl).
  eapply trace_inv_core; [|exact Hd]. done.
Qed.

(** A handshake completed. *)
Lemma promote_inv s now ep tr : trace_inv s ep tr → trace_inv (promote s now) (S ep) tr.
Proof.
  intros [Hn He Ht Hc Hf Hest Hw Hp].
  assert (∀ c d, Event d (S ep) c ∉ tr) as Hnew.
  { intros c d Hin. apply He in Hin. cbn in Hin. lia. }
  assert (seen_at tr (S ep) = ∅) as Hempty.
  { apply set_eq. intros c. rewrite elem_of_seen. set_solver. }
  unfold promote.
  split; fields; cbn [pred]; try done.
  - intros e Hin. apply He in Hin. lia.
  - intros c Hin. by apply Hnew in Hin.
  - unfold zlen. lia.
  - lia.
  - rewrite Hempty. apply window_inv_empty.
  - destruct (established s) eqn:E; cbn.
    + by intros _.
    + destruct (Hf eq_refl) as [_ ->]. done.
Qed.

Lemma expire_prev_inv s now ep tr : trace_inv s ep tr → trace_inv (expire_prev s now) ep tr.
Proof.
  intros [Hn He Ht Hc Hf Hest Hw Hp]. unfold expire_prev.
  destruct (have_prev s && _); [|done].
  split; fields; try done.
  intros E. split; [by apply Hf|done].
Qed.

Lemma open_either_ctr s cfg pkt cap out ctr on_prev : is_bytes pkt →
  open_either s cfg pkt cap = Ok (Some (out, ctr, on_prev)) →
  is_u 64 ctr ∧ (on_prev = true → s.(have_prev) = true).
Proof.
  intros Hb. unfold open_either.
  destruct (awg_transport_open cfg (cur s) pkt cap) as [[p r]| |] eqn:E1; [|done..].
  destruct (open_bytes _ _ _ _ _ _ Hb E1) as [Hp Hr]. cbn [mbind res_bind].
  destruct r as [[o c]|]; [intros [= <- <- <-]; split; [by eapply Hr|done]|].
  destruct (have_prev s) eqn:Ep; [|done].
  destruct (awg_transport_open cfg (prev s) p cap) as [[q r']| |] eqn:E2; [|done..].
  destruct (open_bytes _ _ _ _ _ _ Hp E2) as [_ Hr']. cbn [mbind res_bind].
  destruct r' as [[o c]|]; [intros [= <- <- <-]; split; [by eapply Hr'|done]|done].
Qed.

(** The counter accepted is new for its keypair, and becomes seen. *)
Lemma replay_inv s g ctr on_prev ep tr :
  trace_inv s ep tr → is_u 64 ctr → (on_prev = true → s.(have_prev) = true) →
  s.(established) = true →
  let '(fresh, s', g') := session_replay s g ctr on_prev in
  trace_inv s' ep (if fresh then Event RCVD (if on_prev then pred ep else ep) ctr :: tr else tr).
Proof.
  intros Hinv Hc Hprev Hest. pose proof Hinv as [Hn He Ht Hcnt Hf Hep Hw Hp].
  specialize (Hep Hest). unfold session_replay.
  set (e := if on_prev then pred ep else ep).
  assert (window_inv (if on_prev then s.(prev_window_max) else s.(rx_window_max))
    (if on_prev then s.(prev_window_bits) else s.(rx_window_bits)) (seen_at tr e)) as Hwin.
  { unfold e. destruct on_prev; auto. }
  assert (∀ c e', Event SENT e' c ∈ Event RCVD e ctr :: tr → Event SENT e' c ∈ tr) as Hsent
    by (intros c e'; set_solver).
  assert (∀ e', seen_at (Event RCVD e ctr :: tr) e' =
    if decide (e' = e) then {[ctr]} ∪ seen_at tr e else seen_at tr e') as Hseen.
  { intros e'. apply set_eq. intros c. rewrite elem_of_seen, elem_of_cons.
    destruct (decide (e' = e)) as [->|]; rewrite ?elem_of_union, ?elem_of_seen;
      rewrite ?elem_of_singleton; naive_solver. }
  assert (∀ s' : awg_session, ctr ∉ seen_at tr e → s'.(tx_counter) = s.(tx_counter) →
    s'.(established) = s.(established) → s'.(have_prev) = s.(have_prev) →
    window_inv s'.(rx_window_max) s'.(rx_window_bits) (seen_at (Event RCVD e ctr :: tr) ep) →
    (s.(have_prev) = true →
     window_inv s'.(prev_window_max) s'.(prev_window_bits)
       (seen_at (Event RCVD e ctr :: tr) (pred ep))) →
    trace_inv s' ep (Event RCVD e ctr :: tr)) as Hext.
  { intros s' Hnew Etx Eest Ehp Hw1 Hw2. split; rewrite ?Etx, ?Eest, ?Ehp; try done.
    - apply NoDup_cons. split; [|done]. by rewrite <- elem_of_seen.
    - intros e' [->|Hin]%elem_of_cons; [|by apply He]. cbn. unfold e. destruct on_prev; lia.
    - intros c Hin. apply Ht. by apply Hsent.
    - unfold zlen in *. cbn [length]. lia. }
  destruct on_prev; unfold e in *.
  - pose proof (replay_ok_spec _ _ _ ctr g Hwin Hc) as Hr.
    destruct (replay_ok _ _ ctr g) as [[[ok m] b] g']. case_decide as Ha.
    + destruct Hr as (-> & -> & Hw'). apply Hext; [apply Ha|done..| |]; fields; rewrite Hseen.
      * rewrite decide_False by lia. done.
      * intros _. by rewrite decide_True.
    + destruct Hr as (-> & -> & -> & _). eapply trace_inv_core; [|exact Hinv]. done.
  - pose proof (replay_ok_spec _ _ _ ctr g Hwin Hc) as Hr.
    destruct (replay_ok _ _ ctr g) as [[[ok m] b] g']. case_decide as Ha.
    + destruct Hr as (-> & -> & Hw'). apply Hext; [apply Ha|done..| |]; fields; rewrite Hseen.
      * by rewrite decide_True.
      * rewrite decide_False by lia. auto.
    + destruct Hr as (-> & -> & -> & _). eapply trace_inv_core; [|exact Hinv]. done.
Qed.

Lemma datagram_inv s g cfg pkt cap now s' g' r pl ep tr ep' tr' :
  trace_inv s ep tr → is_bytes pkt →
  awg_session_on_datagram s g cfg pkt cap now = Ok (s', g', r, pl) →
  rx_record s cfg pkt cap now r ep tr = (ep', tr') → trace_inv s' ep' tr'.
Proof.
  intros Hi Hb. unfold awg_session_on_datagram.
  destruct (handshaking s && _).
  { destruct (awg_unwrap _ _ _) as [[[p off] mlen]| |];
      [|intros [= <- <- <- _]; by intros [= <- <-]|done].
    destruct (negb _); [intros [= <- <- <- _]; by intros [= <- <-]|].
    destruct (negb _); [done|].
    destruct (awg_consume_response _ _) as [hs ok].
    destruct ok; cbn [negb]; intros [= <- <- <- _]; intros [= <- <-].
    - apply promote_inv. eapply trace_inv_core; [|exact Hi]. done.
    - eapply trace_inv_core; [|exact Hi]. done. }
  destruct (established s) eqn:Hest; cbn [negb]; [|intros [= <- <- <- _]; by intros [= <- <-]].
  unfold rx_record, rx_counter.
  pose proof (expire_prev_inv s now ep tr Hi) as Hi'.
  assert (established (expire_prev s now) = true) as Hest'.
  { unfold expire_prev. by destruct (have_prev s && _). }
  revert Hi' Hest'. generalize (expire_prev s now). clear Hi Hest s. intros s Hi Hest.
  destruct (open_either s cfg pkt cap) as [[[[plain ctr] on_prev]|]| |] eqn:Eo;
    cbn [mbind res_bind]; [|intros [= <- <- <- _]; by intros [= <- <-]|done..].
  destruct (open_either_ctr _ _ _ _ _ _ _ Hb Eo) as [Hc Hp].
  pose proof (replay_inv s g ctr on_prev ep tr Hi Hc Hp Hest) as Hr.
  destruct (session_replay s g ctr on_prev) as [[fresh s1] g1]. destruct fresh; cbn [negb].
  - set (s2 := if ctr >? _ then _ else _).
    assert (same_core s1 s2) as Hs2 by (unfold s2; by destruct (ctr >? _)).
    destruct (zlen plain =? 0); intros [= <- <- <- _]; intros [= <- <-];
      (eapply trace_inv_core; [|exact Hr]); done.
  - intros [= <- <- <- _]; intros [= <- <-]. eapply trace_inv_core; [|exact Hr]. done.
Qed.

Lemma reach_inv cfg s g ep tr : reach cfg s g ep tr → zlen tr < 2 ^ 64 → trace_inv s ep tr.
Proof.
  induction 1 as [pos s pos' g Hs|s g ep tr cap now now_s pos s' out pos' Hr IH Hs
    |s g ep tr payload cap now pos s' out pos' Hr IH Hs
    |s g ep tr cap now pos s' out pos' Hr IH Hs
    |s g ep tr pkt cap now s' g' r pl ep' tr' Hr IH Hb Hs Hrec]; intros Hl.
  - pose proof (init_inv cfg pos) as Hi. by rewrite Hs in Hi.
  - eapply trace_inv_core; [by eapply initiation_core|by apply IH].
  - eapply build_data_inv; [apply IH|exact Hl|exact Hs].
    unfold tx_record, zlen in *. destruct out; cbn [length] in Hl; lia.
  - eapply build_keepalive_inv; [apply IH|exact Hl|exact Hs].
    unfold tx_record, zlen in *. destruct out; cbn [length] in Hl; lia.
  - eapply datagram_inv; [apply IH|exact Hb|exact Hs|exact Hrec].
    revert Hrec. unfold rx_record, zlen in *.
    destruct r; [|destruct (rx_counter _ _ _ _ _) as [[? ?]|]..|];
      intros [= <- <-]; cbn [length] in Hl; lia.
Qed.

End Machine.

(** ** A whole handshake through the session *)

#[local] Opaque awg_create_initiation awg_consume_initiation awg_create_response
  awg_consume_response awg_handshake_begin awg_wrap awg_unwrap awg_generate_private
  awg_public_from_private awg_random_bytes.

Section Exchange.
Context `{Entropy} `{Curve} `{!CurveLaws}.

(** The peer's side: unwrap, consume, answer, wrap. *)
Definition peer_answer (cfg : awg_config) (hs : awg_handshake) (dgram : list Z) (cap : Z)
    (pos : nat) : option (awg_handshake * list Z) :=
  match awg_unwrap cfg AWG_KIND_INIT dgram with
  | Ok (pkt, off, _) =>
    match awg_consume_initiation hs (zdrop off pkt) with
    | (hs, true) =>
      match awg_create_response hs pos with
      | (hs, Some m, pos) =>
        match awg_wrap cfg AWG_KIND_RESPONSE m cap pos with
        | Ok (d, _) => Some (hs, d)
        | _ => None
        end
      | _ => None
      end
    | _ => None
    end
  | _ => None
  end.

(** The preshared key as the session passes it. *)
Definition cfg_psk (cfg : awg_config) : option (list Z) :=
  if cfg.(have_preshared_key) then Some cfg.(preshared_key) else None.

Lemma nonempty_length {A} (l : list A) n : length l = S n → l ≠ [].
Proof. by destruct l. Qed.

Lemma session_handshake_ok s g cfg sr idxR cap now now_s pos capR posR pcap now' :
  let si := cfg.(private_key) in
  let '(idx, pos1) := awg_random_u32 pos in
  let ei := (awg_generate_private pos1).1 in
  let er := (awg_generate_private posR).1 in
  cfg.(peer_public_key) = awg_public_from_private sr → is_u 32 idxR →
  nonce_ok cfg cfg.(s1) → cfg.(s1) + 148 <= cap →
  nonce_ok cfg cfg.(s2) → cfg.(s2) + 92 <= capR →
  dh_agree ei sr → dh_agree si sr → dh_agree er ei → dh_agree er si →
  ∃ s1 d1 pos' hsR d2 s2,
    awg_session_build_initiation s cfg cap now now_s pos = (s1, Some d1, pos') ∧
    peer_answer cfg (begin_r sr (cfg_psk cfg) idxR) d1 capR posR = Some (hsR, d2) ∧
    awg_session_on_datagram s1 g cfg d2 pcap now' = Ok (s2, g, AWG_RX_ESTABLISHED, []) ∧
    is_bytes d2 ∧ peers s2.(cur) hsR ∧ peers hsR s2.(cur) ∧
    s2.(cur).(local_index) = idx ∧ hsR.(local_index) = idxR ∧
    s2.(established) = true ∧ s2.(handshaking) = false ∧ s2.(tx_counter) = 0 ∧
    s2.(established_ms) = now' ∧ s2.(have_prev) = s.(established) || s.(have_prev) ∧
    (s.(established) = true → s2.(prev) = s.(cur)).
Proof.
  intros si. pose proof (random_u32_bound pos) as Hidx.
  destruct (awg_random_u32 pos) as [idx pos1] eqn:Eidx. cbn [fst] in Hidx. cbn zeta.
  intros Hpub HiR Hn1 Hc1 Hn2 Hc2 (es & Hes1 & Hes2)%dh_agree_inv (ss & Hss1 & Hss2)%dh_agree_inv
    (ee & Hee1 & Hee2)%dh_agree_inv (se & Hse1 & Hse2)%dh_agree_inv.
  unfold awg_session_build_initiation. rewrite Eidx, Hpub. fold (cfg_psk cfg) si.
  cbn [modify pending]. fold (begin_i si sr (cfg_psk cfg) idx).
  destruct (begin_fields si (Some (awg_public_from_private sr)) (cfg_psk cfg) idx)
    as (I1 & I2 & I3 & I4 & I5 & I6).
  destruct (begin_fields sr None (cfg_psk cfg) idxR) as (R1 & R2 & R3 & R4 & R5 & R6).
  fold (begin_i si sr (cfg_psk cfg) idx) in *. fold (begin_r sr (cfg_psk cfg) idxR) in *.
  destruct (initiation_agrees (begin_i si sr (cfg_psk cfg) idx) (begin_r sr (cfg_psk cfg) idxR)
    now_s pos1 es ss) as (c & h & m1 & p1 & L1 & _ & -> & HcI); rewrite ?I1, ?I2, ?I3, ?R1, ?R2; try done.
  { split; rewrite ?I2, ?I5; [apply length_public|apply public_bytes|done]. }
  destruct (wrap_fits cfg AWG_KIND_INIT m1 cap p1 Hn1) as (d1 & p2 & pkt1 & -> & _ & _ & Hu1 & Hz1);
    [unfold zlen; rewrite L1; done|by eapply nonempty_length|].
  do 3 eexists. revert HcI. rewrite I2, I5.
  set (hsI1 := modify e_pub _ _). set (hsR1 := modify remote_index _ _). intros HcI.
  destruct (response_agrees hsI1 hsR1 posR ee se)
    as (c' & h' & k1 & k2 & m2 & p3 & L2 & B2 & Hcr & Hcc); unfold hsI1, hsR1;
    cbn [modify ck hh psk peer_pub s_pub remote_index local_index peer_eph e_priv s_priv];
    rewrite ?I1, ?I2, ?I4, ?I5, ?R4, ?R5; try done.
  destruct (wrap_fits cfg AWG_KIND_RESPONSE m2 capR p3 Hn2)
    as (d2 & p4 & pkt2 & Hw2 & Hb2 & Hl2 & Hu2 & Hz2);
    [unfold zlen; rewrite L2; done|by eapply nonempty_length|].
  do 3 eexists. split; [reflexivity|]. unfold peer_answer. cbn [padding_for] in *.
  rewrite Hu1, Hz1, HcI, Hcr, Hw2. split; [reflexivity|].
  assert (zlen m2 = 92) as Zm by (unfold zlen; by rewrite L2).
  unfold awg_session_on_datagram. cbn [modify handshaking pending andb].
  rewrite Hl2, Zm. change (Z.of_nat AWG_MSG_RESP_SIZE) with 92. rewrite Z.eqb_refl, Hu2, Zm.
  assert (zlen pkt2 = cfg.(s2) + 92) as Hp2.
  { pose proof (proj1 Hn2). apply (f_equal zlen) in Hz2. revert Hz2. rewrite Zm. unfold zlen, zdrop. rewrite length_drop. lia. }
  cbn [negb Z.eqb Pos.eqb]. rewrite within_true by (pose proof (proj1 Hn2); lia). cbn [negb].
  rewrite Hz2. fold hsI1. rewrite Hcc. cbn [negb]. split; [reflexivity|].
  split; [by apply Hb2|].
  unfold promote. cbn [modify established]. 
  destruct (established s); cbn; rewrite ?I5, ?R5;
    split_and!; try done; (split; cbn; rewrite ?I5, ?R5; done).
Qed.

End Exchange.

#[local] Transparent awg_create_initiation awg_consume_initiation awg_create_response
  awg_consume_response awg_handshake_begin awg_wrap awg_unwrap awg_generate_private
  awg_public_from_private awg_random_bytes.

(** ** Properties *)

(** C4: the replay window is exact. Over any sequence of 64-bit counters, starting
    from an empty window, the bitmap code accepts exactly the counters that are new
    and less than 64 behind the highest accepted before them, and none twice. *)
Theorem replay_window_exact g ctrs : Forall (is_u 64) ctrs →
  replay_accepted 0 0 g ctrs = window_accepted ∅ 0 ctrs ∧ NoDup (replay_accepted 0 0 g ctrs).
Proof.
  intros Hc. rewrite (replay_accepted_window 0 0 g ∅ ctrs window_inv_empty Hc).
  split; [done|]. apply window_accepted_NoDup.
Qed.

Lemma replay_window_exact_witness :
  replay_accepted 0 0 (ReplayStatic 0 false) [0; 5; 5; 70; 6; 7; 7; 200; 136] = [0; 5; 70; 7; 200]
  ∧ NoDup (replay_accepted 0 0 (ReplayStatic 0 false) [0; 5; 5; 70; 6; 7; 7; 200; 136]).
Proof.
  split; [vm_compute; reflexivity|].
  apply (replay_window_exact (ReplayStatic 0 false) [0; 5; 5; 70; 6; 7; 7; 200; 136]).
  repeat (apply Forall_cons_2; [split; vm_compute; congruence|]). apply Forall_nil_2.
Defined.

(** C3: a session's handshake succeeds end to end. An initiation built by a session,
    answered by the peer it is configured for and fed back to the session establishes
    it: the transport keys and indices of the two sides match in both directions, the
    counters restart, and a keypair that was live becomes the retired one. *)
Theorem session_handshake `{Entropy} `{Curve} `{!CurveLaws}
    s g cfg sr idxR cap now now_s pos capR posR pcap now' :
  let si := cfg.(private_key) in
  let '(idx, pos1) := awg_random_u32 pos in
  let ei := (awg_generate_private pos1).1 in
  let er := (awg_generate_private posR).1 in
  cfg.(peer_public_key) = awg_public_from_private sr → is_u 32 idxR →
  nonce_ok cfg cfg.(s1) → cfg.(s1) + 148 <= cap →
  nonce_ok cfg cfg.(s2) → cfg.(s2) + 92 <= capR →
  dh_agree ei sr → dh_agree si sr → dh_agree er ei → dh_agree er si →
  ∃ s1 d1 pos' hsR d2 s2,
    awg_session_build_initiation s cfg cap now now_s pos = (s1, Some d1, pos') ∧
    peer_answer cfg (begin_r sr (cfg_psk cfg) idxR) d1 capR posR = Some (hsR, d2) ∧
    awg_session_on_datagram s1 g cfg d2 pcap now' = Ok (s2, g, AWG_RX_ESTABLISHED, []) ∧
    is_bytes d2 ∧ peers s2.(cur) hsR ∧ peers hsR s2.(cur) ∧
    s2.(cur).(local_index) = idx ∧ hsR.(local_index) = idxR ∧
    s2.(established) = true ∧ s2.(handshaking) = false ∧ s2.(tx_counter) = 0 ∧
    s2.(established_ms) = now' ∧ s2.(have_prev) = s.(established) || s.(have_prev) ∧
    (s.(established) = true → s2.(prev) = s.(cur)).
Proof. apply session_handshake_ok. Qed.

(** A configuration whose peer is the holder of the key [09..09]. *)
Definition toy_session_config : awg_config :=
  toy_config <| private_key := replicate 32 5 |>
    <| peer_public_key := @awg_public_from_private toy_curve (replicate 32 9) |>.

Lemma session_handshake_witness : ∃ s1 d1 pos' hsR d2 s2,
  @awg_session_build_initiation toy_entropy toy_curve session_zero toy_session_config
    2048 1000 1700000000 0 = (s1, Some d1, pos') ∧
  @awg_session_on_datagram toy_curve s1 (ReplayStatic 0 false) toy_session_config d2 2048 1500 =
    Ok (s2, ReplayStatic 0 false, AWG_RX_ESTABLISHED, []) ∧ peers s2.(cur) hsR.
Proof.
  pose proof (@session_handshake toy_entropy toy_curve toy_curve_laws session_zero
    (ReplayStatic 0 false) toy_session_config (replicate 32 9) 88 2048 1000 1700000000 0
    2048 500 2048 1500) as W.
  destruct W as (s1 & d1 & p & hsR & d2 & s2 & E1 & _ & E3 & _ & E4 & _).
  - reflexivity.
  - split; vm_compute; congruence.
  - split; [vm_compute; congruence|intros _; vm_compute; congruence].
  - vm_compute; congruence.
  - split; [vm_compute; congruence|intros _; vm_compute; congruence].
  - vm_compute; congruence.
  - split; vm_compute; reflexivity.
  - split; vm_compute; reflexivity.
  - split; vm_compute; reflexivity.
  - split; vm_compute; reflexivity.
  - exists s1, d1, p, hsR, d2, s2. split; [exact E1|split; [exact E3|exact E4]].
Defined.

(** C2: no nonce is used twice and no counter is accepted twice. Along every
    sequence of the session's operations, with any datagrams received, the pairs of
    a keypair (the epoch) and a nonce sealed under it, and of a keypair and a counter
    whose payload was accepted, are pairwise distinct, rekeys and the retired
    keypair included, for the first [2^64] events. *)
Theorem session_nonces_unique `{Entropy} `{Curve} cfg s g ep tr :
  reach cfg s g ep tr → zlen tr < 2 ^ 64 → NoDup tr.
Proof. intros Hr Hl. by eapply ti_nodup, reach_inv. Qed.

Lemma session_nonces_unique_witness :
  ∃ s g tr, @reach toy_entropy toy_curve toy_session_config s g 1 tr ∧
    tr = [Event SENT 1 1; Event SENT 1 0] ∧ NoDup tr.
Proof.
  destruct (@session_handshake_ok toy_entropy toy_curve toy_curve_laws
    (@awg_session_init toy_entropy toy_session_config 0).1 (ReplayStatic 0 false)
    toy_session_config (replicate 32 9) 88 2048 1000 1700000000 0 2048 500 2048 1500)
    as (s1 & d1 & p & hsR & d2 & s2 & E1 & _ & E3 & Hb & _ & _ & _ & _ & Est & _ & Etx & _).
  - reflexivity.
  - split; vm_compute; congruence.
  - split; [vm_compute; congruence|intros _; vm_compute; congruence].
  - vm_compute; congruence.
  - split; [vm_compute; congruence|intros _; vm_compute; congruence].
  - vm_compute; congruence.
  - split; vm_compute; reflexivity.
  - split; vm_compute; reflexivity.
  - split; vm_compute; reflexivity.
  - split; vm_compute; reflexivity.
  - assert (∀ s ep tr, @reach toy_entropy toy_curve toy_session_config s (ReplayStatic 0 false) ep tr →
      s.(established) = true → ∃ s', s'.(established) = true ∧
      s'.(tx_counter) = u64 (s.(tx_counter) + 1) ∧
      @reach toy_entropy toy_curve toy_session_config s' (ReplayStatic 0 false) ep
        (Event SENT ep s.(tx_counter) :: tr)) as Hsend.
    { intros s ep tr Hr He.
      destruct (@build_data_ok toy_entropy s toy_session_config [1] 2048 2000 0 He)
        as (s' & d & q & E & He' & Hc).
      - split; [vm_compute; congruence|intros _; vm_compute; congruence].
      - vm_compute; congruence.
      - exists s'. split; [exact He'|]. split; [exact Hc|].
        exact (@reach_data toy_entropy toy_curve toy_session_config s
          (ReplayStatic 0 false) ep tr [1] 2048 2000 0 s' (Some d) q Hr E). }
    assert (@reach toy_entropy toy_curve toy_session_config s2 (ReplayStatic 0 false) 1 []) as R2.
    { eapply reach_datagram; [|exact Hb|exact E3|reflexivity].
      eapply reach_initiation; [|exact E1]. eapply reach_init, surjective_pairing. }
    destruct (Hsend s2 1%nat [] R2 Est) as (s3 & Est3 & Etx3 & R3).
    destruct (Hsend s3 1%nat _ R3 Est3) as (s4 & _ & _ & R4).
    rewrite Etx3, Etx in R4. exists s4, (ReplayStatic 0 false), [Event SENT 1 1; Event SENT 1 0].
    split; [exact R4|]. split; [reflexivity|].
    exact (@session_nonces_unique toy_entropy toy_curve toy_session_config s4
      (ReplayStatic 0 false) 1 _ R4 eq_refl).
Defined.

(** C40: retired keys stop working. Once a keypair has been retired for more than
    three minutes, the next datagram that is not taken for a handshake response
    erases it, and nothing is decrypted under it: a payload handed up was opened
    with the current keypair. *)
Theorem retired_key_erased `{Curve} s g cfg pkt cap now s' g' r pl :
  s.(established) = true → s.(have_prev) = true →
  elapsed now s.(prev_since_ms) > AWG_PREV_KEEP_MS →
  s.(handshaking) && (zlen pkt =? cfg.(s2) + 92) = false →
  awg_session_on_datagram s g cfg pkt cap now = Ok (s', g', r, pl) →
  s'.(have_prev) = false ∧ s'.(prev) = handshake_zero ∧
  (r = AWG_RX_PAYLOAD →
   ∃ pkt' ctr, awg_transport_open cfg s.(cur) pkt cap = Ok (pkt', Some (pl, ctr))).
Proof.
  intros He Hp Hold Hnr. unfold awg_session_on_datagram.
  change (Z.of_nat AWG_MSG_RESP_SIZE) with 92. rewrite Hnr, He. cbn [negb].
  unfold expire_prev. rewrite Hp, Z.gtb_ltb, (proj2 (Z.ltb_lt _ _)) by lia. cbn [andb].
  unfold open_either. cbn [modify cur have_prev].
  destruct (awg_transport_open cfg (cur s) pkt cap) as [[p [[o c]|]]| |];
    cbn [mbind res_bind]; [|by intros [= <- <- <- <-]|done..].
  unfold session_replay. destruct (replay_ok _ _ _ _) as [[[ok m] b] g1].
  destruct ok; cbn [negb]; [|by intros [= <- <- <- <-]].
  set (s1 := if c >? _ then _ else _).
  assert (have_prev s1 = false ∧ prev s1 = handshake_zero) as [E1 E2]
    by (unfold s1; by destruct (c >? _)).
  destruct (zlen o =? 0); intros [= <- <- <- <-].
  - by split_and!.
  - split; [exact E1|]. split; [exact E2|]. intros _. by exists p, c.
Qed.

Lemma retired_key_erased_witness :
  ∃ s', @awg_session_on_datagram toy_curve
    (session_zero <| established := true |> <| have_prev := true |> <| prev := toy_receiver |>)
    (ReplayStatic 0 false) toy_config [1; 2; 3] 2048 180001 =
      Ok (s', ReplayStatic 0 false, AWG_RX_IGNORED, []) ∧ s'.(prev) = handshake_zero.
Proof.
  set (s := session_zero <| established := true |> <| have_prev := true |> <| prev := toy_receiver |>).
  destruct (@awg_session_on_datagram toy_curve s (ReplayStatic 0 false) toy_config [1; 2; 3] 2048
    180001) as [[[[s' g'] r] pl]| |] eqn:E; [|vm_compute in E; discriminate E..].
  exists s'. split; [|exact (proj1 (proj2 (@retired_key_erased toy_curve s (ReplayStatic 0 false)
    toy_config [1; 2; 3] 2048 180001 s' g' r pl eq_refl eq_refl eq_refl eq_refl E)))].
  vm_compute in E. injection E as _ <- <- <-. vm_compute. reflexivity.
Defined.

(** The timers. With a clock that does not run backwards, a handshake is due
    exactly when there is no session and none outstanding, when an outstanding
    attempt is [rekey_timeout_s] old, or when the session is [rekey_after_s] old; a
    keepalive exactly when nothing was sent for [keepalive_s]. *)
Theorem session_timers s now :
  0 <= s.(handshake_sent_ms) <= now → 0 <= s.(established_ms) <= now →
  0 <= s.(last_tx_ms) <= now → now < 2 ^ 64 →
  0 <= s.(rekey_timeout_s) < 2 ^ 31 → 0 <= s.(rekey_after_s) < 2 ^ 31 →
  0 <= s.(keepalive_s) < 2 ^ 31 →
  (awg_session_needs_handshake s now = true ↔
     if s.(handshaking) then s.(handshake_sent_ms) + 1000 * s.(rekey_timeout_s) <= now
     else s.(established) = false ∨ s.(established_ms) + 1000 * s.(rekey_after_s) <= now) ∧
  (awg_session_needs_keepalive s now = true ↔
     s.(established) = true ∧ s.(last_tx_ms) + 1000 * s.(keepalive_s) <= now).
Proof.
  intros H1 H2 H3 Hn R1 R2 R3.
  assert (∀ t d, 0 <= t <= now → 0 <= d < 2 ^ 31 →
    (elapsed now t >=? ms_of_s d) = true ↔ t + 1000 * d <= now) as He.
  { intros t d Ht Hd. unfold elapsed, ms_of_s.
    rewrite (u64_small (now - t)), (u64_small d) by (unfold is_u; lia).
    rewrite u64_small by (unfold is_u; lia). rewrite Z.geb_leb, Z.leb_le. lia. }
  unfold awg_session_needs_handshake, awg_session_needs_keepalive.
  pose proof (He _ _ H1 R1). pose proof (He _ _ H2 R2). pose proof (He _ _ H3 R3).
  destruct (handshaking s), (established s); cbn [negb]; naive_solver.
Qed.

Lemma session_timers_witness :
  awg_session_needs_handshake (session_zero <| established := true |> <| rekey_after_s := 120 |>)
    120000 = true.
Proof.
  apply (proj1 (session_timers (session_zero <| established := true |> <| rekey_after_s := 120 |>)
    120000 ltac:(split; vm_compute; congruence) ltac:(split; vm_compute; congruence) ltac:(split; vm_compute; congruence) ltac:(reflexivity) ltac:(split; vm_compute; congruence)
    ltac:(split; vm_compute; congruence) ltac:(split; vm_compute; congruence))).
  right. vm_compute. congruence.
Defined.

(** The limits that are drawn but not enforced. The age of the keys against
    [reject_after_s] and the number of attempts against [max_tries] change nothing in
    what is sent, received or retried: a session whose keys are past their reject
    time still seals and opens, and attempts are repeated without end. *)
Theorem session_limits_unused `{Entropy} `{Curve} s cfg payload cap now pos v t n m :
  let s' := s <| reject_after_s := v |> <| established_ms := t |>
              <| max_tries := n |> <| handshake_tries := m |> in
  (awg_session_build_data s' cfg payload cap now pos = Fault ↔
   awg_session_build_data s cfg payload cap now pos = Fault) ∧
  (∀ s1 out pos', awg_session_build_data s cfg payload cap now pos = Ok (s1, out, pos') →
     ∃ s2, awg_session_build_data s' cfg payload cap now pos = Ok (s2, out, pos')) ∧
  (∀ pkt, open_either s' cfg pkt cap = open_either s cfg pkt cap) ∧
  (s.(handshaking) = true →
   awg_session_needs_handshake s' now = awg_session_needs_handshake s now).
Proof.
  cbn zeta. unfold awg_session_build_data, awg_session_needs_handshake, open_either.
  cbn [modify established cur tx_counter prev have_prev handshaking handshake_sent_ms
       rekey_timeout_s]. split_and!.
  - destruct (negb _); [done|]. by destruct (awg_transport_seal _ _ _ _ _ _) as [[? ?]| |].
  - intros s1 out pos'. destruct (negb _); [intros [= _ <- <-]; by eexists|].
    destruct (awg_transport_seal _ _ _ _ _ _) as [[? ?]| |]; [|intros [= _ <- <-]; by eexists|done].
    intros [= _ <- <-]. by eexists.
  - done.
  - by intros ->.
Qed.

Lemma session_limits_unused_witness :
  awg_session_needs_handshake (session_zero <| handshaking := true |> <| reject_after_s := 180 |>
    <| established_ms := 0 |> <| max_tries := 18 |> <| handshake_tries := 1000 |>) 9000 =
  awg_session_needs_handshake (session_zero <| handshaking := true |>) 9000.
Proof.
  exact (proj2 (proj2 (proj2 (@session_limits_unused toy_entropy toy_curve
    (session_zero <| handshaking := true |>) toy_config [] 0 9000 0 180 0 18 1000))) eq_refl).
Defined.

(** Lengths do collide. While a handshake is outstanding, no datagram of the
    length of a response is ever treated as data, whatever it contains: with
    S2 = S4 + 4 that includes every data packet whose payload is padded to 64 bytes. *)
Theorem response_length_shadows_data `{Curve} s g cfg pkt cap now s' g' r pl padded :
  s.(handshaking) = true → zlen pkt = cfg.(s4) + 32 + padded →
  cfg.(s2) = cfg.(s4) + 4 → padded = 64 →
  awg_session_on_datagram s g cfg pkt cap now = Ok (s', g', r, pl) →
  (r = AWG_RX_IGNORED ∨ r = AWG_RX_ESTABLISHED) ∧ pl = [] ∧
  (s.(established) = true → r = AWG_RX_IGNORED → s'.(packets_rx) = s.(packets_rx)).
Proof.
  intros Hh Hl Hs2 Hp. unfold awg_session_on_datagram. rewrite Hh.
  change (Z.of_nat AWG_MSG_RESP_SIZE) with 92.
  rewrite (proj2 (Z.eqb_eq _ _)) by lia. cbn [andb].
  destruct (awg_unwrap _ _ _) as [[[p off] mlen]| |]; [|intros [= <- <- <- <-]; split_and!; auto|done].
  destruct (negb _); [intros [= <- <- <- <-]; split_and!; auto|].
  destruct (negb _); [done|]. destruct (awg_consume_response _ _) as [hs ok].
  destruct ok; cbn [negb]; intros [= <- <- <- <-]; split_and!; auto; done.
Qed.

Lemma response_length_shadows_data_witness :
  match @awg_session_on_datagram toy_curve
    (session_zero <| handshaking := true |> <| established := true |>) (ReplayStatic 0 false)
    (config_zero <| s2 := 20 |> <| s4 := 16 |>) (replicate 112 0) 2048 0 with
  | Ok (_, _, _, pl) => pl = []
  | _ => False
  end.
Proof.
  destruct (@awg_session_on_datagram _ _ _ _ _ _ _) as [[[[s' g'] r] pl]| |] eqn:E;
    [|vm_compute in E; discriminate..].
  exact (proj1 (proj2 (@response_length_shadows_data toy_curve
    (session_zero <| handshaking := true |> <| established := true |>) (ReplayStatic 0 false)
    (config_zero <| s2 := 20 |> <| s4 := 16 |>) (replicate 112 0) 2048 0 s' g' r pl 64
    eq_refl eq_refl eq_refl eq_refl E))).
Defined.
