(* ===== verification/Obf.v ===== *)
(** * awg_obf.c: base64 and the obfuscation templates

    The base64 codec, the template parser, the length of a rendered template and
    the renderer, which writes into the caller's buffer. Allocation failure, the
    only other error path, is not modelled. *)
From stdpp Require Import sets.
From S2P Require Import Prelude Cstr Awg.

Definition CHARS52 : list Z := str "abcdefghijklmnopqrstuvwxyzABCDEFGHIJKLMNOPQRSTUVWXYZ".
Definition DIGITS10 : list Z := str "0123456789".

(** ** Base64 *)

Definition B64 : list Z :=
  str "ABCDEFGHIJKLMNOPQRSTUVWXYZabcdefghijklmnopqrstuvwxyz0123456789+/".

(** One turn of the encoder's loop: the characters for the next one to three bytes. *)
Definition b64_group (inp : list Z) : list Z :=
  let rem := zlen inp in
  let v := inp.[0] .<< 16 in
  let v := if 1 <? rem then v .| (inp.[1] .<< 8) else v in
  let v := if 2 <? rem then v .| inp.[2] else v in
  let units := if 3 <=? rem then 4 else rem + 1 in
  (λ k, B64.[Z.to_nat ((v .>> (18 - 6 * Z.of_nat k)) .& 0x3F)]) <$> seq 0 (Z.to_nat units).

Fixpoint b64_encode_loop (fuel : nat) (inp : list Z) (out : list Z) (out_cap : Z)
    : option (list Z) :=
  match fuel with
  | O => Some out
  | S fuel =>
    match inp with
    | [] => Some out
    | _ =>
      let g := b64_group inp in
      if zlen out + zlen g >? out_cap then None
      else b64_encode_loop fuel (drop 3 inp) (out ++ g) out_cap
    end
  end.

(** [None] is -1. *)
Definition awg_b64_encode_raw (inp : list Z) (out_cap : Z) : option (list Z) :=
  b64_encode_loop (length inp) inp [] out_cap.

Definition b64_val (c : Z) : Z :=
  if (65 <=? c) && (c <=? 90) then c - 65
  else if (97 <=? c) && (c <=? 122) then c - 97 + 26
  else if (48 <=? c) && (c <=? 57) then c - 48 + 52
  else if c =? 43 then 62
  else if c =? 47 then 63
  else -1.

Definition b64_skipped (c : Z) : bool := (c =? 61) || (c =? 10) || (c =? 13) || (c =? 32).

Fixpoint b64_decode_loop (inp : list Z) (acc bits : Z) (out : list Z) (out_cap : Z)
    : option (list Z) :=
  match inp with
  | [] => Some out
  | p :: inp =>
    if b64_skipped p then b64_decode_loop inp acc bits out out_cap
    else
      let v := b64_val p in
      if v <? 0 then None
      else
        let acc := u32 (acc .<< 6) .| v in
        let bits := bits + 6 in
        if 8 <=? bits then
          let bits := bits - 8 in
          if zlen out >=? out_cap then None
          else b64_decode_loop inp acc bits (out ++ [u8 (acc .>> bits)]) out_cap
        else b64_decode_loop inp acc bits out out_cap
  end.

Definition awg_b64_decode (inp : list Z) (out_cap : Z) : option (list Z) :=
  b64_decode_loop inp 0 0 [] out_cap.

Definition hex_val (c : Z) : Z :=
  if (48 <=? c) && (c <=? 57) then c - 48
  else if (97 <=? c) && (c <=? 102) then c - 97 + 10
  else if (65 <=? c) && (c <=? 70) then c - 65 + 10
  else -1.

(** ** The parser *)

(** [o->data[i] = (hi << 4) | lo] over the pairs of digits. *)
Fixpoint hex_bytes (val : list Z) : option (list Z) :=
  match val with
  | a :: b :: val =>
    let hi := hex_val a in
    let lo := hex_val b in
    if (hi <? 0) || (lo <? 0) then None
    else
      match hex_bytes val with
      | Some bs => Some (u8 ((hi .<< 4) .| lo) :: bs)
      | None => None
      end
  | _ => Some []
  end.

(** A tag or the text of the error. *)
Definition build_tag (key val : list Z) (errsz : Z) : awg_obf + list Z :=
  let fail e := inr (snprintf errsz e) in
  if str_eqb key (str "b") then
    if str_eqb val [] then fail (str "<b> without bytes") else
    let val := match val with
               | 48 :: 120 :: val => val
               | 48 :: 88 :: val => val
               | _ => val
               end in
    let sl := zlen val in
    if (sl =? 0) || negb (sl mod 2 =? 0) then fail (str "<b> odd hex length") else
    match hex_bytes val with
    | None => fail (str "<b> bad hex digit")
    | Some data => inl (Obf AWG_OBF_BYTES 0 data)
    end
  else if str_eqb key (str "t") then inl (Obf AWG_OBF_TIMESTAMP 0 [])
  else if str_eqb key (str "d") then inl (Obf AWG_OBF_DATA 0 [])
  else if str_eqb key (str "ds") then inl (Obf AWG_OBF_DATASTRING 0 [])
  else
    let k := if str_eqb key (str "r") then Some AWG_OBF_RAND
             else if str_eqb key (str "rc") then Some AWG_OBF_RANDCHARS
             else if str_eqb key (str "rd") then Some AWG_OBF_RANDDIGITS
             else if str_eqb key (str "dz") then Some AWG_OBF_DATASIZE
             else None in
    match k with
    | None => fail (str "unknown tag <" ++ key ++ str ">")
    | Some k =>
      if str_eqb val [] then fail (str "<" ++ key ++ str "> without a length") else
      let '(n, rest) := strtol val in
      if str_eqb rest val || negb (str_eqb rest []) || (n <? 0) || (n >? 1 .<< 20)
      then fail (str "<" ++ key ++ str "> bad length '" ++ val ++ str "'")
      else inl (Obf k n [])
    end.

(** The tag's body split into its key and its argument. *)
Definition split_tag (tag : list Z) : list Z * list Z :=
  let key := skip_while (λ c, c =? 32) tag in
  let name := take_while (λ c, negb (c =? 32)) key in
  let val := skip_while (λ c, negb (c =? 32)) key in
  (name, skip_while (λ c, c =? 32) val).

Fixpoint parse_loop (fuel : nat) (p : list Z) (acc : list awg_obf) (errsz : Z)
    : list awg_obf + list Z :=
  match fuel with
  | O => inl acc
  | S fuel =>
    match split_at 60 p with
    | None => inl acc
    | Some (_, lt) =>
      match split_at 62 lt with
      | None => inr (snprintf errsz (str "missing closing '>'"))
      | Some (tag, gt) =>
        let '(key, val) := split_tag tag in
        match build_tag key val 128 with
        | inr terr => inr (snprintf errsz terr)
        | inl o => parse_loop fuel gt (acc ++ [o]) errsz
        end
      end
    end
  end.

(** The chain ([None] is NULL) and the error text left in [err]. *)
Definition awg_obf_parse (spec : list Z) (errsz : Z) : option awg_obf_chain * list Z :=
  if str_eqb spec [] then (None, [])
  else
    match parse_loop (S (length spec)) spec [] errsz with
    | inr err => (None, err)
    | inl [] => (None, [])
    | inl its => (Some (Chain its spec), [])
    end.

(** ** Rendering *)

Definition tag_out_len (o : awg_obf) (src_len : Z) : Z :=
  match o.(kind) with
  | AWG_OBF_BYTES => zlen o.(data)
  | AWG_OBF_RAND | AWG_OBF_RANDCHARS | AWG_OBF_RANDDIGITS => o.(olen)
  | AWG_OBF_TIMESTAMP => 4
  | AWG_OBF_DATA => src_len
  | AWG_OBF_DATASIZE => o.(olen)
  | AWG_OBF_DATASTRING =>
    (src_len / 3) * 4 + (if src_len mod 3 =? 0 then 0 else src_len mod 3 + 1)
  end.

(** [None] is a NULL chain. *)
Definition awg_obf_out_len (c : option awg_obf_chain) (src_len : Z) : Z :=
  match c with
  | None => 0
  | Some c => foldl (λ total o, total + tag_out_len o src_len) 0 c.(items)
  end.

Section Render.
Context `{Entropy}.

Definition fill_random_from (n : Z) (alphabet : list Z) (m : Z) (pos : nat) : list Z * nat :=
  let '(b, pos) := awg_random_bytes (Z.to_nat n) pos in
  ((λ x, alphabet.[Z.to_nat (x mod m)]) <$> b, pos).

(** [for (k = len - 1; k >= 0; k--) { dst[w + k] = v & 0xFF; v >>= 8; }] *)
Definition put_datasize (len src_len : Z) : list Z := be_bytes (Z.to_nat len) (u32 src_len).

(** One tag written at [dst + w]; [now] is [time(NULL)], and a NULL [src] is [None]. *)
Definition render_tag (o : awg_obf) (w : Z) (src : option (list Z)) (src_len now : Z)
    (dst : list Z) (pos : nat) : list Z * nat :=
  let put b := blit (Z.to_nat w) b dst in
  match o.(kind) with
  | AWG_OBF_BYTES => (put o.(data), pos)
  | AWG_OBF_RAND => let '(b, pos) := awg_random_bytes (Z.to_nat o.(olen)) pos in (put b, pos)
  | AWG_OBF_RANDCHARS => let '(b, pos) := fill_random_from o.(olen) CHARS52 52 pos in (put b, pos)
  | AWG_OBF_RANDDIGITS => let '(b, pos) := fill_random_from o.(olen) DIGITS10 10 pos in (put b, pos)
  | AWG_OBF_TIMESTAMP =>
    let t := u32 now in
    (put [u8 (t .>> 24); u8 (t .>> 16); u8 (t .>> 8); u8 t], pos)
  | AWG_OBF_DATA =>
    match src with
    | Some s => if 0 <? src_len then (put (ztake src_len s), pos) else (dst, pos)
    | None => (dst, pos)
    end
  | AWG_OBF_DATASTRING =>
    match src with
    | Some s =>
      if 0 <? src_len then
        (put (default [] (awg_b64_encode_raw (ztake src_len s) (tag_out_len o src_len))), pos)
      else (dst, pos)
    | None => (dst, pos)
    end
  | AWG_OBF_DATASIZE => (put (put_datasize o.(olen) src_len), pos)
  end.

Fixpoint render_loop (its : list awg_obf) (w : Z) (src : option (list Z)) (src_len now : Z)
    (dst : list Z) (pos : nat) : list Z * nat :=
  match its with
  | [] => (dst, pos)
  | o :: its =>
    let '(dst, pos) := render_tag o w src src_len now dst pos in
    render_loop its (w + tag_out_len o src_len) src src_len now dst pos
  end.

Definition awg_obf_render (c : option awg_obf_chain) (dst : list Z) (src : option (list Z))
    (src_len now : Z) (pos : nat) : list Z * nat :=
  match c with
  | None => (dst, pos)
  | Some c => render_loop c.(items) 0 src src_len now dst pos
  end.

End Render.

(** ** Base64 lemmas *)

Lemma b64_char v : 0 <= v < 64 →
  let c := B64.[Z.to_nat v] in b64_skipped c = false ∧ b64_val c = v ∧ 0 < c < 128.
Proof.
  intros Hv. cbv zeta.
  assert (Forall (λ n, b64_skipped B64.[n] = false ∧ b64_val B64.[n] = Z.of_nat n ∧
    0 < B64.[n] < 128) (seq 0 64)) as H.
  { vm_compute. repeat (constructor; [done|]). constructor. }
  rewrite Forall_forall in H. specialize (H (Z.to_nat v)).
  rewrite Z2Nat.id in H by lia. apply H, elem_of_seq. lia.
Qed.

(** The accumulator shifts in one more sextet. *)
Lemma b64_acc a v : 0 <= v < 64 → 0 <= a →
  u32 (a .<< 6) .| v = a * 64 mod 2 ^ 32 + v ∧ 0 <= u32 (a .<< 6) .| v.
Proof.
  intros Hv Ha. rewrite u32_mod, Z.shiftl_mul_pow2 by lia.
  assert (a * 2 ^ 6 mod 2 ^ 32 = ((a mod 2 ^ 26) .<< 6)) as ->.
  { rewrite Z.shiftl_mul_pow2 by lia. change (2 ^ 32) with (2 ^ 26 * 2 ^ 6).
    rewrite Zmult_mod_distr_r. done. }
  rewrite Z.lor_comm, lor_add_shift by (unfold is_u; lia).
  change (2 ^ 6) with 64. Z.div_mod_to_equations. lia.
Qed.

Lemma u8_shiftr x n : 0 <= n → u8 (x .>> n) = x / 2 ^ n mod 256.
Proof. intros. by rewrite u8_mod, Z.shiftr_div_pow2. Qed.

(** One character, not completing a byte; and completing one. *)
Lemma b64_step inp acc bits out cap v : 0 <= v < 64 → bits < 2 →
  b64_decode_loop (B64.[Z.to_nat v] :: inp) acc bits out cap =
  b64_decode_loop inp (u32 (acc .<< 6) .| v) (bits + 6) out cap.
Proof.
  intros Hv Hb. destruct (b64_char v Hv) as (E1 & E2 & _).
  cbn [b64_decode_loop]. rewrite E1, E2. rewrite (proj2 (Z.ltb_ge v 0)) by lia.
  by rewrite (proj2 (Z.leb_gt 8 (bits + 6))) by lia.
Qed.

Lemma b64_step_byte inp acc bits out cap v : 0 <= v < 64 → 2 <= bits → zlen out < cap →
  b64_decode_loop (B64.[Z.to_nat v] :: inp) acc bits out cap =
  b64_decode_loop inp (u32 (acc .<< 6) .| v) (bits - 2)
    (out ++ [u8 ((u32 (acc .<< 6) .| v) .>> (bits - 2))]) cap.
Proof.
  intros Hv Hb Hc. destruct (b64_char v Hv) as (E1 & E2 & _).
  cbn [b64_decode_loop]. rewrite E1, E2. rewrite (proj2 (Z.ltb_ge v 0)) by lia.
  rewrite (proj2 (Z.leb_le 8 (bits + 6))) by lia.
  rewrite Z.geb_leb, (proj2 (Z.leb_gt cap (zlen out))) by lia.
  by replace (bits + 6 - 8) with (bits - 2) by lia.
Qed.

Definition sextet (v k : Z) : Z := v / 2 ^ (18 - 6 * k) mod 64.

Lemma sextet_bound v k : 0 <= sextet v k < 64.
Proof. apply Z.mod_pos_bound. lia. Qed.

(** The 24-bit value of a group, missing bytes zero. *)
Definition group_value (inp : list Z) : Z := inp.[0] * 65536 + inp.[1] * 256 + inp.[2].

Lemma b64_group_spec inp : is_bytes inp → inp ≠ [] →
  b64_group inp =
    (λ k, B64.[Z.to_nat (sextet (group_value (take 3 inp)) (Z.of_nat k))]) <$>
      seq 0 (if decide (3 <= length inp)%nat then 4 else S (length inp)).
Proof.
  intros Hb Hn. unfold b64_group, zlen.
  assert (∀ v k, (k < 4)%nat → (v .>> (18 - 6 * Z.of_nat k)) .& 0x3F = sextet v (Z.of_nat k)) as Hs.
  { intros v k Hk. change 0x3F with (Z.ones 6). rewrite Z.land_ones, Z.shiftr_div_pow2 by lia. done. }
  assert (∀ a b, is_byte a → is_byte b → a .<< 16 .| (b .<< 8) = a * 65536 + b * 256) as Hor.
  { intros a b Ha Hb'. rewrite Z.lor_comm.
    assert (b .<< 8 = b * 256) as E by (by rewrite Z.shiftl_mul_pow2).
    rewrite lor_add_shift, E; [lia|lia|]. unfold is_u in *. lia. }
  destruct inp as [|a [|b [|c rest]]]; [done| | |].
  - rewrite decide_False by (cbn; lia). replace (Z.to_nat (if 3 <=? _ then _ else _)) with 2%nat by done.
    apply list_fmap_ext. intros i k Hk.
    apply lookup_seq in Hk as [-> Hk]. cbn [length] in Hk. rewrite Hs by lia. do 3 f_equal.
    unfold group_value, get. cbn.
    change (1 <? Z.of_nat 1) with false. change (2 <? Z.of_nat 1) with false. cbn iota.
    rewrite Z.shiftl_mul_pow2 by lia. lia.
  - rewrite !Forall_cons in Hb. destruct Hb as (Ha & Hb & _).
    rewrite decide_False by (cbn; lia). replace (Z.to_nat (if 3 <=? _ then _ else _)) with 3%nat by done.
    apply list_fmap_ext. intros i k Hk.
    apply lookup_seq in Hk as [-> Hk]. cbn [length] in Hk. rewrite Hs by lia. do 3 f_equal.
    unfold group_value, get. cbn.
    change (1 <? Z.of_nat 2) with true. change (2 <? Z.of_nat 2) with false. cbn iota.
    rewrite (Hor a b) by done. lia.
  - rewrite !Forall_cons in Hb. destruct Hb as (Ha & Hb & Hc & _).
    rewrite decide_True by (cbn; lia).
    rewrite (proj2 (Z.ltb_lt 1 _)), (proj2 (Z.ltb_lt 2 _)), (proj2 (Z.leb_le 3 _)) by (cbn; lia).
    apply list_fmap_ext. intros i k Hk.
    apply lookup_seq in Hk as [-> Hk]. rewrite Hs by (change (Z.to_nat 4) with 4%nat in Hk; lia).
    do 3 f_equal. unfold group_value, get. cbn. rewrite (Hor a b) by done.
    rewrite Z.lor_comm.
    replace (c .| (a * 65536 + b * 256)) with (c .| ((a * 256 + b) .<< 8))
      by (f_equal; rewrite Z.shiftl_mul_pow2 by lia; lia).
    rewrite lor_add_shift by (done || lia). lia.
Qed.

(** A whole group decodes to its three bytes, from any accumulator. *)
Lemma b64_decode_group v inp acc out cap : 0 <= acc → 0 <= v < 2 ^ 24 → zlen out + 3 <= cap →
  ∃ acc', 0 <= acc' ∧
  b64_decode_loop (((λ k, B64.[Z.to_nat (sextet v (Z.of_nat k))]) <$> seq 0 4) ++ inp) acc 0 out cap
  = b64_decode_loop inp acc' 0 (out ++ [v / 65536; v / 256 mod 256; v mod 256]) cap.
Proof.
  intros Ha Hv Hc. pose proof (sextet_bound v) as Hs. cbn [seq fmap list_fmap app].
  change (Z.of_nat 0) with 0. change (Z.of_nat 1) with 1. change (Z.of_nat 2) with 2.
  change (Z.of_nat 3) with 3.
  rewrite b64_step by (done || lia).
  destruct (b64_acc acc _ (Hs 0) Ha) as [E1 P1]. set (a1 := u32 (acc .<< 6) .| _) in *.
  rewrite b64_step_byte by (done || lia).
  destruct (b64_acc a1 _ (Hs 1) P1) as [E2 P2]. set (a2 := u32 (a1 .<< 6) .| _) in *.
  rewrite b64_step_byte by (done || lia || (unfold zlen in *; rewrite length_app; cbn; lia)).
  destruct (b64_acc a2 _ (Hs 2) P2) as [E3 P3]. set (a3 := u32 (a2 .<< 6) .| _) in *.
  rewrite b64_step_byte by (done || lia || (unfold zlen in *; rewrite !length_app; cbn; lia)).
  destruct (b64_acc a3 _ (Hs 3) P3) as [E4 P4]. set (a4 := u32 (a3 .<< 6) .| _) in *.
  exists a4. split; [done|]. rewrite !u8_shiftr by lia.
  change (0 + 6 - 2) with 4. change (4 - 2) with 2. change (2 - 2) with 0.
  rewrite <- !app_assoc. cbn [app].
  assert (a2 / 2 ^ 4 mod 256 = v / 65536) as ->.
  { rewrite E2, E1. unfold sextet. change (2 ^ (18 - 6 * 0)) with 262144.
    change (2 ^ (18 - 6 * 1)) with 4096. clear - Hv. Z.div_mod_to_equations. lia. }
  assert (a3 / 2 ^ 2 mod 256 = v / 256 mod 256) as ->.
  { rewrite E3, E2. unfold sextet. change (2 ^ (18 - 6 * 2)) with 64.
    change (2 ^ (18 - 6 * 1)) with 4096. clear - Hv. Z.div_mod_to_equations. lia. }
  assert (a4 / 2 ^ 0 mod 256 = v mod 256) as ->; [|done].
  rewrite E4, E3. unfold sextet. change (2 ^ (18 - 6 * 2)) with 64.
  change (2 ^ (18 - 6 * 3)) with 1. clear - Hv. Z.div_mod_to_equations. lia.
Qed.

(** The last one or two bytes. *)
Lemma b64_decode_tail v n acc out cap : 0 <= acc → 0 <= v < 2 ^ 24 → (n = 1 ∨ n = 2)%nat →
  (n = 1%nat → v mod 65536 = 0) → (n = 2%nat → v mod 256 = 0) → zlen out + Z.of_nat n <= cap →
  b64_decode_loop ((λ k, B64.[Z.to_nat (sextet v (Z.of_nat k))]) <$> seq 0 (S n)) acc 0 out cap =
  Some (out ++ take n [v / 65536; v / 256 mod 256]).
Proof.
  intros Ha Hv Hn H1 H2 Hc. pose proof (sextet_bound v) as Hs.
  destruct Hn as [-> | ->]; cbn [seq fmap list_fmap take].
  all: change (Z.of_nat 0) with 0; change (Z.of_nat 1) with 1; change (Z.of_nat 2) with 2.
  all: rewrite b64_step by (done || lia).
  all: destruct (b64_acc acc _ (Hs 0) Ha) as [E1 P1]; set (a1 := u32 (acc .<< 6) .| _) in *.
  all: rewrite b64_step_byte by (done || lia).
  all: destruct (b64_acc a1 _ (Hs 1) P1) as [E2 P2]; set (a2 := u32 (a1 .<< 6) .| _) in *.
  all: assert (u8 (a2 .>> (0 + 6 - 2)) = v / 65536) as ->.
  1, 3: rewrite u8_shiftr by lia; change (2 ^ (0 + 6 - 2)) with 16; rewrite E2, E1; unfold sextet;
    change (2 ^ (18 - 6 * 0)) with 262144; change (2 ^ (18 - 6 * 1)) with 4096;
    clear - Hv; Z.div_mod_to_equations; lia.
  - done.
  - rewrite b64_step_byte by (done || lia || (unfold zlen in *; rewrite length_app; cbn; lia)).
    destruct (b64_acc a2 _ (Hs 2) P2) as [E3 P3]. set (a3 := u32 (a2 .<< 6) .| _) in *.
    assert (u8 (a3 .>> (0 + 6 - 2 - 2)) = v / 256 mod 256) as ->.
    { rewrite u8_shiftr by lia. change (2 ^ (0 + 6 - 2 - 2)) with 4. rewrite E3, E2. unfold sextet.
      change (2 ^ (18 - 6 * 2)) with 64. change (2 ^ (18 - 6 * 1)) with 4096.
      clear - Hv. Z.div_mod_to_equations. lia. }
    cbn [b64_decode_loop]. by rewrite <- app_assoc.
Qed.

(** The characters of [n] bytes, as the templates announce them. *)
Definition b64_len (n : Z) : Z := (n / 3) * 4 + (if n mod 3 =? 0 then 0 else n mod 3 + 1).

Lemma b64_len_step n : 3 <= n → b64_len n = 4 + b64_len (n - 3).
Proof.
  intros Hn. unfold b64_len.
  assert (n / 3 = (n - 3) / 3 + 1) as -> by (Z.div_mod_to_equations; lia).
  assert (n mod 3 = (n - 3) mod 3) as -> by (Z.div_mod_to_equations; lia). ring.
Qed.

Lemma b64_len_nonneg n : 0 <= n → 0 <= b64_len n.
Proof.
  intros Hn. unfold b64_len. assert (0 <= n / 3) by (apply Z.div_pos; lia).
  pose proof (Z.mod_pos_bound n 3). case_match; lia.
Qed.

Lemma b64_encode_loop_spec fuel inp out cap :
  is_bytes inp → (length inp <= 3 * fuel)%nat →
  match b64_encode_loop fuel inp out cap with
  | Some s => ∃ e, s = out ++ e ∧ zlen e = b64_len (zlen inp) ∧ zlen out + zlen e <= Z.max cap (zlen out) ∧
      ∀ acc o cap', 0 <= acc → zlen o + zlen inp <= cap' →
        b64_decode_loop e acc 0 o cap' = Some (o ++ inp)
  | None => cap < zlen out + b64_len (zlen inp)
  end.
Proof.
  revert inp out. induction fuel as [|fuel IH]; intros inp out Hb Hl.
  { destruct inp; [|cbn in Hl; lia]. cbn. exists []. rewrite app_nil_r.
    split_and!; [done|done|unfold zlen; cbn; lia|]. intros. cbn. by rewrite app_nil_r. }
  cbn [b64_encode_loop]. destruct (decide (inp = [])) as [->|Hn].
  { exists []. rewrite app_nil_r. split_and!; [done|done|unfold zlen; cbn; lia|].
    intros. cbn. by rewrite app_nil_r. }
  replace (match inp with [] => Some out | _ => _ end) with
    (if zlen out + zlen (b64_group inp) >? cap then None
     else b64_encode_loop fuel (drop 3 inp) (out ++ b64_group inp) cap) by (by destruct inp).
  rewrite b64_group_spec by done. rewrite Z.gtb_ltb.
  set (g := _ <$> seq 0 _).
  assert (0 <= group_value (take 3 inp) < 2 ^ 24) as Hv.
  { unfold group_value. pose proof (λ i, is_u_get 8 (take 3 inp) i ltac:(lia) (is_bytes_take _ _ Hb)) as Hg.
    pose proof (Hg 0%nat). pose proof (Hg 1%nat). pose proof (Hg 2%nat). unfold is_u in *. lia. }
  destruct (decide (3 <= length inp)%nat) as [H3|H3].
  - assert (zlen g = 4) as Hg by done.
    assert (b64_len (zlen inp) = 4 + b64_len (zlen (drop 3 inp))) as Hlen.
    { rewrite b64_len_step by (unfold zlen; lia). unfold zlen. rewrite length_drop.
      do 2 f_equal. lia. }
    pose proof (b64_len_nonneg (zlen (drop 3 inp)) (zlen_nonneg _)).
    destruct (Z.ltb_spec cap (zlen out + zlen g)); [lia|].
    specialize (IH (drop 3 inp) (out ++ g) ltac:(auto with word) ltac:(rewrite length_drop; lia)).
    destruct (b64_encode_loop fuel _ _ _); [|rewrite zlen_app in IH; lia].
    destruct IH as (e & -> & He & Hc & Hd). exists (g ++ e). rewrite !zlen_app in *.
    split_and!; [by rewrite app_assoc|lia|lia|]. intros acc o cap' Hacc Hcap.
    destruct inp as [|a [|b [|c rest]]]; cbn in H3; try lia. cbn [drop] in *. rewrite ?drop_0 in *.
    unfold g. destruct (b64_decode_group (group_value (take 3 (a :: b :: c :: rest))) e acc o cap')
      as (acc' & Hacc' & ->); [done|done|unfold zlen in *; cbn in Hcap; lia|].
    rewrite Hd; [|done|rewrite zlen_app; unfold zlen in *; rewrite !length_cons in Hcap;
      rewrite !length_cons, length_nil; lia].
    rewrite <- app_assoc. cbn [app]. rewrite !Forall_cons in Hb. destruct Hb as (B0 & B1 & B2 & _).
    unfold is_u in *. unfold group_value, get. cbn.
    do 3 f_equal; [|f_equal; [|f_equal]]; clear - B0 B1 B2; Z.div_mod_to_equations; lia.
  - assert (drop 3 inp = []) as Hd by (apply drop_ge; lia).
    assert (length inp = 1 ∨ length inp = 2)%nat as H12 by (destruct inp; [done|cbn in *; lia]).
    assert (zlen g = b64_len (zlen inp)) as Hg.
    { unfold g, zlen. rewrite length_fmap, length_seq. by destruct H12 as [-> | ->]. }
    destruct (Z.ltb_spec cap (zlen out + zlen g)); [lia|]. rewrite Hd.
    replace (b64_encode_loop fuel [] (out ++ g) cap) with (Some (out ++ g)) by (by destruct fuel).
    exists g. split_and!; [done|done|lia|]. intros acc o cap' Hacc Hcap. unfold g.
    rewrite take_ge in * by lia.
    rewrite (b64_decode_tail (group_value inp) (length inp)) by
      (done || (destruct inp as [|a [|b [|? ?]]]; cbn in H12; try lia; intros;
        rewrite ?Forall_cons in Hb; unfold group_value, get, is_u in *; cbn in *;
        try lia; Z.div_mod_to_equations; lia)).
    do 2 f_equal. destruct inp as [|a [|b [|? ?]]]; cbn in H12; try lia;
      rewrite ?Forall_cons in Hb; unfold group_value, get, is_u in *; cbn.
    + destruct Hb as [B0 _]. f_equal. clear - B0. Z.div_mod_to_equations; lia.
    + destruct Hb as (B0 & B1 & _). f_equal; [|f_equal]; clear - B0 B1; Z.div_mod_to_equations; lia.
Qed.

Lemma b64_encode_spec inp cap : is_bytes inp →
  match awg_b64_encode_raw inp cap with
  | Some s => zlen s = b64_len (zlen inp) ∧ zlen s <= Z.max cap 0 ∧
      ∀ cap', zlen inp <= cap' → awg_b64_decode s cap' = Some inp
  | None => cap < b64_len (zlen inp)
  end.
Proof.
  intros Hb. pose proof (b64_encode_loop_spec (length inp) inp [] cap Hb ltac:(lia)) as Hs.
  change (zlen (@nil Z)) with 0 in Hs. unfold awg_b64_encode_raw.
  destruct (b64_encode_loop _ _ _ _) as [s|]; [|lia].
  destruct Hs as (e & -> & He & Hc & Hd). cbn [app]. split_and!; [done|lia|].
  intros cap' Hcap. apply (Hd 0 [] cap'); [lia|]. change (zlen (@nil Z)) with 0. lia.
Qed.

(** The encoder with the room the length function asks for. *)
Lemma b64_encode_fits inp cap : is_bytes inp → b64_len (zlen inp) <= cap →
  ∃ s, awg_b64_encode_raw inp cap = Some s ∧ zlen s = b64_len (zlen inp) ∧
    ∀ cap', zlen inp <= cap' → awg_b64_decode s cap' = Some inp.
Proof.
  intros Hb Hc. pose proof (b64_encode_spec inp cap Hb) as Hs.
  destruct (awg_b64_encode_raw inp cap) as [s|]; [|lia].
  exists s. naive_solver.
Qed.

(** The decoder never writes past its buffer and only bytes. *)
Lemma b64_decode_loop_bound inp acc bits out cap res :
  is_bytes out → zlen out <= Z.max cap 0 → b64_decode_loop inp acc bits out cap = Some res →
  is_bytes res ∧ zlen res <= Z.max cap 0.
Proof.
  revert acc bits out. induction inp as [|p inp IH]; intros acc bits out Hb Hl; cbn [b64_decode_loop].
  { by intros [= <-]. }
  destruct (b64_skipped p); [by apply IH|]. destruct (b64_val p <? 0); [done|].
  destruct (8 <=? bits + 6); [|by apply IH].
  rewrite Z.geb_leb. destruct (Z.leb_spec cap (zlen out)); [done|].
  apply IH; [auto with word|]. rewrite zlen_app. change (zlen [_]) with 1. lia.
Qed.

(** ** Rendering lemmas *)

Definition isalpha (c : Z) : bool := ((97 <=? c) && (c <=? 122)) || ((65 <=? c) && (c <=? 90)).

(** What a tag may put on the wire for the payload [src] at the time [now]. *)
Inductive tag_shows (src : list Z) (now : Z) : awg_obf → list Z → Prop :=
| shows_bytes n b : tag_shows src now (Obf AWG_OBF_BYTES n b) b
| shows_rand n d b : zlen b = n → is_bytes b → tag_shows src now (Obf AWG_OBF_RAND n d) b
| shows_randchars n d b : zlen b = n → Forall isalpha b →
    tag_shows src now (Obf AWG_OBF_RANDCHARS n d) b
| shows_randdigits n d b : zlen b = n → Forall isdigit b →
    tag_shows src now (Obf AWG_OBF_RANDDIGITS n d) b
| shows_timestamp n d b : zlen b = 4 → be_val b = now mod 2 ^ 32 →
    tag_shows src now (Obf AWG_OBF_TIMESTAMP n d) b
| shows_data n d : tag_shows src now (Obf AWG_OBF_DATA n d) src
| shows_datastring n d b : zlen b = b64_len (zlen src) → awg_b64_decode b (zlen src) = Some src →
    tag_shows src now (Obf AWG_OBF_DATASTRING n d) b
| shows_datasize n d b : zlen b = n → be_val b = zlen src mod 2 ^ (8 * n) →
    tag_shows src now (Obf AWG_OBF_DATASIZE n d) b.

(** The items a parsed chain consists of. *)
Definition wf_item (o : awg_obf) : Prop :=
  match o.(kind) with
  | AWG_OBF_BYTES => o.(olen) = 0 ∧ is_bytes o.(data) ∧ o.(data) ≠ []
  | AWG_OBF_TIMESTAMP | AWG_OBF_DATA | AWG_OBF_DATASTRING => o.(olen) = 0 ∧ o.(data) = []
  | _ => 0 <= o.(olen) <= 2 ^ 20 ∧ o.(data) = []
  end.

Lemma tag_shows_len src now o b : tag_shows src now o b → zlen b = tag_out_len o (zlen src).
Proof. by destruct 1. Qed.

Lemma wf_tag_out_len o n : wf_item o → 0 <= n → 0 <= tag_out_len o n.
Proof.
  intros Ho Hn. pose proof (b64_len_nonneg n Hn) as H64. unfold b64_len in H64.
  destruct o as [[] l d]; unfold wf_item, tag_out_len in *; cbn in *; try lia.
  apply zlen_nonneg.
Qed.

Section RenderLemmas.
Context `{Entropy}.

Lemma fill_random_from_spec n alphabet m (P : Z → bool) pos : 0 < m → 0 <= n →
  Forall P (take (Z.to_nat m) alphabet) → m <= zlen alphabet →
  let '(b, _) := fill_random_from n alphabet m pos in zlen b = n ∧ Forall P b.
Proof.
  intros Hm Hn Hp Hl. unfold fill_random_from.
  destruct (awg_random_bytes (Z.to_nat n) pos) as [b q] eqn:E.
  assert (b = (awg_random_bytes (Z.to_nat n) pos).1) as -> by by rewrite E.
  split; [len|]. apply Forall_fmap, Forall_true. intros x. cbn.
  pose proof (Z.mod_pos_bound x m Hm).
  rewrite Forall_lookup in Hp. apply (Hp (Z.to_nat (x mod m))).
  rewrite lookup_take_lt by lia. apply lookup_get. unfold zlen in Hl. lia.
Qed.

(** The payload as the callers pass it: a pointer, or NULL with no bytes. *)
Definition payload (src : option (list Z)) (s : list Z) : Prop :=
  src = Some s ∨ (src = None ∧ s = []).

Lemma render_tag_spec o w src s now dst pos :
  wf_item o → payload src s → is_bytes s → zlen s < 2 ^ 31 →
  ∃ b pos', render_tag o w src (zlen s) now dst pos = (blit (Z.to_nat w) b dst, pos') ∧
    tag_shows s now o b.
Proof.
  intros Ho Hs Hb Hl. pose proof (zlen_nonneg s) as Hz.
  assert (∀ l, (match src with
     | Some s0 => if 0 <? zlen s then (blit (Z.to_nat w) (l s0) dst, pos) else (dst, pos)
     | None => (dst, pos) end) =
     (blit (Z.to_nat w) (if 0 <? zlen s then l s else []) dst, pos)) as Hsrc.
  { intros l. destruct Hs as [-> |[-> ->]]; [|by rewrite blit_nil].
    destruct (0 <? zlen s); [done|by rewrite blit_nil]. }
  destruct o as [[] n d]; unfold wf_item in Ho; cbn in Ho; unfold render_tag; cbn [kind olen data].
  - eexists _, _. split; [done|]. constructor.
  - destruct (awg_random_bytes (Z.to_nat n) pos) as [b q] eqn:E. eexists _, _. split; [done|].
    assert (b = (awg_random_bytes (Z.to_nat n) pos).1) as -> by by rewrite E.
    constructor; [len|auto with word].
  - pose proof (fill_random_from_spec n CHARS52 52 isalpha pos) as Hf.
    destruct (fill_random_from n CHARS52 52 pos) as [b q]. eexists _, _. split; [done|].
    destruct Hf; [lia|lia| |by vm_compute|by constructor].
    vm_compute. repeat (constructor; [done|]). constructor.
  - pose proof (fill_random_from_spec n DIGITS10 10 isdigit pos) as Hf.
    destruct (fill_random_from n DIGITS10 10 pos) as [b q]. eexists _, _. split; [done|].
    destruct Hf; [lia|lia| |by vm_compute|by constructor].
    vm_compute. repeat (constructor; [done|]). constructor.
  - eexists _, _. split; [done|]. constructor; [done|].
    unfold be_val. cbn [reverse rev_append le_val]. rewrite u32_mod.
    unfold reverse. cbn [rev_append le_val].
    rewrite !u8_shiftr, u8_mod by lia.
    pose proof (Z.mod_pos_bound now (2 ^ 32) ltac:(lia)). 
    set (t := now mod 2 ^ 32) in *. change (2 ^ 8) with 256. change (2 ^ 16) with 65536.
    change (2 ^ 24) with 16777216. change (2 ^ 32) with 4294967296 in *.
    clearbody t. Z.div_mod_to_equations. lia.
  - rewrite (Hsrc (ztake (zlen s))). eexists _, _. split; [done|].
    destruct (Z.ltb_spec 0 (zlen s)).
    + unfold ztake, zlen. rewrite Nat2Z.id, firstn_all. constructor.
    + destruct s; [constructor|]. unfold zlen in *. cbn in *. lia.
  - rewrite (Hsrc (λ s0, default [] (awg_b64_encode_raw (ztake (zlen s) s0) _))).
    eexists _, _. split; [done|].
    destruct (Z.ltb_spec 0 (zlen s)).
    + unfold ztake, zlen. rewrite Nat2Z.id, firstn_all. fold (zlen s).
      destruct (b64_encode_fits s (tag_out_len (Obf AWG_OBF_DATASTRING n d) (zlen s)) Hb)
        as (e & -> & He & Hd); [done|].
      constructor; [done|]. by apply Hd.
    + destruct s; [by constructor|]. unfold zlen in *. cbn in *. lia.
  - eexists _, _. split; [done|]. unfold put_datasize. constructor; [len|].
    rewrite be_val_be_bytes, Z2Nat.id, u32_small by (unfold is_u; lia). done.
Qed.

Lemma render_loop_spec its w src s now dst pos :
  Forall wf_item its → payload src s → is_bytes s → zlen s < 2 ^ 31 → 0 <= w →
  w + foldr (λ o n, tag_out_len o (zlen s) + n) 0 its <= zlen dst →
  ∃ bs, Forall2 (tag_shows s now) its bs ∧
    (render_loop its w src (zlen s) now dst pos).1 = blit (Z.to_nat w) (concat bs) dst.
Proof.
  intros Hits Hs Hb Hl. revert w dst pos.
  induction Hits as [|o its Ho Hits IH]; intros w dst pos Hw Hd; cbn [render_loop].
  { exists []. split; [constructor|]. cbn. by rewrite blit_nil. }
  destruct (render_tag_spec o w src s now dst pos Ho Hs Hb Hl) as (b & q & -> & Hsh).
  pose proof (tag_shows_len _ _ _ _ Hsh) as Hlen.
  pose proof (zlen_nonneg b) as Hbn. cbn [foldr] in Hd.
  assert (0 <= foldr (λ o n, tag_out_len o (zlen s) + n) 0 its) as Hrest.
  { clear - Hits. induction Hits as [|o' its Ho' _ IH]; cbn; [lia|].
    pose proof (wf_tag_out_len o' (zlen s) Ho' (zlen_nonneg s)). lia. }
  assert (Z.to_nat w + length b <= length dst)%nat by (unfold zlen in *; lia).
  destruct (IH (w + tag_out_len o (zlen s)) (blit (Z.to_nat w) b dst) q) as (bs & Hbs & E).
  { lia. }
  { unfold zlen in *. rewrite length_blit by lia. lia. }
  exists (b :: bs). split; [by constructor|]. rewrite E, <- Hlen. cbn [concat].
  replace (Z.to_nat (w + zlen b)) with (Z.to_nat w + length b)%nat by (unfold zlen; lia).
  apply blit_blit.
  assert (zlen (concat bs) = foldr (λ o n, tag_out_len o (zlen s) + n) 0 its) as Hc.
  { clear - Hbs. induction Hbs as [|o' b' its' bs' Hsh _ IH]; [done|]. cbn [concat foldr].
    rewrite zlen_app, IH, (tag_shows_len _ _ _ _ Hsh). done. }
  unfold zlen in *. lia.
Qed.

End RenderLemmas.

Lemma out_len_foldr its n :
  foldl (λ total o, total + tag_out_len o n) 0 its = foldr (λ o t, tag_out_len o n + t) 0 its.
Proof.
  assert (∀ a, foldl (λ total o, total + tag_out_len o n) a its =
    a + foldr (λ o t, tag_out_len o n + t) 0 its) as ->; [|lia].
  induction its as [|o its IH]; intros a; cbn [foldl foldr]; [lia|]. rewrite IH. lia.
Qed.

(** ** Parsing lemmas *)

Lemma hex_val_digit n : 0 <= n < 16 → hex_val (hex_digit n) = n.
Proof.
  intros Hn. assert (Forall (λ k, hex_val (hex_digit (Z.of_nat k)) = Z.of_nat k) (seq 0 16)) as H.
  { vm_compute. repeat (constructor; [done|]). constructor. }
  rewrite Forall_forall in H. specialize (H (Z.to_nat n)). rewrite Z2Nat.id in H by lia.
  apply H, elem_of_seq. lia.
Qed.

Lemma hex_bytes_print d : is_bytes d → hex_bytes (concat (hex_byte <$> d)) = Some d.
Proof.
  induction 1 as [|x d Hx _ IH]; [done|]. change (concat (hex_byte <$> x :: d)) with
    (hex_digit (x / 16) :: hex_digit (x mod 16) :: concat (hex_byte <$> d)).
  unfold is_u in Hx. change (2 ^ 8) with 256 in Hx.
  assert (0 <= x / 16 < 16) by (Z.div_mod_to_equations; lia).
  assert (0 <= x mod 16 < 16) by (Z.div_mod_to_equations; lia).
  cbn [hex_bytes]. rewrite !hex_val_digit, IH by done.
  rewrite !(proj2 (Z.ltb_ge _ _)) by lia. cbn [orb]. do 2 f_equal.
  rewrite Z.lor_comm, lor_add_shift by (unfold is_u; lia). change (2 ^ 4) with 16.
  replace (x mod 16 + x / 16 * 16) with x by (Z.div_mod_to_equations; lia).
  by apply u8_small.
Qed.

Lemma length_hex d : length (concat (hex_byte <$> d)) = (2 * length d)%nat.
Proof. induction d as [|x d IH]; [done|]. cbn in *. rewrite IH. lia. Qed.

Lemma hex_bytes_inv val data : hex_bytes val = Some data → (length val mod 2 = 0)%nat →
  is_bytes data ∧ (2 * length data = length val)%nat.
Proof.
  revert data. induction val as [val IH] using (induction_ltof1 _ (@length Z)).
  unfold ltof in IH. intros data. destruct val as [|a [|b val]]; cbn [hex_bytes]; [by intros [= <-]|done|].
  destruct (_ || _); [done|]. destruct (hex_bytes val) as [bs|] eqn:E; [|done]. intros [= <-] Hm.
  destruct (IH val ltac:(cbn; lia) _ E) as [Hb Hl].
  { cbn [length] in Hm. replace (S (S (length val))) with (length val + 1 * 2)%nat in Hm by lia.
    by rewrite Nat.Div0.mod_add in Hm. }
  split; [constructor; auto with word|]. cbn [length]. lia.
Qed.

Lemma build_tag_wf key val errsz o : build_tag key val errsz = inl o → wf_item o.
Proof.
  unfold build_tag. destruct (str_eqb key (str "b")).
  { destruct (str_eqb val []); [done|]. set (v := match val with 48 :: _ => _ | _ => _ end).
    clearbody v. destruct ((zlen v =? 0) || _) eqn:E; [done|].
    apply orb_false_iff in E as [E1 E2]. apply Z.eqb_neq in E1.
    apply negb_false_iff, Z.eqb_eq in E2.
    destruct (hex_bytes v) as [d|] eqn:Eh; [|done]. intros [= <-].
    destruct (hex_bytes_inv _ _ Eh) as [Hb Hl].
    { unfold zlen in E2. change 2 with (Z.of_nat 2) in E2. rewrite <- Nat2Z.inj_mod in E2. lia. }
    split_and!; [done|done|]. cbn. intros ->. unfold zlen in E1. cbn in Hl. lia. }
  destruct (str_eqb key (str "t")); [by intros [= <-]|].
  destruct (str_eqb key (str "d")); [by intros [= <-]|].
  destruct (str_eqb key (str "ds")); [by intros [= <-]|].
  assert (∀ k, k ∈ [AWG_OBF_RAND; AWG_OBF_RANDCHARS; AWG_OBF_RANDDIGITS; AWG_OBF_DATASIZE] →
    (if str_eqb val [] then inr (snprintf errsz (str "<" ++ key ++ str "> without a length")) else
      let '(n, rest) := strtol val in
      if str_eqb rest val || negb (str_eqb rest []) || (n <? 0) || (n >? 1 .<< 20)
      then inr (snprintf errsz (str "<" ++ key ++ str "> bad length '" ++ val ++ str "'"))
      else inl (Obf k n [])) = inl o → wf_item o) as Hk.
  { intros k Hk. destruct (str_eqb val []); [done|]. destruct (strtol val) as [n rest].
    destruct (str_eqb rest val || negb (str_eqb rest []) || (n <? 0) || (n >? 1 .<< 20)) eqn:E; [done|].
    intros [= <-]. apply orb_false_iff in E as [E E2]. apply orb_false_iff in E as [_ E1].
    apply Z.ltb_ge in E1. rewrite Z.gtb_ltb in E2. apply Z.ltb_ge in E2.
    change (1 .<< 20) with (2 ^ 20) in E2.
    repeat (apply elem_of_cons in Hk as [->|Hk]; [by split|]). by apply elem_of_nil in Hk. }
  destruct (str_eqb key (str "r")); [apply Hk; set_solver|].
  destruct (str_eqb key (str "rc")); [apply Hk; set_solver|].
  destruct (str_eqb key (str "rd")); [apply Hk; set_solver|].
  destruct (str_eqb key (str "dz")); [apply Hk; set_solver|done].
Qed.

Lemma parse_loop_wf fuel p acc errsz its :
  Forall wf_item acc → parse_loop fuel p acc errsz = inl its → Forall wf_item its.
Proof.
  revert p acc. induction fuel as [|fuel IH]; intros p acc Ha; cbn [parse_loop]; [by intros [= <-]|].
  destruct (split_at 60 p) as [[? lt]|]; [|by intros [= <-]].
  destruct (split_at 62 lt) as [[tag gt]|]; [|done].
  destruct (split_tag tag) as [key val]. destruct (build_tag key val 128) as [o|] eqn:E; [|done].
  apply IH, Forall_app. split; [done|]. constructor; [by eapply build_tag_wf|done].
Qed.

Lemma parse_wf s errsz c err : awg_obf_parse s errsz = (Some c, err) →
  Forall wf_item c.(items) ∧ c.(items) ≠ [] ∧ c.(spec) = s ∧ err = [].
Proof.
  unfold awg_obf_parse. destruct (str_eqb s []); [done|].
  destruct (parse_loop _ _ _ _) as [its|] eqn:E; [|done].
  destruct its as [|o its]; [done|]. intros [= <- <-]. split_and!; [|done..].
  by eapply parse_loop_wf in E.
Qed.

(** *** Printing a chain back *)

Definition print_item (o : awg_obf) : list Z :=
  let arg key n := str "<" ++ str key ++ str " " ++ dec n ++ str ">" in
  match o.(kind) with
  | AWG_OBF_BYTES => str "<b 0x" ++ concat (hex_byte <$> o.(data)) ++ str ">"
  | AWG_OBF_TIMESTAMP => str "<t>"
  | AWG_OBF_DATA => str "<d>"
  | AWG_OBF_DATASTRING => str "<ds>"
  | AWG_OBF_RAND => arg "r"%string o.(olen)
  | AWG_OBF_RANDCHARS => arg "rc"%string o.(olen)
  | AWG_OBF_RANDDIGITS => arg "rd"%string o.(olen)
  | AWG_OBF_DATASIZE => arg "dz"%string o.(olen)
  end.

(** The characters of a tag's argument. *)
Definition arg_char (c : Z) : Prop := 48 <= c < 123 ∧ c ≠ 60 ∧ c ≠ 62.

Lemma dec_arg n : 0 <= n → Forall arg_char (dec n).
Proof.
  intros Hn. eapply Forall_impl; [by apply dec_digits|]. intros c. unfold isdigit, arg_char.
  intros Hc. apply andb_prop_elim in Hc as [H1 H2]. apply Is_true_true, Z.leb_le in H1, H2. lia.
Qed.

Lemma hex_arg d : is_bytes d → Forall arg_char (concat (hex_byte <$> d)).
Proof.
  induction 1 as [|x d Hx _ IH]; [constructor|].
  unfold is_u in Hx. change (2 ^ 8) with 256 in Hx.
  assert (∀ k, 0 <= k < 16 → arg_char (hex_digit k)) as Hc.
  { intros k Hk. unfold hex_digit, arg_char. destruct (Z.ltb_spec k 10); lia. }
  cbn. repeat (constructor; [apply Hc; Z.div_mod_to_equations; lia|]). done.
Qed.

Lemma arg_not_in c l : Forall arg_char l → ¬ (48 <= c < 123 ∧ c ≠ 60 ∧ c ≠ 62) → c ∉ l.
Proof. intros Hl Hc Hin. rewrite Forall_forall in Hl. by apply Hl in Hin. Qed.

(** A tag written with its key, a space and an argument. *)
Lemma split_tag_arg key arg : key ≠ [] → Forall arg_char key → arg ≠ [] → Forall arg_char arg →
  split_tag (key ++ 32 :: arg) = (key, arg).
Proof.
  intros Hk Hkc Ha Hac. unfold split_tag.
  assert (∀ c l, arg_char c → skip_while (λ c, c =? 32) (c :: l) = c :: l) as Hs.
  { intros c l Hc. unfold arg_char in Hc. apply skip_while_nop, Z.eqb_neq. lia. }
  destruct key as [|k key]; [done|]. cbn [app]. rewrite Forall_cons in Hkc. destruct Hkc as [Hkk Hkc].
  rewrite Hs by done. change (k :: key ++ 32 :: arg) with ((k :: key) ++ 32 :: arg).
  assert (Forall arg_char (k :: key)) as Hall by by constructor. revert Hall. generalize (k :: key).
  clear key Hk Hkc k Hkk. intros key Hkey.
  assert (take_while (λ c, negb (c =? 32)) (key ++ 32 :: arg) = key ∧
    skip_while (λ c, negb (c =? 32)) (key ++ 32 :: arg) = 32 :: arg) as [-> ->].
  { induction Hkey as [|c key Hc _ IH]; [done|]. cbn [app take_while skip_while].
    unfold arg_char in Hc. rewrite (proj2 (Z.eqb_neq c 32)) by lia. cbn [negb].
    by destruct IH as [-> ->]. }
  f_equal. cbn [skip_while]. change (32 =? 32) with true. cbn iota.
  destruct arg as [|a arg]; [done|]. rewrite Forall_cons in Hac. apply Hs. tauto.
Qed.

(** One step of the loop over a printed tag. *)
Lemma parse_loop_tag fuel tag rest acc errsz key val o :
  62 ∉ tag → split_tag tag = (key, val) → build_tag key val 128 = inl o →
  parse_loop (S fuel) (str "<" ++ tag ++ str ">" ++ rest) acc errsz =
  parse_loop fuel rest (acc ++ [o]) errsz.
Proof.
  intros Ht Hs Hb. change (str "<") with [60]. change (str ">") with [62]. cbn [app parse_loop split_at].
  change (60 =? 60) with true. cbn iota. by rewrite split_at_app, Hs, Hb.
Qed.

Lemma build_tag_number key k n : 0 <= n <= 2 ^ 20 →
  (key, k) ∈ [(str "r", AWG_OBF_RAND); (str "rc", AWG_OBF_RANDCHARS);
              (str "rd", AWG_OBF_RANDDIGITS); (str "dz", AWG_OBF_DATASIZE)] →
  build_tag key (dec n) 128 = inl (Obf k n []).
Proof.
  intros Hn Hk. assert (strtol (dec n) = (n, [])) as Hst.
  { rewrite <- (app_nil_r (dec n)). apply strtol_dec; [|done].
    change LONG_MAX with 9223372036854775807. lia. }
  pose proof (dec_nonempty n) as Hne.
  assert (str_eqb (dec n) [] = false) as He by by apply bool_decide_eq_false.
  assert (str_eqb [] (dec n) = false) as He' by (apply bool_decide_eq_false; congruence).
  assert (∀ k, (if str_eqb (dec n) [] then inr (snprintf 128 (str "<" ++ key ++ str "> without a length")) else
      let '(m, rest) := strtol (dec n) in
      if str_eqb rest (dec n) || negb (str_eqb rest []) || (m <? 0) || (m >? 1 .<< 20)
      then inr (snprintf 128 (str "<" ++ key ++ str "> bad length '" ++ dec n ++ str "'"))
      else inl (Obf k m [])) = inl (Obf k n [])) as Hb.
  { intros k'. rewrite He, Hst, He'. rewrite Z.gtb_ltb. change (1 .<< 20) with (2 ^ 20).
    by rewrite (proj2 (Z.ltb_ge n 0)), (proj2 (Z.ltb_ge (2 ^ 20) n)) by lia. }
  repeat (apply elem_of_cons in Hk as [[= -> ->]|Hk]; [apply Hb|]). by apply elem_of_nil in Hk.
Qed.

Lemma print_item_parses fuel o rest acc errsz : wf_item o →
  parse_loop (S fuel) (print_item o ++ rest) acc errsz = parse_loop fuel rest (acc ++ [o]) errsz.
Proof.
  intros Ho.
  assert (∀ key n k, 0 <= n <= 2 ^ 20 →
    (str key, k) ∈ [(str "r", AWG_OBF_RAND); (str "rc", AWG_OBF_RANDCHARS);
                (str "rd", AWG_OBF_RANDDIGITS); (str "dz", AWG_OBF_DATASIZE)] →
    parse_loop (S fuel) ((str "<" ++ str key ++ str " " ++ dec n ++ str ">") ++ rest) acc errsz =
    parse_loop fuel rest (acc ++ [Obf k n []]) errsz) as Hnum.
  { intros key n k Hn Hk.
    assert (str key ≠ [] ∧ Forall arg_char (str key)) as [Hne Hc].
    { repeat (apply elem_of_cons in Hk as [[= -> _]|Hk]; [split; [done|]; vm_compute;
        repeat (constructor; [done|]); constructor|]). by apply elem_of_nil in Hk. }
    pose proof (dec_nonempty n) as Hd. pose proof (dec_arg n ltac:(lia)) as Hda.
    replace ((str "<" ++ str key ++ str " " ++ dec n ++ str ">") ++ rest) with
      (str "<" ++ (str key ++ 32 :: dec n) ++ str ">" ++ rest) by by rewrite <- !app_assoc.
    apply (parse_loop_tag _ _ _ _ _ (str key) (dec n)); [|by apply split_tag_arg|by apply build_tag_number].
    apply not_elem_of_app. split; [by apply arg_not_in; [|lia]|].
    apply not_elem_of_cons. split; [done|]. by apply arg_not_in; [|lia]. }
  destruct o as [k n d]. destruct k; unfold wf_item in Ho; cbn in Ho; unfold print_item; cbn [kind olen data].
  - destruct Ho as (-> & Hb & Hne).
    assert (∃ h hs, concat (hex_byte <$> d) = h :: hs ∧ Forall arg_char (h :: hs)) as (h & hs & E & Hh).
    { pose proof (hex_arg d Hb) as Hh. destruct d as [|x d]; [done|]. cbn in *. eauto. }
    replace ((str "<b 0x" ++ concat (hex_byte <$> d) ++ str ">") ++ rest) with
      (str "<" ++ (str "b" ++ 32 :: str "0x" ++ concat (hex_byte <$> d)) ++ str ">" ++ rest)
      by by rewrite <- !app_assoc.
    assert (Forall arg_char (str "0x" ++ concat (hex_byte <$> d))) as Hall.
    { apply Forall_app. split; [|by rewrite E]. vm_compute. repeat (constructor; [done|]). constructor. }
    apply (parse_loop_tag _ _ _ _ _ (str "b") (str "0x" ++ concat (hex_byte <$> d))).
    + apply not_elem_of_app. split; [vm_compute; set_solver|].
      apply not_elem_of_cons. split; [done|]. apply arg_not_in; [done|].
      by intros (? & ? & ?).
    + apply split_tag_arg; [done| |done|done]. vm_compute. repeat (constructor; [done|]). constructor.
    + unfold build_tag. change (str_eqb (str "b") (str "b")) with true. cbn iota.
      change (str "0x") with [48; 120]. cbn [app].
      assert (∀ x s, str_eqb (x :: s) [] = false) as -> by (intros; by apply bool_decide_eq_false).
      rewrite hex_bytes_print by done.
      assert (zlen (concat (hex_byte <$> d)) = 2 * zlen d) as -> by (unfold zlen; rewrite length_hex; lia).
      rewrite (Z.mul_comm 2), Z.mod_mul by lia.
      rewrite (proj2 (Z.eqb_neq (zlen d * 2) 0)); [done|].
      destruct d; [by destruct Hne|]. unfold zlen. cbn [length]. lia.
  - destruct Ho as [Hn ->]. by apply Hnum; [|set_solver].
  - destruct Ho as [Hn ->]. by apply Hnum; [|set_solver].
  - destruct Ho as [Hn ->]. by apply Hnum; [|set_solver].
  - destruct Ho as [-> ->]. by apply (parse_loop_tag _ (str "t") rest _ _ (str "t") []); [vm_compute; set_solver|..].
  - destruct Ho as [-> ->]. by apply (parse_loop_tag _ (str "d") rest _ _ (str "d") []); [vm_compute; set_solver|..].
  - destruct Ho as [-> ->]. by apply (parse_loop_tag _ (str "ds") rest _ _ (str "ds") []); [vm_compute; set_solver|..].
  - destruct Ho as [Hn ->]. by apply Hnum; [|set_solver].
Qed.

Lemma print_items_parse its fuel rest acc errsz : Forall wf_item its →
  parse_loop (length its + fuel) (concat (print_item <$> its) ++ rest) acc errsz =
  parse_loop fuel rest (acc ++ its) errsz.
Proof.
  intros Hits. revert acc. induction Hits as [|o its Ho _ IH]; intros acc.
  { by rewrite app_nil_r. }
  change (concat (print_item <$> o :: its)) with (print_item o ++ concat (print_item <$> its)).
  cbn [length Nat.add]. rewrite <- app_assoc, print_item_parses by done.
  by rewrite IH, <- app_assoc.
Qed.

(** The fuel the parser gives itself covers any printed prefix. *)
Lemma print_items_fuel its rest : ∃ fuel,
  S (length (concat (print_item <$> its) ++ rest)) = (length its + S (length rest + fuel))%nat.
Proof.
  assert (length its <= length (concat (print_item <$> its)))%nat as Hl.
  { induction its as [|o its IH]; [done|].
    change (concat (print_item <$> o :: its)) with (print_item o ++ concat (print_item <$> its)).
    assert (1 <= length (print_item o))%nat by (destruct o as [[] ? ?]; cbn; lia). len. }
  exists (length (concat (print_item <$> its)) - length its)%nat. len.
Qed.

Lemma str_eqb_ne a b : a ≠ b → str_eqb a b = false.
Proof. apply bool_decide_eq_false. Qed.

Lemma parse_print its errsz : Forall wf_item its → its ≠ [] →
  awg_obf_parse (concat (print_item <$> its)) errsz =
  (Some (Chain its (concat (print_item <$> its))), []).
Proof.
  intros Hits Hne. unfold awg_obf_parse. rewrite str_eqb_ne.
  2: { destruct its as [|[[] ? ?] ?]; [done|..]; by cbn. }
  destruct (print_items_fuel its []) as (fuel & E). rewrite app_nil_r in E. rewrite E.
  rewrite <- (app_nil_r (concat _)) at 1. rewrite print_items_parse by done.
  cbn [length Nat.add parse_loop split_at app]. by destruct its.
Qed.

(** What the loop reports for the first thing that is not a tag it knows. *)
Lemma parse_fails its bad errsz e : Forall wf_item its → bad ≠ [] →
  (∀ fuel acc, parse_loop (S (length bad + fuel)) bad acc errsz = inr e) →
  awg_obf_parse (concat (print_item <$> its) ++ bad) errsz = (None, e).
Proof.
  intros Hits Hb Hf. unfold awg_obf_parse. rewrite str_eqb_ne.
  2: { intros E. by apply app_eq_nil in E as [_ ->]. }
  destruct (print_items_fuel its bad) as (fuel & E). rewrite E.
  by rewrite print_items_parse, Hf by done.
Qed.

(** ** Properties *)

Section Properties.
Context `{Entropy}.

(** A template is rendered as the concatenation of what its tags show: the
    literal bytes, exactly the announced number of random bytes, letters or
    digits, the time and the payload's length in network order, the payload, and
    base64 text that decodes to the payload. Exactly [awg_obf_out_len] bytes of
    the buffer are written, from its start. *)
Theorem obf_render_shows (c : awg_obf_chain) (src : option (list Z)) (s dst : list Z)
    (now : Z) (pos : nat) :
  Forall wf_item c.(items) → payload src s → is_bytes s → zlen s < 2 ^ 31 →
  awg_obf_out_len (Some c) (zlen s) <= zlen dst →
  ∃ bs, Forall2 (tag_shows s now) c.(items) bs ∧
    zlen (concat bs) = awg_obf_out_len (Some c) (zlen s) ∧
    (awg_obf_render (Some c) dst src (zlen s) now pos).1 =
      concat bs ++ zdrop (awg_obf_out_len (Some c) (zlen s)) dst.
Proof.
  intros Hits Hs Hb Hl Hd. cbn [awg_obf_out_len awg_obf_render] in *. rewrite out_len_foldr in *.
  destruct (render_loop_spec c.(items) 0 src s now dst pos) as (bs & Hbs & E); try done.
  assert (zlen (concat bs) = foldr (λ o t, tag_out_len o (zlen s) + t) 0 c.(items)) as Hc.
  { clear - Hbs. induction Hbs as [|o b its bs Hsh _ IH]; [done|]. cbn [concat foldr].
    by rewrite zlen_app, IH, (tag_shows_len _ _ _ _ Hsh). }
  exists bs. split_and!; [done|done|]. rewrite E, <- Hc. unfold blit, zdrop, zlen.
  by rewrite take_0, Nat2Z.id.
Qed.

(** Every chain the parser returns consists of tags the renderer knows how
    to size: lengths between 0 and 2^20, a literal that is never empty, and
    nothing left over from another kind; it keeps the text it was parsed from. *)
Theorem obf_parse_wf (text : list Z) (errsz : Z) (c : awg_obf_chain) (err : list Z) :
  awg_obf_parse text errsz = (Some c, err) →
  Forall wf_item c.(items) ∧ c.(items) ≠ [] ∧ c.(spec) = text ∧ err = [].
Proof. apply parse_wf. Qed.

(** Parsing a printed template gives back its tags: with [obf_parse_wf], the
    chains the parser returns are exactly those that can be printed. *)
Theorem obf_parse_print (its : list awg_obf) (errsz : Z) : Forall wf_item its → its ≠ [] →
  awg_obf_parse (concat (print_item <$> its)) errsz =
  (Some (Chain its (concat (print_item <$> its))), []).
Proof. apply parse_print. Qed.

(** The parser's errors: after any valid tags, a tag that is not closed and
    a tag that cannot be built give NULL and the text of the error cut to the
    buffer. A text without any tag gives NULL and no error, empty or not. *)
Theorem obf_parse_errors (its : list awg_obf) (tag bad rest : list Z) (errsz : Z) :
  Forall wf_item its → 62 ∉ bad → 62 ∉ tag →
  awg_obf_parse (concat (print_item <$> its) ++ 60 :: bad) errsz =
    (None, snprintf errsz (str "missing closing '>'")) ∧
  (∀ terr, build_tag (split_tag tag).1 (split_tag tag).2 128 = inr terr →
    awg_obf_parse (concat (print_item <$> its) ++ 60 :: tag ++ 62 :: rest) errsz =
    (None, snprintf errsz terr)) ∧
  (∀ text, 60 ∉ text → awg_obf_parse text errsz = (None, [])).
Proof.
  intros Hits Hbad Htag. split_and!.
  - apply parse_fails; [done..|]. intros fuel acc. cbn [parse_loop split_at].
    change (60 =? 60) with true. cbn iota. by rewrite (proj2 (split_at_none 62 bad)).
  - intros terr Ht. apply parse_fails; [done..|]. intros fuel acc. cbn [parse_loop split_at].
    change (60 =? 60) with true. cbn iota. rewrite split_at_app by done.
    destruct (split_tag tag) as [key val]. cbn in Ht. by rewrite Ht.
  - intros text Ht. unfold awg_obf_parse. destruct (str_eqb text []); [done|].
    cbn [parse_loop]. by rewrite (proj2 (split_at_none 60 text)).
Qed.

(** Raw base64: the encoder succeeds exactly when its output fits, writes
    [b64_len] characters, and decoding them into a buffer large enough gives the
    input back; the decoder never produces more than its buffer holds. *)
Theorem b64_roundtrip (inp : list Z) (cap : Z) : is_bytes inp → 0 <= cap →
  match awg_b64_encode_raw inp cap with
  | Some s => b64_len (zlen inp) <= cap ∧ zlen s = b64_len (zlen inp) ∧
      ∀ cap', zlen inp <= cap' → awg_b64_decode s cap' = Some inp
  | None => cap < b64_len (zlen inp)
  end ∧
  ∀ text out, awg_b64_decode text cap = Some out → is_bytes out ∧ zlen out <= cap.
Proof.
  intros Hb Hc. split.
  - pose proof (b64_encode_spec inp cap Hb) as Hs. destruct (awg_b64_encode_raw inp cap); [|done].
    destruct Hs as (E & Hl & Hd). split_and!; [lia|done|done].
  - intros text out Hd.
    destruct (b64_decode_loop_bound _ _ _ _ _ _ (Forall_nil_2 _) (Z.le_max_r cap 0) Hd) as [? ?].
    by rewrite Z.max_l in *.
Qed.

End Properties.

(** ** Witnesses *)

Definition sample_items : list awg_obf :=
  [Obf AWG_OBF_BYTES 0 [0xc0; 0xff]; Obf AWG_OBF_RANDDIGITS 3 []; Obf AWG_OBF_TIMESTAMP 0 [];
   Obf AWG_OBF_DATASTRING 0 []; Obf AWG_OBF_DATASIZE 2 []].

Lemma sample_items_wf : Forall wf_item sample_items.
Proof.
  repeat (apply Forall_cons_2; [cbn; split_and?; (done || lia || word_list)|]). apply Forall_nil_2.
Qed.

Lemma obf_render_shows_witness :
  ∃ bs, Forall2 (tag_shows [1; 2; 3; 4] 1700000000) sample_items bs ∧
    zlen (concat bs) = 17 ∧
    (@awg_obf_render (λ i, Z.of_nat i * 7) (Some (Chain sample_items [])) (replicate 20 0)
      (Some [1; 2; 3; 4]) 4 1700000000 0%nat).1 = concat bs ++ [0; 0; 0].
Proof.
  apply (@obf_render_shows (λ i, Z.of_nat i * 7) (Chain sample_items []) (Some [1; 2; 3; 4]) [1; 2; 3; 4]
    (replicate 20 0) 1700000000 0%nat);
    [apply sample_items_wf|by left|word_list|done|by vm_compute].
Defined.

Lemma obf_parse_wf_witness :
  Forall wf_item [Obf AWG_OBF_RAND 12 []] ∧ [Obf AWG_OBF_RAND 12 []] ≠ [] ∧
  str "x< r  12>" = str "x< r  12>" ∧ @nil Z = [].
Proof.
  apply (obf_parse_wf (str "x< r  12>") 64 (Chain [Obf AWG_OBF_RAND 12 []] (str "x< r  12>")) []).
  vm_compute. reflexivity.
Defined.

Lemma obf_parse_print_witness :
  awg_obf_parse (str "<b 0xc0ff><rd 3><t><ds><dz 2>") 64 =
  (Some (Chain sample_items (str "<b 0xc0ff><rd 3><t><ds><dz 2>")), []).
Proof. apply (obf_parse_print sample_items 64 sample_items_wf). discriminate. Defined.

Lemma obf_parse_errors_witness :
  awg_obf_parse (str "<b 0xc0ff><rd 3><t><ds><dz 2><t") 64 = (None, str "missing closing '>'") ∧
  awg_obf_parse (str "<b 0xc0ff><rd 3><t><ds><dz 2><q 1>") 64 = (None, str "unknown tag <q>") ∧
  awg_obf_parse (str "0xc0ff") 64 = (None, []).
Proof.
  destruct (obf_parse_errors sample_items (str "q 1") (str "t") [] 64) as (H1 & H2 & H3).
  - apply sample_items_wf.
  - vm_compute. set_solver.
  - vm_compute. set_solver.
  - split_and!; [exact H1|apply (H2 (str "unknown tag <q>")); by vm_compute|].
    apply H3. vm_compute. set_solver.
Defined.

Lemma b64_roundtrip_witness :
  match awg_b64_encode_raw [1; 2; 255; 7] 6 with
  | Some s => 6 <= 6 ∧ zlen s = 6 ∧ ∀ cap', 4 <= cap' → awg_b64_decode s cap' = Some [1; 2; 255; 7]
  | None => 6 < 6
  end ∧
  ∀ text out, awg_b64_decode text 6 = Some out → is_bytes out ∧ zlen out <= 6.
Proof. apply (b64_roundtrip [1; 2; 255; 7] 6); [word_list|lia]. Defined.
