(* ===== verification/Config.v ===== *)
(** * awg_config.c: the configuration file

    The line reader, the per-key handlers of the two sections, the required
    fields, and the dump. The file is the list of its bytes ([None]: it cannot be
    opened); the result is the configuration or the text left in [err]. What a
    failed load leaves in the caller's structure is not modelled: the callers
    discard it, and [awg_config_free] has released its templates. *)
From stdpp Require Import sets.
From S2P Require Import Prelude Cstr Awg Obf.

Definition LINE_MAX : Z := 8192.

(** ** Scanning *)

Definition is_line_end (c : Z) : bool := (c =? 10) || (c =? 13) || (c =? 32) || (c =? 9).

Definition trim (s : list Z) : list Z :=
  skip_while is_blank (reverse (skip_while is_line_end (reverse s))).

Fixpoint ipv4_loop (p : list Z) (v octet digits parts : Z) : option Z :=
  match p with
  | c :: p =>
    if isdigit c then
      let octet := octet * 10 + (c - 48) in
      let digits := digits + 1 in
      if (digits >? 3) || (octet >? 255) then None else ipv4_loop p v octet digits parts
    else if c =? 46 then
      if digits =? 0 then None
      else
        let v := u32 (v .<< 8) .| u32 octet in
        let parts := parts + 1 in
        if parts =? 4 then None else ipv4_loop p v 0 0 parts
    else None
  | [] =>
    if digits =? 0 then None
    else
      let v := u32 (v .<< 8) .| u32 octet in
      if negb (parts + 1 =? 4) then None
      else Some (u32 ((v .& 0xFF) .<< 24) .| u32 ((v .& 0xFF00) .<< 8) .|
                 ((v .>> 8) .& 0xFF00) .| ((v .>> 24) .& 0xFF))
  end.

Definition parse_ipv4 (s : list Z) : option Z := ipv4_loop s 0 0 0 0.

Definition parse_range (s : list Z) : awg_range :=
  let '(a, fin) := strtol s in
  match fin with
  | 45 :: rest =>
    let b := (strtol rest).1 in
    if b >=? a then Range (s32 a) (s32 b) else Range (s32 a) (s32 a)
  | _ => Range (s32 a) (s32 a)
  end.

(** The 32 bytes, or the error text. *)
Definition parse_key (b64 : list Z) (errsz : Z) (what : string) : list Z + list Z :=
  let fail := inr (snprintf errsz (str what ++ str " is not a 32-byte base64 key")) in
  match awg_b64_decode b64 (Z.of_nat AWG_KEY_LEN) with
  | Some out => if negb (zlen out =? Z.of_nat AWG_KEY_LEN) then fail else inl out
  | None => fail
  end.

Definition awg_config_free (cfg : awg_config) : awg_config :=
  cfg <| c_i := replicate AWG_MAX_I None |>.

(** [fgets]: the line with its newline, and the rest of the file. *)
Fixpoint fgets_loop (n : nat) (file : list Z) : list Z * list Z :=
  match n, file with
  | O, _ => ([], file)
  | _, [] => ([], [])
  | S n, c :: file =>
    if c =? 10 then ([c], file)
    else let '(line, rest) := fgets_loop n file in (c :: line, rest)
  end.

Definition fgets (size : Z) (file : list Z) : option (list Z * list Z) :=
  match file with
  | [] => None
  | _ => Some (fgets_loop (Z.to_nat (size - 1)) file)
  end.

(** [strtok] with the delimiters [", "]. *)
Definition is_delim (c : Z) : bool := (c =? 44) || (c =? 32).

Definition strtok (s : list Z) : option (list Z * list Z) :=
  match skip_while is_delim s with
  | [] => None
  | s => Some (take_while (λ c, negb (is_delim c)) s,
               drop 1 (skip_while (λ c, negb (is_delim c)) s))
  end.

(** ** The keys *)

(** [!strcmp(k, name)]. *)
Definition is_key (k : list Z) (name : string) : bool := str_eqb k (str name).

Definition KERR : Z := 128.

Fixpoint dns_loop (fuel : nat) (v : list Z) (cfg : awg_config) : awg_config :=
  match fuel with
  | O => cfg
  | S fuel =>
    match strtok v with
    | Some (tok, v) =>
      if zlen cfg.(dns) <? 4 then
        dns_loop fuel v
          (match parse_ipv4 tok with Some ip => cfg <| dns ::= λ l, l ++ [ip] |> | None => cfg end)
      else cfg
    | None => cfg
    end
  end.

(** [k[0] == 'I' && k[1] >= '1' && k[1] <= '5' && k[2] == 0]. *)
Definition template_index (k : list Z) : option nat :=
  match k with
  | [73; c] => if (49 <=? c) && (c <=? 53) then Some (Z.to_nat (c - 49)) else None
  | _ => None
  end.

Definition interface_key (k v : list Z) (cfg : awg_config) : awg_config + list Z :=
  if is_key k "PrivateKey" then
    match parse_key v KERR "PrivateKey" with
    | inr kerr => inr kerr
    | inl key => inl (cfg <| private_key := key |> <| have_private_key := true |>)
    end
  else if is_key k "HeaderProtectionKey" then
    match parse_key v KERR "HeaderProtectionKey" with
    | inr kerr => inr kerr
    | inl key => inl (cfg <| header_protection_key := key |> <| have_header_protection := true |>)
    end
  else if is_key k "Address" then
    let '(v, cfg) := match split_at 47 v with
                     | Some (v, cidr) => (v, cfg <| address_cidr := atoi cidr |>)
                     | None => (v, cfg <| address_cidr := 32 |>)
                     end in
    match parse_ipv4 v with
    | None => inr (snprintf KERR (str "Address is not IPv4"))
    | Some ip => inl (cfg <| address := ip |>)
    end
  else if is_key k "DNS" then inl (dns_loop (length v) v cfg)
  else if is_key k "Jc" then inl (cfg <| jc := atoi v |>)
  else if is_key k "Jmin" then inl (cfg <| jmin := atoi v |>)
  else if is_key k "Jmax" then inl (cfg <| jmax := atoi v |>)
  else if is_key k "S1" then inl (cfg <| s1 := atoi v |>)
  else if is_key k "S2" then inl (cfg <| s2 := atoi v |>)
  else if is_key k "S3" then inl (cfg <| s3 := atoi v |>)
  else if is_key k "S4" then inl (cfg <| s4 := atoi v |>)
  else if is_key k "H1" then inl (cfg <| h1 := u32 (strtoul v) |>)
  else if is_key k "H2" then inl (cfg <| h2 := u32 (strtoul v) |>)
  else if is_key k "H3" then inl (cfg <| h3 := u32 (strtoul v) |>)
  else if is_key k "H4" then inl (cfg <| h4 := u32 (strtoul v) |>)
  else if is_key k "RekeyAfterTime" then inl (cfg <| rekey_after_time := parse_range v |>)
  else if is_key k "RekeyTimeout" then inl (cfg <| rekey_timeout := parse_range v |>)
  else if is_key k "RejectAfterTime" then inl (cfg <| reject_after_time := parse_range v |>)
  else if is_key k "KeepaliveTimeout" then inl (cfg <| keepalive_timeout := parse_range v |>)
  else if is_key k "MaxHandshakeAttempts" then inl (cfg <| max_handshake_attempts := parse_range v |>)
  else if is_key k "ContentPaddingAddition" then inl (cfg <| content_padding_addition := parse_range v |>)
  else
    match template_index k with
    | Some idx =>
      let '(chain, kerr) := awg_obf_parse v KERR in
      match chain, kerr with
      | None, _ :: _ => inr kerr
      | _, _ => inl (cfg <| c_i ::= <[idx := chain]> |>)
      end
    | None => inl cfg
    end.

Definition peer_key (k v : list Z) (cfg : awg_config) : awg_config + list Z :=
  if is_key k "PublicKey" then
    match parse_key v KERR "PublicKey" with
    | inr kerr => inr kerr
    | inl key => inl (cfg <| peer_public_key := key |> <| have_peer_public_key := true |>)
    end
  else if is_key k "PresharedKey" then
    match parse_key v KERR "PresharedKey" with
    | inr kerr => inr kerr
    | inl key => inl (cfg <| preshared_key := key |> <| have_preshared_key := true |>)
    end
  else if is_key k "Endpoint" then
    match rsplit_at 58 v with
    | None => inr (snprintf KERR (str "Endpoint has no port"))
    | Some (host, port) =>
      inl (cfg <| endpoint_port := atoi port |> <| endpoint_host := snprintf 128 host |>)
    end
  else if is_key k "PersistentKeepalive" then inl (cfg <| persistent_keepalive := parse_range v |>)
  else inl cfg.

(** ** The file *)

(** One line, as read: the section flag and the configuration after it, or the
    key and the reason of the error. *)
Definition config_line (line : list Z) (in_peer : bool) (cfg : awg_config)
    : bool * awg_config + list Z * list Z :=
  let line := match split_at 35 line with Some (before, _) => before | None => line end in
  let line := trim line in
  match line with
  | [] => inl (in_peer, cfg)
  | c :: _ =>
    if c =? 91 then inl (str_eqb (take 5 line) (str "[Peer"), cfg) else
    match split_at 61 line with
    | None => inl (in_peer, cfg)
    | Some (k, v) =>
      let k := trim k in
      let v := trim v in
      if str_eqb k [] then inl (in_peer, cfg)
      else
        match (if in_peer then peer_key k v cfg else interface_key k v cfg) with
        | inl cfg => inl (in_peer, cfg)
        | inr kerr => inr (k, kerr)
        end
    end
  end.

Fixpoint config_loop (fuel : nat) (file : list Z) (lineno : Z) (in_peer : bool)
    (cfg : awg_config) (errsz : Z) : awg_config + list Z :=
  match fuel with
  | O => inl cfg
  | S fuel =>
    match fgets LINE_MAX file with
    | None => inl cfg
    | Some (buf, file) =>
      let lineno := lineno + 1 in
      match config_line (c_string buf) in_peer cfg with
      | inl (in_peer, cfg) => config_loop fuel file lineno in_peer cfg errsz
      | inr (k, kerr) =>
        inr (snprintf errsz (str "line " ++ dec lineno ++ str " (" ++ k ++ str "): " ++ kerr))
      end
    end
  end.

Definition config_default : awg_config :=
  config_zero <| h1 := 1 |> <| h2 := 2 |> <| h3 := 3 |> <| h4 := 4 |>
    <| rekey_after_time := Range 120 120 |> <| rekey_timeout := Range 5 5 |>
    <| reject_after_time := Range 180 180 |> <| keepalive_timeout := Range 10 10 |>
    <| max_handshake_attempts := Range 18 18 |>.

Definition awg_config_load (file : option (list Z)) (path : list Z) (errsz : Z)
    : awg_config + list Z :=
  match file with
  | None => inr (snprintf errsz (str "cannot open " ++ path))
  | Some file =>
    match config_loop (S (length file)) file 0 false config_default errsz with
    | inr err => inr err
    | inl cfg =>
      if negb cfg.(have_private_key) then inr (snprintf errsz (str "no PrivateKey"))
      else if negb cfg.(have_peer_public_key) then inr (snprintf errsz (str "no peer PublicKey"))
      else if str_eqb cfg.(endpoint_host) [] then inr (snprintf errsz (str "no Endpoint"))
      else inl cfg
    end
  end.

(** ** The dump *)

Definition ip_str (net_order n : Z) : list Z :=
  let b := le_bytes 4 net_order in
  snprintf n (dec b.[0] ++ str "." ++ dec b.[1] ++ str "." ++ dec b.[2] ++ str "." ++ dec b.[3]).

Definition range_str (r : awg_range) (n : Z) : list Z :=
  if r.(rmax) >? r.(rmin) then snprintf n (dec r.(rmin) ++ str "-" ++ dec r.(rmax))
  else snprintf n (dec r.(rmin)).

Definition nl : list Z := [10].

Definition awg_config_dump (cfg : awg_config) : list Z :=
  let r x := range_str x 64 in
  concat [
    str "interface"; nl;
    str "  address        "; ip_str cfg.(address) 64; str "/"; dec cfg.(address_cidr); nl;
    concat (imap (λ i ip, str "  dns[" ++ dec (Z.of_nat i) ++ str "]         " ++ ip_str ip 64 ++ nl) cfg.(dns));
    str "  private key    "; (if cfg.(have_private_key) then str "loaded" else str "MISSING"); nl;
    str "  junk packets   Jc="; dec cfg.(jc); str " Jmin="; dec cfg.(jmin); str " Jmax="; dec cfg.(jmax); nl;
    str "  header junk    S1="; dec cfg.(s1); str " S2="; dec cfg.(s2);
    str " S3="; dec cfg.(s3); str " S4="; dec cfg.(s4); nl;
    str "  msg types      H1="; dec cfg.(h1); str " H2="; dec cfg.(h2);
    str " H3="; dec cfg.(h3); str " H4="; dec cfg.(h4); nl;
    str "  header protect "; (if cfg.(have_header_protection) then str "on (ChaCha20)" else str "off"); nl;
    str "  rekey          after "; r cfg.(rekey_after_time); str "s, timeout "; r cfg.(rekey_timeout); str "s"; nl;
    str "  reject after   "; r cfg.(reject_after_time); str "s, keepalive timeout ";
    r cfg.(keepalive_timeout); str "s"; nl;
    str "  handshakes     max "; r cfg.(max_handshake_attempts); str ", content padding ";
    r cfg.(content_padding_addition); str " B"; nl;
    concat (imap (λ i c, match c with
                         | None => []
                         | Some ch => str "  I" ++ dec (Z.of_nat i + 1) ++ str "             " ++
                             dec (zlen ch.(items)) ++ str " tags, " ++
                             dec (awg_obf_out_len (Some ch) 0) ++ str " bytes on the wire" ++ nl
                         end) cfg.(c_i));
    str "peer"; nl;
    str "  public key     "; (if cfg.(have_peer_public_key) then str "loaded" else str "MISSING"); nl;
    str "  preshared key  "; (if cfg.(have_preshared_key) then str "loaded" else str "none"); nl;
    str "  endpoint       "; cfg.(endpoint_host); str ":"; dec cfg.(endpoint_port); nl;
    str "  keepalive      "; r cfg.(persistent_keepalive); str "s"; nl].

(** ** Addresses *)

Definition digits_val (acc : Z) (s : list Z) : Z := foldl (λ v c, v * 10 + (c - 48)) acc s.

(** A decimal octet as the parser takes it: one to three digits, at most 255. *)
Definition octet_text (s : list Z) (n : Z) : Prop :=
  Forall isdigit s ∧ 1 <= zlen s <= 3 ∧ digits_val 0 s = n ∧ n <= 255.

Lemma digits_val_mono acc s : 0 <= acc → Forall isdigit s → acc <= digits_val acc s.
Proof.
  intros Ha Hs. revert acc Ha. induction Hs as [|c s Hc _ IH]; intros acc Ha; cbn; [lia|].
  unfold isdigit in Hc. apply andb_prop_elim in Hc as [H1 _]. apply Is_true_true, Z.leb_le in H1.
  specialize (IH (acc * 10 + (c - 48)) ltac:(lia)). unfold digits_val in IH. lia.
Qed.

(** The loop over the digits at hand: it reads them all or rejects the text. *)
Lemma ipv4_digits s v octet digits parts : 0 <= octet → 0 <= digits →
  let a := take_while isdigit s in
  ipv4_loop s v octet digits parts =
  if decide (a = [] ∨ (digits + zlen a <= 3 ∧ digits_val octet a <= 255))
  then ipv4_loop (skip_while isdigit s) v (digits_val octet a) (digits + zlen a) parts
  else None.
Proof.
  revert octet digits. induction s as [|c s IH]; intros octet digits Ho Hd; cbn zeta.
  { rewrite decide_True by by left. cbn. by rewrite Z.add_0_r. }
  cbn [take_while skip_while]. destruct (isdigit c) eqn:Ec.
  - pose proof Ec as Ec'. unfold isdigit in Ec'. apply andb_prop in Ec' as [H1 _]. apply Z.leb_le in H1.
    cbn [ipv4_loop]. rewrite Ec. cbn zeta.
    set (o' := octet * 10 + (c - 48)).
    assert (Forall isdigit (take_while isdigit s)) as Hall.
    { clear. induction s as [|c s IH]; [constructor|]. cbn. destruct (isdigit c) eqn:E; [|constructor].
      constructor; [by rewrite E|done]. }
    pose proof (digits_val_mono o' _ ltac:(unfold o'; lia) Hall) as Hmono.
    change (digits_val octet (c :: take_while isdigit s)) with (digits_val o' (take_while isdigit s)).
    assert (zlen (c :: take_while isdigit s) = 1 + zlen (take_while isdigit s)) as ->
      by (unfold zlen; cbn [length]; lia).
    pose proof (zlen_nonneg (take_while isdigit s)).
    destruct ((digits + 1 >? 3) || (o' >? 255)) eqn:Eb.
    + rewrite decide_False; [done|]. intros [?|[? ?]]; [done|].
      rewrite !Z.gtb_ltb in Eb. apply orb_prop in Eb as [Eb|Eb]; apply Z.ltb_lt in Eb; lia.
    + apply orb_false_iff in Eb as [E1 E2]. rewrite !Z.gtb_ltb in *. apply Z.ltb_ge in E1, E2.
      rewrite IH by (unfold o'; lia). cbn zeta. rewrite Z.add_assoc.
      destruct (decide (take_while isdigit s = [])) as [Hn|Hn].
      * rewrite !decide_True; [done| |by left]. right. rewrite Hn. unfold digits_val, zlen. cbn. lia.
      * destruct (decide (digits + 1 + zlen (take_while isdigit s) <= 3 ∧
          digits_val o' (take_while isdigit s) <= 255)) as [Hy|Hy].
        -- rewrite !decide_True by tauto. done.
        -- rewrite !decide_False; [done|intros [?|?]; [done|tauto]|tauto].
  - rewrite decide_True by by left. cbn [digits_val foldl]. by rewrite Z.add_0_r.
Qed.

(** One part of the address, up to its dot or the end. *)
Lemma ipv4_part s v parts :
  ipv4_loop s v 0 0 parts =
  let a := take_while isdigit s in
  if decide (octet_text a (digits_val 0 a)) then
    let v := u32 (v .<< 8) .| u32 (digits_val 0 a) in
    match skip_while isdigit s with
    | [] => if parts + 1 =? 4
            then Some (u32 ((v .& 0xFF) .<< 24) .| u32 ((v .& 0xFF00) .<< 8) .|
                       ((v .>> 8) .& 0xFF00) .| ((v .>> 24) .& 0xFF))
            else None
    | c :: rest => if (c =? 46) && negb (parts + 1 =? 4) then ipv4_loop rest v 0 0 (parts + 1) else None
    end
  else None.
Proof.
  rewrite ipv4_digits by lia. cbn zeta. set (a := take_while isdigit s).
  assert (Forall isdigit a) as Ha.
  { unfold a. clear. induction s as [|c s IH]; [constructor|]. cbn. destruct (isdigit c) eqn:E; [|constructor].
    constructor; [by rewrite E|done]. }
  assert (match skip_while isdigit s with c :: _ => isdigit c = false | [] => True end) as Hs.
  { clear. induction s as [|c s IH]; [done|]. cbn. by destruct (isdigit c) eqn:E. }
  unfold octet_text. pose proof (zlen_nonneg a). rewrite Z.add_0_l.
  destruct (decide (a = [])) as [Ea|Ea].
  - rewrite decide_True by tauto. rewrite decide_False.
    2: { rewrite Ea. unfold zlen. cbn. lia. }
    rewrite Ea. change (zlen (@nil Z)) with 0. destruct (skip_while isdigit s) as [|c rest]; [done|].
    cbn [ipv4_loop]. rewrite Hs. by destruct (c =? 46).
  - assert (1 <= zlen a) by (destruct a; [done|unfold zlen; cbn [length]; lia]).
    destruct (decide (zlen a <= 3 ∧ digits_val 0 a <= 255)) as [Hy|Hy].
    + rewrite !decide_True by tauto. destruct (skip_while isdigit s) as [|c rest]; cbn [ipv4_loop].
      * rewrite (proj2 (Z.eqb_neq (zlen a) 0)) by lia. by destruct (parts + 1 =? 4).
      * rewrite Hs, (proj2 (Z.eqb_neq (zlen a) 0)) by lia.
        destruct (c =? 46); [|done]. by destruct (parts + 1 =? 4).
    + rewrite !decide_False; [done|tauto|]. intros [?|?]; tauto.
Qed.

(** The octets of the accumulated word, in network order. *)
Lemma ipv4_word a b c d :
  0 <= a <= 255 → 0 <= b <= 255 → 0 <= c <= 255 → 0 <= d <= 255 →
  let push v o := u32 (v .<< 8) .| u32 o in
  let v := push (push (push (push 0 a) b) c) d in
  u32 ((v .& 0xFF) .<< 24) .| u32 ((v .& 0xFF00) .<< 8) .| ((v .>> 8) .& 0xFF00) .| ((v .>> 24) .& 0xFF) =
  a + 256 * b + 65536 * c + 16777216 * d.
Proof.
  intros Ha Hb Hc Hd. cbv zeta beta.
  assert (∀ v o, 0 <= v < 2 ^ 24 → 0 <= o <= 255 → u32 (v .<< 8) .| u32 o = v * 256 + o) as Hp.
  { intros v o Hv Ho.
    rewrite (u32_small o), (u32_small (v .<< 8)) by
      (unfold is_u; rewrite ?Z.shiftl_mul_pow2 by lia; lia).
    rewrite Z.lor_comm, lor_add_shift by (unfold is_u; lia). lia. }
  change (2 ^ 24) with 16777216 in Hp. rewrite (Hp 0 a), (Hp (0 * 256 + a) b), (Hp ((0 * 256 + a) * 256 + b) c), Hp by lia.
  set (v := (((0 * 256 + a) * 256 + b) * 256 + c) * 256 + d).
  assert (v .& 0xFF = d) as ->.
  { change 0xFF with (Z.ones 8). rewrite Z.land_ones by lia. change (2 ^ 8) with 256.
    unfold v. Z.div_mod_to_equations. lia. }
  assert (∀ x, x .& 0xFF00 = (x / 256 mod 256) * 256) as Hm.
  { intros x. change 0xFF00 with (Z.ones 8 .<< 8).
    rewrite land_shifted, Z.land_ones, Z.shiftl_mul_pow2, Z.shiftr_div_pow2 by lia. done. }
  assert (∀ x, x .& 0xFF = x mod 256) as Hm' by (intros x; exact (Z.land_ones x 8 ltac:(lia))).
  rewrite !Hm, Hm', !Z.shiftr_div_pow2 by lia.
  change (2 ^ 8) with 256. change (2 ^ 24) with 16777216.
  assert (v / 256 mod 256 = c) as -> by (unfold v; Z.div_mod_to_equations; lia).
  assert (v / 256 / 256 mod 256 = b) as -> by (unfold v; Z.div_mod_to_equations; lia).
  assert (v / 16777216 mod 256 = a) as -> by (unfold v; Z.div_mod_to_equations; lia).
  rewrite !u32_small by (unfold is_u; rewrite Z.shiftl_mul_pow2 by lia; lia).
  assert (c * 256 .<< 8 = c .<< 16) as -> by (rewrite !Z.shiftl_mul_pow2 by lia; lia).
  assert (b * 256 = b .<< 8) as -> by by rewrite Z.shiftl_mul_pow2.
  transitivity (((d .<< 8 .| c) .<< 8 .| b) .<< 8 .| a).
  { by rewrite !Z.shiftl_lor, !Z.shiftl_shiftl by lia. }
  assert (∀ x y, 0 <= y <= 255 → x .<< 8 .| y = x * 256 + y) as Hq.
  { intros x y Hy. rewrite Z.lor_comm, lor_add_shift by (unfold is_u; lia). lia. }
  rewrite !Hq by lia. lia.
Qed.

(** The text is accepted exactly when it is four octets separated by dots. *)
Lemma parse_ipv4_spec s v :
  parse_ipv4 s = Some v ↔
  ∃ sa sb sc sd a b c d, s = sa ++ str "." ++ sb ++ str "." ++ sc ++ str "." ++ sd ∧
    octet_text sa a ∧ octet_text sb b ∧ octet_text sc c ∧ octet_text sd d ∧
    v = a + 256 * b + 65536 * c + 16777216 * d.
Proof.
  change (str ".") with [46].
  assert (∀ s, take_while isdigit s ++ skip_while isdigit s = s) as Hsplit.
  { clear. intros s. induction s as [|c s IH]; [done|]. cbn. destruct (isdigit c); cbn; [by rewrite IH|done]. }
  assert (∀ s n, octet_text s n → 0 <= n <= 255) as Hoct.
  { intros x n (Hx & _ & Hv & Hn). split; [|done]. rewrite <- Hv. by apply digits_val_mono. }
  assert (∀ a rest, Forall isdigit a → match rest with c :: _ => isdigit c = false | [] => True end →
    take_while isdigit (a ++ rest) = a ∧ skip_while isdigit (a ++ rest) = rest) as Happ.
  { clear. intros a rest Ha Hr. induction Ha as [|c a Hc _ IH]; cbn.
    - destruct rest as [|c rest]; [done|]. cbn. by rewrite Hr.
    - apply Is_true_true in Hc. rewrite Hc. by destruct IH as [-> ->]. }
  split.
  - unfold parse_ipv4. rewrite ipv4_part. cbn zeta. intros H. case_decide as Ha; [|done].
    destruct (skip_while isdigit s) as [|x r1] eqn:E1; [done|]. change (0 + 1 =? 4) with false in H.
    destruct (Z.eqb_spec x 46) as [->|]; [|done]. cbn [andb negb] in H.
    rewrite ipv4_part in H. cbn zeta in H. case_decide as Hb; [|done].
    destruct (skip_while isdigit r1) as [|x r2] eqn:E2; [done|]. change (0 + 1 + 1 =? 4) with false in H.
    destruct (Z.eqb_spec x 46) as [->|]; [|done]. cbn [andb negb] in H.
    rewrite ipv4_part in H. cbn zeta in H. case_decide as Hc; [|done].
    destruct (skip_while isdigit r2) as [|x r3] eqn:E3; [done|]. change (0 + 1 + 1 + 1 =? 4) with false in H.
    destruct (Z.eqb_spec x 46) as [->|]; [|done]. cbn [andb negb] in H.
    rewrite ipv4_part in H. cbn zeta in H. case_decide as Hd; [|done].
    change (0 + 1 + 1 + 1 + 1 =? 4) with true in H.
    destruct (skip_while isdigit r3) as [|x r4] eqn:E4; [|by rewrite andb_false_r in H].
    injection H as <-.
    exists (take_while isdigit s), (take_while isdigit r1), (take_while isdigit r2), (take_while isdigit r3).
    do 4 eexists. split_and!; [|done..|].
    + rewrite <- (Hsplit s) at 1. rewrite E1. cbn [app]. f_equal. f_equal.
      rewrite <- (Hsplit r1) at 1. rewrite E2. cbn [app]. f_equal. f_equal.
      rewrite <- (Hsplit r2) at 1. rewrite E3. cbn [app]. f_equal. f_equal.
      rewrite <- (Hsplit r3) at 1. by rewrite E4, app_nil_r.
    + apply ipv4_word; by eapply Hoct.
  - intros (sa & sb & sc & sd & a & b & c & d & -> & Ha & Hb & Hc & Hd & ->).
    assert (∀ s rest v parts n, octet_text s n →
      match rest with c :: _ => isdigit c = false | [] => True end →
      ipv4_loop (s ++ rest) v 0 0 parts =
      let v := u32 (v .<< 8) .| u32 n in
      match rest with
      | [] => if parts + 1 =? 4
              then Some (u32 ((v .& 0xFF) .<< 24) .| u32 ((v .& 0xFF00) .<< 8) .|
                         ((v .>> 8) .& 0xFF00) .| ((v .>> 24) .& 0xFF))
              else None
      | c :: rest => if (c =? 46) && negb (parts + 1 =? 4) then ipv4_loop rest v 0 0 (parts + 1) else None
      end) as Hpart.
    { intros s rest v parts n Hs Hr. destruct (Happ s rest (proj1 Hs) Hr) as [E1 E2].
      rewrite ipv4_part. cbn zeta. rewrite E1, E2. destruct Hs as (? & ? & Hv & ?).
      by rewrite decide_True, Hv by by rewrite Hv. }
    unfold parse_ipv4. cbn [app].
    rewrite (Hpart sa (46 :: _) 0 0 a) by done. cbn zeta. cbn [app]. change (46 =? 46) with true.
    change (0 + 1 =? 4) with false. cbn [andb negb].
    rewrite (Hpart sb (46 :: _) _ (0 + 1) b) by done. cbn zeta. change (46 =? 46) with true.
    change (0 + 1 + 1 =? 4) with false. cbn [andb negb].
    rewrite (Hpart sc (46 :: _) _ (0 + 1 + 1) c) by done. cbn zeta. change (46 =? 46) with true.
    change (0 + 1 + 1 + 1 =? 4) with false. cbn [andb negb].
    rewrite <- (app_nil_r sd), (Hpart sd [] _ (0 + 1 + 1 + 1) d) by done. cbn zeta.
    change (0 + 1 + 1 + 1 + 1 =? 4) with true. cbn iota. f_equal.
    apply ipv4_word; by eapply Hoct.
Qed.

(** ** What a loaded configuration satisfies *)

Definition key_ok (k : list Z) : Prop := is_bytes k ∧ zlen k = Z.of_nat AWG_KEY_LEN.
Definition is_int (x : Z) : Prop := - 2 ^ 31 <= x < 2 ^ 31.
Definition range_ints (r : awg_range) : Prop := is_int r.(rmin) ∧ is_int r.(rmax).
Definition chain_ok (c : option awg_obf_chain) : Prop :=
  match c with Some c => Forall wf_item c.(items) ∧ c.(items) ≠ [] | None => True end.

Fixpoint each {A} (P : A → Prop) (l : list A) : Prop :=
  match l with
  | [] => True
  | x :: l => P x ∧ each P l
  end.

(** Every array within its bounds and every field within its C type. *)
Definition config_wf (c : awg_config) : Prop :=
  each key_ok [c.(private_key); c.(header_protection_key); c.(peer_public_key); c.(preshared_key)] ∧
  is_u 32 c.(address) ∧ (Forall (is_u 32) c.(dns) ∧ zlen c.(dns) <= 4) ∧
  each is_int [c.(address_cidr); c.(jc); c.(jmin); c.(jmax); c.(s1); c.(s2); c.(s3); c.(s4);
                 c.(endpoint_port)] ∧
  each (is_u 32) [c.(h1); c.(h2); c.(h3); c.(h4)] ∧
  each range_ints [c.(rekey_after_time); c.(rekey_timeout); c.(reject_after_time);
    c.(keepalive_timeout); c.(max_handshake_attempts); c.(content_padding_addition);
    c.(persistent_keepalive)] ∧
  (Forall chain_ok c.(c_i) ∧ length c.(c_i) = AWG_MAX_I) ∧
  zlen c.(endpoint_host) < 128.

Lemma s32_int x : is_int (s32 x).
Proof.
  unfold s32, is_int. cbn zeta. pose proof (u32_bound x) as Hx. unfold is_u in Hx.
  destruct (Z.ltb_spec (u32 x) 0x80000000); lia.
Qed.

Lemma atoi_int v : is_int (atoi v).
Proof. apply s32_int. Qed.

Lemma range_parse_ints v : range_ints (parse_range v).
Proof.
  unfold parse_range. destruct (strtol v) as [a fin].
  repeat case_match; split; apply s32_int.
Qed.

Lemma parse_key_ok v n what key : parse_key v n what = inl key → key_ok key.
Proof.
  unfold parse_key. destruct (awg_b64_decode v (Z.of_nat AWG_KEY_LEN)) as [out|] eqn:E; [|done].
  destruct (Z.eqb_spec (zlen out) (Z.of_nat AWG_KEY_LEN)); [|done]. intros [= <-]. split; [|done].
  destruct (b64_decode_loop_bound _ _ _ _ _ _ (Forall_nil_2 _) (Z.le_max_r _ 0) E). done.
Qed.

Lemma parse_ipv4_u32 s v : parse_ipv4 s = Some v → is_u 32 v.
Proof.
  intros (sa & sb & sc & sd & a & b & c & d & -> & Ha & Hb & Hc & Hd & ->)%parse_ipv4_spec.
  assert (∀ s n, octet_text s n → 0 <= n <= 255) as Hoct.
  { intros x n (Hx & _ & Hv & Hn). split; [|done]. rewrite <- Hv. by apply digits_val_mono. }
  apply Hoct in Ha, Hb, Hc, Hd. unfold is_u. lia.
Qed.

Lemma dns_loop_wf fuel v cfg : config_wf cfg → config_wf (dns_loop fuel v cfg).
Proof.
  revert v cfg. induction fuel as [|fuel IH]; intros v cfg Hc; cbn [dns_loop]; [done|].
  destruct (strtok v) as [[tok rest]|]; [|done].
  destruct (Z.ltb_spec (zlen cfg.(dns)) 4); [|done]. apply IH.
  destruct (parse_ipv4 tok) as [ip|] eqn:E; [|done].
  destruct Hc as (? & ? & [Hd Hn] & ?). unfold config_wf. cbn in *. split_and!; try tauto.
  - apply Forall_app. split; [done|]. constructor; [by eapply parse_ipv4_u32|done].
  - rewrite zlen_app. unfold zlen in *. cbn. lia.
Qed.

(** A field written with a value of its type keeps the rest. *)
Ltac config_field :=
  match goal with
  | H : config_wf _ |- config_wf _ =>
    unfold config_wf in H |- *; cbn; cbn in H; destruct_and! H; split_and!; auto using atoi_int, range_parse_ints, u32_bound
  end.

Lemma interface_key_wf k v cfg cfg' :
  config_wf cfg → interface_key k v cfg = inl cfg' → config_wf cfg'.
Proof.
  intros Hc. unfold interface_key.
  destruct (is_key k "PrivateKey").
  { destruct (parse_key v KERR _) eqn:E; [|done]. intros [= <-].
    apply parse_key_ok in E. config_field. }
  destruct (is_key k "HeaderProtectionKey").
  { destruct (parse_key v KERR _) eqn:E; [|done]. intros [= <-].
    apply parse_key_ok in E. config_field. }
  destruct (is_key k "Address").
  { destruct (split_at 47 v) as [[v' cidr]|];
      (destruct (parse_ipv4 _) eqn:E; [|done]); intros [= <-]; apply parse_ipv4_u32 in E.
    - config_field.
    - assert (is_int 32) by (unfold is_int; lia). config_field. }
  destruct (is_key k "DNS"); [intros [= <-]; by apply dns_loop_wf|].
  repeat match goal with
    | |- (if is_key k ?n then _ else _) = _ → _ =>
      destruct (is_key k n); [intros [= <-]; config_field|]
    end.
  destruct (template_index k) as [idx|] eqn:Ei; [|by intros [= <-]].
  destruct (awg_obf_parse v KERR) as [chain kerr] eqn:E.
  assert (chain_ok chain) as Hch by
    (destruct chain; [destruct (parse_wf _ _ _ _ E) as (? & ? & _); by split|done]).
  intros H. assert (cfg' = cfg <| c_i ::= <[idx := chain]> |>) as -> by
    (destruct chain; [congruence|destruct kerr; [congruence|done]]).
  destruct Hc as (? & ? & ? & ? & ? & ? & [Hi Hl] & ?). unfold config_wf. cbn in *. split_and!; try tauto.
  - by apply Forall_insert.
  - by rewrite length_insert.
Qed.

Lemma peer_key_wf k v cfg cfg' :
  config_wf cfg → peer_key k v cfg = inl cfg' → config_wf cfg'.
Proof.
  intros Hc. unfold peer_key.
  destruct (is_key k "PublicKey").
  { destruct (parse_key v KERR _) eqn:E; [|done]. intros [= <-].
    apply parse_key_ok in E. config_field. }
  destruct (is_key k "PresharedKey").
  { destruct (parse_key v KERR _) eqn:E; [|done]. intros [= <-].
    apply parse_key_ok in E. config_field. }
  destruct (is_key k "Endpoint").
  { destruct (rsplit_at 58 v) as [[host port]|]; [|done]. intros [= <-].
    assert (zlen (snprintf 128 host) < 128) by (unfold snprintf; len).
    config_field. }
  destruct (is_key k "PersistentKeepalive"); intros [= <-]; [config_field|done].
Qed.

Lemma config_line_wf line p cfg p' cfg' :
  config_wf cfg → config_line line p cfg = inl (p', cfg') → config_wf cfg'.
Proof.
  intros Hc. unfold config_line.
  set (l := trim _). clearbody l. destruct l as [|c l]; [by intros [= <- <-]|].
  destruct (c =? 91); [by intros [= <- <-]|].
  destruct (split_at 61 (c :: l)) as [[k v]|]; [|by intros [= <- <-]].
  destruct (str_eqb (trim k) []); [by intros [= <- <-]|].
  destruct p.
  - destruct (peer_key _ _ _) eqn:E; [|done]. intros [= <- <-]. by eapply peer_key_wf.
  - destruct (interface_key _ _ _) eqn:E; [|done]. intros [= <- <-]. by eapply interface_key_wf.
Qed.

Lemma config_loop_wf fuel file n p cfg errsz cfg' :
  config_wf cfg → config_loop fuel file n p cfg errsz = inl cfg' → config_wf cfg'.
Proof.
  revert file n p cfg. induction fuel as [|fuel IH]; intros file n p cfg Hc; cbn [config_loop];
    [by intros [= <-]|].
  destruct (fgets LINE_MAX file) as [[buf rest]|]; [|by intros [= <-]].
  destruct (config_line (c_string buf) p cfg) as [[p' cfg'']|[k kerr]] eqn:E; [|done].
  apply IH. by eapply config_line_wf.
Qed.

Lemma config_default_wf : config_wf config_default.
Proof.
  assert (key_ok (replicate AWG_KEY_LEN 0)) by (split; [apply is_bytes_zeros|done]).
  assert (is_u 32 0) by (unfold is_u; lia).
  unfold config_wf, range_ints, is_int. cbn. split_and!; try done; try (unfold is_u; lia); try constructor.
  all: by repeat constructor.
Qed.

(** ** The file as its lines *)

(** A line [fgets] delivers whole. *)
Definition file_line (l : list Z) : Prop := (10 ∉ l) ∧ (0 ∉ l) ∧ zlen l + 1 < LINE_MAX.

Definition lines_text (ls : list (list Z)) : list Z := concat ((λ l, l ++ [10]) <$> ls).

(** The handler folded over the lines: the configuration, or the number of the
    first line it rejects, its key and the reason. *)
Fixpoint config_lines (n : Z) (ls : list (list Z)) (in_peer : bool) (cfg : awg_config)
    : (bool * awg_config) + (Z * list Z * list Z) :=
  match ls with
  | [] => inl (in_peer, cfg)
  | l :: ls =>
    match config_line (l ++ [10]) in_peer cfg with
    | inl (in_peer, cfg) => config_lines (n + 1) ls in_peer cfg
    | inr (k, kerr) => inr (n + 1, k, kerr)
    end
  end.

Lemma fgets_loop_line n l rest : 10 ∉ l → (length l < n)%nat →
  fgets_loop n (l ++ 10 :: rest) = (l ++ [10], rest).
Proof.
  revert n. induction l as [|c l IH]; intros n Hl Hn; (destruct n as [|n]; [cbn in Hn; lia|]); [done|].
  apply not_elem_of_cons in Hl as [Hc Hl]. cbn [app fgets_loop].
  rewrite (proj2 (Z.eqb_neq c 10)) by done. rewrite IH by (done || (cbn in Hn; lia)). done.
Qed.

Lemma c_string_line l : 0 ∉ l → c_string (l ++ [10]) = l ++ [10].
Proof.
  unfold c_string. induction l as [|c l IH]; intros Hl; [done|].
  apply not_elem_of_cons in Hl as [Hc Hl]. cbn. rewrite (proj2 (Z.eqb_neq c 0)) by done.
  cbn. by rewrite IH.
Qed.

Lemma config_loop_lines ls fuel n p cfg errsz : Forall file_line ls → (length ls < fuel)%nat →
  config_loop fuel (lines_text ls) n p cfg errsz =
  match config_lines n ls p cfg with
  | inl (_, cfg) => inl cfg
  | inr (n, k, kerr) =>
    inr (snprintf errsz (str "line " ++ dec n ++ str " (" ++ k ++ str "): " ++ kerr))
  end.
Proof.
  intros Hls. revert fuel n p cfg. induction Hls as [|l ls (H10 & H0 & Hlen) _ IH];
    intros fuel n p cfg Hf; (destruct fuel as [|fuel]; [cbn in Hf; lia|]); [done|].
  cbn [config_loop config_lines length] in *.
  assert (fgets LINE_MAX (lines_text (l :: ls)) = Some (l ++ [10], lines_text ls)) as ->.
  { change (lines_text (l :: ls)) with ((l ++ [10]) ++ lines_text ls). rewrite <- app_assoc. cbn [app].
    rewrite <- (fgets_loop_line (Z.to_nat (LINE_MAX - 1)) l (lines_text ls)).
    - by destruct l.
    - done.
    - unfold zlen, LINE_MAX in *. lia. }
  cbn zeta. rewrite c_string_line by done.
  destruct (config_line (l ++ [10]) p cfg) as [[p' cfg']|[k kerr]]; [|done]. apply IH. lia.
Qed.

Lemma lines_text_length ls : (length ls <= length (lines_text ls))%nat.
Proof. induction ls as [|l ls IH]; [done|]. unfold lines_text in *. cbn. len. Qed.

Lemma config_load_lines ls path errsz : Forall file_line ls →
  awg_config_load (Some (lines_text ls)) path errsz =
  match config_lines 0 ls false config_default with
  | inr (n, k, kerr) =>
    inr (snprintf errsz (str "line " ++ dec n ++ str " (" ++ k ++ str "): " ++ kerr))
  | inl (_, cfg) =>
    if negb cfg.(have_private_key) then inr (snprintf errsz (str "no PrivateKey"))
    else if negb cfg.(have_peer_public_key) then inr (snprintf errsz (str "no peer PublicKey"))
    else if str_eqb cfg.(endpoint_host) [] then inr (snprintf errsz (str "no Endpoint"))
    else inl cfg
  end.
Proof.
  intros Hls. unfold awg_config_load.
  rewrite config_loop_lines by (done || (pose proof (lines_text_length ls); lia)).
  by destruct (config_lines 0 ls false config_default) as [[p cfg]|[[n k] kerr]].
Qed.

(** ** Settings *)

(** Text that survives trimming. *)
Definition solid (s : list Z) : Prop :=
  ∃ a b c, s = a ++ [c] ∧ is_line_end c = false ∧ s = b :: drop 1 s ∧ is_blank b = false.

Lemma trim_solid pre s post : Forall is_blank pre → Forall is_line_end post → solid s →
  trim (pre ++ s ++ post) = s.
Proof.
  intros Hpre Hpost (a & b & c & Ha & Hc & Hb & Hbb). unfold trim.
  assert (skip_while is_line_end (reverse (pre ++ s ++ post)) = reverse (pre ++ s)) as ->.
  { rewrite app_assoc, reverse_app, skip_while_all by by apply Forall_reverse.
    rewrite Ha, !reverse_app. change (reverse [c]) with [c]. cbn [app]. by apply skip_while_nop. }
  rewrite reverse_involutive, skip_while_all by done. rewrite Hb. by apply skip_while_nop.
Qed.

(** A value the writer may put after a key. *)
Definition value_ok (v : list Z) : Prop := solid v ∧ Forall (λ c, c ≠ 0 ∧ c ≠ 10 ∧ c ≠ 35) v.
Definition key_name (k : list Z) : Prop := solid k ∧ Forall (λ c, 48 <= c < 123 ∧ c ≠ 61 ∧ c ≠ 91) k.

Definition setting (kv : list Z * list Z) : list Z := kv.1 ++ str " = " ++ kv.2.

Lemma solid_app a b m : solid a → solid b → solid (a ++ m ++ b).
Proof.
  intros (_ & x & _ & _ & _ & Hx & Hxb) (b' & _ & c & Hc & Hcb & _).
  exists (a ++ m ++ b'), x, c. split_and!; [|done| |done].
  - rewrite Hc, <- !app_assoc. done.
  - rewrite Hx. done.
Qed.

Lemma config_line_setting k v p cfg : key_name k → value_ok v →
  config_line (setting (k, v) ++ [10]) p cfg =
  match (if p then peer_key k v cfg else interface_key k v cfg) with
  | inl cfg => inl (p, cfg)
  | inr kerr => inr (k, kerr)
  end.
Proof.
  intros [Hk Hkc] [Hv Hvc]. unfold setting, config_line. cbn [fst snd].
  assert (∀ c, ¬ (48 <= c < 123 ∧ c ≠ 61 ∧ c ≠ 91) → c ∉ k) as Hkn.
  { intros c Hc Hin. rewrite Forall_forall in Hkc. by apply Hkc in Hin. }
  rewrite (proj2 (split_at_none 35 _)).
  2: { rewrite !not_elem_of_app. split_and!; [apply Hkn; lia|vm_compute; set_solver| |set_solver].
       intros Hin. rewrite Forall_forall in Hvc. apply Hvc in Hin. tauto. }
  assert (trim ((k ++ str " = " ++ v) ++ [10]) = k ++ str " = " ++ v) as ->.
  { apply (trim_solid [] _ [10]); [constructor|by repeat constructor|by apply solid_app]. }
  pose proof Hk as (_ & x & _ & _ & _ & Hx & _).
  assert (x ≠ 91) as Hx91.
  { rewrite Hx, Forall_cons in Hkc. tauto. }
  rewrite Hx at 1. cbn [app]. rewrite (proj2 (Z.eqb_neq x 91)) by done.
  assert (split_at 61 (k ++ str " = " ++ v) = Some (k ++ [32], 32 :: v)) as ->.
  { change (str " = ") with [32; 61; 32]. cbn [app].
    replace (k ++ 32 :: 61 :: 32 :: v) with ((k ++ [32]) ++ 61 :: 32 :: v) by by rewrite <- app_assoc.
    apply split_at_app. rewrite not_elem_of_app. split; [apply Hkn; lia|set_solver]. }
  assert (trim (k ++ [32]) = k) as ->.
  { apply (trim_solid [] k [32]); [constructor|by repeat constructor|done]. }
  assert (trim (32 :: v) = v) as ->.
  { rewrite <- (app_nil_r v) at 1. apply (trim_solid [32] v []); [by repeat constructor|constructor|done]. }
  by rewrite str_eqb_ne by (rewrite Hx; done).
Qed.

(** The settings of a section applied in order. *)
Fixpoint apply_settings (handler : list Z → list Z → awg_config → awg_config + list Z)
    (l : list (list Z * list Z)) (cfg : awg_config) : option awg_config :=
  match l with
  | [] => Some cfg
  | (k, v) :: l =>
    match handler k v cfg with
    | inl cfg => apply_settings handler l cfg
    | inr _ => None
    end
  end.

Lemma apply_settings_app h l1 l2 cfg cfg1 : apply_settings h l1 cfg = Some cfg1 →
  apply_settings h (l1 ++ l2) cfg = apply_settings h l2 cfg1.
Proof.
  revert cfg. induction l1 as [|[k v] l1 IH]; intros cfg; cbn; [by intros [= ->]|].
  destruct (h k v cfg); [apply IH|done].
Qed.

Lemma config_lines_app n l1 l2 p cfg p1 cfg1 : config_lines n l1 p cfg = inl (p1, cfg1) →
  config_lines n (l1 ++ l2) p cfg = config_lines (n + zlen l1) l2 p1 cfg1.
Proof.
  revert n p cfg. induction l1 as [|l l1 IH]; intros n p cfg.
  { intros [= -> ->]. cbn. by rewrite Z.add_0_r. }
  cbn [config_lines app]. destruct (config_line (l ++ [10]) p cfg) as [[p' cfg']|[k kerr]]; [|done].
  intros H. rewrite (IH _ _ _ H). f_equal. unfold zlen. cbn [length]. lia.
Qed.

Lemma config_lines_settings l n (p : bool) cfg cfg1 :
  Forall (λ kv : list Z * list Z, key_name kv.1 ∧ value_ok kv.2) l →
  apply_settings (if p then peer_key else interface_key) l cfg = Some cfg1 →
  config_lines n (setting <$> l) p cfg = inl (p, cfg1).
Proof.
  intros Hl. revert n cfg. induction Hl as [|[k v] l [Hk Hv] _ IH]; intros n cfg.
  { by intros [= ->]. }
  rewrite fmap_cons. cbn [config_lines apply_settings]. intros H.
  rewrite config_line_setting by done.
  destruct p; [destruct (peer_key k v cfg)|destruct (interface_key k v cfg)]; try done; by apply IH.
Qed.

(** ** Printed values *)

(** A class of characters holds of every one of a literal. *)
Ltac lit_chars := vm_compute; repeat (apply Forall_cons_2; [split_and?; done|]); apply Forall_nil_2.

Abbreviation plain := (Forall (λ c, 36 <= c < 127)).

Lemma plain_value v : v ≠ [] → plain v → value_ok v.
Proof.
  intros Hn Hv. assert (∀ c, 36 <= c < 127 → is_line_end c = false ∧ is_blank c = false) as Hc.
  { intros c Hc. unfold is_line_end, is_blank.
    by rewrite !(proj2 (Z.eqb_neq c _)) by lia. }
  split; [|eapply Forall_impl; [exact Hv|]; intros; cbn in *; lia].
  destruct v as [|b v]; [done|]. pose proof Hv as Hv'. rewrite Forall_cons in Hv'. destruct Hv' as [Hb _].
  destruct (b :: v) as [|c l _] eqn:E using rev_ind; [done|].
  apply Forall_app in Hv as [_ Hl]. rewrite Forall_cons in Hl. destruct Hl as [Hl _].
  exists l, b, c. rewrite <- E. split_and!; [by rewrite E|by apply Hc|done|by apply Hc].
Qed.

Lemma dec_plain n : plain (dec n).
Proof. eapply Forall_impl; [apply dec_text|]. intros; cbn in *; lia. Qed.

Lemma dec_value n : value_ok (dec n).
Proof. apply plain_value; [apply dec_nonempty|apply dec_plain]. Qed.

Lemma plain_app a b : plain a → plain b → plain (a ++ b).
Proof. intros. by apply Forall_app. Qed.

(** *** Keys *)

(** A key as the tools write it: raw base64 and its padding. *)
Definition key_text (k : list Z) : list Z := default [] (awg_b64_encode_raw k 43) ++ str "=".

Lemma b64_decode_loop_padded inp acc bits out cap :
  b64_decode_loop (inp ++ [61]) acc bits out cap = b64_decode_loop inp acc bits out cap.
Proof.
  revert acc bits out. induction inp as [|p inp IH]; intros acc bits out; [done|].
  cbn [app b64_decode_loop]. destruct (b64_skipped p); [apply IH|].
  destruct (b64_val p <? 0); [done|]. destruct (8 <=? bits + 6); [|apply IH].
  destruct (zlen out >=? cap); [done|apply IH].
Qed.

Lemma b64_encode_loop_plain fuel inp out cap s :
  plain out → b64_encode_loop fuel inp out cap = Some s → plain s.
Proof.
  revert inp out. induction fuel as [|fuel IH]; intros inp out Ho; cbn [b64_encode_loop];
    [by intros [= <-]|].
  destruct inp as [|x inp]; [by intros [= <-]|]. destruct (_ >? cap); [done|].
  apply IH, plain_app; [done|]. unfold b64_group. apply Forall_fmap, Forall_true. intros k. cbn.
  set (v := _ .& 0x3F). assert (0 <= v < 64) as Hv.
  { unfold v. change 0x3F with (Z.ones 6). rewrite Z.land_ones by lia. apply Z.mod_pos_bound. lia. }
  clearbody v. assert (Forall (λ n, 36 <= B64.[n] < 127) (seq 0 64)) as Hs.
  { vm_compute. repeat (constructor; [done|]). constructor. }
  rewrite Forall_forall in Hs. apply (Hs (Z.to_nat v)), elem_of_seq. lia.
Qed.

Lemma key_text_ok k : key_ok k → value_ok (key_text k) ∧
  ∀ n what, parse_key (key_text k) n what = inl k.
Proof.
  intros [Hb Hl]. unfold key_text.
  destruct (b64_encode_fits k 43 Hb) as (s & E & Hs & Hd); [rewrite Hl; by vm_compute|].
  rewrite E. cbn [default from_option id]. split.
  - apply plain_value; [by destruct s|]. apply plain_app; [|lit_chars].
    eapply (b64_encode_loop_plain _ _ []); [constructor|exact E].
  - intros n what. unfold parse_key, awg_b64_decode. change (str "=") with [61].
    rewrite b64_decode_loop_padded. fold (awg_b64_decode s (Z.of_nat AWG_KEY_LEN)).
    rewrite Hd by lia. by rewrite Hl, Z.eqb_refl.
Qed.

(** *** Addresses *)

Lemma dec_octet b : is_byte b → octet_text (dec b) b.
Proof.
  intros Hb. assert (Forall (λ n, octet_text (dec (Z.of_nat n)) (Z.of_nat n)) (seq 0 256)) as Hs.
  { apply Forall_forall. intros n Hn.
    assert (forallb (λ n, forallb isdigit (dec (Z.of_nat n)) && (1 <=? zlen (dec (Z.of_nat n))) &&
      (zlen (dec (Z.of_nat n)) <=? 3) && (digits_val 0 (dec (Z.of_nat n)) =? Z.of_nat n) &&
      (Z.of_nat n <=? 255)) (seq 0 256) = true) as Hc by (vm_compute; reflexivity).
    rewrite forallb_forall in Hc. specialize (Hc n (proj1 (list_elem_of_In _ _) Hn)).
    rewrite !andb_true_iff, !Z.leb_le, Z.eqb_eq in Hc. destruct Hc as ((((H1 & H2) & H3) & H4) & H5).
    split_and!; [|lia..]. apply dec_digits. lia. }
  rewrite Forall_forall in Hs. unfold is_u in Hb. change (2 ^ 8) with 256 in Hb.
  specialize (Hs (Z.to_nat b)). rewrite Z2Nat.id in Hs by lia. apply Hs, elem_of_seq. lia.
Qed.

(** An address of the header's [u32], as its four octets. *)
Lemma ip_str_spec ip : is_u 32 ip →
  ∃ a b c d, is_bytes [a; b; c; d] ∧ ip = a + 256 * b + 65536 * c + 16777216 * d ∧
    ip_str ip 64 = dec a ++ str "." ++ dec b ++ str "." ++ dec c ++ str "." ++ dec d.
Proof.
  intros Hip. pose proof (le_bytes_bytes 4 ip) as Hb. pose proof (le_val_le_bytes 4 ip) as Hv.
  pose proof (length_le_bytes 4 ip) as Hl. unfold ip_str. cbn zeta.
  set (l := le_bytes 4 ip) in *. clearbody l. explode l Hl.
  exists x, x0, x1, x2. split_and!; [done| |].
  - cbn [le_val] in Hv. change (8 * Z.of_nat 4) with 32 in Hv.
    rewrite Z.mod_small in Hv by done. lia.
  - unfold get. cbn. apply snprintf_fits.
    rewrite !Forall_cons in Hb. destruct Hb as (H0 & H1 & H2 & H3 & _).
    assert (∀ b, is_byte b → zlen (dec b) <= 11) as Hd.
    { intros b Hb. apply dec_length. unfold is_u in Hb. lia. }
    apply Hd in H0, H1, H2, H3. len.
Qed.

Lemma ip_str_ok ip : is_u 32 ip →
  parse_ipv4 (ip_str ip 64) = Some ip ∧ plain (ip_str ip 64) ∧ ip_str ip 64 ≠ [] ∧
  Forall (λ c, isdigit c || (c =? 46)) (ip_str ip 64).
Proof.
  intros Hip. destruct (ip_str_spec ip Hip) as (a & b & c & d & Hb & Hv & ->).
  rewrite !Forall_cons in Hb. destruct Hb as (Ha & Hb & Hc & Hd & _). split_and!.
  - apply parse_ipv4_spec. exists (dec a), (dec b), (dec c), (dec d), a, b, c, d.
    split_and!; auto using dec_octet.
  - assert (plain (str ".")) by lit_chars.
    repeat apply plain_app; auto using dec_plain.
  - intros E. apply app_eq_nil in E as [E _]. by apply dec_nonempty in E.
  - assert (∀ x, is_byte x → Forall (λ c, isdigit c || (c =? 46)) (dec x)) as Hx.
    { intros x Hx. eapply Forall_impl; [apply dec_digits; unfold is_u in Hx; lia|].
      intros y Hy. cbn in *. by rewrite (Is_true_true_1 _ Hy). }
    rewrite !Forall_app. split_and!; auto; by repeat constructor.
Qed.

(** The resolvers, separated by commas. *)
Fixpoint dns_text (l : list Z) : list Z :=
  match l with
  | [] => []
  | [ip] => ip_str ip 64
  | ip :: l => ip_str ip 64 ++ str "," ++ dns_text l
  end.

Lemma strtok_ip ip rest : is_u 32 ip →
  strtok (ip_str ip 64 ++ rest) = Some (ip_str ip 64 ++ take_while (λ c, negb (is_delim c)) rest,
    drop 1 (skip_while (λ c, negb (is_delim c)) rest)).
Proof.
  intros Hip. destruct (ip_str_ok ip Hip) as (_ & _ & Hn & Hc).
  set (s := ip_str ip 64) in *. clearbody s.
  assert (Forall (λ c, negb (is_delim c)) s) as Hnd.
  { eapply Forall_impl; [exact Hc|]. intros c. cbn. unfold is_delim, isdigit. intros H.
    apply orb_prop_elim in H as [H|H].
    - apply andb_prop_elim in H as [H1 _]. apply Is_true_true, Z.leb_le in H1.
      by rewrite (proj2 (Z.eqb_neq c 44)), (proj2 (Z.eqb_neq c 32)) by lia.
    - apply Is_true_true, Z.eqb_eq in H as ->. done. }
  unfold strtok. destruct s as [|x s]; [done|]. cbn [app].
  rewrite skip_while_nop.
  2: { rewrite Forall_cons in Hnd. destruct Hnd as [H _]. by apply negb_true_iff, Is_true_true. }
  change (x :: s ++ rest) with ((x :: s) ++ rest). by rewrite skip_while_all, take_while_all by done.
Qed.

Lemma dns_loop_text l fuel cfg : Forall (is_u 32) l → zlen cfg.(dns) + zlen l <= 4 →
  (length l <= fuel)%nat → dns_loop fuel (dns_text l) cfg = cfg <| dns ::= λ d, d ++ l |>.
Proof.
  intros Hl. revert fuel cfg. induction Hl as [|ip l Hip Hl IH]; intros fuel cfg Hn Hf.
  { transitivity cfg; [by destruct fuel|]. destruct cfg. cbv [modify].
    f_equal. symmetry. apply app_nil_r. }
  destruct fuel as [|fuel]; [cbn in Hf; lia|].
  assert (zlen (ip :: l) = 1 + zlen l) as El by (unfold zlen; cbn [length]; lia). rewrite El in Hn.
  pose proof (zlen_nonneg l).
  assert (∃ tl, dns_text (ip :: l) = ip_str ip 64 ++ tl ∧ take_while (λ c, negb (is_delim c)) tl = [] ∧
    drop 1 (skip_while (λ c, negb (is_delim c)) tl) = dns_text l) as (tl & -> & E1 & E2).
  { destruct l as [|ip' l]; [exists []; by rewrite app_nil_r|].
    exists (str "," ++ dns_text (ip' :: l)). split_and!; [done|done|].
    apply (drop_0 (dns_text (ip' :: l))). }
  cbn [dns_loop]. rewrite strtok_ip, E1, E2, app_nil_r by done.
  rewrite (proj2 (Z.ltb_lt _ _)) by lia.
  destruct (ip_str_ok ip Hip) as (-> & _). rewrite IH.
  - destruct cfg. cbv [modify]. f_equal. symmetry. apply (app_assoc _ [ip] l).
  - cbn. rewrite zlen_app. change (zlen [ip]) with 1. lia.
  - cbn in Hf. lia.
Qed.

(** *** Ranges *)

Lemma range_str_ok r : range_ints r → r.(rmin) <= r.(rmax) →
  parse_range (range_str r 64) = r ∧ value_ok (range_str r 64).
Proof.
  intros [Ha Hb] Hle. unfold is_int in *. unfold range_str. rewrite Z.gtb_ltb.
  pose proof (dec_length r.(rmin) ltac:(lia)). pose proof (dec_length r.(rmax) ltac:(lia)).
  destruct (Z.ltb_spec r.(rmin) r.(rmax)) as [Hlt|Hge].
  - rewrite snprintf_fits by (rewrite !zlen_app; change (zlen (str "-")) with 1; lia).
    split.
    + unfold parse_range. rewrite strtol_dec_int by done. change (str "-") with [45]. cbn [app].
      rewrite <- (app_nil_r (dec r.(rmax))), strtol_dec_int by done. cbn [fst].
      rewrite Z.geb_leb, (proj2 (Z.leb_le _ _)), !s32_int_id by lia. by destruct r.
    + apply plain_value; [intros E; apply app_eq_nil in E as [E _]; by apply dec_nonempty in E|].
      repeat apply plain_app; auto using dec_plain. lit_chars.
  - rewrite snprintf_fits by lia. split; [|apply dec_value].
    unfold parse_range. rewrite <- (app_nil_r (dec r.(rmin))), strtol_dec_int by done.
    rewrite s32_int_id by lia. destruct r as [a b]. cbn in *. by replace b with a by lia.
Qed.

(** *** Templates *)

Lemma print_items_value its : Forall wf_item its → its ≠ [] →
  value_ok (concat (print_item <$> its)).
Proof.
  intros Hits Hn.
  assert (∀ o, wf_item o → ∃ m, print_item o = [60] ++ m ++ [62] ∧ Forall (λ c, c ≠ 0 ∧ c ≠ 10 ∧ c ≠ 35) m)
    as Hi.
  { intros o Ho.
    assert (∀ k n, 0 <= n → Forall (λ c, c ≠ 0 ∧ c ≠ 10 ∧ c ≠ 35) k →
      Forall (λ c, c ≠ 0 ∧ c ≠ 10 ∧ c ≠ 35) (k ++ dec n)) as Hk.
    { intros k n Hn0 Hk. apply Forall_app. split; [done|]. eapply Forall_impl; [apply dec_text|].
      intros; cbn in *; lia. }
    assert (∀ key n, print_item o = str "<" ++ str key ++ str " " ++ dec n ++ str ">" → 0 <= n →
      Forall (λ c, c ≠ 0 ∧ c ≠ 10 ∧ c ≠ 35) (str key) →
      ∃ m, print_item o = [60] ++ m ++ [62] ∧ Forall (λ c, c ≠ 0 ∧ c ≠ 10 ∧ c ≠ 35) m) as Harg.
    { intros key n -> Hn0 Hkey. exists (str key ++ str " " ++ dec n).
      split; [by rewrite <- !app_assoc|]. rewrite app_assoc. apply Hk; [done|].
      apply Forall_app. split; [done|]. lit_chars. }
    destruct o as [[] n d]; unfold wf_item in Ho; cbn in Ho.
    - exists (str "b 0x" ++ concat (hex_byte <$> d)). split; [by rewrite <- !app_assoc|].
      apply Forall_app. split; [lit_chars|].
      eapply Forall_impl; [apply hex_arg; tauto|]. intros c. unfold arg_char. lia.
    - apply (Harg "r"%string n); [done|lia|lit_chars].
    - apply (Harg "rc"%string n); [done|lia|lit_chars].
    - apply (Harg "rd"%string n); [done|lia|lit_chars].
    - exists (str "t"). split; [done|lit_chars].
    - exists (str "d"). split; [done|lit_chars].
    - exists (str "ds"). split; [done|lit_chars].
    - apply (Harg "dz"%string n); [done|lia|lit_chars]. }
  split.
  - destruct its as [|o its]; [done|]. rewrite Forall_cons in Hits. destruct Hits as [Ho Hits].
    assert (∃ l, concat (print_item <$> o :: its) = l ++ [62]) as (l & El).
    { clear Hn. revert o Ho. induction Hits as [|o' its Ho' _ IH]; intros o Ho; 
        destruct (Hi o Ho) as (m & E & _).
      - exists ([60] ++ m). change (concat (print_item <$> [o])) with (print_item o ++ []).
        by rewrite app_nil_r, E, <- app_assoc.
      - destruct (IH o' Ho') as (l & El). exists (print_item o ++ l).
        rewrite fmap_cons. cbn [concat]. rewrite fmap_cons in El. cbn [concat] in El.
        by rewrite fmap_cons; cbn [concat]; rewrite El, <- app_assoc. }
    destruct (Hi o Ho) as (m & E & _).
    exists l, 60, 62. split_and!; [done|done| |done].
    rewrite fmap_cons. cbn [concat]. rewrite E. cbn [app drop]. by rewrite drop_0.
  - clear Hn. induction Hits as [|o its Ho _ IH]; [constructor|]. rewrite fmap_cons. cbn [concat].
    apply Forall_app. split; [|done]. destruct (Hi o Ho) as (m & -> & Hm). cbn [app].
    constructor; [lia|]. apply Forall_app. split; [done|lit_chars].
Qed.
