(* ===== verification/ConfigText.v ===== *)
(** * Configurations as text

    A writer of configuration files, of which [awg_config_load] is the inverse,
    and the properties of the loader. The writer is not part of the program: it
    fixes one way to spell each setting and the theorem shows that the loader
    gives back every field of every configuration it can spell. *)
From stdpp Require Import sets.
From S2P Require Import Prelude Cstr Awg Obf Config.

(** ** The writer *)

Fixpoint template_settings (i : nat) (l : list (option awg_obf_chain)) : list (list Z * list Z) :=
  match l with
  | [] => []
  | Some c :: l => ([73; 49 + Z.of_nat i], c.(spec)) :: template_settings (S i) l
  | None :: l => template_settings (S i) l
  end.

Definition number_settings (c : awg_config) : list (list Z * list Z) :=
  [(str "Jc", dec c.(jc)); (str "Jmin", dec c.(jmin)); (str "Jmax", dec c.(jmax));
   (str "S1", dec c.(s1)); (str "S2", dec c.(s2)); (str "S3", dec c.(s3)); (str "S4", dec c.(s4));
   (str "H1", dec c.(h1)); (str "H2", dec c.(h2)); (str "H3", dec c.(h3)); (str "H4", dec c.(h4));
   (str "RekeyAfterTime", range_str c.(rekey_after_time) 64);
   (str "RekeyTimeout", range_str c.(rekey_timeout) 64);
   (str "RejectAfterTime", range_str c.(reject_after_time) 64);
   (str "KeepaliveTimeout", range_str c.(keepalive_timeout) 64);
   (str "MaxHandshakeAttempts", range_str c.(max_handshake_attempts) 64);
   (str "ContentPaddingAddition", range_str c.(content_padding_addition) 64)].

Definition optional (b : bool) (kv : list Z * list Z) : list (list Z * list Z) :=
  if b then [kv] else [].

Definition nonempty {A} (l : list A) : bool := match l with [] => false | _ => true end.

Definition interface_settings (c : awg_config) : list (list Z * list Z) :=
  [(str "PrivateKey", key_text c.(private_key))] ++
  optional c.(have_header_protection) (str "HeaderProtectionKey", key_text c.(header_protection_key)) ++
  [(str "Address", ip_str c.(address) 64 ++ str "/" ++ dec c.(address_cidr))] ++
  optional (nonempty c.(dns)) (str "DNS", dns_text c.(dns)) ++
  number_settings c ++ template_settings 0 c.(c_i).

Definition peer_settings (c : awg_config) : list (list Z * list Z) :=
  [(str "PublicKey", key_text c.(peer_public_key))] ++
  optional c.(have_preshared_key) (str "PresharedKey", key_text c.(preshared_key)) ++
  [(str "Endpoint", c.(endpoint_host) ++ str ":" ++ dec c.(endpoint_port));
   (str "PersistentKeepalive", range_str c.(persistent_keepalive) 64)].

Definition config_text (c : awg_config) : list Z :=
  lines_text ([str "[Interface]"] ++ (setting <$> interface_settings c) ++
              [str "[Peer]"] ++ (setting <$> peer_settings c)).

(** The configurations the writer can spell. *)
Definition spellable (c : awg_config) : Prop :=
  config_wf c ∧ c.(have_private_key) = true ∧ c.(have_peer_public_key) = true ∧
  (c.(have_header_protection) = false → c.(header_protection_key) = replicate AWG_KEY_LEN 0) ∧
  (c.(have_preshared_key) = false → c.(preshared_key) = replicate AWG_KEY_LEN 0) ∧
  each (λ r, r.(rmin) <= r.(rmax)) [c.(rekey_after_time); c.(rekey_timeout); c.(reject_after_time);
    c.(keepalive_timeout); c.(max_handshake_attempts); c.(content_padding_addition);
    c.(persistent_keepalive)] ∧
  Forall (λ o, match o with
               | Some ch => ch.(spec) = concat (print_item <$> ch.(items)) ∧ zlen ch.(spec) <= 8000
               | None => True
               end) c.(c_i) ∧
  c.(endpoint_host) ≠ [] ∧ plain c.(endpoint_host).

(** ** The settings are lines the loader reads whole *)

Definition good_setting (kv : list Z * list Z) : Prop :=
  (key_name kv.1 ∧ value_ok kv.2) ∧ zlen kv.1 <= 40 ∧ zlen kv.2 <= 8100.

Lemma good_setting_line kv : good_setting kv → file_line (setting kv).
Proof.
  destruct kv as [k v]. intros ([[_ Hk] [_ Hv]] & Hlk & Hlv). unfold setting. cbn [fst snd] in *.
  assert (∀ c, c = 0 ∨ c = 10 → c ∉ k ++ str " = " ++ v) as Hn.
  { intros c Hc. rewrite !not_elem_of_app. rewrite Forall_forall in Hk, Hv. split_and!.
    - intros Hin. apply Hk in Hin. lia.
    - destruct Hc as [-> | ->]; vm_compute; set_solver.
    - intros Hin. apply Hv in Hin. lia. }
  split_and!; [apply Hn; tauto|apply Hn; tauto|].
  rewrite !zlen_app. change (zlen (str " = ")) with 3. unfold LINE_MAX. lia.
Qed.

Lemma key_name_check k : k ≠ [] →
  forallb (λ c, (48 <=? c) && (c <? 123) && negb (c =? 61) && negb (c =? 91)) k = true → key_name k.
Proof.
  intros Hn Hk. assert (Forall (λ c, 48 <= c < 123 ∧ c ≠ 61 ∧ c ≠ 91) k) as Hall.
  { apply Forall_forall. intros c Hc. rewrite forallb_forall in Hk.
    specialize (Hk c (proj1 (list_elem_of_In _ _) Hc)).
    rewrite !andb_true_iff, !negb_true_iff, Z.leb_le, Z.ltb_lt, !Z.eqb_neq in Hk. lia. }
  split; [|done]. apply plain_value; [done|]. eapply Forall_impl; [exact Hall|]. intros; cbn in *; lia.
Qed.

Lemma good_intro k v : k ≠ [] →
  forallb (λ c, (48 <=? c) && (c <? 123) && negb (c =? 61) && negb (c =? 91)) k = true →
  zlen k <= 40 → value_ok v → zlen v <= 8100 → good_setting (k, v).
Proof. intros. split; [split; [by apply key_name_check|done]|done]. Qed.

Lemma snprintf_len n s : 0 < n → zlen (snprintf n s) < n.
Proof. intros. unfold snprintf. len. Qed.

Lemma key_text_len k : key_ok k → zlen (key_text k) <= 8100.
Proof.
  intros [Hb Hl]. unfold key_text.
  destruct (b64_encode_fits k 43 Hb) as (s & -> & Hs & _); [rewrite Hl; by vm_compute|].
  cbn [default from_option id]. rewrite zlen_app, Hs, Hl. by vm_compute.
Qed.

Lemma good_key k key : k ≠ [] →
  forallb (λ c, (48 <=? c) && (c <? 123) && negb (c =? 61) && negb (c =? 91)) k = true →
  zlen k <= 40 → key_ok key → good_setting (k, key_text key).
Proof. intros. apply good_intro; auto using key_text_len. by apply key_text_ok. Qed.

Lemma good_range k r : k ≠ [] →
  forallb (λ c, (48 <=? c) && (c <? 123) && negb (c =? 61) && negb (c =? 91)) k = true →
  zlen k <= 40 → range_ints r → r.(rmin) <= r.(rmax) → good_setting (k, range_str r 64).
Proof.
  intros. apply good_intro; auto; [by apply range_str_ok|].
  unfold range_str. pose proof (λ s, snprintf_len 64 s ltac:(lia)) as Hs.
  destruct (_ >? _); [pose proof (Hs (dec r.(rmin) ++ str "-" ++ dec r.(rmax)))
    |pose proof (Hs (dec r.(rmin)))]; lia.
Qed.

Lemma good_int k n : k ≠ [] →
  forallb (λ c, (48 <=? c) && (c <? 123) && negb (c =? 61) && negb (c =? 91)) k = true →
  zlen k <= 40 → - 2 ^ 32 <= n <= 2 ^ 32 → good_setting (k, dec n).
Proof.
  intros. apply good_intro; auto using dec_value. pose proof (dec_length n ltac:(done)). lia.
Qed.

Lemma ip_str_len ip : zlen (ip_str ip 64) < 64.
Proof. by apply snprintf_len. Qed.

Lemma dns_text_plain l : Forall (is_u 32) l → plain (dns_text l) ∧ zlen (dns_text l) <= 64 * zlen l.
Proof.
  induction 1 as [|ip l Hip Hl [IHp IHl]]; [done|].
  destruct (ip_str_ok ip Hip) as (_ & Hp & _). pose proof (ip_str_len ip).
  assert (zlen (ip :: l) = 1 + zlen l) as -> by (unfold zlen; cbn [length]; lia).
  destruct l as [|ip' l]; [split; [done|change (zlen (@nil Z)) with 0; cbn [dns_text]; lia]|].
  change (dns_text (ip :: ip' :: l)) with (ip_str ip 64 ++ str "," ++ dns_text (ip' :: l)).
  split; [repeat apply plain_app; [done|lit_chars|done]|].
  rewrite !zlen_app. change (zlen (str ",")) with 1. lia.
Qed.

Lemma dns_text_nonempty ip l : Forall (is_u 32) (ip :: l) → dns_text (ip :: l) ≠ [].
Proof.
  rewrite Forall_cons. intros [Hip _]. destruct (ip_str_ok ip Hip) as (_ & _ & Hn & _).
  destruct l; [done|]. change (dns_text (ip :: z :: l)) with (ip_str ip 64 ++ str "," ++ dns_text (z :: l)).
  intros E. by apply app_eq_nil in E as [E _].
Qed.

Lemma template_good i l : (i + length l <= 5)%nat → Forall chain_ok l →
  Forall (λ o, match o with
               | Some ch => ch.(spec) = concat (print_item <$> ch.(items)) ∧ zlen ch.(spec) <= 8000
               | None => True
               end) l →
  Forall good_setting (template_settings i l).
Proof.
  intros Hi Hw. revert i Hi. induction Hw as [|o l Ho _ IH]; intros i Hi Hs; [constructor|].
  apply Forall_cons in Hs as [Hc Hs]. cbn [length] in Hi. specialize (IH (S i) ltac:(lia) Hs).
  destruct o as [ch|]; [|done]. cbn [template_settings]. constructor; [|done].
  destruct Ho as [Hits Hne]. destruct Hc as [Hsp Hl].
  apply good_intro; [done| |done| |lia].
  - do 5 (destruct i as [|i]; [done|]). lia.
  - rewrite Hsp. by apply print_items_value.
Qed.

Ltac good_name := first [done | by vm_compute].

Lemma interface_good c : spellable c → Forall good_setting (interface_settings c).
Proof.
  intros (Hwf & _ & _ & _ & _ & Hr & Ht & _). unfold config_wf in Hwf. cbn in Hwf, Hr.
  destruct_and! Hwf. destruct_and! Hr. unfold interface_settings, is_int, is_u in *.
  repeat (apply Forall_app; split).
  - constructor; [|constructor]. by apply good_key; [good_name..|].
  - unfold optional. destruct (have_header_protection c); [|constructor].
    constructor; [|constructor]. by apply good_key; [good_name..|].
  - constructor; [|constructor]. destruct (ip_str_ok c.(address)) as (_ & Hp & Hn & _); [done|].
    pose proof (ip_str_len c.(address)). pose proof (dec_length c.(address_cidr) ltac:(lia)).
    apply good_intro; [good_name..| |].
    + apply plain_value; [intros E; by apply app_eq_nil in E as [? _]|].
      repeat apply plain_app; auto using dec_plain. lit_chars.
    + rewrite !zlen_app. change (zlen (str "/")) with 1. lia.
  - unfold optional. destruct (dns c) as [|ip l] eqn:E; [constructor|]. cbn [nonempty].
    constructor; [|constructor]. destruct (dns_text_plain (ip :: l)) as [Hp Hl]; [done|].
    apply good_intro; [good_name..| |lia].
    apply plain_value; [by apply dns_text_nonempty|done].
  - unfold number_settings.
    repeat (apply Forall_cons_2; [first [apply good_int; [good_name..|lia]|
      apply good_range; [good_name..|assumption|assumption]]|]). constructor.
  - apply template_good; [unfold AWG_MAX_I in *; lia|done|done].
Qed.

Lemma peer_good c : spellable c → Forall good_setting (peer_settings c).
Proof.
  intros (Hwf & _ & _ & _ & _ & Hr & _ & Hne & Hp). unfold config_wf in Hwf. cbn in Hwf, Hr.
  destruct_and! Hwf. destruct_and! Hr. unfold peer_settings, is_int, is_u in *.
  repeat (apply Forall_app; split).
  - constructor; [|constructor]. by apply good_key; [good_name..|].
  - unfold optional. destruct (have_preshared_key c); [|constructor].
    constructor; [|constructor]. by apply good_key; [good_name..|].
  - pose proof (dec_length c.(endpoint_port) ltac:(lia)). apply Forall_cons_2; [|apply Forall_cons_2; [|constructor]].
    + apply good_intro; [good_name..| |].
      * apply plain_value; [intros E; by apply app_eq_nil in E as [? _]|].
        repeat apply plain_app; auto using dec_plain. lit_chars.
      * rewrite !zlen_app. change (zlen (str ":")) with 1. lia.
    + apply good_range; [good_name..|assumption|assumption].
Qed.

(** ** The settings rebuild the configuration *)

Lemma config_ext (a b : awg_config) :
  a.(private_key) = b.(private_key) → a.(have_private_key) = b.(have_private_key) →
  a.(address) = b.(address) → a.(address_cidr) = b.(address_cidr) → a.(dns) = b.(dns) →
  a.(jc) = b.(jc) → a.(jmin) = b.(jmin) → a.(jmax) = b.(jmax) →
  a.(s1) = b.(s1) → a.(s2) = b.(s2) → a.(s3) = b.(s3) → a.(s4) = b.(s4) →
  a.(h1) = b.(h1) → a.(h2) = b.(h2) → a.(h3) = b.(h3) → a.(h4) = b.(h4) →
  a.(header_protection_key) = b.(header_protection_key) →
  a.(have_header_protection) = b.(have_header_protection) →
  a.(rekey_after_time) = b.(rekey_after_time) → a.(rekey_timeout) = b.(rekey_timeout) →
  a.(reject_after_time) = b.(reject_after_time) → a.(keepalive_timeout) = b.(keepalive_timeout) →
  a.(max_handshake_attempts) = b.(max_handshake_attempts) →
  a.(content_padding_addition) = b.(content_padding_addition) → a.(c_i) = b.(c_i) →
  a.(peer_public_key) = b.(peer_public_key) → a.(have_peer_public_key) = b.(have_peer_public_key) →
  a.(preshared_key) = b.(preshared_key) → a.(have_preshared_key) = b.(have_preshared_key) →
  a.(endpoint_host) = b.(endpoint_host) → a.(endpoint_port) = b.(endpoint_port) →
  a.(persistent_keepalive) = b.(persistent_keepalive) → a = b.
Proof. destruct a, b. cbn. intros. subst. reflexivity. Qed.

Lemma numbers_apply c cfg : spellable c →
  apply_settings interface_key (number_settings c) cfg =
  Some (cfg <| jc := c.(jc) |> <| jmin := c.(jmin) |> <| jmax := c.(jmax) |>
    <| s1 := c.(s1) |> <| s2 := c.(s2) |> <| s3 := c.(s3) |> <| s4 := c.(s4) |>
    <| h1 := c.(h1) |> <| h2 := c.(h2) |> <| h3 := c.(h3) |> <| h4 := c.(h4) |>
    <| rekey_after_time := c.(rekey_after_time) |> <| rekey_timeout := c.(rekey_timeout) |>
    <| reject_after_time := c.(reject_after_time) |> <| keepalive_timeout := c.(keepalive_timeout) |>
    <| max_handshake_attempts := c.(max_handshake_attempts) |>
    <| content_padding_addition := c.(content_padding_addition) |>).
Proof.
  intros (Hwf & _ & _ & _ & _ & Hr & _). unfold config_wf in Hwf. cbn in Hwf, Hr.
  destruct_and! Hwf. destruct_and! Hr.
  transitivity (Some (cfg <| jc := atoi (dec c.(jc)) |> <| jmin := atoi (dec c.(jmin)) |>
    <| jmax := atoi (dec c.(jmax)) |> <| s1 := atoi (dec c.(s1)) |> <| s2 := atoi (dec c.(s2)) |>
    <| s3 := atoi (dec c.(s3)) |> <| s4 := atoi (dec c.(s4)) |>
    <| h1 := u32 (strtoul (dec c.(h1))) |> <| h2 := u32 (strtoul (dec c.(h2))) |>
    <| h3 := u32 (strtoul (dec c.(h3))) |> <| h4 := u32 (strtoul (dec c.(h4))) |>
    <| rekey_after_time := parse_range (range_str c.(rekey_after_time) 64) |>
    <| rekey_timeout := parse_range (range_str c.(rekey_timeout) 64) |>
    <| reject_after_time := parse_range (range_str c.(reject_after_time) 64) |>
    <| keepalive_timeout := parse_range (range_str c.(keepalive_timeout) 64) |>
    <| max_handshake_attempts := parse_range (range_str c.(max_handshake_attempts) 64) |>
    <| content_padding_addition := parse_range (range_str c.(content_padding_addition) 64) |>)).
  { reflexivity. }
  assert (∀ n, is_u 32 n → u32 (strtoul (dec n)) = n) as Hu.
  { intros n Hn. rewrite strtoul_dec; [by apply u32_small|]. unfold is_u in Hn.
    change ULONG_MAX with 18446744073709551615. lia. }
  assert (∀ r, range_ints r → r.(rmin) <= r.(rmax) → parse_range (range_str r 64) = r) as Hrg.
  { intros r Hi Hle. by destruct (range_str_ok r Hi Hle). }
  rewrite !atoi_dec, !Hu, !Hrg by assumption. reflexivity.
Qed.

Lemma template_key i v cfg : (i < 5)%nat →
  interface_key [73; 49 + Z.of_nat i] v cfg =
  let '(chain, kerr) := awg_obf_parse v KERR in
  match chain, kerr with
  | None, _ :: _ => inr kerr
  | _, _ => inl (cfg <| c_i ::= <[i := chain]> |>)
  end.
Proof. intros Hi. do 5 (destruct i as [|i]; [reflexivity|]). lia. Qed.

Lemma templates_apply l pre cfg :
  cfg.(c_i) = pre ++ replicate (length l) None → (length pre + length l <= 5)%nat →
  Forall chain_ok l →
  Forall (λ o, match o with
               | Some ch => ch.(spec) = concat (print_item <$> ch.(items)) ∧ zlen ch.(spec) <= 8000
               | None => True
               end) l →
  apply_settings interface_key (template_settings (length pre) l) cfg =
  Some (cfg <| c_i := pre ++ l |>).
Proof.
  revert pre cfg. induction l as [|o l IH]; intros pre cfg Hi Hl Hw Hs.
  { cbn in Hi |- *. rewrite app_nil_r in *. rewrite <- Hi. by destruct cfg. }
  apply Forall_cons in Hw as [Ho Hw]. apply Forall_cons in Hs as [Hc Hs]. cbn [length] in *.
  assert (length (pre ++ [o]) = S (length pre)) as El by len.
  assert (pre ++ o :: l = (pre ++ [o]) ++ l) as -> by by rewrite <- app_assoc.
  destruct o as [ch|]; cbn [template_settings apply_settings].
  - destruct Ho as [Hits Hne]. destruct Hc as [Hsp _]. rewrite template_key by lia.
    rewrite Hsp, parse_print by done. rewrite <- El. rewrite IH.
    + rewrite <- Hsp. destruct ch. by destruct cfg.
    + cbn. rewrite Hi. cbn [replicate]. rewrite insert_app_r_alt, Nat.sub_diag by lia. cbn.
      rewrite <- Hsp, <- app_assoc. by destruct ch.
    + len.
    + done.
    + done.
  - rewrite <- El. rewrite IH; [done| |len|done|done].
    rewrite Hi. cbn [replicate]. by rewrite <- app_assoc.
Qed.

Lemma private_apply key cfg : key_ok key →
  apply_settings interface_key [(str "PrivateKey", key_text key)] cfg =
  Some (cfg <| private_key := key |> <| have_private_key := true |>).
Proof.
  intros Hk. cbn [apply_settings]. change (interface_key (str "PrivateKey") (key_text key) cfg)
    with (match parse_key (key_text key) KERR "PrivateKey" with
          | inr kerr => inr kerr
          | inl key => inl (cfg <| private_key := key |> <| have_private_key := true |>)
          end : awg_config + list Z).
  by rewrite (proj2 (key_text_ok key Hk)).
Qed.

Lemma header_apply b key cfg : key_ok key →
  cfg.(have_header_protection) = false → (b = false → cfg.(header_protection_key) = key) →
  apply_settings interface_key (optional b (str "HeaderProtectionKey", key_text key)) cfg =
  Some (cfg <| header_protection_key := key |> <| have_header_protection := b |>).
Proof.
  intros Hk Hh Hb. unfold optional. destruct b; cbn [apply_settings].
  - change (interface_key (str "HeaderProtectionKey") (key_text key) cfg)
    with (match parse_key (key_text key) KERR "HeaderProtectionKey" with
          | inr kerr => inr kerr
          | inl key => inl (cfg <| header_protection_key := key |> <| have_header_protection := true |>)
          end : awg_config + list Z).
    by rewrite (proj2 (key_text_ok key Hk)).
  - rewrite <- Hb by done. rewrite <- Hh. by destruct cfg.
Qed.

Lemma address_apply ip cidr cfg : is_u 32 ip → is_int cidr →
  apply_settings interface_key [(str "Address", ip_str ip 64 ++ str "/" ++ dec cidr)] cfg =
  Some (cfg <| address_cidr := cidr |> <| address := ip |>).
Proof.
  intros Hip Hc. cbn [apply_settings]. set (v := _ ++ str "/" ++ _).
  change (interface_key (str "Address") v cfg) with
    (let '(v, cfg) := match split_at 47 v with
                | Some (v, cidr) => (v, cfg <| address_cidr := atoi cidr |>)
                | None => (v, cfg <| address_cidr := 32 |>)
                end in
     match parse_ipv4 v with
     | None => inr (snprintf KERR (str "Address is not IPv4"))
     | Some ip => inl (cfg <| address := ip |>)
     end : awg_config + list Z).
  destruct (ip_str_ok ip Hip) as (Hpi & _ & _ & Hch).
  assert (47 ∉ ip_str ip 64) as Hno.
  { intros Hin. rewrite Forall_forall in Hch. apply Hch in Hin. by vm_compute in Hin. }
  unfold v. change (str "/") with [47]. cbn [app]. rewrite split_at_app by done.
  by rewrite atoi_dec, Hpi by done.
Qed.

Lemma dns_text_long l : Forall (is_u 32) l → (length l <= length (dns_text l))%nat.
Proof.
  induction 1 as [|ip l Hip Hl IH]; [done|]. destruct l as [|ip' l].
  - pose proof (dns_text_nonempty ip [] ltac:(by constructor)). destruct (dns_text [ip]); [done|cbn; lia].
  - change (dns_text (ip :: ip' :: l)) with (ip_str ip 64 ++ str "," ++ dns_text (ip' :: l)).
    rewrite !length_app. change (length (str ",")) with 1%nat. cbn [length] in *. lia.
Qed.

Lemma dns_apply l cfg : Forall (is_u 32) l → cfg.(dns) = [] → zlen l <= 4 →
  apply_settings interface_key (optional (nonempty l) (str "DNS", dns_text l)) cfg =
  Some (cfg <| dns := l |>).
Proof.
  intros Hl Hd Hn. destruct l as [|ip l]; cbn [nonempty optional apply_settings].
  { rewrite <- Hd. by destruct cfg. }
  set (v := dns_text (ip :: l)).
  change (interface_key (str "DNS") v cfg) with
    (inl (dns_loop (length v) v cfg) : awg_config + list Z).
  pose proof (dns_text_long _ Hl) as Hlong. fold v in Hlong.
  unfold v at 2. rewrite dns_loop_text; [|done|by rewrite Hd|done].
  destruct cfg. cbn in Hd. by subst.
Qed.

(** The [Interface] section, then the [Peer] section. *)
Definition after_interface (c cfg : awg_config) : awg_config :=
  cfg <| private_key := c.(private_key) |> <| have_private_key := true |>
    <| header_protection_key := c.(header_protection_key) |>
    <| have_header_protection := c.(have_header_protection) |>
    <| address_cidr := c.(address_cidr) |> <| address := c.(address) |> <| dns := c.(dns) |>
    <| jc := c.(jc) |> <| jmin := c.(jmin) |> <| jmax := c.(jmax) |>
    <| s1 := c.(s1) |> <| s2 := c.(s2) |> <| s3 := c.(s3) |> <| s4 := c.(s4) |>
    <| h1 := c.(h1) |> <| h2 := c.(h2) |> <| h3 := c.(h3) |> <| h4 := c.(h4) |>
    <| rekey_after_time := c.(rekey_after_time) |> <| rekey_timeout := c.(rekey_timeout) |>
    <| reject_after_time := c.(reject_after_time) |> <| keepalive_timeout := c.(keepalive_timeout) |>
    <| max_handshake_attempts := c.(max_handshake_attempts) |>
    <| content_padding_addition := c.(content_padding_addition) |> <| c_i := c.(c_i) |>.

Definition after_peer (c cfg : awg_config) : awg_config :=
  cfg <| peer_public_key := c.(peer_public_key) |> <| have_peer_public_key := true |>
    <| preshared_key := c.(preshared_key) |> <| have_preshared_key := c.(have_preshared_key) |>
    <| endpoint_port := c.(endpoint_port) |> <| endpoint_host := c.(endpoint_host) |>
    <| persistent_keepalive := c.(persistent_keepalive) |>.

Lemma interface_apply c : spellable c →
  apply_settings interface_key (interface_settings c) config_default =
  Some (after_interface c config_default).
Proof.
  intros Hc. pose proof Hc as (Hwf & _ & _ & Hhp & _ & _ & Ht & _).
  unfold config_wf in Hwf. cbn in Hwf. destruct_and! Hwf. unfold interface_settings.
  rewrite (apply_settings_app _ _ _ _ _ (private_apply c.(private_key) _ ltac:(assumption))).
  erewrite apply_settings_app.
  2: { apply header_apply; [assumption|reflexivity|]. intros Hb. by rewrite Hhp. }
  erewrite apply_settings_app by (by apply address_apply).
  erewrite apply_settings_app by (by apply dns_apply).
  erewrite apply_settings_app by (by apply numbers_apply).
  apply (templates_apply c.(c_i) []); [|cbn; unfold AWG_MAX_I in *; lia|done|done].
  transitivity (replicate AWG_MAX_I (@None awg_obf_chain)); [reflexivity|].
  cbn [app]. by f_equal.
Qed.

Lemma peer_apply c cfg : spellable c → cfg.(preshared_key) = replicate AWG_KEY_LEN 0 →
  cfg.(have_preshared_key) = false →
  apply_settings peer_key (peer_settings c) cfg = Some (after_peer c cfg).
Proof.
  intros Hc Hpsk Hhave. pose proof Hc as (Hwf & _ & _ & _ & Hnp & Hr & _ & _ & Hhost).
  unfold config_wf in Hwf. cbn in Hwf, Hr. destruct_and! Hwf. destruct_and! Hr. unfold peer_settings.
  set (cfg1 := cfg <| peer_public_key := c.(peer_public_key) |> <| have_peer_public_key := true |>).
  rewrite (apply_settings_app _ _ _ _ cfg1).
  2: { cbn [apply_settings]. change (peer_key (str "PublicKey") (key_text (peer_public_key c)) cfg)
         with (match parse_key (key_text (peer_public_key c)) KERR "PublicKey" with
               | inr kerr => inr kerr
               | inl key => inl (cfg <| peer_public_key := key |> <| have_peer_public_key := true |>)
               end : awg_config + list Z).
       by rewrite (proj2 (key_text_ok c.(peer_public_key) ltac:(assumption))). }
  set (cfg2 := cfg1 <| preshared_key := c.(preshared_key) |> <| have_preshared_key := c.(have_preshared_key) |>).
  rewrite (apply_settings_app _ _ _ _ cfg2).
  2: { unfold optional, cfg2. destruct (have_preshared_key c); cbn [apply_settings].
       - change (peer_key (str "PresharedKey") (key_text (preshared_key c)) cfg1)
         with (match parse_key (key_text (preshared_key c)) KERR "PresharedKey" with
               | inr kerr => inr kerr
               | inl key => inl (cfg1 <| preshared_key := key |> <| have_preshared_key := true |>)
               end : awg_config + list Z).
         by rewrite (proj2 (key_text_ok c.(preshared_key) ltac:(assumption))).
       - rewrite Hnp, <- Hpsk, <- Hhave by done. by destruct cfg. }
  cbn [apply_settings]. set (v := _ ++ str ":" ++ _).
  change (peer_key (str "Endpoint") v cfg2) with
    (match rsplit_at 58 v with
     | None => inr (snprintf KERR (str "Endpoint has no port"))
     | Some (host, port) =>
       inl (cfg2 <| endpoint_port := atoi port |> <| endpoint_host := snprintf 128 host |>)
     end : awg_config + list Z).
  assert (rsplit_at 58 v = Some (c.(endpoint_host), dec c.(endpoint_port))) as ->.
  { unfold rsplit_at, v. rewrite !reverse_app. change (reverse (str ":")) with [58].
    rewrite <- app_assoc. cbn [app]. rewrite split_at_app; [by rewrite !reverse_involutive|].
    rewrite elem_of_reverse. intros Hin. pose proof (dec_text c.(endpoint_port)) as Hd.
    rewrite Forall_forall in Hd. apply Hd in Hin. lia. }
  rewrite atoi_dec, snprintf_fits by assumption.
  match goal with |- context [peer_key (str "PersistentKeepalive") ?r ?cfg] =>
    change (peer_key (str "PersistentKeepalive") r cfg) with
      (inl (cfg <| persistent_keepalive := parse_range r |>) : awg_config + list Z) end.
  by rewrite (proj1 (range_str_ok c.(persistent_keepalive) ltac:(assumption) ltac:(assumption))).
Qed.

Lemma config_text_loads c path errsz : spellable c →
  awg_config_load (Some (config_text c)) path errsz = inl c.
Proof.
  intros Hc. unfold config_text. rewrite config_load_lines.
  2: { repeat (apply Forall_app; split).
       - apply Forall_singleton. split_and!; [vm_compute; set_solver|vm_compute; set_solver|done].
       - eapply Forall_fmap, Forall_impl; [by apply interface_good|apply good_setting_line].
       - apply Forall_singleton. split_and!; [vm_compute; set_solver|vm_compute; set_solver|done].
       - eapply Forall_fmap, Forall_impl; [by apply peer_good|apply good_setting_line]. }
  rewrite (config_lines_app _ _ _ _ _ false config_default) by reflexivity.
  erewrite config_lines_app.
  2: { apply (config_lines_settings _ _ false); [|by apply interface_apply].
       eapply Forall_impl; [by apply interface_good|]. by intros ? [? _]. }
  erewrite (config_lines_app _ _ _ _ _ true) by reflexivity.
  rewrite (config_lines_settings _ _ true _ (after_peer c (after_interface c config_default))).
  2: { eapply Forall_impl; [by apply peer_good|]. by intros ? [? _]. }
  2: { by apply peer_apply. }
  destruct Hc as (_ & Hpk & Hpp & _ & _ & _ & _ & Hne & _).
  assert (after_peer c (after_interface c config_default) = c) as ->
    by (apply config_ext; try reflexivity; by symmetry).
  rewrite Hpk, Hpp. cbn [negb]. by rewrite str_eqb_ne.
Qed.

Lemma loaded_wf (file path : list Z) (errsz : Z) (c : awg_config) :
  awg_config_load (Some file) path errsz = inl c →
  config_wf c ∧ c.(have_private_key) = true ∧ c.(have_peer_public_key) = true ∧ c.(endpoint_host) ≠ [].
Proof.
  unfold awg_config_load. destruct (config_loop _ _ _ _ _ _) as [cfg|] eqn:E; [|done].
  apply config_loop_wf in E; [|apply config_default_wf].
  destruct (have_private_key cfg) eqn:E1; [|done]. destruct (have_peer_public_key cfg) eqn:E2; [|done].
  cbn [negb]. unfold str_eqb. case_bool_decide; [done|]. intros [= <-]. done.
Qed.

(** ** Properties *)

(** C12: a configuration written out setting by setting, keys in base64, addresses
    in dotted decimal, ranges as [min-max], templates as their tags, is loaded back
    field for field. *)
Theorem config_roundtrip (c : awg_config) (path : list Z) (errsz : Z) : spellable c →
  awg_config_load (Some (config_text c)) path errsz = inl c.
Proof. apply config_text_loads. Qed.

(** C13: every configuration the loader accepts is well formed, whatever the file:
    the keys are 32 bytes, at most four resolvers, every integer within its C type,
    only well-formed templates, a host name that fits its array; and the three
    required settings are present. *)
Theorem config_load_wf (file path : list Z) (errsz : Z) (c : awg_config) :
  awg_config_load (Some file) path errsz = inl c →
  config_wf c ∧ c.(have_private_key) = true ∧ c.(have_peer_public_key) = true ∧ c.(endpoint_host) ≠ [].
Proof. apply loaded_wf. Qed.

(** An address is accepted exactly when it is four decimal octets of one to
    three digits separated by dots, and is stored in network order. *)
Theorem parse_ipv4_exact (s : list Z) (v : Z) :
  parse_ipv4 s = Some v ↔
  ∃ sa sb sc sd a b c d, s = sa ++ str "." ++ sb ++ str "." ++ sc ++ str "." ++ sd ∧
    octet_text sa a ∧ octet_text sb b ∧ octet_text sc c ∧ octet_text sd d ∧
    v = a + 256 * b + 65536 * c + 16777216 * d.
Proof. apply parse_ipv4_spec. Qed.

(** The loader's errors. A file that cannot be opened is named. The first line
    whose setting is refused ends the load, reported by its number, its key and the
    reason, whatever follows it. A file without refused lines is still refused when
    a key or the endpoint is missing. *)
Theorem config_load_errors (ls rest : list (list Z)) (l path : list Z) (errsz : Z) :
  Forall file_line ls → file_line l → Forall file_line rest →
  awg_config_load None path errsz = inr (snprintf errsz (str "cannot open " ++ path)) ∧
  (∀ p cfg k kerr, config_lines 0 ls false config_default = inl (p, cfg) →
    config_line (l ++ [10]) p cfg = inr (k, kerr) →
    awg_config_load (Some (lines_text (ls ++ l :: rest))) path errsz =
    inr (snprintf errsz (str "line " ++ dec (zlen ls + 1) ++ str " (" ++ k ++ str "): " ++ kerr))) ∧
  (∀ p cfg, config_lines 0 ls false config_default = inl (p, cfg) →
    (have_private_key cfg = false →
      awg_config_load (Some (lines_text ls)) path errsz = inr (snprintf errsz (str "no PrivateKey"))) ∧
    (have_private_key cfg = true → have_peer_public_key cfg = false →
      awg_config_load (Some (lines_text ls)) path errsz = inr (snprintf errsz (str "no peer PublicKey"))) ∧
    (have_private_key cfg = true → have_peer_public_key cfg = true → endpoint_host cfg = [] →
      awg_config_load (Some (lines_text ls)) path errsz = inr (snprintf errsz (str "no Endpoint")))).
Proof.
  intros Hls Hl Hrest. split_and!; [done| |].
  - intros p cfg k kerr H1 H2. rewrite config_load_lines.
    + rewrite (config_lines_app _ _ _ _ _ _ _ H1). cbn [config_lines]. by rewrite H2.
    + apply Forall_app. split; [done|by constructor].
  - intros p cfg H1. rewrite config_load_lines, H1 by done. split_and!.
    + by intros ->.
    + by intros -> ->.
    + by intros -> -> ->.
Qed.

(** ** Witnesses *)

Definition sample_chain : awg_obf_chain := Chain sample_items (str "<b 0xc0ff><rd 3><t><ds><dz 2>").

Definition sample_config : awg_config := Config
  (replicate 32 7) true 33556490 24 [16843009; 134744072] 4 8 80 15 18 0 (-3) 5 6 4294967295 8
  (replicate 32 9) true (Range 100 120) (Range 5 5) (Range 180 180) (Range (-2) 10)
  (Range 18 18) (Range 0 64) [Some sample_chain; None; None; None; Some sample_chain]
  (replicate 32 11) true (replicate 32 0) false (str "vpn.example.com") 51820 (Range 25 25).

Lemma sample_spellable : spellable sample_config.
Proof.
  assert (∀ b, is_byte b → key_ok (replicate 32 b)) as Hk.
  { intros b Hb. split; [by apply Forall_replicate|done]. }
  assert (chain_ok (Some sample_chain)) as Hch by (split; [apply sample_items_wf|done]).
  unfold spellable, config_wf, range_ints, is_int. cbn. split_and!; try done; try lia;
    try (apply Hk; unfold is_u; lia); try (unfold is_u; lia).
  - word_list.
  - repeat (apply Forall_cons_2; [done|]). apply Forall_nil_2.
  - repeat (apply Forall_cons_2; [by vm_compute|]). apply Forall_nil_2.
  - lit_chars.
Qed.

Lemma config_roundtrip_witness :
  awg_config_load (Some (config_text sample_config)) [] 256 = inl sample_config.
Proof. apply (config_roundtrip sample_config [] 256 sample_spellable). Defined.

Lemma config_load_wf_witness :
  config_wf sample_config ∧ sample_config.(have_private_key) = true ∧
  sample_config.(have_peer_public_key) = true ∧ sample_config.(endpoint_host) ≠ [].
Proof.
  apply (config_load_wf (config_text sample_config) [] 256 sample_config).
  vm_compute. reflexivity.
Defined.

Lemma config_load_errors_witness :
  awg_config_load (Some (str "[Interface]
Jc = 4
Address = 10.8.0
")) [] 256 = inr (str "line 3 (Address): Address is not IPv4").
Proof.
  refine (proj1 (proj2 (config_load_errors [str "[Interface]"; str "Jc = 4"] [] (str "Address = 10.8.0")
    [] 256 _ _ _)) false (config_default <| jc := 4 |>) (str "Address") (str "Address is not IPv4") _ _).
  - repeat (apply Forall_cons_2; [split_and!; [vm_compute; set_solver|vm_compute; set_solver|done]|]).
    apply Forall_nil_2.
  - split_and!; [vm_compute; set_solver|vm_compute; set_solver|done].
  - apply Forall_nil_2.
  - vm_compute. reflexivity.
  - vm_compute. reflexivity.
Defined.
