(* ===== verification/IpProbe.v ===== *)
(** * awg_ipprobe.c: one DNS exchange by hand

    The IPv4/UDP/DNS query builder with its checksums, and the parser of the reply.
    A pointer into the packet is the list of the bytes from there on; every read
    the parser makes goes through [read], so that leaving the packet is a [Fault]. *)
From S2P Require Import Prelude Cstr.

Definition IP_HDR : Z := 20.
Definition UDP_HDR : Z := 8.

Definition put_be16 (v : Z) : list Z := [u8 (v .>> 8); u8 v].

Definition get_be16 (p : list Z) (off : Z) : res Z :=
  a ← read p off; b ← read p (off + 1); mret ((a .<< 8) .| b).

(** ** Checksums *)

Fixpoint sum16 (p : list Z) (acc : Z) : Z :=
  match p with
  | a :: b :: p => sum16 p (u32 (acc + ((a .<< 8) .| b)))
  | [a] => u32 (acc + (a .<< 8))
  | [] => acc
  end.

Fixpoint fold_loop (fuel : nat) (acc : Z) : Z :=
  match fuel with
  | O => acc
  | S fuel => if acc .>> 16 =? 0 then acc else fold_loop fuel (u32 ((acc .& 0xFFFF) + (acc .>> 16)))
  end.

(** A 32-bit sum is folded in at most two rounds. *)
Definition fold (acc : Z) : Z := u16 (Z.lnot (fold_loop 3 acc)).

(** ** The query *)

Fixpoint encode_name_loop (fuel : nat) (o : list Z) (cap : Z) (p : list Z) : option (list Z) :=
  let finish o := if zlen o + 1 >? cap then None else Some (o ++ [0]) in
  match fuel with
  | O => None
  | S fuel =>
    match p with
    | [] => finish o
    | _ =>
      let '(label, dot) := match split_at 46 p with
                           | Some (label, rest) => (label, Some rest)
                           | None => (p, None)
                           end in
      let len := zlen label in
      if (len <=? 0) || (len >? 63) || (zlen o + len + 1 >=? cap) then None
      else
        let o := o ++ u8 len :: label in
        match dot with
        | None => finish o
        | Some p => encode_name_loop fuel o cap p
        end
    end
  end.

Definition encode_name (cap : Z) (host : list Z) : option (list Z) :=
  encode_name_loop (S (length host)) [] cap host.

(** The datagram, whose length is the return value. *)
Definition ipprobe_build_dns (cap src_ip dst_ip src_port txid : Z) (host : list Z) : option (list Z) :=
  if cap <? IP_HDR + UDP_HDR + 32 then None
  else
    let dns_cap := cap - IP_HDR - UDP_HDR in
    let dns := put_be16 txid ++ [0x01; 0x00] ++ put_be16 1 ++ replicate 6 0 in
    match encode_name (dns_cap - 12 - 4) host with
    | None => None
    | Some name =>
      let dns := dns ++ name ++ put_be16 1 ++ put_be16 1 in
      let udp_len := UDP_HDR + zlen dns in
      let total_len := IP_HDR + udp_len in
      let src := le_bytes 4 src_ip in
      let dst := le_bytes 4 dst_ip in
      let ip := [0x45; 0] ++ put_be16 (u16 total_len) ++ put_be16 txid ++ put_be16 0x4000 ++
                [64; 17; 0; 0] ++ src ++ dst in
      let ip := blit 10 (put_be16 (fold (sum16 ip 0))) ip in
      let udp := put_be16 src_port ++ put_be16 53 ++ put_be16 (u16 udp_len) ++ [0; 0] ++ dns in
      let acc := sum16 src 0 in
      let acc := sum16 dst acc in
      let acc := u32 (acc + 17) in
      let acc := u32 (acc + udp_len) in
      let acc := sum16 udp acc in
      let ck := fold acc in
      let ck := if ck =? 0 then 0xFFFF else ck in
      Some (ip ++ blit 6 (put_be16 ck) udp)
    end.

(** ** The reply *)

(** [Err] is never returned: it stands for a loop that has not ended. *)
Fixpoint skip_name (fuel : nat) (b : list Z) (len off : Z) : res Z :=
  match fuel with
  | O => Err
  | S fuel =>
    if off <? len then
      l ← read b off;
      if l =? 0 then mret (off + 1)
      else if (l .& 0xC0) =? 0xC0 then mret (if off + 2 <=? len then off + 2 else -1)
      else skip_name fuel b len (off + (1 + l))
    else mret (-1)
  end.

Fixpoint answers_loop (ancount : nat) (d : list Z) (dn off : Z) : res (option Z) :=
  match ancount with
  | O => mret None
  | S ancount =>
    if off + 10 <=? dn then
      off ← skip_name (S (length d)) d dn off;
      if (off <? 0) || (off + 10 >? dn) then mret None
      else
        type ← get_be16 d off;
        rdlen ← get_be16 d (off + 8);
        let off := off + 10 in
        if off + rdlen >? dn then mret None
        else if (type =? 1) && (rdlen =? 4) then
          ip ← read_n d off 4; mret (Some (le_val ip))
        else answers_loop ancount d dn (off + rdlen)
    else mret None
  end.

(** The return code, and the address when it is 0. *)
Definition ipprobe_parse_dns (pkt : list Z) (len expect_src_ip expect_dst_port txid : Z)
    : res (Z * option Z) :=
  let fail (code : Z) : res (Z * option Z) := mret (code, None) in
  if len <? IP_HDR + UDP_HDR + 12 then fail (-1) else
  v ← read pkt 0;
  if negb (v .>> 4 =? 4) then fail (-2) else
  let ihl := (v .& 0x0F) * 4 in
  if (ihl <? IP_HDR) || (len <? ihl + UDP_HDR) then fail (-1) else
  proto ← read pkt 9;
  if negb (proto =? 17) then fail (-3) else
  src ← read_n pkt 12 4;
  if negb (le_val src =? expect_src_ip) then fail (-4) else
  let udp := zdrop ihl pkt in
  dport ← get_be16 udp 2;
  if negb (dport =? expect_dst_port) then fail (-5) else
  udp_len ← get_be16 udp 4;
  if (udp_len <? UDP_HDR) || (ihl + udp_len >? len) then fail (-6) else
  let d := zdrop UDP_HDR udp in
  let dn := udp_len - UDP_HDR in
  if dn <? 12 then fail (-6) else
  id ← get_be16 d 0;
  if negb (id =? txid) then fail (-7) else
  ancount ← get_be16 d 6;
  off ← skip_name (S (length d)) d dn 12;
  if off <? 0 then fail (-6) else
  ans ← answers_loop (Z.to_nat ancount) d dn (off + 4);
  mret (match ans with Some ip => (0, Some ip) | None => (-8, None) end).

Definition ipprobe_ip_str (net_order cap : Z) : list Z :=
  let b := le_bytes 4 net_order in
  snprintf cap (dec b.[0] ++ str "." ++ dec b.[1] ++ str "." ++ dec b.[2] ++ str "." ++ dec b.[3]).

(** ** The one's complement sum *)

(** The sum of the 16-bit words, an odd last byte in the high half. *)
Fixpoint words (p : list Z) : Z :=
  match p with
  | a :: b :: p => 256 * a + b + words p
  | [a] => 256 * a
  | [] => 0
  end.

(** Induction by two bytes. *)
Lemma pair_ind (P : list Z → Prop) :
  P [] → (∀ a, P [a]) → (∀ a b p, P p → P (a :: b :: p)) → ∀ p, P p.
Proof.
  intros H0 H1 H2. fix IH 1. intros [|a [|b p]]; [exact H0|apply H1|apply H2, IH].
Qed.

Lemma be16_value a b : is_byte a → is_byte b → (a .<< 8) .| b = 256 * a + b.
Proof. intros Ha Hb. rewrite Z.lor_comm, lor_add_shift by (done || lia). lia. Qed.

Lemma words_bound p : is_bytes p → 0 <= words p <= 32768 * (zlen p + 1).
Proof.
  induction p as [|a|a b p IH] using pair_ind; intros Hp; rewrite ?zlen_cons; cbn [words].
  - unfold zlen. cbn. lia.
  - rewrite Forall_cons in Hp. destruct Hp as [Ha _]. unfold is_u in Ha. change (zlen (@nil Z)) with 0. lia.
  - rewrite !Forall_cons in Hp. destruct Hp as (Ha & Hb & Hp). specialize (IH Hp). unfold is_u in *. lia.
Qed.

Lemma sum16_words p acc : is_bytes p → 0 <= acc → acc + words p < 2 ^ 32 → sum16 p acc = acc + words p.
Proof.
  revert acc. induction p as [|a|a b p IH] using pair_ind; intros acc Hp Ha Hs; cbn [sum16 words] in *.
  - lia.
  - rewrite Forall_cons in Hp. destruct Hp as [Hb _]. rewrite Z.shiftl_mul_pow2 by lia.
    unfold is_u in Hb. rewrite u32_small; [lia|unfold is_u; lia].
  - rewrite !Forall_cons in Hp. destruct Hp as (Hb & Hc & Hp). rewrite be16_value by done.
    pose proof (words_bound p Hp). unfold is_u in Hb, Hc.
    rewrite u32_small by (unfold is_u; lia). rewrite IH; [lia|done|lia|lia].
Qed.

Lemma sum_words_app a b : Z.even (zlen a) = true → words (a ++ b) = words a + words b.
Proof.
  induction a as [|x|x y a IH] using pair_ind; intros He; [cbn; lia|done|].
  cbn [app words]. rewrite IH; [lia|]. revert He. unfold zlen. cbn [length].
  rewrite !Nat2Z.inj_succ, !Z.even_succ, <- Z.negb_even, Z.even_succ, <- Z.negb_even.
  by rewrite negb_involutive.
Qed.

Lemma words_be16 v : is_u 16 v → words (put_be16 v) = v.
Proof.
  intros Hv. unfold is_u in Hv. cbn [put_be16 words]. rewrite !u8_mod, Z.shiftr_div_pow2 by lia.
  change (2 ^ 8) with 256. Z.div_mod_to_equations. lia.
Qed.

(** Folding keeps the sum modulo 65535, in 16 bits, and zero only for zero. *)
Lemma fold_loop_spec acc : is_u 32 acc →
  let r := fold_loop 3 acc in is_u 16 r ∧ r mod 65535 = acc mod 65535 ∧ (r = 0 ↔ acc = 0).
Proof.
  intros Ha. unfold is_u in *. change (2 ^ 32) with 4294967296 in Ha.
  assert (∀ f x, 0 <= x → fold_loop (S f) x =
    if x / 65536 =? 0 then x else fold_loop f (u32 (x mod 65536 + x / 65536))) as Hstep.
  { intros f x Hx. cbn [fold_loop]. change 0xFFFF with (Z.ones 16).
    rewrite Z.land_ones, Z.shiftr_div_pow2 by lia. done. }
  rewrite Hstep by lia. destruct (Z.eqb_spec (acc / 65536) 0) as [E|E].
  { cbn zeta. split; [|done]. unfold is_u. Z.div_mod_to_equations; lia. }
  set (x1 := acc mod 65536 + acc / 65536).
  assert (0 <= x1 <= 131070) as H1 by (unfold x1; Z.div_mod_to_equations; lia).
  assert (x1 mod 65535 = acc mod 65535) as M1.
  { rewrite <- (Z.mod_add x1 (acc / 65536)) by lia. f_equal. unfold x1. Z.div_mod_to_equations. lia. }
  assert (0 < acc) as Hpos by (Z.div_mod_to_equations; lia).
  assert (0 < x1) as P1 by (unfold x1; Z.div_mod_to_equations; lia).
  rewrite u32_small by (unfold is_u; lia). clearbody x1. rewrite Hstep by lia.
  destruct (Z.eqb_spec (x1 / 65536) 0) as [E1|E1].
  { cbn zeta. split; [unfold is_u; Z.div_mod_to_equations; lia|]. split; [done|lia]. }
  assert (x1 / 65536 = 1) as Hq by (Z.div_mod_to_equations; lia). rewrite Hq.
  set (x2 := x1 mod 65536 + 1). assert (x2 = x1 - 65535) as E2 by (unfold x2; Z.div_mod_to_equations; lia).
  assert (1 <= x2 <= 65535) as H2 by (unfold x2; Z.div_mod_to_equations; lia).
  rewrite u32_small by (unfold is_u; lia). rewrite Hstep by lia.
  rewrite (proj2 (Z.eqb_eq _ _)) by (Z.div_mod_to_equations; lia). cbn zeta.
  split; [unfold is_u; lia|]. split; [|lia]. rewrite <- M1, E2. rewrite <- (Z.mod_add (x1 - 65535) 1) by lia. f_equal. lia.
Qed.

Lemma fold_value acc : fold acc = 65535 - u16 (fold_loop 3 acc).
Proof.
  unfold fold. rewrite !u16_mod. change (2 ^ 16) with 65536. set (r := fold_loop 3 acc).
  unfold Z.lnot, Z.pred. Z.div_mod_to_equations. lia.
Qed.

(** A sum with its checksum added verifies; a zero checksum may be sent as 65535. *)
Lemma fold_verifies acc ck : is_u 32 acc →
  ck = fold acc ∨ (fold acc = 0 ∧ ck = 0xFFFF) → is_u 16 ck ∧ (acc + ck) mod 65535 = 0.
Proof.
  intros Ha Hck. destruct (fold_loop_spec acc Ha) as (Hr & Hm & Hz).
  rewrite fold_value in *. rewrite (u16_small (fold_loop 3 acc)) in * by done.
  set (r := fold_loop 3 acc) in *. unfold is_u in Hr. change (2 ^ 16) with 65536 in Hr.
  split; [unfold is_u; change (2 ^ 16) with 65536; lia|].
  rewrite <- Z.add_mod_idemp_l, <- Hm, Z.add_mod_idemp_l by lia.
  destruct Hck as [-> |[? ->]]; [by replace (r + (65535 - r)) with (1 * 65535) by lia|].
  by replace (r + 65535) with (2 * 65535) by lia.
Qed.

(** ** Names on the wire *)

(** What [skip_name] takes for a name: labels up to a zero byte or a pointer. *)
Inductive wire_name : list Z → Prop :=
| wire_root : wire_name [0]
| wire_pointer a b : 192 <= a < 256 → is_byte b → wire_name [a; b]
| wire_label l s : 0 < zlen l < 192 → is_bytes l → wire_name s → wire_name (zlen l :: l ++ s).

Definition wire_labels (ls : list (list Z)) : list Z := concat ((λ l, zlen l :: l) <$> ls) ++ [0].

Lemma wire_name_bytes s : wire_name s → is_bytes s.
Proof.
  induction 1 as [|a b Ha Hb|l s Hl Hb _ IH].
  - word_list.
  - apply Forall_cons_2; [unfold is_u; lia|word_list].
  - constructor; [unfold is_u; lia|auto with word].
Qed.

Lemma land_c0 a : is_byte a → (a .& 0xC0 =? 0xC0) = (192 <=? a).
Proof.
  intros Ha. assert (forallb (λ n, Bool.eqb (Z.of_nat n .& 0xC0 =? 0xC0) (192 <=? Z.of_nat n))
    (seq 0 256) = true) as H by (vm_compute; reflexivity).
  rewrite forallb_forall in H. specialize (H (Z.to_nat a)). unfold is_u in Ha. change (2 ^ 8) with 256 in Ha.
  rewrite Z2Nat.id in H by lia. apply eqb_prop, H, in_seq. lia.
Qed.

Lemma read_app pre c post i : i = zlen pre → read (pre ++ c :: post) i = Ok c.
Proof.
  intros ->. rewrite read_ok by (rewrite zlen_app; unfold zlen; cbn [length]; lia).
  unfold zlen. rewrite Nat2Z.id, get_app_r, Nat.sub_diag by lia. done.
Qed.

Lemma skip_name_wire s fuel pre post len : wire_name s → (length s <= fuel)%nat →
  zlen pre + zlen s <= len →
  skip_name fuel (pre ++ s ++ post) len (zlen pre) = Ok (zlen pre + zlen s).
Proof.
  intros Hs. revert fuel pre. induction Hs as [|a b Ha Hb|l s Hl Hb Hs IH]; intros fuel pre Hf Hlen;
    (destruct fuel as [|fuel]; [cbn in Hf; lia|]); cbn [skip_name app].
  - change (zlen [0]) with 1 in *. rewrite (proj2 (Z.ltb_lt _ _)) by lia.
    by rewrite read_app by done.
  - change (zlen [a; b]) with 2 in *. rewrite (proj2 (Z.ltb_lt _ _)) by lia.
    rewrite read_app by done. cbn [mbind res_bind]. rewrite (proj2 (Z.eqb_neq a 0)) by lia.
    rewrite land_c0 by (unfold is_u; lia). rewrite (proj2 (Z.leb_le 192 a)) by lia.
    by rewrite (proj2 (Z.leb_le _ _)) by lia.
  - assert (zlen (zlen l :: l ++ s) = 1 + zlen l + zlen s) as El
      by (unfold zlen; cbn [length]; rewrite length_app; lia).
    rewrite El in *. pose proof (zlen_nonneg s). rewrite (proj2 (Z.ltb_lt _ _)) by lia.
    rewrite read_app by done. cbn [mbind res_bind]. rewrite (proj2 (Z.eqb_neq (zlen l) 0)) by lia.
    rewrite land_c0 by (unfold is_u; lia). rewrite (proj2 (Z.leb_gt 192 (zlen l))) by lia.
    specialize (IH fuel (pre ++ zlen l :: l)).
    assert (zlen (pre ++ zlen l :: l) = zlen pre + (1 + zlen l)) as Ep
      by (rewrite zlen_app; unfold zlen; cbn [length]; lia).
    rewrite Ep in IH. replace (pre ++ zlen l :: (l ++ s) ++ post) with ((pre ++ zlen l :: l) ++ s ++ post)
      by (by rewrite <- !app_assoc).
    rewrite IH; [f_equal; lia| |lia]. cbn [length] in Hf. rewrite length_app in Hf. lia.
Qed.

Lemma encode_loop_bound fuel o cap p e : encode_name_loop fuel o cap p = Some e →
  zlen e <= cap ∧ ∃ s, e = o ++ s ∧ (is_bytes p → wire_name s).
Proof.
  revert o p. induction fuel as [|fuel IH]; intros o p; cbn [encode_name_loop]; [done|].
  assert (∀ o', (if zlen o' + 1 >? cap then None else Some (o' ++ [0])) = Some e →
    zlen e <= cap ∧ e = o' ++ [0]) as Hfin.
  { intros o'. rewrite Z.gtb_ltb. destruct (Z.ltb_spec cap (zlen o' + 1)); [done|]. intros [= <-].
    rewrite zlen_app. by change (zlen [0]) with 1. }
  destruct p as [|c p].
  { intros H. apply Hfin in H as [Hl ->]. split; [done|]. exists [0]. split; [done|constructor]. }
  assert (∃ label dot, match split_at 46 (c :: p) with
      | Some (label, rest) => (label, Some rest) | None => (c :: p, None) end = (label, dot) ∧
      (is_bytes (c :: p) → is_bytes label ∧ match dot with Some r => is_bytes r | None => True end))
    as (label & dot & -> & Hb).
  { destruct (split_at 46 (c :: p)) as [[a b]|] eqn:E; [|by eexists _, None].
    eexists _, _. split; [done|]. apply split_at_some in E as [-> _]. intros Hb.
    apply Forall_app in Hb as [? Hb]. by apply Forall_cons in Hb as [? ?]. }
  destruct ((zlen label <=? 0) || (zlen label >? 63) || _) eqn:E; [done|].
  rewrite !orb_false_iff, Z.gtb_ltb, Z.leb_gt, Z.ltb_ge in E. destruct E as [[E1 E2] _].
  rewrite u8_small by (unfold is_u; lia). intros H.
  assert (∃ s, zlen e <= cap ∧ e = (o ++ zlen label :: label) ++ s ∧ (is_bytes (c :: p) → wire_name s))
    as (s & Hl & -> & Hw).
  { destruct dot as [r|].
    - apply IH in H as (Hl & s & -> & Hw). exists s. split_and!; [done|done|]. intros Hbb.
      by apply Hw, Hb.
    - apply Hfin in H as [Hl ->]. exists [0]. split_and!; [done|done|constructor]. }
  split; [done|]. exists (zlen label :: label ++ s). split; [by rewrite <- !app_assoc|].
  intros Hbb. constructor; [lia|by apply Hb|by apply Hw].
Qed.

Lemma encode_loop_labels ls fuel o cap : ls ≠ [] →
  Forall (λ l, (46 ∉ l) ∧ 0 < zlen l <= 63) ls → (length ls <= fuel)%nat →
  encode_name_loop fuel o cap (join ls) =
  if zlen o + zlen (wire_labels ls) <=? cap then Some (o ++ wire_labels ls) else None.
Proof.
  intros Hn Hls. revert fuel o. induction Hls as [|l ls [Hd Hl] Hls IH]; intros fuel o Hf; [done|].
  destruct fuel as [|fuel]; [cbn in Hf; lia|].
  assert (zlen (wire_labels (l :: ls)) = 1 + zlen l + zlen (wire_labels ls)) as Ew.
  { unfold wire_labels. rewrite fmap_cons. cbn [concat]. rewrite !zlen_app, zlen_cons. lia. }
  assert (o ++ wire_labels (l :: ls) = (o ++ zlen l :: l) ++ wire_labels ls) as Eo.
  { unfold wire_labels. rewrite fmap_cons. cbn [concat]. by rewrite <- !app_assoc. }
  assert (1 <= zlen (wire_labels ls)) as Hw.
  { unfold wire_labels. rewrite zlen_app. change (zlen [0]) with 1. pose proof (zlen_nonneg (concat ((λ l, zlen l :: l) <$> ls))). lia. }
  rewrite Ew, Eo. cbn [encode_name_loop].
  assert (∃ c p, join (l :: ls) = c :: p) as (c & p & Ej).
  { destruct l as [|c l]; [unfold zlen in Hl; cbn in Hl; lia|]. destruct ls; cbn; eauto. }
  rewrite Ej. rewrite <- Ej.
  assert (match split_at 46 (join (l :: ls)) with
      | Some (label, rest) => (label, Some rest) | None => (join (l :: ls), None) end =
      (l, match ls with [] => None | _ => Some (join ls) end)) as ->.
  { destruct ls as [|l' ls]; [cbn [join]; by rewrite (proj2 (split_at_none 46 l))|].
    change (join (l :: l' :: ls)) with (l ++ 46 :: join (l' :: ls)). by rewrite split_at_app. }
  rewrite (proj2 (Z.leb_gt (zlen l) 0)), Z.gtb_ltb, (proj2 (Z.ltb_ge 63 (zlen l))) by lia. cbn [orb].
  rewrite Z.geb_leb, u8_small by (unfold is_u; lia).
  assert (zlen (o ++ zlen l :: l) = zlen o + (1 + zlen l)) as Ez by (by rewrite zlen_app, zlen_cons).
  destruct (Z.leb_spec cap (zlen o + zlen l + 1)).
  { by rewrite (proj2 (Z.leb_gt _ _)) by lia. }
  destruct ls as [|l' ls].
  - rewrite Z.gtb_ltb, Ez. change (zlen (wire_labels [])) with 1. change (wire_labels []) with [0].
    destruct (Z.ltb_spec cap (zlen o + (1 + zlen l) + 1)), (Z.leb_spec (zlen o + (1 + zlen l + 1)) cap);
      try lia; done.
  - rewrite IH by (done || (cbn in *; lia)). rewrite Ez.
    by replace (zlen o + (1 + zlen l) + zlen (wire_labels (l' :: ls))) with
      (zlen o + (1 + zlen l + zlen (wire_labels (l' :: ls)))) by lia.
Qed.

(** ** The built query *)

(** The sum of the pseudo-header that the UDP checksum covers. *)
Definition pseudo_header (src dst udp_len : Z) : list Z :=
  le_bytes 4 src ++ le_bytes 4 dst ++ [0; 17] ++ put_be16 udp_len.

Lemma put_be16_bytes v : is_bytes (put_be16 v).
Proof. word_list. Qed.
#[local] Hint Resolve put_be16_bytes : word.

Lemma is_bytes_lit_zeros : is_bytes [0; 0].
Proof. word_list. Qed.

(** Putting a checksum into its zeroed field adds it to the sum. *)
Lemma blit_field pre ck post :
  blit (length pre) (put_be16 ck) (pre ++ [0; 0] ++ post) = pre ++ put_be16 ck ++ post.
Proof.
  unfold blit. rewrite take_app_length. do 2 f_equal.
  change (length (put_be16 ck)) with 2%nat. rewrite <- drop_drop, drop_app_length. done.
Qed.

Lemma words_blit pre ck post : is_u 16 ck → Z.even (zlen pre) = true →
  words (blit (length pre) (put_be16 ck) (pre ++ [0; 0] ++ post)) = words (pre ++ [0; 0] ++ post) + ck.
Proof.
  intros Hck He. rewrite blit_field, !sum_words_app by done. rewrite words_be16 by done. cbn [words]. lia.
Qed.

(** What the sender emits for a header with its checksum field zero. *)
Lemma checksum_ok pre post ck extra :
  Z.even (zlen pre) = true → is_u 32 (extra + words (pre ++ [0; 0] ++ post)) →
  let s := fold (extra + words (pre ++ [0; 0] ++ post)) in
  ck = s ∨ (s = 0 ∧ ck = 0xFFFF) →
  is_u 16 ck ∧ (extra + words (blit (length pre) (put_be16 ck) (pre ++ [0; 0] ++ post))) mod 65535 = 0.
Proof.
  intros He Hu s Hck. destruct (fold_verifies _ ck Hu Hck) as [Hu' Hf]. split; [done|].
  by rewrite words_blit, Z.add_assoc by done.
Qed.

Lemma build_dns_ok cap src dst sport txid host pkt : cap <= 65535 → is_bytes host →
  is_u 32 src → is_u 32 dst →
  ipprobe_build_dns cap src dst sport txid host = Some pkt →
  ∃ name, encode_name (cap - 44) host = Some name ∧
    zlen pkt = 44 + zlen name ∧ zlen pkt <= cap ∧
    drop 28 pkt = put_be16 txid ++ [1; 0; 0; 1; 0; 0; 0; 0; 0; 0] ++ name ++ [0; 1; 0; 1] ∧
    words (take 20 pkt) mod 65535 = 0 ∧
    (words (pseudo_header src dst (24 + zlen name)) + words (drop 20 pkt)) mod 65535 = 0.
Proof.
  intros Hcap Hhost Hsrc Hdst. unfold ipprobe_build_dns, IP_HDR, UDP_HDR.
  destruct (Z.ltb_spec cap (20 + 8 + 32)); [done|].
  replace (cap - 20 - 8 - 12 - 4) with (cap - 44) by lia.
  destruct (encode_name (cap - 44) host) as [name|] eqn:En; [|done].
  pose proof (encode_loop_bound _ _ _ _ _ En) as (Hnl & s & Hns & Hw). cbn [app] in Hns. subst s.
  specialize (Hw Hhost). pose proof (wire_name_bytes _ Hw) as Hnb. pose proof (zlen_nonneg name).
  set (dns := (put_be16 txid ++ [1; 0] ++ put_be16 1 ++ replicate 6 0) ++ name ++ put_be16 1 ++ put_be16 1).
  assert (zlen dns = 16 + zlen name) as Hd.
  { unfold dns. rewrite !zlen_app. change (zlen (put_be16 txid)) with 2. change (zlen (put_be16 1)) with 2.
    change (zlen [1; 0]) with 2. change (zlen (replicate 6 0)) with 6. lia. }
  assert (is_bytes dns) as Hdb by (unfold dns; repeat apply is_bytes_app; auto with word; word_list).
  cbn zeta. rewrite Hd. replace (8 + (16 + zlen name)) with (24 + zlen name) by lia.
  replace (20 + (24 + zlen name)) with (44 + zlen name) by lia.
  set (pre := [0x45; 0] ++ put_be16 (u16 (44 + zlen name)) ++ put_be16 txid ++ put_be16 0x4000 ++ [64; 17]).
  set (post := le_bytes 4 src ++ le_bytes 4 dst).
  replace ([69; 0] ++ put_be16 (u16 (44 + zlen name)) ++ put_be16 txid ++ put_be16 16384 ++
    [64; 17; 0; 0] ++ le_bytes 4 src ++ le_bytes 4 dst) with (pre ++ [0; 0] ++ post) by done.
  set (upre := put_be16 sport ++ put_be16 53 ++ put_be16 (u16 (24 + zlen name))).
  replace (put_be16 sport ++ put_be16 53 ++ put_be16 (u16 (24 + zlen name)) ++ [0; 0] ++ dns)
    with (upre ++ [0; 0] ++ dns) by done.
  assert (length pre = 10%nat) as Hpl by done. assert (length upre = 6%nat) as Hul by done.
  assert (is_bytes pre) as Hpb by (unfold pre; repeat apply is_bytes_app; auto with word; word_list).
  assert (is_bytes post) as Hqb by (unfold post; auto with word).
  assert (is_bytes upre) as Hub by (unfold upre; auto with word).
  assert (zlen pre = 10 ∧ zlen post = 8 ∧ zlen upre = 6) as (Zp & Zq & Zu) by done.
  assert (is_bytes (pre ++ [0; 0] ++ post)) as Hipb by (auto using is_bytes_lit_zeros with word).
  assert (is_bytes (upre ++ [0; 0] ++ dns)) as Hudb by (auto using is_bytes_lit_zeros with word).
  pose proof (words_bound _ Hipb) as Wip. pose proof (words_bound _ Hudb) as Wud.
  rewrite !zlen_app in Wip, Wud. change (zlen [0; 0]) with 2 in *. rewrite Zp, Zq in Wip.
  rewrite Zu, Hd in Wud.
  pose proof (words_bound (le_bytes 4 src) ltac:(auto with word)) as Ws.
  pose proof (words_bound (le_bytes 4 dst) ltac:(auto with word)) as Wd.
  change (zlen (le_bytes 4 _)) with 4 in Ws, Wd.
  rewrite (sum16_words (pre ++ [0; 0] ++ post)) by (done || lia).
  rewrite (sum16_words (le_bytes 4 src)) by (auto with word; lia).
  rewrite (sum16_words (le_bytes 4 dst)) by (auto with word; lia).
  rewrite (u32_small (_ + _ + 17)), (u32_small (_ + (24 + zlen name))) by (unfold is_u; lia).
  set (extra := 0 + words (le_bytes 4 src) + words (le_bytes 4 dst) + 17 + (24 + zlen name)).
  rewrite (sum16_words (upre ++ [0; 0] ++ dns)) by (done || unfold extra; lia).
  assert (words (pseudo_header src dst (24 + zlen name)) = extra) as Eex.
  { unfold pseudo_header, extra. rewrite !sum_words_app by done.
    rewrite words_be16 by (unfold is_u; lia). change (words [0; 17]) with 17. lia. }
  set (cku := if fold (extra + words (upre ++ [0; 0] ++ dns)) =? 0 then 65535 else _).
  destruct (checksum_ok pre post (fold (0 + words (pre ++ [0; 0] ++ post))) 0) as [Hci Hfi];
    [done|unfold is_u; lia|by left|].
  destruct (checksum_ok upre dns cku extra) as [Hcu Hfu];
    [done|unfold extra, is_u; lia|unfold cku; destruct (Z.eqb_spec (fold (extra + words (upre ++ [0; 0] ++ dns))) 0); tauto|].
  rewrite Hpl, Hul in *. intros Epkt. apply (inj Some) in Epkt as <-. exists name.
  set (ip := blit 10 _ _) in *. set (udp := blit 6 _ _) in *.
  assert (length ip = 20%nat) as Hip by (unfold ip; rewrite length_blit; [done|cbn; lia]).
  assert (zlen udp = 24 + zlen name) as Hudp.
  { unfold udp, zlen. rewrite length_blit by (rewrite length_app, Hul; cbn; lia).
    fold (zlen name) (zlen (upre ++ [0; 0] ++ dns)).
    rewrite !zlen_app, Zu, Hd. change (zlen [0; 0]) with 2. lia. }
  split_and!; [done| | | | |].
  - rewrite zlen_app, Hudp. unfold zlen at 1. rewrite Hip. lia.
  - rewrite zlen_app, Hudp. unfold zlen at 1. rewrite Hip. lia.
  - rewrite drop_app_ge by lia. rewrite Hip. change (28 - 20)%nat with (length upre + 2)%nat.
    unfold udp. change 6%nat with (length upre). rewrite blit_field, <- drop_drop, drop_app_length.
    change (drop 2 (put_be16 cku ++ dns)) with dns. unfold dns. by rewrite <- !app_assoc.
  - rewrite take_app_le by lia. rewrite take_ge by lia. by rewrite Z.add_0_l in Hfi.
  - rewrite drop_app_ge by lia. rewrite Hip, drop_0, Eex. done.
Qed.

(** ** The parser stays inside the packet *)

Lemma get_be16_ok p off : is_bytes p → 0 <= off → off + 2 <= zlen p →
  get_be16 p off = Ok (256 * p.[Z.to_nat off] + p.[Z.to_nat (off + 1)]) ∧
  is_u 16 (256 * p.[Z.to_nat off] + p.[Z.to_nat (off + 1)]).
Proof.
  intros Hp H0 H1. unfold get_be16. rewrite !read_ok by lia. cbn [mbind res_bind].
  pose proof (is_u_get 8 p (Z.to_nat off) ltac:(lia) Hp) as Ha.
  pose proof (is_u_get 8 p (Z.to_nat (off + 1)) ltac:(lia) Hp) as Hb.
  rewrite be16_value by done. split; [done|]. unfold is_u in *. lia.
Qed.

Lemma skip_name_safe fuel b len off : is_bytes b → len <= zlen b → 0 <= off →
  (Z.to_nat (len - off) < fuel)%nat →
  ∃ r, skip_name fuel b len off = Ok r ∧ (r = -1 ∨ off < r <= len).
Proof.
  intros Hb Hl. revert off. induction fuel as [|fuel IH]; intros off Ho Hf; [lia|].
  cbn [skip_name]. destruct (Z.ltb_spec off len); [|by exists (-1); auto].
  rewrite read_ok by lia. cbn [mbind res_bind].
  pose proof (is_u_get 8 b (Z.to_nat off) ltac:(lia) Hb) as Hx. set (l := b.[Z.to_nat off]) in *.
  unfold is_u in Hx. destruct (l =? 0); [exists (off + 1); split; [done|lia]|].
  destruct (l .& 0xC0 =? 0xC0).
  - destruct (Z.leb_spec (off + 2) len); [exists (off + 2)|exists (-1)]; (split; [done|lia]).
  - destruct (IH (off + (1 + l))) as (r & -> & Hr); [lia|lia|]. exists r. split; [done|lia].
Qed.

Lemma answers_loop_safe n d dn off : is_bytes d → dn <= zlen d → 0 <= off →
  ∃ ans, answers_loop n d dn off = Ok ans.
Proof.
  intros Hd Hl. revert off. induction n as [|n IH]; intros off Ho; cbn [answers_loop]; [eauto|].
  destruct (Z.leb_spec (off + 10) dn); [|eauto].
  destruct (skip_name_safe (S (length d)) d dn off) as (r & -> & Hr); [done|done|done|unfold zlen in *; lia|].
  cbn [mbind res_bind]. destruct ((r <? 0) || _) eqn:E; [eauto|].
  rewrite orb_false_iff, Z.gtb_ltb, !Z.ltb_ge in E.
  destruct (get_be16_ok d r) as [-> _]; [done|lia|lia|].
  destruct (get_be16_ok d (r + 8)) as [-> Hrd]; [done|lia|lia|]. cbn [mbind res_bind].
  set (rdlen := 256 * _ + _) in *. unfold is_u in Hrd. rewrite Z.gtb_ltb.
  destruct (Z.ltb_spec dn (r + 10 + rdlen)); [eauto|].
  destruct (_ && (rdlen =? 4)) eqn:E4.
  - apply andb_prop in E4 as [_ E4]. apply Z.eqb_eq in E4. rewrite read_n_ok by lia. eauto.
  - apply IH. lia.
Qed.

Lemma zdrop_bytes n l : is_bytes l → is_bytes (zdrop n l).
Proof. apply is_bytes_drop. Qed.
#[local] Hint Resolve zdrop_bytes : word.

Lemma ihl_bound v : is_byte v → 0 <= (v .& 0x0F) * 4 <= 60.
Proof.
  intros _. change 0x0F with (Z.ones 4). rewrite Z.land_ones by lia.
  pose proof (Z.mod_pos_bound v (2 ^ 4) ltac:(lia)). lia.
Qed.

Lemma parse_dns_safe pkt src port txid : is_bytes pkt →
  ∃ code ans, ipprobe_parse_dns pkt (zlen pkt) src port txid = Ok (code, ans) ∧
    ((code = 0 ∧ is_Some ans) ∨ (-8 <= code < 0 ∧ ans = None)).
Proof.
  intros Hp. unfold ipprobe_parse_dns, IP_HDR, UDP_HDR.
  assert (∀ c, -8 <= c < 0 → ∃ code ans, (mret (c, None) : res (Z * option Z)) = Ok (code, ans) ∧
    ((code = 0 ∧ is_Some ans) ∨ (-8 <= code < 0 ∧ ans = None))) as Hfail by eauto 10.
  destruct (Z.ltb_spec (zlen pkt) (20 + 8 + 12)); [apply Hfail; lia|].
  rewrite (read_ok pkt 0) by lia. cbn [mbind res_bind].
  destruct (negb _); [apply Hfail; lia|].
  pose proof (ihl_bound pkt.[Z.to_nat 0] ltac:(auto with word)) as Hi.
  set (ihl := (pkt.[Z.to_nat 0] .& 0x0F) * 4) in *.
  destruct (_ || (zlen pkt <? ihl + 8)) eqn:E; [apply Hfail; lia|].
  rewrite orb_false_iff, !Z.ltb_ge in E. destruct E as [E1 E2].
  rewrite (read_ok pkt 9) by lia. cbn [mbind res_bind]. destruct (negb _); [apply Hfail; lia|].
  rewrite read_n_ok by lia. cbn [mbind res_bind]. destruct (negb _); [apply Hfail; lia|].
  pose proof (zlen_zdrop ihl pkt ltac:(lia)) as Hu. pose proof (zdrop_bytes ihl pkt Hp) as Hub.
  set (udp := zdrop ihl pkt) in *.
  destruct (get_be16_ok udp 2) as [-> _]; [done|lia|lia|]. cbn [mbind res_bind].
  destruct (negb _); [apply Hfail; lia|].
  destruct (get_be16_ok udp 4) as [-> Hul]; [done|lia|lia|]. cbn [mbind res_bind].
  set (udp_len := 256 * _ + _) in *. destruct (_ || (ihl + udp_len >? zlen pkt)) eqn:E; [apply Hfail; lia|].
  rewrite orb_false_iff, Z.gtb_ltb, !Z.ltb_ge in E. destruct E as [E3 E4].
  destruct (Z.ltb_spec (udp_len - 8) 12); [apply Hfail; lia|].
  pose proof (zlen_zdrop 8 udp ltac:(lia)) as Hd. pose proof (zdrop_bytes 8 udp Hub) as Hdb.
  set (d := zdrop 8 udp) in *.
  destruct (get_be16_ok d 0) as [-> _]; [done|lia|lia|]. cbn [mbind res_bind].
  destruct (negb _); [apply Hfail; lia|].
  destruct (get_be16_ok d 6) as [-> _]; [done|lia|lia|]. cbn [mbind res_bind].
  destruct (skip_name_safe (S (length d)) d (udp_len - 8) 12) as (r & -> & Hr);
    [done|lia|lia|unfold zlen in *; lia|]. cbn [mbind res_bind].
  destruct (Z.ltb_spec r 0); [apply Hfail; lia|].
  destruct (answers_loop_safe (Z.to_nat (256 * d.[Z.to_nat 6] + d.[Z.to_nat (6 + 1)])) d (udp_len - 8) (r + 4))
    as (ans & ->); [done|lia|lia|]. cbn [mbind res_bind].
  destruct ans as [ip|]; [|apply Hfail; lia]. exists 0, (Some ip). split; [done|]. left. by split.
Qed.

(** ** Replies *)

Record answer := Answer { an_name : list Z; an_type : Z; an_rest : list Z; an_data : list Z }.

(** [an_rest] is the class and the time to live. *)
Definition answer_ok (a : answer) : Prop :=
  wire_name a.(an_name) ∧ is_u 16 a.(an_type) ∧ is_bytes a.(an_rest) ∧ zlen a.(an_rest) = 6 ∧
  is_bytes a.(an_data) ∧ zlen a.(an_data) < 65536.

Definition answer_bytes (a : answer) : list Z :=
  a.(an_name) ++ put_be16 a.(an_type) ++ a.(an_rest) ++ put_be16 (zlen a.(an_data)) ++ a.(an_data).

(** The first address record, which is what the probe is after. *)
Fixpoint first_a (l : list answer) : option Z :=
  match l with
  | [] => None
  | a :: l => if (a.(an_type) =? 1) && (zlen a.(an_data) =? 4) then Some (le_val a.(an_data)) else first_a l
  end.

Lemma get_be16_put pre v post off : is_u 16 v → off = zlen pre →
  get_be16 (pre ++ put_be16 v ++ post) off = Ok v.
Proof.
  intros Hv ->. unfold get_be16, put_be16. cbn [app]. rewrite (read_app pre _ _ (zlen pre)) by done. cbn [mbind res_bind].
  replace (pre ++ u8 (v .>> 8) :: u8 v :: post) with ((pre ++ [u8 (v .>> 8)]) ++ u8 v :: post)
    by by rewrite <- app_assoc.
  rewrite read_app by (rewrite zlen_app; by change (zlen [u8 (v .>> 8)]) with 1). cbn [mbind res_bind].
  rewrite be16_value by auto with word. pose proof (words_be16 v Hv) as E. cbn [put_be16 words] in E.
  change (mret (256 * u8 (v .>> 8) + u8 v)) with (Ok (256 * u8 (v .>> 8) + u8 v)). f_equal. lia.
Qed.

Lemma read_n_app pre x post n : length x = n →
  read_n (pre ++ x ++ post) (zlen pre) n = Ok x.
Proof.
  intros Hx. rewrite read_n_ok; [|apply zlen_nonneg|rewrite !zlen_app; unfold zlen; rewrite Hx; lia].
  f_equal. unfold slice, zlen. rewrite Nat2Z.id, drop_app_length. subst n. apply take_app_length.
Qed.

Lemma answers_loop_spec l pre tail : Forall answer_ok l → is_bytes pre →
  answers_loop (length l) (pre ++ concat (answer_bytes <$> l) ++ tail)
    (zlen pre + zlen (concat (answer_bytes <$> l))) (zlen pre) = Ok (first_a l).
Proof.
  intros Hl. revert pre. induction Hl as [|a l (Hn & Ht & Hrb & Hr & Hdb & Hd) Hl IH]; intros pre Hpre; [done|].
  rewrite fmap_cons. cbn [concat length answers_loop first_a].
  set (rest := concat (answer_bytes <$> l)) in *.
  assert (zlen (answer_bytes a) = zlen a.(an_name) + 10 + zlen a.(an_data)) as Ea.
  { unfold answer_bytes. rewrite !zlen_app, Hr. change (zlen (put_be16 _)) with 2. lia. }
  pose proof (zlen_nonneg a.(an_name)). pose proof (zlen_nonneg a.(an_data)). pose proof (zlen_nonneg rest).
  rewrite zlen_app, Ea. rewrite (proj2 (Z.leb_le _ _)) by lia.
  set (pkt := pre ++ (answer_bytes a ++ rest) ++ tail).
  assert (pkt = pre ++ a.(an_name) ++ put_be16 a.(an_type) ++ a.(an_rest) ++
    put_be16 (zlen a.(an_data)) ++ a.(an_data) ++ rest ++ tail) as Epkt.
  { unfold pkt, answer_bytes. by rewrite <- !app_assoc. }
  rewrite Epkt at 2. rewrite skip_name_wire; [|done| |lia].
  2: { rewrite Epkt, !length_app. lia. }
  cbn [mbind res_bind]. pose proof (zlen_nonneg pre).
  rewrite (proj2 (Z.ltb_ge _ 0)), Z.gtb_ltb, (proj2 (Z.ltb_ge _ _)) by lia. cbn [orb].
  assert (get_be16 pkt (zlen pre + zlen a.(an_name)) = Ok a.(an_type)) as ->.
  { rewrite Epkt, app_assoc. apply get_be16_put; [done|by rewrite zlen_app]. }
  assert (get_be16 pkt (zlen pre + zlen a.(an_name) + 8) = Ok (zlen a.(an_data))) as ->.
  { rewrite Epkt. replace (pre ++ a.(an_name) ++ put_be16 a.(an_type) ++ a.(an_rest) ++
      put_be16 (zlen a.(an_data)) ++ a.(an_data) ++ rest ++ tail) with
      ((pre ++ a.(an_name) ++ put_be16 a.(an_type) ++ a.(an_rest)) ++
      put_be16 (zlen a.(an_data)) ++ a.(an_data) ++ rest ++ tail) by by rewrite <- !app_assoc.
    apply get_be16_put; [unfold is_u; lia|]. rewrite !zlen_app, Hr. change (zlen (put_be16 _)) with 2. lia. }
  cbn [mbind res_bind]. rewrite Z.gtb_ltb, (proj2 (Z.ltb_ge _ _)) by lia.
  set (pre' := pre ++ a.(an_name) ++ put_be16 a.(an_type) ++ a.(an_rest) ++ put_be16 (zlen a.(an_data))).
  assert (pkt = pre' ++ a.(an_data) ++ rest ++ tail) as Epkt'.
  { rewrite Epkt. unfold pre'. by rewrite <- !app_assoc. }
  assert (zlen pre' = zlen pre + zlen a.(an_name) + 10) as Ep'.
  { unfold pre'. rewrite !zlen_app, Hr. change (zlen (put_be16 _)) with 2. lia. }
  rewrite <- Ep'. destruct ((an_type a =? 1) && (zlen (an_data a) =? 4)) eqn:E.
  - apply andb_prop in E as [_ E]. apply Z.eqb_eq in E. rewrite Epkt', read_n_app by (unfold zlen in E; lia).
    done.
  - specialize (IH (pre' ++ a.(an_data))). rewrite zlen_app in IH.
    replace (zlen pre + (zlen (an_name a) + 10 + zlen (an_data a) + zlen rest)) with
      (zlen pre' + zlen (an_data a) + zlen rest) by lia.
    rewrite Epkt', app_assoc. apply IH. unfold pre'.
    pose proof (wire_name_bytes _ Hn). auto 10 with word.
Qed.

(** The reply of a resolver: any IPv4 header (with options) from [src], a UDP header
    to port [dport], a DNS header with the answer count, one question, the answers,
    and whatever follows the datagram. *)
Record reply := Reply {
  r_ip : list Z; r_sport : list Z; r_cksum : list Z;
  r_flags : list Z; r_counts : list Z; r_qname : list Z; r_qtype : list Z;
  r_answers : list answer; r_trailing : list Z
}.

Definition reply_dns (r : reply) (txid : Z) : list Z :=
  put_be16 txid ++ r.(r_flags) ++ put_be16 (zlen r.(r_answers)) ++ r.(r_counts) ++
  r.(r_qname) ++ r.(r_qtype) ++ concat (answer_bytes <$> r.(r_answers)).

Definition reply_bytes (r : reply) (dport txid : Z) : list Z :=
  r.(r_ip) ++ r.(r_sport) ++ put_be16 dport ++ put_be16 (8 + zlen (reply_dns r txid)) ++ r.(r_cksum) ++
  reply_dns r txid ++ r.(r_trailing).

Definition reply_ok (r : reply) : Prop :=
  (zlen r.(r_ip) mod 4 = 0 ∧ 20 <= zlen r.(r_ip) <= 60) ∧
  r.(r_ip).[0] = 64 + zlen r.(r_ip) / 4 ∧ r.(r_ip).[9] = 17 ∧
  zlen r.(r_sport) = 2 ∧ zlen r.(r_cksum) = 2 ∧ zlen r.(r_flags) = 4 ∧ zlen r.(r_counts) = 4 ∧
  wire_name r.(r_qname) ∧ zlen r.(r_qtype) = 4 ∧ Forall answer_ok r.(r_answers) ∧
  zlen r.(r_answers) < 65536 ∧
  Forall is_bytes [r.(r_ip); r.(r_sport); r.(r_cksum); r.(r_flags); r.(r_counts); r.(r_qtype); r.(r_trailing)].

Lemma first_byte_ihl v n : v = 64 + n → 0 <= n < 16 → v .>> 4 = 4 ∧ v .& 0x0F = n.
Proof.
  intros -> Hn. rewrite Z.shiftr_div_pow2 by lia. change 0x0F with (Z.ones 4).
  rewrite Z.land_ones by lia. change (2 ^ 4) with 16. split; Z.div_mod_to_equations; lia.
Qed.

Lemma answers_bytes l : Forall answer_ok l → is_bytes (concat (answer_bytes <$> l)).
Proof.
  induction 1 as [|a l (Hn & Ht & Hrb & Hr & Hdb & Hd) _ IH]; [constructor|].
  rewrite fmap_cons. cbn [concat]. unfold answer_bytes. pose proof (wire_name_bytes _ Hn).
  auto 10 with word.
Qed.

Lemma read_n_at p off n : 0 <= off → off + Z.of_nat n <= zlen p →
  read_n p off n = Ok (slice (Z.to_nat off) n p).
Proof. apply read_n_ok. Qed.

(** The DNS part of a reply, from its identifier to its answers. *)
Lemma reply_dns_parsed r txid tail : reply_ok r → is_u 16 txid →
  let d := reply_dns r txid ++ tail in
  get_be16 d 0 = Ok txid ∧ get_be16 d 6 = Ok (zlen r.(r_answers)) ∧
  ∃ off, skip_name (S (length d)) d (zlen (reply_dns r txid)) 12 = Ok off ∧ 0 <= off ∧
    answers_loop (length r.(r_answers)) d (zlen (reply_dns r txid)) (off + 4) = Ok (first_a r.(r_answers)).
Proof.
  intros (_ & _ & _ & _ & _ & Hf & Hc & Hq & Hqt & Ha & Han & Hb) Ht d.
  rewrite !Forall_cons in Hb. destruct Hb as (_ & _ & _ & Bf & Bc & Bq & _ & _).
  set (hdr := put_be16 txid ++ r.(r_flags) ++ put_be16 (zlen r.(r_answers)) ++ r.(r_counts)).
  assert (zlen hdr = 12) as Hh.
  { unfold hdr. rewrite !zlen_app, Hf, Hc. change (zlen (put_be16 _)) with 2. lia. }
  assert (d = hdr ++ r.(r_qname) ++ r.(r_qtype) ++ concat (answer_bytes <$> r.(r_answers)) ++ tail) as Ed.
  { unfold d, reply_dns, hdr. by rewrite <- !app_assoc. }
  assert (zlen (reply_dns r txid) = 12 + zlen r.(r_qname) + 4 + zlen (concat (answer_bytes <$> r.(r_answers)))) as El.
  { unfold reply_dns. rewrite !zlen_app, Hf, Hc, Hqt. change (zlen (put_be16 _)) with 2. lia. }
  pose proof (zlen_nonneg r.(r_qname)). pose proof (zlen_nonneg (concat (answer_bytes <$> r.(r_answers)))).
  split_and!.
  - unfold d, reply_dns. rewrite <- !app_assoc. by apply (get_be16_put []).
  - rewrite Ed. unfold hdr. replace ((put_be16 txid ++ r_flags r ++ put_be16 (zlen (r_answers r)) ++ r_counts r) ++
      r_qname r ++ r_qtype r ++ concat (answer_bytes <$> r_answers r) ++ tail) with
      ((put_be16 txid ++ r_flags r) ++ put_be16 (zlen (r_answers r)) ++ r_counts r ++
      r_qname r ++ r_qtype r ++ concat (answer_bytes <$> r_answers r) ++ tail) by by rewrite <- !app_assoc.
    apply get_be16_put; [pose proof (zlen_nonneg (r_answers r)); unfold is_u; lia|].
    rewrite zlen_app, Hf. done.
  - exists (zlen hdr + zlen r.(r_qname)). split; [|split; [lia|]].
    + rewrite <- Hh. rewrite Ed. apply skip_name_wire; [done| |lia]. rewrite !length_app. lia.
    + rewrite El. replace (12 + zlen (r_qname r) + 4 + zlen (concat (answer_bytes <$> r_answers r)))
        with (zlen (hdr ++ r.(r_qname) ++ r.(r_qtype)) + zlen (concat (answer_bytes <$> r_answers r)))
        by (rewrite !zlen_app; lia).
      replace (zlen hdr + zlen (r_qname r) + 4) with (zlen (hdr ++ r.(r_qname) ++ r.(r_qtype)))
        by (rewrite !zlen_app; lia).
      rewrite Ed. replace (hdr ++ r_qname r ++ r_qtype r ++ concat (answer_bytes <$> r_answers r) ++ tail)
        with ((hdr ++ r_qname r ++ r_qtype r) ++ concat (answer_bytes <$> r_answers r) ++ tail)
        by by rewrite <- !app_assoc.
      apply answers_loop_spec; [done|]. unfold hdr. pose proof (wire_name_bytes _ Hq). auto 10 with word.
Qed.

Lemma reply_parsed r dport txid : reply_ok r → is_u 16 dport → is_u 16 txid →
  zlen (reply_dns r txid) + 8 < 65536 →
  let pkt := reply_bytes r dport txid in
  ipprobe_parse_dns pkt (zlen pkt) (le_val (slice 12 4 r.(r_ip))) dport txid =
  Ok (match first_a r.(r_answers) with Some ip => (0, Some ip) | None => (-8, None) end).
Proof.
  intros Hr Hdp Ht Hlen pkt. pose proof Hr as ((Hm & Hi) & H0 & H9 & Hs & Hck & Hf & Hc & Hq & Hqt & Ha & Han & Hb).
  set (d := reply_dns r txid ++ r.(r_trailing)).
  set (udp := r.(r_sport) ++ put_be16 dport ++ put_be16 (8 + zlen (reply_dns r txid)) ++ r.(r_cksum) ++ d).
  assert (pkt = r.(r_ip) ++ udp) as Ep by done.
  assert (zlen (reply_dns r txid) = 12 + zlen r.(r_qname) + 4 + zlen (concat (answer_bytes <$> r.(r_answers)))) as El.
  { unfold reply_dns. rewrite !zlen_app, Hf, Hc, Hqt. change (zlen (put_be16 _)) with 2. lia. }
  pose proof (zlen_nonneg r.(r_qname)). pose proof (zlen_nonneg (concat (answer_bytes <$> r.(r_answers)))).
  pose proof (zlen_nonneg r.(r_trailing)).
  assert (zlen udp = 8 + zlen (reply_dns r txid) + zlen r.(r_trailing)) as Hu.
  { unfold udp, d. rewrite !zlen_app, Hs, Hck. change (zlen (put_be16 _)) with 2. lia. }
  assert (zlen pkt = zlen r.(r_ip) + zlen udp) as Hp by by rewrite Ep, zlen_app.
  unfold ipprobe_parse_dns, IP_HDR, UDP_HDR. rewrite (proj2 (Z.ltb_ge (zlen pkt) _)) by lia.
  assert (∀ i, 0 <= i < 20 → read pkt i = Ok r.(r_ip).[Z.to_nat i]) as Hread.
  { intros i Hi'. rewrite read_ok by lia. f_equal. rewrite Ep. apply get_app_l. unfold zlen in *. lia. }
  rewrite (Hread 0) by lia. change (Z.to_nat 0) with 0%nat. cbn [mbind res_bind].
  destruct (first_byte_ihl r.(r_ip).[0] (zlen r.(r_ip) / 4) H0 ltac:(Z.div_mod_to_equations; lia)) as [-> ->].
  change (4 =? 4) with true. cbn [negb].
  replace (zlen (r_ip r) / 4 * 4) with (zlen r.(r_ip)) by (Z.div_mod_to_equations; lia).
  rewrite (proj2 (Z.ltb_ge (zlen (r_ip r)) 20)), (proj2 (Z.ltb_ge (zlen pkt) _)) by lia. cbn [orb].
  rewrite (Hread 9) by lia. change (Z.to_nat 9) with 9%nat. cbn [mbind res_bind]. rewrite H9.
  change (17 =? 17) with true. cbn [negb].
  rewrite (read_n_ok pkt 12 4) by lia. cbn [mbind res_bind].
  assert (slice (Z.to_nat 12) 4 pkt = slice 12 4 (r_ip r)) as ->.
  { rewrite Ep. unfold slice. change (Z.to_nat 12) with 12%nat.
    rewrite drop_app_le by (unfold zlen in *; lia). rewrite take_app_le; [done|].
    rewrite length_drop. unfold zlen in *. lia. }
  rewrite Z.eqb_refl. cbn [negb]. rewrite Ep, zdrop_app by done.
  assert (get_be16 udp 2 = Ok dport) as -> by (by apply get_be16_put).
  cbn [mbind res_bind]. rewrite Z.eqb_refl. cbn [negb].
  assert (get_be16 udp 4 = Ok (8 + zlen (reply_dns r txid))) as ->.
  { unfold udp. rewrite app_assoc. apply get_be16_put; [unfold is_u; lia|]. by rewrite zlen_app, Hs. }
  cbn [mbind res_bind]. rewrite Z.gtb_ltb, (proj2 (Z.ltb_ge _ 8)), (proj2 (Z.ltb_ge _ _)) by
    (rewrite ?zlen_app; lia). cbn [orb].
  replace (8 + zlen (reply_dns r txid) - 8) with (zlen (reply_dns r txid)) by lia.
  rewrite (proj2 (Z.ltb_ge _ 12)) by lia.
  assert (zdrop 8 udp = d) as ->.
  { unfold udp. replace (r_sport r ++ put_be16 dport ++ put_be16 (8 + zlen (reply_dns r txid)) ++ r_cksum r ++ d)
      with ((r_sport r ++ put_be16 dport ++ put_be16 (8 + zlen (reply_dns r txid)) ++ r_cksum r) ++ d)
      by by rewrite <- !app_assoc.
    apply zdrop_app. rewrite !zlen_app, Hs, Hck. done. }
  destruct (reply_dns_parsed r txid r.(r_trailing) Hr Ht) as (E1 & E2 & off & E3 & Hoff & E4). fold d in E1, E2, E3, E4.
  rewrite E1. cbn [mbind res_bind]. rewrite Z.eqb_refl. cbn [negb]. rewrite E2. cbn [mbind res_bind].
  rewrite E3. cbn [mbind res_bind]. rewrite (proj2 (Z.ltb_ge off 0)) by lia.
  unfold zlen at 1. rewrite Nat2Z.id, E4. done.
Qed.

(** ** Properties *)

(** The reply parser reads only inside the packet it is given and ends, on every
    packet; it returns 0 with an address or one of the documented error codes. *)
Theorem dns_parse_safe (pkt : list Z) (src port txid : Z) : is_bytes pkt →
  ∃ code ans, ipprobe_parse_dns pkt (zlen pkt) src port txid = Ok (code, ans) ∧
    ((code = 0 ∧ is_Some ans) ∨ (-8 <= code < 0 ∧ ans = None)).
Proof. apply parse_dns_safe. Qed.

(** From a well-formed reply of the expected sender, port and transaction the
    parser takes the first A record of four bytes, past aliases and compressed
    names, and reports -8 when there is none. *)
Theorem dns_reply_parsed (r : reply) (dport txid : Z) : reply_ok r → is_u 16 dport → is_u 16 txid →
  zlen (reply_dns r txid) + 8 < 65536 →
  ipprobe_parse_dns (reply_bytes r dport txid) (zlen (reply_bytes r dport txid))
    (le_val (slice 12 4 r.(r_ip))) dport txid =
  Ok (match first_a r.(r_answers) with Some ip => (0, Some ip) | None => (-8, None) end).
Proof. apply reply_parsed. Qed.

Lemma wire_labels_bytes ls : Forall (λ l, is_bytes l ∧ (46 ∉ l) ∧ 0 < zlen l <= 63) ls → is_bytes (join ls).
Proof.
  induction 1 as [|l ls (Hb & _) _ IH]; [constructor|]. destruct ls; [done|].
  change (join (l :: l0 :: ls)) with (l ++ 46 :: join (l0 :: ls)).
  apply is_bytes_app; [done|]. constructor; [unfold is_u; lia|done].
Qed.

(** For a host name of labels of 1 to 63 bytes the builder emits, exactly when it
    fits the buffer, one datagram: the query's header and question with the labels
    length-prefixed, and IP and UDP checksums for which the words of the header, and
    of the pseudo-header and datagram, sum to a multiple of 65535, as a receiver checks. *)
Theorem dns_query_built (cap src dst sport txid : Z) (ls : list (list Z)) :
  60 <= cap <= 65535 → is_u 32 src → is_u 32 dst → ls ≠ [] →
  Forall (λ l, is_bytes l ∧ (46 ∉ l) ∧ 0 < zlen l <= 63) ls →
  match ipprobe_build_dns cap src dst sport txid (join ls) with
  | Some pkt =>
    zlen pkt = 44 + zlen (wire_labels ls) ∧ zlen pkt <= cap ∧
    drop 28 pkt = put_be16 txid ++ [1; 0; 0; 1; 0; 0; 0; 0; 0; 0] ++ wire_labels ls ++ [0; 1; 0; 1] ∧
    words (take 20 pkt) mod 65535 = 0 ∧
    (words (pseudo_header src dst (24 + zlen (wire_labels ls))) + words (drop 20 pkt)) mod 65535 = 0
  | None => cap < 44 + zlen (wire_labels ls)
  end.
Proof.
  intros Hcap Hs Hd Hne Hls. pose proof (wire_labels_bytes ls Hls) as Hb.
  assert (length ls <= S (length (join ls)))%nat as Hfuel.
  { clear - Hls. induction Hls as [|l ls (_ & _ & Hl) _ IH]; [cbn; lia|]. destruct ls; [cbn; lia|].
    change (join (l :: l0 :: ls)) with (l ++ 46 :: join (l0 :: ls)). rewrite length_app. unfold zlen in Hl. cbn [length] in *. lia. }
  assert (encode_name (cap - 44) (join ls) =
    if zlen (wire_labels ls) <=? cap - 44 then Some (wire_labels ls) else None) as En.
  { unfold encode_name. rewrite encode_loop_labels; [done|done| |done].
    eapply Forall_impl; [exact Hls|]. by intros l (_ & ? & ?). }
  destruct (ipprobe_build_dns cap src dst sport txid (join ls)) as [pkt|] eqn:E.
  - destruct (build_dns_ok cap src dst sport txid (join ls) pkt (proj2 Hcap) Hb Hs Hd E) as (name & Hn & Hl & Hc & Hdrop & H1 & H2).
    rewrite En in Hn. destruct (zlen (wire_labels ls) <=? cap - 44); [|done]. by injection Hn as <-.
  - unfold ipprobe_build_dns, IP_HDR, UDP_HDR in E. rewrite (proj2 (Z.ltb_ge _ _)) in E by lia.
    replace (cap - 20 - 8 - 12 - 4) with (cap - 44) in E by lia. rewrite En in E.
    destruct (Z.leb_spec (zlen (wire_labels ls)) (cap - 44)); [done|lia].
Qed.

(** ** Witnesses *)

Definition sample_reply : reply := Reply
  [0x45; 0; 0; 0; 0; 0; 0; 0; 64; 17; 0; 0; 8; 8; 8; 8; 10; 8; 0; 2] [0; 53] [0; 0]
  [0x81; 0x80; 0; 1] [0; 0; 0; 0] [1; 97; 3; 99; 111; 109; 0] [0; 1; 0; 1]
  [Answer [0xc0; 12] 5 [0; 1; 0; 0; 0; 9] [0xc0; 14]; Answer [0xc0; 14] 1 [0; 1; 0; 0; 0; 9] [1; 2; 3; 4]]
  [7; 7].

Lemma sample_reply_ok : reply_ok sample_reply.
Proof.
  assert (wire_name [0xc0; 12] ∧ wire_name [0xc0; 14] ∧ wire_name [1; 97; 3; 99; 111; 109; 0]) as (W1 & W2 & W3).
  { split_and!; [constructor; [lia|unfold is_u; lia]..|].
    apply (wire_label [97]); [by vm_compute|word_list|].
    apply (wire_label [99; 111; 109]); [by vm_compute|word_list|constructor]. }
  unfold reply_ok. cbn [r_ip r_sport r_cksum r_flags r_counts r_qname r_qtype r_answers r_trailing sample_reply].
  split_and!; try done.
  - repeat (apply Forall_cons_2; [unfold answer_ok; cbn [an_name an_type an_rest an_data];
      split_and!; try done; try word_list; (by vm_compute || (unfold is_u; lia))|]). apply Forall_nil_2.
  - repeat (apply Forall_cons_2; [word_list|]). apply Forall_nil_2.
Qed.

Lemma dns_parse_safe_witness :
  ∃ code ans, ipprobe_parse_dns (replicate 60 0x45) (zlen (replicate 60 0x45)) 7 53 1 = Ok (code, ans) ∧
    ((code = 0 ∧ is_Some ans) ∨ (-8 <= code < 0 ∧ ans = None)).
Proof. apply (dns_parse_safe (replicate 60 0x45) 7 53 1). apply Forall_replicate. unfold is_u. lia. Defined.

Lemma dns_reply_parsed_witness :
  ipprobe_parse_dns (reply_bytes sample_reply 40000 0x1234) (zlen (reply_bytes sample_reply 40000 0x1234))
    134744072 40000 0x1234 = Ok (0, Some 67305985).
Proof.
  apply (dns_reply_parsed sample_reply 40000 0x1234 sample_reply_ok); [unfold is_u; lia..|by vm_compute].
Defined.

Lemma dns_query_built_witness :
  match ipprobe_build_dns 512 33556490 134744072 40000 0x1234 (str "a.com") with
  | Some pkt =>
    zlen pkt = 51 ∧ zlen pkt <= 512 ∧
    drop 28 pkt = put_be16 0x1234 ++ [1; 0; 0; 1; 0; 0; 0; 0; 0; 0] ++ [1; 97; 3; 99; 111; 109; 0] ++ [0; 1; 0; 1] ∧
    words (take 20 pkt) mod 65535 = 0 ∧
    (words (pseudo_header 33556490 134744072 31) + words (drop 20 pkt)) mod 65535 = 0
  | None => 512 < 51
  end.
Proof.
  apply (dns_query_built 512 33556490 134744072 40000 0x1234 [[97]; [99; 111; 109]]);
    [lia|unfold is_u; lia|unfold is_u; lia|done|].
  repeat (apply Forall_cons_2; [split_and!; [word_list| |by vm_compute|by vm_compute]|]); [..|apply Forall_nil_2].
  all: intros Hin; repeat (apply elem_of_cons in Hin as [?|Hin]; [done|]); by apply elem_of_nil in Hin.
Defined.
