(* ===== verification/Proxy.v ===== *)
(** * awg_proxy.c: the TLS proxy

    The ClientHello walk, the host name filter, and the table of connections: the
    lwIP callbacks, the two pumps, the client socket handler, the idle sweep and the
    poll pass that drives them. The results of the system and lwIP calls a function
    makes are its arguments, and what it does to the outside is the list of [action]s
    it returns. Logging is not modelled. *)
From S2P Require Import Prelude Cstr.

Definition MAX_CONN : nat := 16.
Definition BUF_SIZE : Z := 8192.
Definition SNIFF_LIMIT : Z := 2048.
Definition SNIFF_TIMEOUT_MS : Z := 5000.
Definition IDLE_TIMEOUT_MS : Z := 120000.

(** ** The ClientHello *)

Definition be16_at (b : list Z) (p : Z) : res Z :=
  x ← read b p; y ← read b (p + 1); mret ((x .<< 8) .| y).

(** The walk over the extensions; fuel that runs out is a [Fault]. *)
Fixpoint sni_loop (fuel : nat) (b : list Z) (p fin : Z) : res (Z * Z) :=
  match fuel with
  | O => Fault
  | S fuel =>
    if p + 4 <=? fin then
      type ← be16_at b p;
      elen ← be16_at b (p + 2);
      let p := p + 4 in
      if p + elen >? fin then Err
      else if type =? 0 then
        let q := p in
        if q + 2 >? fin then Err else
        let q := q + 2 in
        if q + 3 >? fin then Err else
        ntype ← read b q;
        if negb (ntype =? 0) then Err else
        nlen ← be16_at b (q + 1);
        let q := q + 3 in
        if (q + nlen >? fin) || (nlen <=? 0) then Err else mret (q, nlen)
      else sni_loop fuel b (p + elen) fin
    else Err
  end.

(** The offset and the length of the name; [Err] is -1. *)
Definition find_sni (b : list Z) (len : Z) : res (Z * Z) :=
  if len <? 45 then Err else
  b0 ← read b 0;
  if negb (b0 =? 0x16) then Err else
  b5 ← read b 5;
  if negb (b5 =? 0x01) then Err else
  let p := 43 in
  if p + 1 >? len then Err else
  x ← read b p;
  let p := p + (1 + x) in
  if p + 2 >? len then Err else
  x ← be16_at b p;
  let p := p + (2 + x) in
  if p + 1 >? len then Err else
  x ← read b p;
  let p := p + (1 + x) in
  if p + 2 >? len then Err else
  ext_total ← be16_at b p;
  let p := p + 2 in
  let fin := p + ext_total in
  let fin := if fin >? len then len else fin in
  sni_loop (S (Z.to_nat len)) b p fin.

(** The bytes copied into [out]. *)
Definition sni_hostname (b : list Z) (len cap : Z) : res (list Z) :=
  '(off, nlen) ← find_sni b len;
  if nlen >=? cap then Err else read_n b off (Z.to_nat nlen).

(** ** The host filter *)

Definition host_char (c : Z) : bool :=
  ((97 <=? c) && (c <=? 122)) || ((65 <=? c) && (c <=? 90)) || ((48 <=? c) && (c <=? 57)) ||
  (c =? 45) || (c =? 95).

Fixpoint labels_loop (h : list Z) (label_empty : bool) : bool :=
  match h with
  | [] => negb label_empty
  | c :: h =>
    if c =? 46 then if label_empty then false else labels_loop h true
    else if negb (host_char c) then false
    else labels_loop h false
  end.

Definition strip_dots (h : list Z) : list Z := reverse (skip_while (λ c, c =? 46) (reverse h)).

(** The name without its trailing dots, or [None] for [false]. *)
Definition host_normalise (h : list Z) : option (list Z) :=
  let h := strip_dots h in
  let n := zlen h in
  if (n =? 0) || (n >? 253) then None
  else if labels_loop h true then Some h else None.

Definition g_deny_suffix : list (list Z) :=
  [str "nintendo.net"; str "nintendo.com"; str "nintendo.co.jp"].

Definition tolower (c : Z) : Z := if (65 <=? c) && (c <=? 90) then c + 32 else c.
Definition strcasecmp_eq (a b : list Z) : bool := bool_decide (tolower <$> a = tolower <$> b).

Definition suffix_denied (host suffix : list Z) : bool :=
  let hl := length host in
  let sl := length suffix in
  if (hl <? sl)%nat then false
  else if negb (strcasecmp_eq (drop (hl - sl) host) suffix) then false
  else (hl =? sl)%nat || (host.[hl - sl - 1] =? 46).

Definition host_denied (host : list Z) : bool := existsb (suffix_denied host) g_deny_suffix.

(** ** The connections *)

Inductive cstate : Set := ST_FREE | ST_SNIFF | ST_RESOLVING | ST_CONNECTING | ST_RELAY.

#[export] Instance cstate_eq_dec : EqDecision cstate.
Proof. solve_decision. Defined.

(** [up] is the first [up_len] bytes of the array; [rx] is the chain of pbufs from
    [rx_head] on, each by its payload; [host] is the C string. *)
Record conn_t := Conn {
  st : cstate; cfd : Z; pcb : option Z; host : list Z; last_ms : Z;
  up : list Z; rx : list (list Z); rx_off : Z; peer_closed : bool
}.

#[export] Instance conn_eta : Eta conn_t := λ c, Conn
  c.(st) c.(cfd) c.(pcb) c.(host) c.(last_ms) c.(up) c.(rx) c.(rx_off) c.(peer_closed).

(** Zeroed, with [cfd = -1]. *)
Definition conn_free : conn_t := Conn ST_FREE (-1) None [] 0 [] [] 0 false.

Record awg_proxy_stats := Stats {
  accepted : Z; denied : Z; refused : Z; timed_out : Z; closed : Z;
  resolved : Z; connected : Z; completed : Z; failed : Z; bytes_up : Z; bytes_down : Z
}.

#[export] Instance stats_eta : Eta awg_proxy_stats := λ s, Stats
  s.(accepted) s.(denied) s.(refused) s.(timed_out) s.(closed) s.(resolved)
  s.(connected) s.(completed) s.(failed) s.(bytes_up) s.(bytes_down).

Definition stats_zero : awg_proxy_stats := Stats 0 0 0 0 0 0 0 0 0 0 0.

(** [x++] on a [uint32_t]. *)
Definition inc (x : Z) : Z := u32 (x + 1).

(** What passes between the proxy and the outside, what it is given included. *)
Inductive action : Type :=
| Accepted (fd : Z)
| RecvFd (fd : Z) (bytes : list Z)
| TcpNew (pcb : Z)
| TcpGot (pcb : Z) (bytes : list Z)
| TcpGone (pcb : Z)
| TcpAbort (pcb : Z)
| PbufFree (n : nat)
| CloseFd (fd : Z)
| TcpConnect (pcb ip : Z)
| TcpWrite (pcb : Z) (bytes : list Z)
| TcpRecved (pcb n : Z)
| TcpShutdown (pcb : Z)
| SendFd (fd : Z) (bytes : list Z)
| DnsQuery (name : list Z).

Abbreviation effect := (conn_t * awg_proxy_stats * list action)%type.

(** [why] says whether a reason is given. *)
Definition conn_close (c : conn_t) (why : bool) (s : awg_proxy_stats) : effect :=
  match c.(st) with
  | ST_FREE => (c, s, [])
  | _ =>
    let acts := match c.(pcb) with Some p => [TcpAbort p] | None => [] end ++
                (match c.(rx) with [] => [] | _ => [PbufFree (length c.(rx))] end) ++
                (if 0 <=? c.(cfd) then [CloseFd c.(cfd)] else []) in
    let s := if why then s <| closed ::= inc |> else s in
    (conn_free, s, acts)
  end.

(** ** lwIP's callbacks *)

(** [arg == NULL] does not occur here: the callbacks are cleared before the slot is. *)
Definition on_recv (c : conn_t) (p : option (list (list Z))) (err_ok : bool) : conn_t :=
  match p with
  | None => c <| peer_closed := true |>
  | Some chain => if err_ok then c <| rx ::= λ l, l ++ chain |> else c
  end.

Definition on_err (c : conn_t) (s : awg_proxy_stats) : effect :=
  conn_close (c <| pcb := None |>) false (s <| failed ::= inc |>).

Definition on_connected (c : conn_t) (err_ok : bool) (s : awg_proxy_stats) : effect :=
  if negb err_ok then conn_close c true (s <| failed ::= inc |>)
  else (c <| st := ST_RELAY |>, s <| connected ::= inc |>, []).

(** [new] is what [tcp_new] returns, [connect_ok] whether [tcp_connect] does. *)
Definition on_resolved (c : conn_t) (name : list Z) (ip : option Z) (new : option Z)
    (connect_ok : bool) (s : awg_proxy_stats) : effect :=
  if negb (bool_decide (c.(st) = ST_RESOLVING)) then (c, s, [])
  else
    match ip with
    | None => conn_close c true (s <| failed ::= inc |>)
    | Some ip =>
      let s := s <| resolved ::= inc |> in
      match new with
      | None => conn_close (c <| pcb := None |>) true (s <| failed ::= inc |>)
      | Some p =>
        let c := c <| pcb := Some p |> <| st := ST_CONNECTING |> in
        if negb connect_ok then
          let '(c, s, acts) := conn_close c true (s <| failed ::= inc |>) in (c, s, TcpNew p :: acts)
        else (c, s, [TcpNew p; TcpConnect p ip])
      end
    end.

(** ** The pumps *)

(** [room] is [tcp_sndbuf], [write_ok] the result of [tcp_write]. *)
Definition pump_up (c : conn_t) (room : Z) (write_ok : bool) (now : Z) (s : awg_proxy_stats) : effect :=
  match c.(up), c.(pcb) with
  | [], _ | _, None => (c, s, [])
  | _, Some p =>
    if room =? 0 then (c, s, [])
    else
      let n := if zlen c.(up) <? room then zlen c.(up) else room in
      if negb write_ok then (c, s, [])
      else (c <| up ::= zdrop n |> <| last_ms := now |>,
            s <| bytes_up ::= λ b, u64 (b + u32 n) |>, [TcpWrite p (ztake n c.(up))])
  end.

Inductive send_result : Set := Sent (n : Z) | SendAgain | SendFailed.

(** [sends k len] is the result of the [k]-th call, given [len] bytes. Fuel that runs out leaves the
    connection as it is; [down_fuel] is shown to be enough. *)
Fixpoint pump_down_loop (fuel k : nat) (c : conn_t) (sends : nat → Z → send_result) (now : Z)
    (s : awg_proxy_stats) : effect :=
  match fuel with
  | O => (c, s, [])
  | S fuel =>
    match c.(rx) with
    | [] => (c, s, [])
    | p :: next =>
      let avail := zlen p - c.(rx_off) in
      if avail <=? 0 then
        let '(c, s, acts) := pump_down_loop fuel k (c <| rx := next |> <| rx_off := 0 |>) sends now s in
        (c, s, PbufFree 1 :: acts)
      else
        let bytes := zdrop c.(rx_off) p in
        match sends k avail with
        | Sent n =>
          if 0 <? n then
            let ack := match c.(pcb) with Some t => [TcpRecved t (u16 n)] | None => [] end in
            let sent := SendFd c.(cfd) (ztake n bytes) :: ack in
            let '(c, s, acts) := pump_down_loop fuel (S k)
              (c <| rx_off := u16 (c.(rx_off) + u16 n) |> <| last_ms := now |>) sends now
              (s <| bytes_down ::= λ b, u64 (b + u32 n) |>) in
            (c, s, sent ++ acts)
          else conn_close c true s
        | SendAgain => (c, s, [])
        | SendFailed => conn_close c true s
        end
    end
  end.

Definition down_fuel (c : conn_t) : nat := S (length c.(rx) + length (concat c.(rx))).

Definition pump_down (c : conn_t) (sends : nat → Z → send_result) (now : Z) (s : awg_proxy_stats) : effect :=
  pump_down_loop (down_fuel c) 0 c sends now s.

(** ** The client's socket *)

Inductive recv_result : Type := Received (bytes : list Z) | RecvAgain | RecvFailed.

Inductive dns_result : Type := DnsCached (ip : Z) | DnsInProgress | DnsRejected.

(** The results of the calls [handle_client_readable] may make; [recv] is given the
    space there is. *)
Record client_io := ClientIo {
  io_recv : Z → recv_result; io_now : Z; io_dns : dns_result; io_new : option Z; io_connect : bool
}.

(** What the bytes in [up] lead to: while sniffing, the host is looked for. *)
Definition sniff (c : conn_t) (io : client_io) (s : awg_proxy_stats) : effect :=
  match c.(st) with
  | ST_SNIFF =>
    match sni_hostname c.(up) (zlen c.(up)) 128 with
    | Ok name =>
      let c := c <| host := c_string name |> in
      match host_normalise c.(host) with
      | None => conn_close (c <| host := [] |>) true (s <| denied ::= inc |>)
      | Some h =>
        let c := c <| host := h |> in
        if host_denied c.(host) then conn_close c true (s <| denied ::= inc |>)
        else
          let c := c <| st := ST_RESOLVING |> in
          let '(c', s', acts) :=
            match io.(io_dns) with
            | DnsCached ip => on_resolved c c.(host) (Some ip) io.(io_new) io.(io_connect) s
            | DnsInProgress => (c, s, [])
            | DnsRejected => conn_close c true (s <| failed ::= inc |>)
            end in
          (c', s', DnsQuery c.(host) :: acts)
      end
    | _ => if SNIFF_LIMIT <=? zlen c.(up) then conn_close c true s else (c, s, [])
    end
  | _ => (c, s, [])
  end.

Definition handle_client_readable (c : conn_t) (io : client_io) (s : awg_proxy_stats) : effect :=
  let space := BUF_SIZE - zlen c.(up) in
  if space <=? 0 then (c, s, [])
  else
    match io.(io_recv) space with
    | Received [] =>
      match c.(pcb), c.(up) with
      | Some p, [] => (c, s, [TcpShutdown p])
      | _, _ => (c, s, [])
      end
    | RecvAgain => (c, s, [])
    | RecvFailed => conn_close c true s
    | Received bytes =>
      let '(c', s', acts) := sniff (c <| up ::= λ u, u ++ bytes |> <| last_ms := io.(io_now) |>) io s in
      (c', s', RecvFd c.(cfd) bytes :: acts)
    end.

(** ** The table *)

Record proxy := Proxy { g_conn : list conn_t; g_listen : Z; g_stats : awg_proxy_stats }.

#[export] Instance proxy_eta : Eta proxy := λ p, Proxy p.(g_conn) p.(g_listen) p.(g_stats).

Definition is_free (c : conn_t) : bool := bool_decide (c.(st) = ST_FREE).

(** An operation on slot [i]. *)
Definition on_slot (i : nat) (f : conn_t → awg_proxy_stats → effect) (p : proxy) : proxy * list action :=
  match p.(g_conn) !! i with
  | None => (p, [])
  | Some c =>
    let '(c, s, acts) := f c p.(g_stats) in
    (p <| g_conn ::= <[i := c]> |> <| g_stats := s |>, acts)
  end.

(** [for (i = 0; i < MAX_CONN; i++)] over such operations. *)
Fixpoint each_slot (ids : list nat) (f : nat → conn_t → awg_proxy_stats → effect) (p : proxy)
    : proxy * list action :=
  match ids with
  | [] => (p, [])
  | i :: ids =>
    let '(p, a1) := on_slot i (f i) p in
    let '(p, a2) := each_slot ids f p in
    (p, a1 ++ a2)
  end.

Definition slots : list nat := seq 0 MAX_CONN.

(** The index of the first free slot. *)
Fixpoint conn_alloc_loop (cs : list conn_t) (i : nat) : option nat :=
  match cs with
  | [] => None
  | c :: cs => if is_free c then Some i else conn_alloc_loop cs (S i)
  end.

Definition conn_alloc (p : proxy) : option nat * proxy :=
  match conn_alloc_loop p.(g_conn) 0 with
  | Some i => (Some i, p <| g_conn ::= <[i := conn_free]> |>)
  | None => (None, p)
  end.

(** The results of [socket], [bind] and [listen]. *)
Definition open_listener (fd : Z) (bind_ok listen_ok : bool) : Z * list action :=
  if fd <? 0 then (-1, [])
  else if negb bind_ok || negb listen_ok then (-1, [CloseFd fd])
  else (fd, []).

Definition awg_proxy_start (fd : Z) (bind_ok listen_ok : bool) (p : proxy) : proxy * Z * list action :=
  let p := p <| g_stats := stats_zero |>
             <| g_conn ::= λ cs, (λ c, c <| st := ST_FREE |> <| cfd := -1 |>) <$> cs |> in
  let '(l, acts) := open_listener fd bind_ok listen_ok in
  (p <| g_listen := l |>, if 0 <=? l then 0 else -1, acts).

Definition sweep_slot (now : Z) (c : conn_t) (s : awg_proxy_stats) : effect :=
  if is_free c then (c, s, [])
  else
    let idle := u32 (now - c.(last_ms)) in
    let limit := if bool_decide (c.(st) = ST_SNIFF) then SNIFF_TIMEOUT_MS else IDLE_TIMEOUT_MS in
    if idle <? limit then (c, s, [])
    else conn_close c true (s <| timed_out ::= inc |>).

Definition sweep_idle (now : Z) (p : proxy) : proxy * list action :=
  each_slot slots (λ _, sweep_slot now) p.

(** ** The poll pass *)

Definition POLLIN : Z := 1.
Definition POLLOUT : Z := 4.
Definition POLLERR : Z := 8.
Definition POLLHUP : Z := 16.
Definition POLLNVAL : Z := 32.

(** One [struct pollfd] with the slot that owns it. *)
Record pollfd := Pollfd { p_fd : Z; p_events : Z; p_owner : option nat }.

Definition conn_events (c : conn_t) : Z :=
  (if 0 <? BUF_SIZE - zlen c.(up) then POLLIN else 0) .|
  (match c.(rx) with [] => 0 | _ => POLLOUT end).

Definition conn_pollfd (i : nat) (c : conn_t) : list pollfd :=
  if is_free c || (c.(cfd) <? 0) then []
  else if conn_events c =? 0 then []
  else [Pollfd c.(cfd) (conn_events c) (Some i)].

(** The descriptors, the head ones first. *)
Definition poll_head (p : proxy) (extra_fd : Z) : list pollfd :=
  Pollfd p.(g_listen) POLLIN None :: (if 0 <=? extra_fd then [Pollfd extra_fd POLLIN None] else []).

Definition poll_set (p : proxy) (extra_fd : Z) : list pollfd :=
  poll_head p extra_fd ++ concat (imap conn_pollfd p.(g_conn)).

Definition poll_timeout (p : proxy) (timeout_ms : Z) : Z :=
  if existsb (λ c, negb (is_free c) && (0 <? zlen c.(up))) p.(g_conn)
  then if timeout_ms >? 5 then 5 else timeout_ms
  else timeout_ms.

(** What the calls of one pass return: [poll] and the [revents] it sets, [accept],
    per slot the client's socket and the tunnel's, and the clock where it is read: at
    the accept, by the pumps (the last reading of each) and by the sweep. *)
Record poll_in := PollIn {
  in_poll : Z; in_revents : nat → Z; in_accept : Z;
  in_accept_now : Z; in_serve_now : nat → Z; in_now : Z; in_up_now : nat → Z; in_down_now : nat → Z;
  in_io : nat → client_io; in_sends : nat → nat → Z → send_result; in_sends_last : nat → nat → Z → send_result;
  in_room : nat → Z; in_write : nat → bool
}.

Definition bit (x m : Z) : bool := negb (x .& m =? 0).

Definition accept_one (p : proxy) (fd now : Z) : proxy * list action :=
  if fd <? 0 then (p, [])
  else
    match conn_alloc p with
    | (None, p) => (p <| g_stats ::= λ s, s <| refused ::= inc |> |>, [Accepted fd; CloseFd fd])
    | (Some i, p) =>
      (p <| g_conn ::= alter (λ c, c <| cfd := fd |> <| st := ST_SNIFF |> <| last_ms := now |>) i |>
         <| g_stats ::= λ s, s <| accepted ::= inc |> |>, [Accepted fd])
    end.

Definition serve_ready (i : nat) (rev : Z) (inp : poll_in) (c : conn_t) (s : awg_proxy_stats) : effect :=
  if is_free c then (c, s, [])
  else if bit rev (POLLERR .| POLLHUP .| POLLNVAL) then conn_close c true s
  else
    let '(c, s, a1) := if bit rev POLLOUT then pump_down c (inp.(in_sends) i) (inp.(in_serve_now) i) s else (c, s, []) in
    let '(c, s, a2) := if negb (is_free c) && bit rev POLLIN
                       then handle_client_readable c (inp.(in_io) i) s else (c, s, []) in
    (c, s, a1 ++ a2).

(** The descriptors of the connections, from index [k] on. *)
Fixpoint serve_loop (k : nat) (fds : list pollfd) (inp : poll_in) (p : proxy) : proxy * list action :=
  match fds with
  | [] => (p, [])
  | fd :: fds =>
    let '(p, a1) := match fd.(p_owner) with
                    | Some i => on_slot i (serve_ready i (inp.(in_revents) k) inp) p
                    | None => (p, [])
                    end in
    let '(p, a2) := serve_loop (S k) fds inp p in
    (p, a1 ++ a2)
  end.

Definition finish_slot (inp : poll_in) (i : nat) (c : conn_t) (s : awg_proxy_stats) : effect :=
  if is_free c then (c, s, [])
  else
    let '(c, s, a1) := if bool_decide (c.(st) = ST_RELAY)
                       then pump_up c (inp.(in_room) i) (inp.(in_write) i) (inp.(in_up_now) i) s else (c, s, []) in
    let '(c, s, a2) := match c.(rx) with
                       | [] => (c, s, [])
                       | _ => pump_down c (inp.(in_sends_last) i) (inp.(in_down_now) i) s
                       end in
    let '(c, s, a3) := match c.(peer_closed), c.(rx) with
                       | true, [] => conn_close c false (s <| completed ::= inc |>)
                       | _, _ => (c, s, [])
                       end in
    (c, s, a1 ++ a2 ++ a3).

(** The table after the pass, the caller's [extra_revents], and the actions. *)
Definition awg_proxy_poll (extra_fd : Z) (inp : poll_in) (p : proxy) : proxy * Z * list action :=
  if p.(g_listen) <? 0 then
    (p, (if extra_fd <? 0 then 0 else if 0 <? inp.(in_poll) then inp.(in_revents) 0%nat else 0), [])
  else
    let fds := poll_set p extra_fd in
    let n_head := length (poll_head p extra_fd) in
    let '(p, extra, a1) :=
      if 0 <? inp.(in_poll) then
        let extra := if 0 <=? extra_fd then inp.(in_revents) 1%nat else 0 in
        let '(p, b1) := if bit (inp.(in_revents) 0%nat) POLLIN
                        then accept_one p inp.(in_accept) inp.(in_accept_now) else (p, []) in
        let '(p, b2) := serve_loop n_head (drop n_head fds) inp p in
        (p, extra, b1 ++ b2)
      else (p, 0, []) in
    let '(p, a2) := sweep_idle inp.(in_now) p in
    let '(p, a3) := each_slot slots (finish_slot inp) p in
    (p, extra, a1 ++ a2 ++ a3).

Definition awg_proxy_stop (p : proxy) : proxy * list action :=
  let '(p, a1) := each_slot slots (λ _ c s, conn_close c false s) p in
  if 0 <=? p.(g_listen) then (p <| g_listen := -1 |>, a1 ++ [CloseFd p.(g_listen)]) else (p, a1).

Definition awg_proxy_live (p : proxy) : Z :=
  zlen (filter (λ c, is_free c = false) p.(g_conn)).

Definition awg_proxy_get_stats (p : proxy) : awg_proxy_stats := p.(g_stats).
