(* ===== verification/ProxySni.v ===== *)
(** * The proxy's ClientHello walk and host filter

    The walk never reads outside the bytes received, finds the name of every
    ClientHello that carries one, and the filter lets through exactly the
    well-formed names outside the deny list, whatever their case or final dots. *)
From stdpp Require Import sets.
From S2P Require Import Prelude Cstr Proxy.

(** ** Reading big-endian fields *)

Lemma be16_lor a b : is_byte a → is_byte b → (a .<< 8) .| b = 256 * a + b.
Proof. intros Ha Hb. rewrite Z.lor_comm, lor_add_shift by (done || lia). lia. Qed.

Lemma be16_at_ok b p : is_bytes b → 0 <= p → p + 2 <= zlen b →
  ∃ v, be16_at b p = Ok v ∧ is_u 16 v.
Proof.
  intros Hb H0 H1. unfold be16_at. rewrite (read_ok b p), (read_ok b (p + 1)) by lia. cbn [mbind res_bind].
  pose proof (is_u_get 8 b (Z.to_nat p) ltac:(lia) Hb) as Ha.
  pose proof (is_u_get 8 b (Z.to_nat (p + 1)) ltac:(lia) Hb) as Hc.
  rewrite be16_lor by done. eexists. split; [done|]. unfold is_u in *. lia.
Qed.

(** The two bytes of a 16-bit field. *)
Definition be16 (v : Z) : list Z := [v / 256; v mod 256].

Lemma be16_bytes v : is_u 16 v → is_bytes (be16 v).
Proof. unfold is_u. intros Hv. repeat constructor; unfold is_u; Z.div_mod_to_equations; lia. Qed.

Lemma read_at pre x post i : i = zlen pre → read (pre ++ x :: post) i = Ok x.
Proof.
  intros ->. rewrite read_ok by (rewrite zlen_app, zlen_cons; pose proof (zlen_nonneg pre);
    pose proof (zlen_nonneg post); lia).
  unfold zlen. rewrite Nat2Z.id, get_app_r, Nat.sub_diag by lia. done.
Qed.

Lemma be16_at_put pre v post p : is_u 16 v → p = zlen pre → be16_at (pre ++ be16 v ++ post) p = Ok v.
Proof.
  intros Hv ->. unfold be16_at, be16. cbn [app]. rewrite (read_at pre _ _ (zlen pre)) by done.
  cbn [mbind res_bind].
  replace (pre ++ v / 256 :: v mod 256 :: post) with ((pre ++ [v / 256]) ++ v mod 256 :: post)
    by by rewrite <- app_assoc.
  rewrite read_at by (rewrite zlen_app; by change (zlen [v / 256]) with 1). cbn [mbind res_bind].
  pose proof (be16_bytes v Hv) as Hb. unfold be16 in Hb. rewrite !Forall_cons in Hb. destruct Hb as (Ha & Hb & _).
  rewrite be16_lor by done. unfold mret, res_ret. f_equal. rewrite (Z.div_mod v 256) at 3 by lia. lia.
Qed.

(** ** The walk stays inside the buffer *)

(** A result that lies within [len] bytes, and no fault. *)
Definition name_within (len : Z) (r : res (Z * Z)) : Prop :=
  match r with
  | Ok (off, n) => 0 <= off ∧ 0 < n ∧ off + n <= len
  | Err => True
  | Fault => False
  end.

Lemma sni_loop_within fuel b p fin : is_bytes b → 0 <= p → fin <= zlen b →
  (Z.to_nat (fin - p) < 4 * fuel)%nat → name_within fin (sni_loop fuel b p fin).
Proof.
  intros Hb. revert p. induction fuel as [|fuel IH]; intros p Hp Hf Hfu; [lia|].
  cbn [sni_loop]. destruct (Z.leb_spec (p + 4) fin); [|done].
  destruct (be16_at_ok b p) as (ty & -> & Hty); [done|lia|lia|].
  destruct (be16_at_ok b (p + 2)) as (el & -> & Hel); [done|lia|lia|]. cbn [mbind res_bind].
  unfold is_u in *. rewrite ?Z.gtb_ltb. destruct (Z.ltb_spec fin (p + 4 + el)); [done|].
  destruct (ty =? 0); [|apply IH; lia].
  destruct (Z.ltb_spec fin (p + 4 + 2)); [done|]. rewrite ?Z.gtb_ltb.
  destruct (Z.ltb_spec fin (p + 4 + 2 + 3)); [done|].
  rewrite read_ok by lia. cbn [mbind res_bind]. destruct (negb _); [done|].
  destruct (be16_at_ok b (p + 4 + 2 + 1)) as (nl & -> & Hnl); [done|lia|lia|]. cbn [mbind res_bind].
  destruct (_ || _) eqn:E; [done|].
  rewrite orb_false_iff, ?Z.gtb_ltb, Z.ltb_ge, Z.leb_gt in E. cbn. lia.
Qed.

Lemma find_sni_within b : is_bytes b → name_within (zlen b) (find_sni b (zlen b)).
Proof.
  intros Hb. unfold find_sni. destruct (Z.ltb_spec (zlen b) 45); [done|].
  rewrite (read_ok b 0) by lia. cbn [mbind res_bind]. destruct (negb _); [done|].
  rewrite (read_ok b 5) by lia. cbn [mbind res_bind]. destruct (negb _); [done|].
  change (43 + 1) with 44. rewrite ?Z.gtb_ltb, (proj2 (Z.ltb_ge _ _)) by lia.
  rewrite (read_ok b 43) by lia. cbn [mbind res_bind].
  pose proof (is_u_get 8 b (Z.to_nat 43) ltac:(lia) Hb) as Hx1. set (x1 := b.[Z.to_nat 43]) in *.
  set (p1 := 43 + (1 + x1)). rewrite ?Z.gtb_ltb. destruct (Z.ltb_spec (zlen b) (p1 + 2)); [done|].
  unfold is_u in Hx1. destruct (be16_at_ok b p1) as (x2 & -> & Hx2); [done|unfold p1; lia|lia|].
  cbn [mbind res_bind]. set (p2 := p1 + (2 + x2)). rewrite ?Z.gtb_ltb. unfold is_u in Hx2.
  destruct (Z.ltb_spec (zlen b) (p2 + 1)); [done|].
  rewrite (read_ok b p2) by (unfold p2, p1 in *; lia). cbn [mbind res_bind].
  pose proof (is_u_get 8 b (Z.to_nat p2) ltac:(lia) Hb) as Hx3. set (x3 := b.[Z.to_nat p2]) in *.
  unfold is_u in Hx3. set (p3 := p2 + (1 + x3)). rewrite ?Z.gtb_ltb.
  destruct (Z.ltb_spec (zlen b) (p3 + 2)); [done|].
  destruct (be16_at_ok b p3) as (x4 & -> & Hx4); [done|unfold p3, p2, p1 in *; lia|lia|].
  cbn [mbind res_bind]. unfold is_u in Hx4. rewrite ?Z.gtb_ltb.
  set (fin := if zlen b <? p3 + 2 + x4 then zlen b else p3 + 2 + x4).
  assert (fin <= zlen b) as Hfin by (unfold fin; destruct (Z.ltb_spec (zlen b) (p3 + 2 + x4)); lia).
  pose proof (sni_loop_within (S (Z.to_nat (zlen b))) b (p3 + 2) fin Hb
    ltac:(unfold p3, p2, p1 in *; lia) Hfin ltac:(unfold p3, p2, p1 in *; lia)) as Hw.
  destruct (sni_loop _ _ _ _) as [[off n]| |]; cbn in *; lia.
Qed.

Lemma sni_hostname_safe b cap : is_bytes b →
  match sni_hostname b (zlen b) cap with
  | Ok name => 0 < zlen name < cap ∧ is_bytes name ∧ ∃ off, name = slice off (length name) b
  | Err => True
  | Fault => False
  end.
Proof.
  intros Hb. unfold sni_hostname. pose proof (find_sni_within b Hb) as Hw.
  destruct (find_sni b (zlen b)) as [[off n]| |]; cbn [mbind res_bind name_within] in *; try done.
  rewrite Z.geb_leb. destruct (Z.leb_spec cap n); [done|].
  rewrite read_n_ok by lia.
  assert (length (slice (Z.to_nat off) (Z.to_nat n) b) = Z.to_nat n) as Hl
    by (apply length_slice; unfold zlen in *; lia).
  split; [unfold zlen; rewrite Hl; lia|]. split; [auto with word|]. exists (Z.to_nat off). by rewrite Hl.
Qed.

(** ** Well-formed ClientHellos *)

Record extension := Extension { x_type : Z; x_data : list Z }.

Definition extension_bytes (x : extension) : list Z :=
  be16 x.(x_type) ++ be16 (zlen x.(x_data)) ++ x.(x_data).

Definition extension_ok (x : extension) : Prop :=
  is_u 16 x.(x_type) ∧ is_bytes x.(x_data) ∧ zlen x.(x_data) < 65536.

(** The server_name extension for one host name. *)
Definition sni_extension (name : list Z) : extension :=
  Extension 0 (be16 (3 + zlen name) ++ [0] ++ be16 (zlen name) ++ name).

(** A ClientHello up to its extensions: the record and handshake headers, version
    and random, session id, cipher suites, compression methods, and the length of
    the extensions. *)
Record hello := Hello {
  h_record : list Z; h_random : list Z; h_session : list Z; h_ciphers : list Z; h_compression : list Z
}.

Definition hello_ok (h : hello) : Prop :=
  zlen h.(h_record) = 4 ∧ zlen h.(h_random) = 37 ∧ zlen h.(h_session) < 256 ∧
  zlen h.(h_ciphers) < 65536 ∧ zlen h.(h_compression) < 256.

Definition hello_head (h : hello) : list Z :=
  [0x16] ++ h.(h_record) ++ [0x01] ++ h.(h_random) ++
  [zlen h.(h_session)] ++ h.(h_session) ++ be16 (zlen h.(h_ciphers)) ++ h.(h_ciphers) ++
  [zlen h.(h_compression)] ++ h.(h_compression).

Lemma extension_len x : zlen (extension_bytes x) = 4 + zlen x.(x_data).
Proof. unfold extension_bytes. rewrite !zlen_app. change (zlen (be16 _)) with 2. lia. Qed.

(** Past the extensions of other types. *)
Lemma sni_loop_skip xs fuel pre post fin :
  Forall (λ x, extension_ok x ∧ x.(x_type) ≠ 0) xs → (length xs <= fuel)%nat →
  zlen pre + zlen (concat (extension_bytes <$> xs)) <= fin →
  sni_loop fuel (pre ++ concat (extension_bytes <$> xs) ++ post) (zlen pre) fin =
  sni_loop (fuel - length xs) (pre ++ concat (extension_bytes <$> xs) ++ post)
    (zlen pre + zlen (concat (extension_bytes <$> xs))) fin.
Proof.
  intros Hxs. revert fuel pre. induction Hxs as [|x xs [(Ht & Hb & Hl) Hnz] _ IH]; intros fuel pre Hf Hfin.
  { change (zlen (concat (extension_bytes <$> []))) with 0. by rewrite Z.add_0_r, Nat.sub_0_r. }
  destruct fuel as [|fuel]; [cbn in Hf; lia|]. rewrite fmap_cons in *. cbn [concat] in *.
  rewrite zlen_app, extension_len in *. set (rest := concat (extension_bytes <$> xs)) in *.
  pose proof (zlen_nonneg rest). pose proof (zlen_nonneg x.(x_data)).
  cbn [length Nat.sub]. cbn [sni_loop]. rewrite (proj2 (Z.leb_le _ _)) by lia.
  set (b := pre ++ (extension_bytes x ++ rest) ++ post).
  assert (b = pre ++ be16 x.(x_type) ++ be16 (zlen x.(x_data)) ++ x.(x_data) ++ rest ++ post) as Eb.
  { unfold b, extension_bytes. by rewrite <- !app_assoc. }
  assert (be16_at b (zlen pre) = Ok x.(x_type)) as -> by (rewrite Eb; by apply be16_at_put).
  assert (be16_at b (zlen pre + 2) = Ok (zlen x.(x_data))) as ->.
  { rewrite Eb, app_assoc. apply be16_at_put; [unfold is_u; lia|]. by rewrite zlen_app. }
  cbn [mbind res_bind]. rewrite ?Z.gtb_ltb, (proj2 (Z.ltb_ge _ _)) by lia.
  rewrite (proj2 (Z.eqb_neq _ _)) by done.
  assert (b = (pre ++ extension_bytes x) ++ rest ++ post) as Eb'
    by (unfold b; by rewrite <- !app_assoc).
  assert (zlen (pre ++ extension_bytes x) = zlen pre + 4 + zlen x.(x_data)) as Ep
    by (rewrite zlen_app, extension_len; lia).
  rewrite Eb'. rewrite <- Ep. unfold rest. rewrite IH; [|cbn in Hf; lia|fold rest; lia].
  fold rest. rewrite Ep. f_equal. lia.
Qed.

Lemma be16_len v : zlen (be16 v) = 2.
Proof. done. Qed.

(** At the server_name extension. *)
Lemma sni_loop_found fuel pre name post fin :
  0 < zlen name → zlen name + 5 < 65536 →
  zlen pre + zlen (extension_bytes (sni_extension name)) <= fin →
  sni_loop (S fuel) (pre ++ extension_bytes (sni_extension name) ++ post) (zlen pre) fin =
  Ok (zlen pre + 9, zlen name).
Proof.
  intros Hn Hl Hfin. rewrite extension_len in Hfin. cbn [x_data sni_extension] in Hfin.
  rewrite !zlen_app, !be16_len in Hfin. change (zlen [0]) with 1 in Hfin.
  set (b := pre ++ _ ++ post).
  assert (b = pre ++ be16 0 ++ be16 (zlen name + 5) ++ be16 (3 + zlen name) ++ 0 :: be16 (zlen name) ++ name ++ post) as Eb.
  { unfold b, extension_bytes. cbn [x_type x_data sni_extension].
    rewrite !zlen_app, !be16_len. change (zlen [0]) with 1.
    replace (2 + (1 + (2 + zlen name))) with (zlen name + 5) by lia. by rewrite <- !app_assoc. }
  cbn [sni_loop]. rewrite (proj2 (Z.leb_le _ _)) by lia.
  assert (be16_at b (zlen pre) = Ok 0) as -> by (rewrite Eb; by apply be16_at_put).
  assert (be16_at b (zlen pre + 2) = Ok (zlen name + 5)) as ->.
  { rewrite Eb, app_assoc. apply be16_at_put; [unfold is_u; lia|]. by rewrite zlen_app. }
  cbn [mbind res_bind]. rewrite ?Z.gtb_ltb, (proj2 (Z.ltb_ge _ _)) by lia. change (0 =? 0) with true. cbn iota.
  rewrite ?Z.gtb_ltb, !(proj2 (Z.ltb_ge fin _)) by lia.
  assert (read b (zlen pre + 4 + 2) = Ok 0) as ->.
  { rewrite Eb. replace (pre ++ be16 0 ++ be16 (zlen name + 5) ++ be16 (3 + zlen name) ++ 0 :: be16 (zlen name) ++ name ++ post)
      with ((pre ++ be16 0 ++ be16 (zlen name + 5) ++ be16 (3 + zlen name)) ++ 0 :: be16 (zlen name) ++ name ++ post)
      by by rewrite <- !app_assoc.
    apply read_at. rewrite !zlen_app, !be16_len. lia. }
  cbn [mbind res_bind]. change (0 =? 0) with true. cbn [negb].
  assert (be16_at b (zlen pre + 4 + 2 + 1) = Ok (zlen name)) as ->.
  { rewrite Eb. replace (pre ++ be16 0 ++ be16 (zlen name + 5) ++ be16 (3 + zlen name) ++ 0 :: be16 (zlen name) ++ name ++ post)
      with ((pre ++ be16 0 ++ be16 (zlen name + 5) ++ be16 (3 + zlen name) ++ [0]) ++ be16 (zlen name) ++ name ++ post)
      by by rewrite <- !app_assoc.
    apply be16_at_put; [unfold is_u; lia|]. rewrite !zlen_app, !be16_len. change (zlen [0]) with 1. lia. }
  cbn [mbind res_bind]. rewrite ?Z.gtb_ltb, (proj2 (Z.ltb_ge fin _)), (proj2 (Z.leb_gt _ 0)) by lia. cbn [orb].
  unfold mret, res_ret. do 2 f_equal. lia.
Qed.

(** The walk over the fixed part arrives at the extensions. *)
Lemma find_sni_head h total post : hello_ok h → is_u 16 total →
  let b := hello_head h ++ be16 total ++ post in
  find_sni b (zlen b) =
  sni_loop (S (Z.to_nat (zlen b))) b (zlen (hello_head h) + 2) (Z.min (zlen b) (zlen (hello_head h) + 2 + total)).
Proof.
  intros (Hr & Hrd & Hs & Hc & Hm) Ht b.
  pose proof (zlen_nonneg h.(h_session)). pose proof (zlen_nonneg h.(h_ciphers)).
  pose proof (zlen_nonneg h.(h_compression)). pose proof (zlen_nonneg post).
  set (tail := be16 total ++ post).
  set (a1 := [0x16] ++ h.(h_record) ++ [0x01] ++ h.(h_random)).
  set (a2 := a1 ++ [zlen h.(h_session)] ++ h.(h_session)).
  set (a3 := a2 ++ be16 (zlen h.(h_ciphers)) ++ h.(h_ciphers)).
  assert (zlen a1 = 43) as L1.
  { unfold a1. rewrite !zlen_app, Hr, Hrd. done. }
  assert (zlen a2 = 43 + (1 + zlen h.(h_session))) as L2.
  { unfold a2. rewrite !zlen_app, L1. change (zlen [_]) with 1. lia. }
  assert (zlen a3 = zlen a2 + (2 + zlen h.(h_ciphers))) as L3.
  { unfold a3. rewrite !zlen_app, be16_len. lia. }
  assert (zlen (hello_head h) = zlen a3 + (1 + zlen h.(h_compression))) as L4.
  { unfold hello_head, a3, a2, a1. rewrite !zlen_app, !be16_len. change (zlen [_]) with 1. lia. }
  assert (zlen b = zlen (hello_head h) + 2 + zlen post) as Lb.
  { unfold b. rewrite !zlen_app, be16_len. lia. }
  assert (b = a1 ++ zlen h.(h_session) :: (h.(h_session) ++ be16 (zlen h.(h_ciphers)) ++ h.(h_ciphers) ++
    [zlen h.(h_compression)] ++ h.(h_compression) ++ tail)) as E1.
  { unfold b, hello_head, a1, tail. by rewrite <- !app_assoc. }
  assert (b = a2 ++ be16 (zlen h.(h_ciphers)) ++ (h.(h_ciphers) ++
    [zlen h.(h_compression)] ++ h.(h_compression) ++ tail)) as E2.
  { unfold b, hello_head, a2, a1, tail. by rewrite <- !app_assoc. }
  assert (b = a3 ++ zlen h.(h_compression) :: (h.(h_compression) ++ tail)) as E3.
  { unfold b, hello_head, a3, a2, a1, tail. by rewrite <- !app_assoc. }
  unfold find_sni. rewrite (proj2 (Z.ltb_ge (zlen b) 45)) by lia.
  assert (read b 0 = Ok 0x16) as -> by (unfold b, hello_head; by apply (read_at [])).
  assert (read b 5 = Ok 0x01) as ->.
  { unfold b, hello_head. rewrite <- !app_assoc. rewrite (app_assoc [0x16]). cbn [app].
    apply (read_at (0x16 :: h.(h_record))). rewrite zlen_cons, Hr. done. }
  cbn [mbind res_bind]. change (22 =? 22) with true. change (1 =? 1) with true. cbn [negb].
  rewrite ?Z.gtb_ltb, (proj2 (Z.ltb_ge (zlen b) (43 + 1))) by lia.
  assert (read b 43 = Ok (zlen h.(h_session))) as -> by (rewrite E1; by apply read_at).
  cbn [mbind res_bind]. rewrite <- L2, ?Z.gtb_ltb, (proj2 (Z.ltb_ge (zlen b) _)) by lia.
  assert (be16_at b (zlen a2) = Ok (zlen h.(h_ciphers))) as ->
    by (rewrite E2; apply be16_at_put; [unfold is_u; lia|done]).
  cbn [mbind res_bind]. rewrite <- L3, ?Z.gtb_ltb, (proj2 (Z.ltb_ge (zlen b) _)) by lia.
  assert (read b (zlen a3) = Ok (zlen h.(h_compression))) as -> by (rewrite E3; by apply read_at).
  cbn [mbind res_bind]. rewrite <- L4, ?Z.gtb_ltb, (proj2 (Z.ltb_ge (zlen b) _)) by lia.
  assert (be16_at b (zlen (hello_head h)) = Ok total) as -> by (unfold b; by apply be16_at_put).
  cbn [mbind res_bind]. rewrite ?Z.gtb_ltb. f_equal.
  destruct (Z.ltb_spec (zlen b) (zlen (hello_head h) + 2 + total)); lia.
Qed.

(** The name is found once the server_name extension has arrived, whatever follows. *)
Lemma sni_hello h total xs name rest : hello_ok h → is_u 16 total →
  Forall (λ x, extension_ok x ∧ x.(x_type) ≠ 0) xs → 0 < zlen name < 128 →
  zlen (concat (extension_bytes <$> xs)) + zlen (extension_bytes (sni_extension name)) <= total →
  let b := hello_head h ++ be16 total ++ concat (extension_bytes <$> xs) ++
           extension_bytes (sni_extension name) ++ rest in
  sni_hostname b (zlen b) 128 = Ok name.
Proof.
  intros Hh Ht Hxs Hn Hfit b. set (ex := concat (extension_bytes <$> xs)) in *.
  pose proof (zlen_nonneg ex). pose proof (zlen_nonneg rest).
  set (sx := extension_bytes (sni_extension name)) in *.
  assert (zlen sx = 9 + zlen name) as Lsx.
  { unfold sx. rewrite extension_len. cbn [x_data sni_extension]. rewrite !zlen_app, !be16_len.
    change (zlen [0]) with 1. lia. }
  set (pre := hello_head h ++ be16 total).
  assert (zlen pre = zlen (hello_head h) + 2) as Lp by (unfold pre; by rewrite zlen_app).
  assert (b = pre ++ ex ++ sx ++ rest) as Eb by (unfold b, pre; by rewrite <- !app_assoc).
  assert (zlen b = zlen pre + zlen ex + zlen sx + zlen rest) as Lb by (rewrite Eb, !zlen_app; lia).
  unfold sni_hostname.
  assert (find_sni b (zlen b) = Ok (zlen pre + zlen ex + 9, zlen name)) as ->.
  { unfold b. rewrite find_sni_head by done. fold b. rewrite <- Lp.
    set (fin := Z.min _ _). assert (zlen pre + zlen ex + zlen sx <= fin) as Hfin by (unfold fin; lia).
    assert (length xs <= Z.to_nat (zlen b))%nat as Hlx.
    { assert (length xs <= length ex)%nat; [|unfold zlen in *; lia].
      unfold ex. clear. induction xs as [|x xs IH]; [done|]. rewrite fmap_cons. cbn [concat length].
      pose proof (extension_len x). pose proof (zlen_nonneg (x_data x)). rewrite length_app. unfold zlen in *. lia. }
    assert (length xs < S (Z.to_nat (zlen b)))%nat as Hfu by lia. revert Hfu.
    generalize (S (Z.to_nat (zlen b))). intros F HF.
    rewrite Eb. unfold ex. rewrite sni_loop_skip; [|done|lia|fold ex; lia]. fold ex.
    destruct (F - length xs)%nat as [|fuel] eqn:Ef; [lia|].
    replace (zlen pre + zlen ex) with (zlen (pre ++ ex)) by (by rewrite zlen_app).
    rewrite app_assoc. unfold sx. apply sni_loop_found; [lia|lia|fold sx; rewrite zlen_app; lia]. }
  cbn [mbind res_bind]. rewrite Z.geb_leb, (proj2 (Z.leb_gt _ _)) by lia.
  pose proof (zlen_nonneg pre). rewrite read_n_ok by (rewrite ?Z2Nat.id by lia; lia). f_equal.
  assert (b = (pre ++ ex ++ take 9 sx) ++ name ++ rest) as ->.
  { rewrite Eb. unfold sx, extension_bytes. cbn [x_type x_data sni_extension]. by rewrite <- !app_assoc. }
  unfold slice. rewrite drop_app_ge by (rewrite !length_app, length_take; unfold zlen in *; lia).
  rewrite <- (take_app_length name rest) at 3. f_equal; [unfold zlen; lia|].
  replace (Z.to_nat _ - _)%nat with 0%nat; [apply drop_0|].
  rewrite !length_app, length_take. unfold zlen in *. lia.
Qed.

(** A ClientHello without a server_name has no name to find. *)
Lemma sni_absent h xs : hello_ok h → Forall (λ x, extension_ok x ∧ x.(x_type) ≠ 0) xs →
  zlen (concat (extension_bytes <$> xs)) < 65536 →
  let b := hello_head h ++ be16 (zlen (concat (extension_bytes <$> xs))) ++ concat (extension_bytes <$> xs) in
  sni_hostname b (zlen b) 128 = Err.
Proof.
  intros Hh Hxs Hl b. set (ex := concat (extension_bytes <$> xs)) in *. pose proof (zlen_nonneg ex).
  set (pre := hello_head h ++ be16 (zlen ex)).
  assert (zlen pre = zlen (hello_head h) + 2) as Lp by (unfold pre; by rewrite zlen_app).
  assert (b = pre ++ ex ++ []) as Eb by (unfold b, pre; by rewrite app_nil_r, <- !app_assoc).
  assert (zlen b = zlen pre + zlen ex) as Lb by (rewrite Eb, app_nil_r, !zlen_app; lia).
  assert (length xs <= length ex)%nat as Hlx.
  { unfold ex. clear. induction xs as [|x xs IH]; [done|]. rewrite fmap_cons. cbn [concat length].
    pose proof (extension_len x). pose proof (zlen_nonneg (x_data x)). rewrite length_app. unfold zlen in *. lia. }
  unfold sni_hostname. assert (find_sni b (zlen b) = Err) as ->; [|done].
  unfold b. rewrite find_sni_head by (done || (unfold is_u; lia)). fold b. rewrite <- Lp, Z.min_l by lia.
  rewrite Lb, Eb. unfold ex. rewrite sni_loop_skip; [|done|fold ex; unfold zlen in *; lia|fold ex; lia]. fold ex.
  destruct (_ - length xs)%nat as [|fuel] eqn:Ef; [unfold zlen in *; lia|].
  cbn [sni_loop]. by rewrite (proj2 (Z.leb_gt _ _)) by lia.
Qed.

(** ** Host names *)

(** Labels of letters, digits, hyphens and underscores, joined by dots. *)
Definition valid_host (h : list Z) : Prop :=
  1 <= zlen h <= 253 ∧
  ∃ ls, ls ≠ [] ∧ h = join ls ∧ Forall (λ l, l ≠ [] ∧ Forall host_char l) ls.

Lemma host_char_not_dot c : host_char c → c ≠ 46.
Proof. by intros Hc ->. Qed.

Lemma labels_loop_spec h empty : labels_loop h empty = true ↔
  ∃ l ls, h = join (l :: ls) ∧ (empty = true → l ≠ []) ∧ Forall host_char l ∧
    Forall (λ l, l ≠ [] ∧ Forall host_char l) ls.
Proof.
  revert empty. induction h as [|c h IH]; intros empty; cbn [labels_loop].
  - split.
    + intros Hn. exists [], []. split_and!; [done| |constructor|constructor].
      by intros ->.
    + intros (l & ls & E & Hl & _ & Hls). destruct empty; [|done]. exfalso. apply Hl; [done|].
      destruct ls; cbn in E; [done|]. by destruct l.
  - destruct (Z.eqb_spec c 46) as [->|Hc].
    + destruct empty.
      * split; [done|]. intros (l & ls & E & Hl & Hch & _). destruct l as [|x l]; [by destruct Hl|].
        destruct ls; cbn in E; injection E as <- _; rewrite Forall_cons in Hch; by destruct Hch.
      * rewrite IH. split.
        -- intros (l & ls & -> & Hl & Hch & Hls). exists [], (l :: ls). split_and!; [done|done|constructor|].
           constructor; [split; [by apply Hl|done]|done].
        -- intros (l & ls & E & _ & Hch & Hls). destruct l as [|x l].
           ++ destruct ls as [|l' ls]; [done|]. cbn [join app] in E.
              apply Forall_cons in Hls as [[Hne Hch'] Hls].
              exists l', ls. split_and!; [by destruct ls; injection E|done|done|done].
           ++ destruct ls; cbn in E; injection E as <- _; rewrite Forall_cons in Hch; by destruct Hch.
    + destruct (host_char c) eqn:Ech; cbn [negb].
      * rewrite IH. split.
        -- intros (l & ls & -> & _ & Hch & Hls). exists (c :: l), ls. split_and!; [by destruct ls|done| |done].
           constructor; [by rewrite Ech|done].
        -- intros (l & ls & E & _ & Hch & Hls). destruct l as [|x l].
           ++ destruct ls as [|l' ls]; cbn in E; [done|]. by injection E as ->.
           ++ rewrite Forall_cons in Hch. destruct Hch as [_ Hch].
              exists l, ls. split_and!; [by destruct ls; injection E as -> ->|done|done|done].
      * split; [done|]. intros (l & ls & E & _ & Hch & Hls). destruct l as [|x l].
        -- destruct ls as [|l' ls]; cbn in E; [done|]. by injection E as ->.
        -- destruct ls; cbn in E; injection E as <- _; rewrite Forall_cons in Hch; destruct Hch as [Hx _];
             by rewrite Ech in Hx.
Qed.

Lemma skip_while_split (p : Z → bool) l : ∃ a, l = a ++ skip_while p l ∧ Forall p a ∧
  match skip_while p l with x :: _ => p x = false | [] => True end.
Proof.
  induction l as [|x l (a & E & Ha & Hs)]; [by exists []|]. cbn. destruct (p x) eqn:Ex.
  - exists (x :: a). split_and!; [by rewrite E at 1|constructor; [by rewrite Ex|done]|done].
  - exists []. split_and!; [done|constructor|done].
Qed.

Lemma strip_dots_spec h h' : strip_dots h = h' ↔
  (∃ n, h = h' ++ replicate n 46) ∧ last h' ≠ Some 46.
Proof.
  unfold strip_dots. split.
  - intros <-. destruct (skip_while_split (λ c, c =? 46) (reverse h)) as (a & E & Ha & Hs).
    set (s := skip_while _ _) in *. split.
    + exists (length a). rewrite <- (reverse_involutive h), E, reverse_app. f_equal.
      rewrite <- length_reverse. apply Forall_reverse in Ha. revert Ha. generalize (reverse a).
      intros l Hl. induction Hl as [|x l Hx _ IH]; [done|]. cbn [length replicate].
      apply Is_true_true, Z.eqb_eq in Hx as ->. by f_equal.
    + destruct s as [|x s]; [done|]. rewrite reverse_cons, last_snoc. intros [= ->]. done.
  - intros [[n ->] Hl]. rewrite reverse_app. rewrite reverse_replicate, skip_while_all.
    2: { by apply Forall_replicate. }
    destruct h' as [|c h' _] using rev_ind; [done|]. rewrite last_snoc in Hl.
    rewrite reverse_snoc, skip_while_nop by (apply Z.eqb_neq; congruence).
    by rewrite reverse_cons, reverse_involutive.
Qed.

Lemma valid_host_last h : valid_host h → last h ≠ Some 46.
Proof.
  intros (_ & ls & Hne & -> & Hls) E. induction Hls as [|l ls [Hl Hch] Hls IH]; [done|].
  destruct ls as [|l' ls].
  - cbn [join] in E. rewrite Forall_forall in Hch. apply last_Some_elem_of in E. by apply Hch in E.
  - change (join (l :: l' :: ls)) with (l ++ 46 :: join (l' :: ls)) in E.
    rewrite last_app, last_cons in E. apply IH; [done|].
    destruct (last (join (l' :: ls))) as [x|] eqn:Ex; [done|]. apply last_None in Ex.
    exfalso. apply Forall_cons in Hls as [[Hl' _] _]. destruct l'; [done|]. destruct ls; done.
Qed.

Lemma host_normalise_spec h h' : host_normalise h = Some h' ↔
  valid_host h' ∧ ∃ n, h = h' ++ replicate n 46.
Proof.
  unfold host_normalise. split.
  - destruct ((zlen (strip_dots h) =? 0) || _) eqn:E; [done|].
    rewrite orb_false_iff, Z.eqb_neq, Z.gtb_ltb, Z.ltb_ge in E. pose proof (zlen_nonneg (strip_dots h)).
    destruct (labels_loop (strip_dots h) true) eqn:El; [|done]. intros [= <-]. split.
    + split; [lia|]. apply labels_loop_spec in El as (l & ls & Ej & Hl & Hch & Hls).
      exists (l :: ls). split_and!; [done|done|]. constructor; [split; [by apply Hl|done]|done].
    + by destruct (proj1 (strip_dots_spec h _) eq_refl) as [? _].
  - intros [Hv Hn]. assert (strip_dots h = h') as -> by (apply strip_dots_spec; auto using valid_host_last).
    destruct Hv as (Hlen & ls & Hne & Ej & Hls).
    rewrite (proj2 (Z.eqb_neq _ 0)), Z.gtb_ltb, (proj2 (Z.ltb_ge 253 _)) by lia. cbn [orb].
    assert (labels_loop h' true = true) as ->; [|done]. apply labels_loop_spec.
    destruct ls as [|l ls]; [done|]. apply Forall_cons in Hls as [[Hl Hch] Hls].
    by exists l, ls.
Qed.

(** The name is the suffix or ends in a dot and the suffix, case ignored. *)
Definition under (suffix h : list Z) : Prop :=
  tolower <$> h = tolower <$> suffix ∨ ∃ p, tolower <$> h = p ++ 46 :: (tolower <$> suffix).

Lemma tolower_dot c : tolower c = 46 ↔ c = 46.
Proof.
  unfold tolower. destruct ((65 <=? c) && (c <=? 90)) eqn:E; [|done].
  rewrite andb_true_iff, !Z.leb_le in E. lia.
Qed.

Lemma suffix_denied_spec h suffix : suffix_denied h suffix = true ↔ under suffix h.
Proof.
  unfold suffix_denied, under, strcasecmp_eq. destruct (Nat.ltb_spec (length h) (length suffix)) as [Hlt|Hge].
  { split; [done|]. intros [E|[p E]]; apply (f_equal length) in E;
      rewrite ?length_app, ?length_cons, !length_fmap in E; lia. }
  set (k := (length h - length suffix)%nat).
  assert (length (drop k h) = length suffix) as Hd by (rewrite length_drop; unfold k; lia).
  assert (∀ p, tolower <$> h = p ++ (tolower <$> suffix) →
    tolower <$> drop k h = tolower <$> suffix ∧ p = tolower <$> take k h) as Hsplit.
  { intros p E. rewrite <- (take_drop k h), fmap_app in E.
    apply app_inj_2 in E as [-> ->]; [done|]. by rewrite !length_fmap. }
  destruct (bool_decide (tolower <$> drop k h = tolower <$> suffix)) eqn:Eb; cbn [negb].
  - apply bool_decide_eq_true in Eb. rewrite orb_true_iff, Nat.eqb_eq, Z.eqb_eq.
    assert (k = 0%nat → tolower <$> h = tolower <$> suffix) as Hz by (intros ->; by rewrite drop_0 in Eb).
    split.
    + intros [E|E]; [left; apply Hz; unfold k; lia|].
      destruct k as [|k'] eqn:Ek; [by left; apply Hz|right]. exists (tolower <$> take k' h).
      rewrite <- (take_drop (S k') h) at 1. rewrite fmap_app, Eb.
      rewrite (take_S_r h k' 46), fmap_app; [by rewrite <- app_assoc|].
      rewrite lookup_get by lia. rewrite <- E. do 2 f_equal. lia.
    + intros [E|[p E]].
      * left. apply (f_equal length) in E. rewrite !length_fmap in E. lia.
      * right. destruct (Hsplit (p ++ [46])) as [_ Ep]; [by rewrite <- app_assoc|].
        pose proof (f_equal length Ep) as El. rewrite length_app, length_fmap, length_take in El. cbn in El.
        assert (length p = k - 1)%nat as Hp by lia. fold k.
        apply tolower_dot. assert ((tolower <$> take k h) !! (k - 1)%nat = Some 46) as Hl.
        { rewrite <- Ep, lookup_app_r by lia. by replace (k - 1 - length p)%nat with 0%nat by lia. }
        rewrite list_lookup_fmap, lookup_take_lt, lookup_get in Hl by (unfold k in *; lia).
        by injection Hl.
  - apply bool_decide_eq_false in Eb. split; [done|]. intros [E|[p E]]; exfalso; apply Eb.
    + by apply (Hsplit []).
    + apply (Hsplit (p ++ [46])). by rewrite <- app_assoc.
Qed.

Lemma host_denied_spec h : host_denied h = true ↔ ∃ s, s ∈ g_deny_suffix ∧ under s h.
Proof.
  unfold host_denied. rewrite existsb_exists. split; intros (s & Hs & Hu); exists s.
  - split; [by apply list_elem_of_In|by apply suffix_denied_spec].
  - split; [by apply list_elem_of_In|by apply suffix_denied_spec].
Qed.

(** ** Properties *)

(** C38: on whatever bytes a client has sent, the walk reads only inside them and
    ends; a name it returns is a nonempty slice of them that fits the host buffer. *)
Theorem sni_safe (b : list Z) (cap : Z) : is_bytes b →
  match sni_hostname b (zlen b) cap with
  | Ok name => 0 < zlen name < cap ∧ is_bytes name ∧ ∃ off, name = slice off (length name) b
  | Err => True
  | Fault => False
  end.
Proof. apply sni_hostname_safe. Qed.

(** C39: from a ClientHello the walk takes the server name as soon as its extension
    has arrived, past any other extensions and whatever follows, including a
    hello that is still incomplete; and finds none in a hello without one. *)
Theorem sni_correct (h : hello) (total : Z) (xs : list extension) (name rest : list Z) :
  hello_ok h → is_u 16 total → Forall (λ x, extension_ok x ∧ x.(x_type) ≠ 0) xs → 0 < zlen name < 128 →
  zlen (concat (extension_bytes <$> xs)) + zlen (extension_bytes (sni_extension name)) <= total →
  let b := hello_head h ++ be16 total ++ concat (extension_bytes <$> xs) ++
           extension_bytes (sni_extension name) ++ rest in
  let b' := hello_head h ++ be16 (zlen (concat (extension_bytes <$> xs))) ++ concat (extension_bytes <$> xs) in
  sni_hostname b (zlen b) 128 = Ok name ∧ sni_hostname b' (zlen b') 128 = Err.
Proof.
  intros Hh Ht Hxs Hn Hfit b b'. split; [by apply sni_hello|]. apply sni_absent; [done|done|].
  unfold is_u in Ht. rewrite extension_len in Hfit. pose proof (zlen_nonneg (x_data (sni_extension name))). lia.
Qed.

(** C37: a name passes the filter exactly when, without its final dots, it is a
    nonempty sequence of nonempty labels of letters, digits, hyphens and underscores,
    at most 253 bytes long, and is neither a denied domain nor below one, whatever
    its case. *)
Theorem host_filter (h h' : list Z) :
  (host_normalise h = Some h' ∧ host_denied h' = false) ↔
  (valid_host h' ∧ (∃ n, h = h' ++ replicate n 46) ∧ ∀ s, s ∈ g_deny_suffix → ¬ under s h').
Proof.
  rewrite host_normalise_spec. rewrite <- not_true_iff_false, host_denied_spec. naive_solver.
Qed.

(** ** Witnesses *)

Definition sample_hello : hello := Hello [3; 1; 1; 0] (replicate 37 5) [] [0x13; 1] [0].

Lemma sni_safe_witness :
  match sni_hostname (replicate 60 0x16) (zlen (replicate 60 0x16)) 128 with
  | Ok name => 0 < zlen name < 128 ∧ is_bytes name ∧ ∃ off, name = slice off (length name) (replicate 60 0x16)
  | Err => True
  | Fault => False
  end.
Proof. apply (sni_safe (replicate 60 0x16) 128), Forall_replicate. unfold is_u. lia. Defined.

Lemma sni_correct_witness :
  sni_hostname (hello_head sample_hello ++ be16 100 ++ extension_bytes (Extension 23 [1; 2]) ++
    extension_bytes (sni_extension (str "a.com")) ++ [9]) 73 128 = Ok (str "a.com").
Proof.
  refine (proj1 (sni_correct sample_hello 100 [Extension 23 [1; 2]] (str "a.com") [9] _ _ _ _ _)).
  - by split_and!.
  - unfold is_u. lia.
  - apply Forall_singleton. split; [|done]. split_and!; [unfold is_u; cbn; lia|word_list|done].
  - by vm_compute.
  - by vm_compute.
Defined.
