(* ===== verification/ProxyRun.v ===== *)
(** * The proxy along its runs

    Each slot's invariant, kept by every operation: buffers within their bounds, a
    free slot zeroed, the tunnel half present exactly while connecting or relaying,
    and a name beyond sniffing only if the filter lets it through. The pumps lose and
    reorder nothing. The counters of a run account for every accepted connection. *)
From stdpp Require Import sets.
From S2P Require Import Prelude Cstr Proxy ProxySni.

(** ** The invariant of a slot *)

(** A host the proxy may visit. *)
Definition allowed (h : list Z) : Prop := valid_host h ∧ ∀ s, s ∈ g_deny_suffix → ¬ under s h.

Record conn_wf (c : conn_t) : Prop := {
  wf_free : c.(st) = ST_FREE → c = conn_free;
  wf_fd : c.(st) ≠ ST_FREE → 0 <= c.(cfd);
  wf_up : is_bytes c.(up) ∧ zlen c.(up) <= BUF_SIZE;
  wf_pcb : is_Some c.(pcb) ↔ c.(st) = ST_CONNECTING ∨ c.(st) = ST_RELAY;
  wf_rx : c.(rx) ≠ [] ∨ c.(peer_closed) = true → c.(st) = ST_RELAY;
  wf_off : 0 <= c.(rx_off) ∧ c.(rx_off) <= match c.(rx) with [] => 0 | p :: _ => zlen p end;
  wf_len : Forall (λ p, zlen p < 65536) c.(rx);
  wf_host : c.(st) = ST_FREE ∨ c.(st) = ST_SNIFF ∨ allowed c.(host)
}.

Lemma conn_free_wf : conn_wf conn_free.
Proof.
  split; cbn; try done.
  - split; [by intros [? ?]|by intros [?|?]].
  - by intros [?|?].
  - by left.
Qed.

(** What an operation may do to the outside: it only ever names allowed hosts. *)
Definition action_ok (a : action) : Prop :=
  match a with
  | DnsQuery h => allowed h
  | _ => True
  end.

Definition effect_ok (e : effect) : Prop := conn_wf e.1.1 ∧ Forall action_ok e.2.

Lemma conn_close_ok c why s : conn_wf c → effect_ok (conn_close c why s).
Proof.
  intros Hc. unfold conn_close. destruct (st c) eqn:E; (split; [cbn; done || apply conn_free_wf|]); [constructor|..].
  all: cbn [snd]; rewrite !Forall_app; split_and!; repeat case_match; repeat constructor.
Qed.

Lemma effect_ok_cons a (e : effect) : action_ok a → effect_ok e →
  effect_ok (let '(c, s, acts) := e in (c, s, a :: acts)).
Proof. destruct e as [[c s] acts]. intros Ha [Hc Hs]. split; [done|by constructor]. Qed.

(** Closing frees the slot whatever state it was in. *)
Lemma conn_close_free c why s : (c.(st) = ST_FREE → c = conn_free) → (conn_close c why s).1.1 = conn_free.
Proof. intros Hf. unfold conn_close. destruct (st c) eqn:E; [by apply Hf|done..]. Qed.

Lemma conn_close_any c why s : c.(st) ≠ ST_FREE → effect_ok (conn_close c why s).
Proof.
  intros Hf. unfold conn_close. destruct (st c) eqn:E; [done|..]; (split; [apply conn_free_wf|]).
  all: cbn [snd]; rewrite !Forall_app; split_and!; repeat case_match; repeat constructor.
Qed.

(** ** The callbacks *)

Lemma on_recv_wf c p err_ok : conn_wf c → c.(st) = ST_RELAY →
  match p with Some l => Forall (λ q, zlen q < 65536) l | None => True end → conn_wf (on_recv c p err_ok).
Proof.
  intros Hc Hs Hb. pose proof Hc as [Hf Hd Hu Hp Hr Ho Hl Hh]. unfold on_recv. destruct p as [chain|].
  - destruct err_ok; [|exact Hc]. split; cbn; try done.
    + congruence.
    + destruct (rx c) as [|q l]; cbn; [|exact Ho]. split; [tauto|]. destruct chain; [tauto|].
      pose proof (zlen_nonneg l). lia.
    + by apply Forall_app.
  - split; cbn; try done. congruence.
Qed.

Lemma on_err_ok c s : conn_wf c → c.(st) ≠ ST_FREE → effect_ok (on_err c s).
Proof. intros Hc Hf. by apply conn_close_any. Qed.

Lemma on_connected_ok c ok s : conn_wf c → c.(st) = ST_CONNECTING → effect_ok (on_connected c ok s).
Proof.
  intros Hc Hs. unfold on_connected. destruct ok; cbn [negb]; [|apply conn_close_any; congruence].
  destruct Hc as [Hf Hd Hu Hp Hr Ho Hl Hh]. split; [|constructor]. split; cbn; try done.
  - intros _. apply Hd. congruence.
  - rewrite Hp, Hs. split; [by right|by left].
  - destruct Hh as [Hh|[Hh|Hh]]; [congruence|congruence|by right; right].
Qed.

Lemma on_resolved_ok c name ip new ok s : conn_wf c → effect_ok (on_resolved c name ip new ok s).
Proof.
  intros Hc. unfold on_resolved. case_bool_decide as Hs; cbn [negb]; [|by split].
  destruct ip as [ip|]; [|apply conn_close_any; congruence].
  destruct new as [p|]; [|apply conn_close_any; cbn; congruence].
  destruct ok; cbn [negb]; [|by apply (effect_ok_cons (TcpNew p)), conn_close_any].
  destruct Hc as [Hf Hd Hu Hp Hr Ho Hl Hh]. split; [|by repeat constructor]. split; cbn; try done.
  - intros _. apply Hd. congruence.
  - split; [by left|done].
  - intros Hx. apply Hr in Hx. congruence.
  - destruct Hh as [Hh|[Hh|Hh]]; [congruence|congruence|by right; right].
Qed.

(** ** The pumps *)

Lemma pump_up_ok c room ok now s : conn_wf c → 0 <= room → effect_ok (pump_up c room ok now s).
Proof.
  intros Hc Hroom. unfold pump_up. destruct (up c) as [|x u] eqn:Eu; [by split|].
  destruct (pcb c) as [p|] eqn:Ep; [|by split]. destruct (room =? 0); [by split|].
  destruct ok; cbn [negb]; [|by split].
  destruct Hc as [Hf Hd Hu Hp Hr Ho Hl Hh]. split; [|by repeat constructor].
  split; cbn; try done; rewrite ?Eu in *; rewrite ?Ep in *; try done.
  - intros Hs. by rewrite (Hf Hs) in Eu.
  - destruct Hu as [Hb Hn]. split; [by apply is_bytes_drop|].
    unfold zdrop, zlen in *. rewrite length_drop. lia.
Qed.

(** The bytes that wait for the application. *)
Definition pending (c : conn_t) : list Z := zdrop c.(rx_off) (concat c.(rx)).

Definition sent_down (acts : list action) : list Z :=
  concat ((λ a, match a with SendFd _ b => b | _ => [] end) <$> acts).
Definition acked (acts : list action) : Z :=
  foldr (λ a n, match a with TcpRecved _ k => k + n | _ => n end) 0 acts.
Definition written_up (acts : list action) : list Z :=
  concat ((λ a, match a with TcpWrite _ b => b | _ => [] end) <$> acts).

(** [send] returns at most what it is given. *)
Definition sends_ok (sends : nat → Z → send_result) : Prop :=
  ∀ k len n, 0 < len → sends k len = Sent n → n <= len.

(** What the loop over the chain needs of the connection, and keeps. *)
Definition rx_ok (c : conn_t) : Prop :=
  0 <= c.(rx_off) <= match c.(rx) with [] => 0 | p :: _ => zlen p end ∧
  Forall (λ p, zlen p < 65536) c.(rx).

Definition rx_fuel (c : conn_t) : Z := zlen c.(rx) + zlen (concat c.(rx)) - c.(rx_off).

(** How the loop over the chain can end: everything is sent or the application takes no
    more, or a call failed and the slot is closed. *)
Definition pumped (c : conn_t) (sends : nat → Z → send_result) (out : effect) : Prop :=
  let '(c', s', acts) := out in
  (∃ r off ms, c' = c <| rx := r |> <| rx_off := off |> <| last_ms := ms |> ∧ rx_ok c' ∧
     pending c = sent_down acts ++ pending c' ∧ (r = [] ∨ ∃ j len, 0 < len ∧ sends j len = SendAgain)) ∨
  (c' = conn_free ∧ ∃ rest j len, pending c = sent_down acts ++ rest ∧ 0 < len ∧
     (sends j len = SendFailed ∨ ∃ n, n <= 0 ∧ sends j len = Sent n)).

Lemma pending_next c p next : c.(rx) = p :: next → c.(rx_off) = zlen p →
  pending c = pending (c <| rx := next |> <| rx_off := 0 |>).
Proof.
  intros Hr Ho. unfold pending, zdrop. rewrite Hr, Ho. cbn. unfold zlen. rewrite Nat2Z.id.
  by rewrite drop_app_length.
Qed.

Lemma pending_head c p next : c.(rx) = p :: next → 0 <= c.(rx_off) <= zlen p →
  pending c = zdrop c.(rx_off) p ++ concat next.
Proof.
  intros Hr Ho. unfold pending, zdrop, zlen in *. rewrite Hr. cbn. apply drop_app_le. lia.
Qed.

Lemma pending_sent c p next n : c.(rx) = p :: next → 0 <= c.(rx_off) → 0 <= n <= zlen p - c.(rx_off) →
  pending c = ztake n (zdrop c.(rx_off) p) ++ pending (c <| rx_off := c.(rx_off) + n |>).
Proof.
  intros Hr Ho Hn. rewrite (pending_head c p next), (pending_head _ p next) by (cbn; done || lia).
  unfold zdrop, ztake, zlen in *. cbn. rewrite app_assoc. f_equal.
  rewrite Z2Nat.inj_add by lia. rewrite <- drop_drop. by rewrite take_drop.
Qed.

Lemma sent_down_send fd b t n acts :
  sent_down ([SendFd fd b; TcpRecved t n] ++ acts) = b ++ sent_down acts.
Proof. done. Qed.

Lemma u64_add_l x y : u64 (u64 x + y) = u64 (x + y).
Proof. by rewrite !u64_mod, Zplus_mod_idemp_l. Qed.

Lemma rx_fuel_nonneg c : rx_ok c → 0 <= rx_fuel c.
Proof.
  intros [Ho _]. unfold rx_fuel. pose proof (zlen_nonneg (rx c)).
  destruct (rx c) as [|p l]; cbn [concat].
  - change (zlen (@nil Z)) with 0. lia.
  - rewrite zlen_app. pose proof (zlen_nonneg (concat l)). lia.
Qed.

Lemma rx_fuel_cons c p next : c.(rx) = p :: next →
  rx_fuel c = 1 + zlen next + zlen p + zlen (concat next) - c.(rx_off).
Proof. intros Hr. unfold rx_fuel. rewrite Hr. cbn [concat]. rewrite zlen_cons, zlen_app. lia. Qed.

Lemma close_spec c s : c.(st) ≠ ST_FREE →
  let out := conn_close c true s in
  out.1.1 = conn_free ∧ out.1.2 = s <| closed ::= inc |> ∧ Forall action_ok out.2 ∧
  sent_down out.2 = [] ∧ acked out.2 = 0.
Proof.
  intros Hf. unfold conn_close. destruct (st c); [done|..]; cbn [fst snd].
  all: (split_and!; [done|done|rewrite !Forall_app; split_and!; repeat case_match; repeat constructor|..]).
  all: by destruct (pcb c), (rx c), (0 <=? cfd c).
Qed.

Lemma pumped_sent c sends b n ms c' s s' acts t fd : pending c = b ++ pending (c <| rx_off := n |> <| last_ms := ms |>) →
  pumped (c <| rx_off := n |> <| last_ms := ms |>) sends (c', s, acts) →
  pumped c sends (c', s', [SendFd fd b; TcpRecved t (zlen b)] ++ acts).
Proof.
  intros Hb [(r & off & ms' & -> & Hok & Hp & Hr)|(-> & rest & j & len & Hp & Hr)].
  - left. exists r, off, ms'. split_and!; [done|done| |done].
    by rewrite sent_down_send, Hb, Hp, app_assoc.
  - right. split; [done|]. exists rest, j, len. split; [|done].
    by rewrite sent_down_send, Hb, Hp, app_assoc.
Qed.

(** The loop: the bytes sent are the ones that were pending, in order, and as many are
    acknowledged and counted. *)
Lemma pump_down_loop_spec fuel k c sends now s t :
  rx_ok c → c.(st) ≠ ST_FREE → c.(pcb) = Some t → sends_ok sends → rx_fuel c < Z.of_nat fuel →
  let out := pump_down_loop fuel k c sends now s in
  pumped c sends out ∧ Forall action_ok out.2 ∧ acked out.2 = zlen (sent_down out.2) ∧
  u64 out.1.2.(bytes_down) = u64 (s.(bytes_down) + zlen (sent_down out.2)).
Proof.
  intros Hok Hf Hp Hsend. revert k c s Hok Hf Hp.
  induction fuel as [|fuel IH]; intros k c s Hok Hf Hp Hfuel.
  { pose proof (rx_fuel_nonneg c Hok). lia. }
  pose proof Hok as [Ho Hl]. cbn [pump_down_loop]. destruct (rx c) as [|p next] eqn:Er.
  { cbn. rewrite Z.add_0_r. split_and!; [left|done..]. exists [], (rx_off c), (last_ms c).
    split_and!; [destruct c; cbn in *; by subst|done|done|by left]. }
  apply Forall_cons in Hl as [Hlp Hl]. rewrite (rx_fuel_cons c p next Er) in Hfuel.
  destruct (Z.leb_spec (zlen p - rx_off c) 0) as [Ha|Ha].
  - set (c1 := c <| rx := next |> <| rx_off := 0 |>).
    assert (Hp1 : pending c = pending c1) by (apply (pending_next c p); lia || done).
    specialize (IH k c1 s). destruct (pump_down_loop _ _ c1 _ _ _) as [[c' s'] acts].
    destruct IH as (HI & HA & HK & HB); [|done|done| |].
    { split; [|done]. cbn. destruct next; [lia|]. pose proof (zlen_nonneg l). lia. }
    { unfold rx_fuel. cbn. lia. }
    split_and!; [|by constructor|done|done]. revert HI. unfold pumped. rewrite Hp1. intros HI. exact HI.
  - destruct (sends k (zlen p - rx_off c)) as [n| |] eqn:Es.
    + destruct (Z.ltb_spec 0 n) as [Hn|Hn].
      * pose proof (Hsend k (zlen p - rx_off c) n Ha Es) as Hle. rewrite Hp.
        rewrite (u16_small n), (u16_small (rx_off c + n)) by (unfold is_u; lia).
        rewrite (u32_small n) by (unfold is_u; lia).
        assert (Hb := pending_sent c p next n Er ltac:(lia) ltac:(lia)).
        assert (Hz : zlen (ztake n (zdrop (rx_off c) p)) = n).
        { unfold ztake, zdrop, zlen in *. rewrite length_take, length_drop. lia. }
        set (c1 := c <| rx_off := rx_off c + n |> <| last_ms := now |>).
        specialize (IH (S k) c1 (s <| bytes_down ::= λ b, u64 (b + n) |>)).
        destruct (pump_down_loop _ _ c1 _ _ _) as [[c' s'] acts].
        destruct IH as (HI & HA & HK & HB); [|done|done| |].
        { split; cbn; rewrite Er; [lia|by constructor]. }
        { rewrite (rx_fuel_cons c1 p next Er). cbn. lia. }
        split_and!; [|by repeat constructor| |].
        -- rewrite <- Hz at 2. by apply (pumped_sent _ _ _ (rx_off c + n) now _ s').
        -- cbn [snd] in *. rewrite sent_down_send, zlen_app, Hz.
           by rewrite <- HK.
        -- cbn [fst snd] in *. rewrite HB, sent_down_send, zlen_app, Hz. cbn.
           rewrite u64_add_l. f_equal. lia.
      * destruct (close_spec c s Hf) as (E1 & E2 & HA & HS & HK).
        destruct (conn_close c true s) as [[c' s'] acts]. cbn [fst snd] in *. subst.
        rewrite HS, HK, Z.add_0_r. split_and!; [right|done..]. split; [done|].
        exists (pending c), k, (zlen p - rx_off c). rewrite HS. split_and!; [done|lia|]. right. by exists n.
    + cbn. rewrite Z.add_0_r. split_and!; [left|done..]. exists (rx c), (rx_off c), (last_ms c).
      split_and!; [by destruct c|done|done|]. right. exists k, (zlen p - rx_off c). by split.
    + destruct (close_spec c s Hf) as (E1 & E2 & HA & HS & HK).
      destruct (conn_close c true s) as [[c' s'] acts]. cbn [fst snd] in *. subst.
      rewrite HS, HK, Z.add_0_r. split_and!; [right|done..]. split; [done|].
      exists (pending c), k, (zlen p - rx_off c). rewrite HS. split_and!; [done|lia|by left].
Qed.

(** ** Every operation keeps the slot's invariant *)

Lemma pumped_wf c sends out : conn_wf c → c.(st) = ST_RELAY → pumped c sends out → conn_wf out.1.1.
Proof.
  intros [Hf Hd Hu Hp Hr Ho Hl Hh] Hs. destruct out as [[c' s'] acts].
  intros [(r & off & ms & -> & [Ho' Hl'] & _)|[-> _]]; [|apply conn_free_wf].
  split; cbn; try done. congruence.
Qed.

Lemma conn_wf_rx_ok c : conn_wf c → rx_ok c.
Proof. by intros []. Qed.

Lemma conn_wf_fuel c : conn_wf c → rx_fuel c < Z.of_nat (down_fuel c).
Proof. intros []. unfold rx_fuel, down_fuel, zlen. lia. Qed.

Lemma conn_wf_relay c : conn_wf c → c.(rx) ≠ [] → c.(st) = ST_RELAY ∧ ∃ t, c.(pcb) = Some t.
Proof.
  intros [Hf Hd Hu Hp Hr Ho Hl Hh] Hn. assert (st c = ST_RELAY) as E by (by apply Hr; left).
  split; [done|]. by apply Hp; right.
Qed.

Lemma pump_down_idle c sends now s : c.(rx) = [] → pump_down c sends now s = (c, s, []).
Proof. intros Hr. unfold pump_down, down_fuel. cbn [pump_down_loop]. by rewrite Hr. Qed.

Lemma pump_down_ok c sends now s : conn_wf c → sends_ok sends → effect_ok (pump_down c sends now s).
Proof.
  intros Hc Hs. destruct (decide (rx c = [])) as [E|E]; [by rewrite pump_down_idle|].
  destruct (conn_wf_relay c Hc E) as [Er [t Et]].
  destruct (pump_down_loop_spec (down_fuel c) 0 c sends now s t) as (HP & HA & _);
    [by apply conn_wf_rx_ok|congruence|done|done|by apply conn_wf_fuel|].
  split; [by apply (pumped_wf c sends)|done].
Qed.

(** What [recv] promises: no more than it was given room for. *)
Definition recv_ok (io : client_io) : Prop :=
  ∀ space bytes, io.(io_recv) space = Received bytes → is_bytes bytes ∧ zlen bytes <= space.

Lemma conn_wf_take c bytes now : conn_wf c → c.(st) ≠ ST_FREE → is_bytes bytes →
  zlen bytes <= BUF_SIZE - zlen c.(up) → conn_wf (c <| up ::= λ u, u ++ bytes |> <| last_ms := now |>).
Proof.
  intros [Hf Hd [Hu Hn] Hp Hr Ho Hl Hh] Hs Hb Hle. split; cbn; try done.
  rewrite zlen_app. split; [by apply Forall_app|lia].
Qed.

Lemma conn_wf_named c h : conn_wf c → c.(st) = ST_SNIFF → allowed h →
  conn_wf (c <| host := h |> <| st := ST_RESOLVING |>).
Proof.
  intros [Hf Hd Hu Hp Hr Ho Hl Hh] Hs Ha. split; cbn; try done.
  - intros _. apply Hd. congruence.
  - rewrite Hp, Hs. split; intros [?|?]; congruence.
  - intros Hx. apply Hr in Hx. congruence.
  - by right; right.
Qed.

Lemma filter_allowed h h' : host_normalise h = Some h' → host_denied h' = false → allowed h'.
Proof.
  intros Hn Hd. apply host_normalise_spec in Hn as [Hv _]. split; [done|]. intros s Hs Hu.
  by rewrite (proj2 (host_denied_spec h') (ex_intro _ s (conj Hs Hu))) in Hd.
Qed.

Lemma sniff_ok c io s : conn_wf c → effect_ok (sniff c io s).
Proof.
  intros Hc. unfold sniff. destruct (st c) eqn:E1; try by split.
  assert (st c ≠ ST_FREE) as Hf by congruence.
  destruct (sni_hostname (up c) (zlen (up c)) 128) as [name| |];
    [|destruct (SNIFF_LIMIT <=? zlen (up c)); [by apply conn_close_any|by split]..].
  destruct (host_normalise (host (c <| host := c_string name |>))) as [h|] eqn:En; [|by apply conn_close_any].
  destruct (host_denied (host (c <| host := c_string name |> <| host := h |>))) eqn:Ed; [by apply conn_close_any|].
  pose proof (filter_allowed _ _ En Ed) as Ha. pose proof (conn_wf_named c h Hc E1 Ha) as Hc2.
  apply (effect_ok_cons (DnsQuery h)); [done|]. destruct (io_dns io) as [ip| |].
  - by apply on_resolved_ok.
  - by split.
  - by apply conn_close_any.
Qed.

Lemma handle_client_readable_ok c io s : conn_wf c → c.(st) ≠ ST_FREE → recv_ok io →
  effect_ok (handle_client_readable c io s).
Proof.
  intros Hc Hf Hr. unfold handle_client_readable. destruct (BUF_SIZE - zlen (up c) <=? 0); [by split|].
  destruct (io_recv io _) as [bytes| |] eqn:Er; [|by split|by apply conn_close_any].
  apply Hr in Er as [Hb Hle]. destruct bytes as [|x l]; [destruct (pcb c), (up c); (split; [done|repeat constructor])|].
  apply (effect_ok_cons (RecvFd (cfd c) (x :: l))); [done|]. by apply sniff_ok, conn_wf_take.
Qed.

Lemma sweep_slot_ok now c s : conn_wf c → effect_ok (sweep_slot now c s).
Proof.
  intros Hc. unfold sweep_slot, is_free. case_bool_decide; [by split|].
  destruct (_ <? _); [by split|]. by apply conn_close_any.
Qed.

(** What the calls of a pass promise: [poll], [recv], [send] and [tcp_sndbuf]. *)
Record poll_ok (inp : poll_in) : Prop := {
  ok_recv : ∀ i, recv_ok (inp.(in_io) i);
  ok_sends : ∀ i, sends_ok (inp.(in_sends) i);
  ok_sends_last : ∀ i, sends_ok (inp.(in_sends_last) i);
  ok_room : ∀ i, 0 <= inp.(in_room) i
}.

(** Running one operation after another on a slot. *)
Lemma effect_ok_seq (e : effect) (f : conn_t → awg_proxy_stats → effect) : effect_ok e →
  (∀ c s, conn_wf c → effect_ok (f c s)) →
  effect_ok (let '(c, s, a1) := e in let '(c, s, a2) := f c s in (c, s, a1 ++ a2)).
Proof.
  destruct e as [[c s] a1]. intros [Hc Ha] Hf. specialize (Hf c s Hc).
  destruct (f c s) as [[c' s'] a2], Hf as [Hc' Ha']. split; [done|by apply Forall_app].
Qed.

Lemma effect_ok_seq3 (e : effect) (f g : conn_t → awg_proxy_stats → effect) : effect_ok e →
  (∀ c s, conn_wf c → effect_ok (f c s)) → (∀ c s, conn_wf c → effect_ok (g c s)) →
  effect_ok (let '(c, s, a1) := e in let '(c, s, a2) := f c s in
             let '(c, s, a3) := g c s in (c, s, a1 ++ a2 ++ a3)).
Proof.
  destruct e as [[c s] a1]. intros [Hc Ha] Hf Hg. specialize (Hf c s Hc).
  destruct (f c s) as [[c1 s1] a2], Hf as [Hc1 Ha1]. specialize (Hg c1 s1 Hc1).
  destruct (g c1 s1) as [[c2 s2] a3], Hg as [Hc2 Ha2]. split; [done|]. cbn. rewrite !Forall_app. done.
Qed.

Lemma serve_ready_ok i rev inp c s : poll_ok inp → conn_wf c → effect_ok (serve_ready i rev inp c s).
Proof.
  intros [Hr Hs _ _] Hc. unfold serve_ready, is_free. case_bool_decide; [by split|].
  destruct (bit rev (POLLERR .| POLLHUP .| POLLNVAL)); [by apply conn_close_any|].
  apply (effect_ok_seq _ (λ c s, if negb (bool_decide (st c = ST_FREE)) && bit rev POLLIN
    then handle_client_readable c (in_io inp i) s else (c, s, []))).
  - destruct (bit rev POLLOUT); [by apply pump_down_ok|by split].
  - intros c' s' Hc'. case_bool_decide; [by split|]. destruct (bit rev POLLIN); [|by split].
    by apply handle_client_readable_ok.
Qed.

Lemma finish_slot_ok inp i c s : poll_ok inp → conn_wf c → effect_ok (finish_slot inp i c s).
Proof.
  intros [_ _ Hs Hr] Hc. unfold finish_slot, is_free. case_bool_decide; [by split|].
  set (f1 := λ c s, match rx c with [] => (c, s, []) | _ => pump_down c (in_sends_last inp i) (in_down_now inp i) s end : effect).
  set (f2 := λ c s, match peer_closed c, rx c with
                    | true, [] => conn_close c false (s <| completed ::= inc |>) | _, _ => (c, s, []) end : effect).
  apply (effect_ok_seq3 _ f1 f2).
  - case_bool_decide; [by apply pump_up_ok|by split].
  - intros c' s' Hc'. unfold f1. destruct (rx c'); [by split|by apply pump_down_ok].
  - intros c' s' Hc'. unfold f2. destruct (peer_closed c'), (rx c'); first [by split|by apply conn_close_ok].
Qed.

(** ** The table *)

Definition proxy_wf (p : proxy) : Prop := length p.(g_conn) = MAX_CONN ∧ Forall conn_wf p.(g_conn).

Definition run_ok (r : proxy * list action) : Prop := proxy_wf r.1 ∧ Forall action_ok r.2.

Lemma run_ok_nil p : proxy_wf p → run_ok (p, []).
Proof. by split. Qed.

Lemma run_ok_seq (r : proxy * list action) (f : proxy → proxy * list action) : run_ok r →
  (∀ p, proxy_wf p → run_ok (f p)) →
  run_ok (let '(p, a1) := r in let '(p, a2) := f p in (p, a1 ++ a2)).
Proof.
  destruct r as [p a1]. intros [Hp Ha] Hf. specialize (Hf p Hp).
  destruct (f p) as [p' a2], Hf as [Hp' Ha']. split; [done|by apply Forall_app].
Qed.

Lemma on_slot_ok i f p : proxy_wf p →
  (∀ c s, p.(g_conn) !! i = Some c → conn_wf c → effect_ok (f c s)) → run_ok (on_slot i f p).
Proof.
  intros [Hn Hw] Hf. unfold on_slot. destruct (g_conn p !! i) as [c|] eqn:E; [|by split].
  destruct (Hf c (g_stats p) eq_refl) as [Hc Ha]; [by eapply Forall_lookup_1|].
  destruct (f c (g_stats p)) as [[c' s'] acts]. split; [split|done]; cbn.
  - by rewrite length_insert.
  - by apply Forall_insert.
Qed.

Lemma each_slot_ok ids f p : proxy_wf p → (∀ i c s, conn_wf c → effect_ok (f i c s)) →
  run_ok (each_slot ids f p).
Proof.
  intros Hp Hf. revert p Hp. induction ids as [|i ids IH]; intros p Hp; [by apply run_ok_nil|].
  cbn [each_slot]. apply run_ok_seq; [|done]. apply on_slot_ok; [done|]. intros c s _. apply Hf.
Qed.

Lemma serve_loop_ok k fds inp p : poll_ok inp → proxy_wf p → run_ok (serve_loop k fds inp p).
Proof.
  intros Hi. revert k p. induction fds as [|fd fds IH]; intros k p Hp; [by apply run_ok_nil|].
  cbn [serve_loop]. apply run_ok_seq; [|by intros; apply IH]. destruct (p_owner fd); [|by apply run_ok_nil].
  apply on_slot_ok; [done|]. intros c s _ Hc. by apply serve_ready_ok.
Qed.

Lemma conn_alloc_loop_spec cs i j : conn_alloc_loop cs i = Some j →
  ∃ c, (i <= j)%nat ∧ cs !! (j - i)%nat = Some c ∧ c.(st) = ST_FREE.
Proof.
  revert i. induction cs as [|c cs IH]; intros i; cbn; [done|]. unfold is_free.
  case_bool_decide as E.
  - intros [= ->]. exists c. by rewrite Nat.sub_diag.
  - intros H. destruct (IH _ H) as (c' & Hle & Hc & Ef). exists c'. split_and!; [lia| |done].
    by replace (j - i)%nat with (S (j - S i)) by lia.
Qed.

Lemma conn_sniff_wf fd now : 0 <= fd → conn_wf (conn_free <| cfd := fd |> <| st := ST_SNIFF |> <| last_ms := now |>).
Proof.
  intros Hfd. split; cbn; try done.
  - split; [by intros [? ?]|by intros [?|?]].
  - by intros [?|?].
  - by right; left.
Qed.

Lemma accept_one_ok fd now p : proxy_wf p → run_ok (accept_one p fd now).
Proof.
  intros [Hn Hw]. unfold accept_one, conn_alloc. destruct (Z.ltb_spec fd 0) as [Hfd|Hfd]; [by split|].
  destruct (conn_alloc_loop (g_conn p) 0) as [i|] eqn:E; [|split; [by split|by repeat constructor]].
  destruct (conn_alloc_loop_spec _ _ _ E) as (c & _ & Hc & _). split; [split|by repeat constructor]; cbn.
  - by rewrite length_alter, length_insert.
  - apply Forall_alter; [by apply Forall_insert; [|apply conn_free_wf]|].
    intros c' Hc' _. rewrite list_lookup_insert_eq in Hc' by (apply lookup_lt_Some in Hc; lia).
    injection Hc' as <-. by apply conn_sniff_wf.
Qed.

Lemma awg_proxy_poll_ok extra_fd inp p : poll_ok inp → proxy_wf p →
  let '(p', _, acts) := awg_proxy_poll extra_fd inp p in run_ok (p', acts).
Proof.
  intros Hi Hp. unfold awg_proxy_poll. destruct (g_listen p <? 0); [by apply run_ok_nil|].
  set (n := length (poll_head p extra_fd)). set (fds := drop n (poll_set p extra_fd)).
  assert (run_ok (let '(q, b1) := if bit (in_revents inp 0) POLLIN
                                  then accept_one p (in_accept inp) (in_accept_now inp) else (p, []) in
                  let '(q, b2) := serve_loop n fds inp q in (q, b1 ++ b2))) as Hs.
  { apply run_ok_seq; [|by intros; apply serve_loop_ok].
    destruct (bit _ _); [by apply accept_one_ok|by apply run_ok_nil]. }
  set (served := if 0 <? in_poll inp then _ else _).
  assert (∃ q x a, served = (q, x, a) ∧ run_ok (q, a)) as (q & x & a1 & -> & [Hq Ha]).
  { unfold served. destruct (0 <? in_poll inp); [|by exists p, 0, []].
    destruct (if bit _ _ then _ else _) as [q b1], (serve_loop n fds inp q) as [q' b2].
    by exists q', (if 0 <=? extra_fd then in_revents inp 1 else 0), (b1 ++ b2). }
  destruct (each_slot_ok slots (λ _, sweep_slot (in_now inp)) q Hq) as [Hq2 Ha2]; [intros; by apply sweep_slot_ok|].
  unfold sweep_idle. destruct (each_slot slots _ q) as [q2 a2].
  destruct (each_slot_ok slots (finish_slot inp) q2 Hq2) as [Hq3 Ha3]; [intros; by apply finish_slot_ok|].
  destruct (each_slot slots (finish_slot inp) q2) as [q3 a3]. split; [done|]. cbn. rewrite !Forall_app. done.
Qed.

(** ** Runs *)

(** What drives the proxy: the poll pass, and lwIP's callbacks. *)
Inductive event : Type :=
| EvPoll (extra_fd : Z) (inp : poll_in)
| EvRecv (i : nat) (chain : option (list (list Z))) (err_ok : bool)
| EvErr (i : nat)
| EvConnected (i : nat) (err_ok : bool)
| EvResolved (i : nat) (name : list Z) (ip new : option Z) (connect_ok : bool).

(** What a callback is given: the bytes of a chain it takes, and that the pcb is freed. *)
Definition got (c : conn_t) (chain : option (list (list Z))) (err_ok : bool) : list action :=
  match c.(pcb), chain with Some t, Some l => if err_ok then [TcpGot t (concat l)] else [] | _, _ => [] end.
Definition gone (c : conn_t) : list action := match c.(pcb) with Some t => [TcpGone t] | None => [] end.

Definition handle (ev : event) (p : proxy) : proxy * list action :=
  match ev with
  | EvPoll fd inp => let '(p, _, acts) := awg_proxy_poll fd inp p in (p, acts)
  | EvRecv i chain ok => on_slot i (λ c s, (on_recv c chain ok, s, got c chain ok)) p
  | EvErr i => on_slot i (λ c s, let '(c', s', acts) := on_err c s in (c', s', gone c ++ acts)) p
  | EvConnected i ok => on_slot i (λ c, on_connected c ok) p
  | EvResolved i name ip new ok => on_slot i (λ c, on_resolved c name ip new ok) p
  end.

(** When lwIP can call: [tcp_recv] is set once connected and cleared by [conn_close],
    [tcp_err] from [tcp_new] on, and the resolver's callback is never taken back. *)
Definition enabled (ev : event) (p : proxy) : Prop :=
  match ev with
  | EvPoll _ inp => poll_ok inp
  | EvRecv i chain _ => (∃ c, p.(g_conn) !! i = Some c ∧ c.(st) = ST_RELAY) ∧
      (∀ l, chain = Some l → Forall (λ q, zlen q < 65536) l)
  | EvErr i => ∃ c, p.(g_conn) !! i = Some c ∧ is_Some c.(pcb)
  | EvConnected i _ => ∃ c, p.(g_conn) !! i = Some c ∧ c.(st) = ST_CONNECTING
  | EvResolved _ _ _ _ _ => True
  end.

(** The table a run starts from, as [awg_proxy_start] leaves the zeroed array. *)
Definition started (listen : Z) : proxy := Proxy (replicate MAX_CONN conn_free) listen stats_zero.

Inductive runs (listen : Z) : list event → proxy → list action → Prop :=
| runs_start : runs listen [] (started listen) []
| runs_step evs p acts ev : runs listen evs p acts → enabled ev p →
    runs listen (evs ++ [ev]) (handle ev p).1 (acts ++ (handle ev p).2).

Lemma started_wf listen : proxy_wf (started listen).
Proof. split; [done|]. apply Forall_replicate, conn_free_wf. Qed.

Lemma enabled_not_free ev p i c : proxy_wf p → enabled ev p → p.(g_conn) !! i = Some c →
  match ev with EvErr j | EvConnected j _ => j = i | _ => False end → c.(st) ≠ ST_FREE.
Proof.
  intros [_ Hw] He Hc Hj. assert (conn_wf c) as [_ _ _ Hp _ _ _ _] by (by eapply Forall_lookup_1).
  destruct ev; try done; subst; destruct He as (c' & Hc' & He); simplify_eq; [|congruence].
  apply Hp in He as [->| ->]; done.
Qed.

Lemma handle_ok ev p : proxy_wf p → enabled ev p → run_ok (handle ev p).
Proof.
  intros Hp He. destruct ev as [fd inp|i chain ok|i|i ok|i name ip new ok]; cbn [handle].
  - pose proof (awg_proxy_poll_ok fd inp p He Hp). by destruct (awg_proxy_poll fd inp p) as [[q x] a].
  - apply on_slot_ok; [done|]. intros c s Hc Hw.
    split; [|unfold got; destruct (pcb c), chain, ok; by repeat constructor]. destruct He as [(c' & Hc' & Hst) Hl].
    apply on_recv_wf; [done|congruence|]. destruct chain; [by apply Hl|done].
  - apply on_slot_ok; [done|]. intros c s Hc Hw.
    assert (effect_ok (on_err c s)) as [Hc' Ha] by (apply on_err_ok; [done|]; by eapply (enabled_not_free (EvErr i))).
    destruct (on_err c s) as [[c' s'] acts]. split; [done|]. apply Forall_app. split; [|done].
    unfold gone. destruct (pcb c); by repeat constructor.
  - apply on_slot_ok; [done|]. intros c s Hc Hw. destruct He as (c' & Hc' & Hst).
    apply on_connected_ok; [done|congruence].
  - apply on_slot_ok; [done|]. intros c s _ Hw. by apply on_resolved_ok.
Qed.

Lemma runs_wf listen evs p acts : runs listen evs p acts → proxy_wf p ∧ Forall action_ok acts.
Proof.
  induction 1 as [|evs p acts ev _ [Hp Ha] He]; [split; [apply started_wf|constructor]|].
  destruct (handle_ok ev p Hp He). split; [done|by apply Forall_app].
Qed.

(** ** The counters *)

Definition congr (a b : Z) : Prop := ∃ k, a = b + k * 2 ^ 32.

Lemma congr_refl a : congr a a.
Proof. exists 0. lia. Qed.
Lemma congr_trans a b c : congr a b → congr b c → congr a c.
Proof. intros [k ->] [l ->]. exists (k + l). lia. Qed.
Lemma congr_add a b c d : congr a b → congr c d → congr (a + c) (b + d).
Proof. intros [k ->] [l ->]. exists (k + l). lia. Qed.
Lemma congr_inc x : congr (inc x) (x + 1).
Proof.
  unfold inc. rewrite u32_mod. exists (- ((x + 1) / 2 ^ 32)).
  pose proof (Z.div_mod (x + 1) (2 ^ 32) ltac:(lia)). lia.
Qed.
Lemma congr_u32 a b : congr a b → u32 a = u32 b.
Proof. intros [k ->]. rewrite !u32_mod. by rewrite Z.mod_add. Qed.

#[local] Hint Resolve congr_refl congr_inc : core.

Definition busy (c : conn_t) : Z := if is_free c then 0 else 1.

(** The accepted connections that no counter of an end has taken. *)
Definition open_count (s : awg_proxy_stats) : Z := s.(accepted) - s.(completed) - s.(closed).

(** An operation that frees a slot counts one end; one that does not, none. *)
Definition counted (c : conn_t) (s : awg_proxy_stats) (e : effect) : Prop :=
  congr (open_count e.1.2 - busy e.1.1) (open_count s - busy c).

Lemma congr_dec x y : congr (y - inc x) (y - x - 1).
Proof. destruct (congr_inc x) as [k ->]. exists (- k). lia. Qed.

Lemma conn_close_counted c s s0 : c.(st) ≠ ST_FREE → open_count s0 = open_count s →
  counted c s (conn_close c true s0).
Proof.
  intros Hf Hs. unfold counted. destruct (close_spec c s0 Hf) as (-> & -> & _).
  replace (busy c) with 1 by (unfold busy, is_free; by rewrite bool_decide_eq_false_2).
  unfold open_count in *. cbn. rewrite <- Hs, Z.sub_0_r. apply congr_dec.
Qed.

Lemma counted_same c c' s s' acts : busy c' = busy c → open_count s' = open_count s → counted c s (c', s', acts).
Proof. intros Hb Ho. unfold counted. cbn. by rewrite Hb, Ho. Qed.

Lemma counted_trans c s c1 s1 a1 e : counted c s (c1, s1, a1) → counted c1 s1 e → counted c s e.
Proof. unfold counted. cbn. intros H1 H2. by eapply congr_trans. Qed.

Lemma counted_acts c s (e : effect) (f : list action → list action) : counted c s e →
  counted c s (let '(c', s', acts) := e in (c', s', f acts)).
Proof. by destruct e as [[c' s'] acts]. Qed.

Lemma closing_counted c s c' s' : c.(st) ≠ ST_FREE → busy c' = busy c → open_count s' = open_count s →
  counted c s (conn_close c' true s').
Proof.
  intros Hf Hb Ho. apply (counted_trans _ _ c' s []); [by apply counted_same|].
  apply conn_close_counted; [|done]. intros Ef. unfold busy, is_free in Hb.
  by rewrite Ef, (bool_decide_eq_false_2 _ Hf) in Hb.
Qed.

Lemma on_connected_counted c ok s : c.(st) = ST_CONNECTING → counted c s (on_connected c ok s).
Proof.
  intros Hs. unfold on_connected. destruct ok; [|by apply conn_close_counted; [congruence|]].
  apply counted_same; [|done]. unfold busy, is_free. by rewrite Hs.
Qed.

Lemma on_resolved_counted c name ip new ok s : counted c s (on_resolved c name ip new ok s).
Proof.
  unfold on_resolved. case_bool_decide as E; [|by apply counted_same]. cbn [negb].
  assert (st c ≠ ST_FREE) as Hf by congruence.
  assert (busy c = 1) as Hb by (unfold busy, is_free; by rewrite E).
  destruct ip as [ip|]; [|by apply closing_counted]. destruct new as [p|]; [|by apply closing_counted].
  destruct ok; cbn [negb]; [by apply counted_same|]. apply (counted_acts _ _ _ (cons (TcpNew p))).
  by apply closing_counted.
Qed.

Lemma pump_up_counted c room ok now s : counted c s (pump_up c room ok now s).
Proof. unfold pump_up. repeat case_match; by apply counted_same. Qed.

Lemma pump_down_loop_counted fuel k c sends now s : c.(st) ≠ ST_FREE →
  counted c s (pump_down_loop fuel k c sends now s).
Proof.
  revert k c s. induction fuel as [|fuel IH]; intros k c s Hf; cbn [pump_down_loop]; [by apply counted_same|].
  destruct (rx c) as [|p next]; [by apply counted_same|].
  destruct (_ <=? 0).
  { set (c1 := c <| rx := next |> <| rx_off := 0 |>). specialize (IH k c1 s Hf).
    destruct (pump_down_loop _ _ c1 _ _ _) as [[]]; exact IH. }
  destruct (sends k _) as [n| |]; [|by apply counted_same|by apply conn_close_counted].
  destruct (0 <? n); [|by apply conn_close_counted].
  set (c1 := c <| rx_off := _ |> <| last_ms := now |>). set (s1 := s <| bytes_down ::= _ |>).
  specialize (IH (S k) c1 s1 Hf). destruct (pump_down_loop _ _ c1 _ _ _) as [[]]; exact IH.
Qed.

Lemma pump_down_counted c sends now s : c.(st) ≠ ST_FREE → counted c s (pump_down c sends now s).
Proof. apply pump_down_loop_counted. Qed.

Lemma sniff_counted c io s : counted c s (sniff c io s).
Proof.
  unfold sniff. destruct (st c) eqn:E1; try by apply counted_same.
  assert (st c ≠ ST_FREE) as Hf by congruence.
  destruct (sni_hostname _ _ _) as [name| |];
    [|destruct (SNIFF_LIMIT <=? _); [by apply closing_counted|by apply counted_same]..].
  destruct (host_normalise _) as [h|]; [|by apply closing_counted].
  destruct (host_denied _); [by apply closing_counted|].
  set (c2 := c <| host := _ |> <| host := h |> <| st := ST_RESOLVING |>).
  assert (busy c2 = busy c) as Hb2 by (unfold busy, is_free; by rewrite E1).
  apply (counted_acts _ _ _ (cons (DnsQuery h))). eapply (counted_trans _ _ c2 s []); [by apply counted_same|].
  destruct (io_dns io) as [ip| |]; [apply on_resolved_counted|by apply counted_same|by apply conn_close_counted].
Qed.

Lemma handle_client_readable_counted c io s : c.(st) ≠ ST_FREE → counted c s (handle_client_readable c io s).
Proof.
  intros Hf. unfold handle_client_readable. destruct (_ <=? 0); [by apply counted_same|].
  destruct (io_recv io _) as [[|x l]| |]; [destruct (pcb c), (up c); by apply counted_same| |
    by apply counted_same|by apply conn_close_counted].
  apply (counted_acts _ _ _ (cons (RecvFd (cfd c) (x :: l)))).
  set (c1 := c <| up ::= λ u, u ++ x :: l |> <| last_ms := io_now io |>).
  apply (counted_trans _ _ c1 s []); [by apply counted_same|apply sniff_counted].
Qed.

Lemma sweep_slot_counted now c s : counted c s (sweep_slot now c s).
Proof.
  unfold sweep_slot, is_free. case_bool_decide; [by apply counted_same|].
  destruct (_ <? _); [by apply counted_same|by apply conn_close_counted].
Qed.

Lemma counted_seq c s (e : effect) (f : conn_t → awg_proxy_stats → effect) : counted c s e →
  (∀ c s, counted c s (f c s)) →
  counted c s (let '(c, s, a1) := e in let '(c, s, a2) := f c s in (c, s, a1 ++ a2)).
Proof.
  destruct e as [[c1 s1] a1]. intros He Hf. specialize (Hf c1 s1).
  destruct (f c1 s1) as [[c2 s2] a2]. by apply (counted_trans _ _ c1 s1 a1).
Qed.

Lemma serve_ready_counted i rev inp c s : counted c s (serve_ready i rev inp c s).
Proof.
  unfold serve_ready, is_free. case_bool_decide as E; [by apply counted_same|].
  destruct (bit rev (POLLERR .| POLLHUP .| POLLNVAL)); [by apply conn_close_counted|].
  apply (counted_seq _ _ _ (λ c s, if negb (bool_decide (st c = ST_FREE)) && bit rev POLLIN
    then handle_client_readable c (in_io inp i) s else (c, s, []))).
  - destruct (bit rev POLLOUT); [by apply pump_down_counted|by apply counted_same].
  - intros c' s'. case_bool_decide; [by apply counted_same|]. destruct (bit rev POLLIN); [|by apply counted_same].
    by apply handle_client_readable_counted.
Qed.

Lemma complete_counted c s : c.(st) ≠ ST_FREE → counted c s (conn_close c false (s <| completed ::= inc |>)).
Proof.
  intros Hf. unfold counted. rewrite conn_close_free by done.
  assert ((conn_close c false (s <| completed ::= inc |>)).1.2 = s <| completed ::= inc |>) as ->
    by (unfold conn_close; by destruct (st c)).
  replace (busy c) with 1 by (unfold busy, is_free; by rewrite bool_decide_eq_false_2).
  unfold open_count. cbn. rewrite Z.sub_0_r.
  destruct (congr_inc (completed s)) as [k ->]. exists (- k). lia.
Qed.

Lemma finish_slot_counted inp i c s : conn_wf c → poll_ok inp → counted c s (finish_slot inp i c s).
Proof.
  intros Hc [_ _ Hs Hr]. unfold finish_slot, is_free. case_bool_decide as E; [by apply counted_same|].
  set (e := if bool_decide (st c = ST_RELAY) then _ else _).
  assert (effect_ok e ∧ counted c s e) as [[Hc1 _] He1].
  { unfold e. case_bool_decide; [|split; [by split|by apply counted_same]].
    split; [by apply pump_up_ok|apply pump_up_counted]. }
  destruct e as [[c1 s1] a1]. cbn [fst] in Hc1.
  set (e2 := match rx c1 with [] => _ | _ => _ end).
  assert (effect_ok e2 ∧ counted c1 s1 e2) as [[Hc2 _] He2].
  { unfold e2. destruct (rx c1) eqn:Er; [split; [by split|by apply counted_same]|].
    split; [by apply pump_down_ok|]. apply pump_down_counted.
    destruct (conn_wf_relay c1 Hc1); congruence. }
  destruct e2 as [[c2 s2] a2]. cbn [fst] in Hc2.
  assert (∀ a, counted c s (c2, s2, a)) as H2 by (intros a; by apply (counted_trans _ _ _ _ _ _ He1)).
  destruct (peer_closed c2) eqn:Ep; [|apply H2]. destruct (rx c2); [|apply H2].
  pose proof (complete_counted c2 s2) as H3. destruct (conn_close c2 false _) as [[c3 s3] a3].
  apply (counted_trans _ _ c2 s2 []); [apply H2|]. apply H3.
  rewrite (wf_rx c2 Hc2) by (by right). done.
Qed.

(** *** The table *)

Definition table_count (p : proxy) : Z := open_count p.(g_stats) - awg_proxy_live p.

Lemma live_app cs ds s l : awg_proxy_live (Proxy (cs ++ ds) l s) =
  awg_proxy_live (Proxy cs l s) + awg_proxy_live (Proxy ds l s).
Proof. unfold awg_proxy_live. cbn. by rewrite filter_app, zlen_app. Qed.

Lemma live_one c l s : awg_proxy_live (Proxy [c] l s) = busy c.
Proof.
  unfold awg_proxy_live, busy. cbn. destruct (is_free c); [by rewrite decide_False|by rewrite decide_True].
Qed.

Lemma live_insert p i c c' s : p.(g_conn) !! i = Some c →
  awg_proxy_live (p <| g_conn ::= <[i := c']> |> <| g_stats := s |>) = awg_proxy_live p - busy c + busy c'.
Proof.
  intros Hc. destruct p as [cs l s0]. cbn [g_conn] in Hc.
  change (awg_proxy_live (Proxy (<[i := c']> cs) l s) = awg_proxy_live (Proxy cs l s) - busy c + busy c').
  rewrite <- (take_drop_middle cs i c Hc) at 2.
  rewrite insert_take_drop by (by apply lookup_lt_Some in Hc).
  change (c' :: drop (S i) cs) with ([c'] ++ drop (S i) cs). change (c :: drop (S i) cs) with ([c] ++ drop (S i) cs).
  rewrite !live_app, !live_one. lia.
Qed.

Definition table_counted (p p' : proxy) : Prop := congr (table_count p') (table_count p).

Lemma on_slot_counted i f p :
  (∀ c s, p.(g_conn) !! i = Some c → counted c s (f c s)) → table_counted p (on_slot i f p).1.
Proof.
  intros Hf. unfold on_slot. destruct (g_conn p !! i) as [c|] eqn:E; [|apply congr_refl].
  specialize (Hf c (g_stats p) eq_refl). destruct (f c (g_stats p)) as [[c' s'] acts].
  unfold table_counted, table_count, counted in *. cbn [fst snd] in *.
  rewrite (live_insert p i c c' s' E). destruct Hf as [k Hk]. exists k. cbn. lia.
Qed.

Lemma each_slot_counted ids f p : proxy_wf p → (∀ i c s, conn_wf c → effect_ok (f i c s)) →
  (∀ i c s, conn_wf c → counted c s (f i c s)) → table_counted p (each_slot ids f p).1.
Proof.
  intros Hp Ho Hf. revert p Hp. induction ids as [|i ids IH]; intros p Hp; [apply congr_refl|].
  cbn [each_slot]. destruct (on_slot_ok i (f i) p Hp) as [Hp1 _]; [intros; by apply Ho|].
  pose proof (on_slot_counted i (f i) p) as H1. destruct (on_slot i (f i) p) as [p1 a1]. cbn [fst] in *.
  specialize (IH p1 Hp1). destruct (each_slot ids f p1) as [p2 a2]. eapply congr_trans; [done|]. apply H1.
  intros c s Hc. apply Hf. destruct Hp as [_ Hw]. by eapply Forall_lookup_1.
Qed.

Lemma serve_loop_counted k fds inp p : table_counted p (serve_loop k fds inp p).1.
Proof.
  revert k p. induction fds as [|fd fds IH]; intros k p; [apply congr_refl|]. cbn [serve_loop].
  set (r := match p_owner fd with Some _ => _ | None => _ end).
  assert (table_counted p r.1) as H1.
  { unfold r. destruct (p_owner fd); [|apply congr_refl]. apply on_slot_counted. intros. apply serve_ready_counted. }
  destruct r as [p1 a1]. specialize (IH (S k) p1). destruct (serve_loop _ _ _ p1) as [p2 a2].
  eapply congr_trans; [apply IH|done].
Qed.

Lemma accept_one_counted fd now p : table_counted p (accept_one p fd now).1.
Proof.
  unfold accept_one, conn_alloc. destruct (fd <? 0); [apply congr_refl|].
  destruct (conn_alloc_loop (g_conn p) 0) as [i|] eqn:E; [|apply congr_refl].
  destruct (conn_alloc_loop_spec _ _ _ E) as (c & _ & Hc & Hf). rewrite Nat.sub_0_r in Hc.
  set (c1 := conn_free <| cfd := fd |> <| st := ST_SNIFF |> <| last_ms := now |>).
  set (s1 := g_stats p <| accepted ::= inc |>).
  assert ((p <| g_conn ::= <[i := conn_free]> |>
    <| g_conn ::= alter (λ c, c <| cfd := fd |> <| st := ST_SNIFF |> <| last_ms := now |>) i |>
    <| g_stats ::= λ s, s <| accepted ::= inc |> |>) = p <| g_conn ::= <[i := c1]> |> <| g_stats := s1 |>) as E1.
  { destruct p as [cs l s]. unfold c1, s1. cbv [modify]. cbn [g_conn g_stats g_listen proxy_eta]. f_equal.
    rewrite !list_insert_alter, list_alter_alter_eq. by apply list_alter_ext. }
  cbn [fst]. rewrite E1. unfold table_counted, table_count. rewrite (live_insert p i c c1 s1 Hc).
  replace (busy c) with 0 by (unfold busy, is_free; by rewrite Hf). change (busy c1) with 1.
  unfold s1, open_count. cbn. destruct (congr_inc (accepted (g_stats p))) as [k ->]. exists k. lia.
Qed.

Lemma table_counted_trans p q r : table_counted p q → table_counted q r → table_counted p r.
Proof. intros H1 H2. by eapply congr_trans. Qed.

Lemma awg_proxy_poll_counted extra_fd inp p : poll_ok inp → proxy_wf p →
  table_counted p (awg_proxy_poll extra_fd inp p).1.1.
Proof.
  intros Hi Hp. unfold awg_proxy_poll. destruct (g_listen p <? 0); [apply congr_refl|].
  set (n := length (poll_head p extra_fd)). set (fds := drop n (poll_set p extra_fd)).
  set (served := if 0 <? in_poll inp then _ else _).
  assert (proxy_wf served.1.1 ∧ table_counted p served.1.1) as [Hq H1].
  { unfold served. destruct (0 <? in_poll inp); [|split; [done|apply congr_refl]].
    set (r := if bit _ _ then _ else _).
    assert (proxy_wf r.1 ∧ table_counted p r.1) as [Hr H1].
    { unfold r. destruct (bit _ _); [|split; [done|apply congr_refl]].
      split; [by apply accept_one_ok|apply accept_one_counted]. }
    destruct r as [q b1]. destruct (serve_loop_ok n fds inp q Hi Hr) as [Hq _].
    pose proof (serve_loop_counted n fds inp q) as H2. destruct (serve_loop n fds inp q) as [q2 b2].
    split; [done|by eapply table_counted_trans]. }
  destruct served as [[q x] a1]. cbn [fst] in *. unfold sweep_idle.
  destruct (each_slot_ok slots (λ _, sweep_slot (in_now inp)) q Hq) as [Hq2 _]; [intros; by apply sweep_slot_ok|].
  pose proof (each_slot_counted slots (λ _, sweep_slot (in_now inp)) q Hq) as H2.
  destruct (each_slot slots _ q) as [q2 a2]. cbn [fst] in *.
  pose proof (each_slot_counted slots (finish_slot inp) q2 Hq2) as H3.
  destruct (each_slot slots (finish_slot inp) q2) as [q3 a3]. cbn [fst] in *.
  eapply table_counted_trans; [exact H1|]. eapply table_counted_trans; [apply H2|apply H3]; intros.
  - by apply sweep_slot_ok.
  - apply sweep_slot_counted.
  - by apply finish_slot_ok.
  - by apply finish_slot_counted.
Qed.

(** The connections lwIP failed on its own account. *)
Definition is_err (ev : event) : bool := match ev with EvErr _ => true | _ => false end.
Definition errors (evs : list event) : Z := zlen (filter (λ ev, is_err ev = true) evs).

Lemma on_err_counted i p : proxy_wf p → enabled (EvErr i) p →
  congr (table_count (handle (EvErr i) p).1) (table_count p + 1).
Proof.
  intros Hp He. pose proof He as (c & Hc & _). cbn [handle]. unfold on_slot. rewrite Hc.
  pose proof (enabled_not_free (EvErr i) p i c Hp He Hc eq_refl) as Hf. unfold on_err.
  pose proof (conn_close_free (c <| pcb := None |>) false (g_stats p <| failed ::= inc |>)) as Hcl.
  assert ((conn_close (c <| pcb := None |>) false (g_stats p <| failed ::= inc |>)).1.2
          = g_stats p <| failed ::= inc |>) as Hs by (unfold conn_close; by destruct (st _)).
  destruct (conn_close _ _ _) as [[c' s'] a]. cbn [fst snd] in *. rewrite Hcl, Hs by done.
  unfold table_count. rewrite (live_insert p i c conn_free _ Hc). change (busy conn_free) with 0.
  replace (busy c) with 1 by (unfold busy, is_free; by rewrite bool_decide_eq_false_2).
  exists 0. unfold open_count. cbn. lia.
Qed.

Lemma handle_counted ev p : proxy_wf p → enabled ev p → is_err ev = false →
  table_counted p (handle ev p).1.
Proof.
  intros Hp He Hne. destruct ev as [fd inp|i chain ok|i|i ok|i name ip new ok]; cbn [handle]; [| |done|..].
  - pose proof (awg_proxy_poll_counted fd inp p He Hp) as H1. by destruct (awg_proxy_poll fd inp p) as [[q x] a].
  - apply on_slot_counted. intros c s _. apply counted_same; [|done]. by destruct chain, ok.
  - apply on_slot_counted. intros c s Hc. destruct He as (c' & Hc' & Hst).
    apply on_connected_counted. congruence.
  - apply on_slot_counted. intros c s _. apply on_resolved_counted.
Qed.

Lemma errors_snoc evs ev : errors (evs ++ [ev]) = errors evs + if is_err ev then 1 else 0.
Proof.
  unfold errors. rewrite filter_app, zlen_app. f_equal. destruct ev; done.
Qed.

Lemma runs_counted listen evs p acts : runs listen evs p acts → congr (table_count p) (errors evs).
Proof.
  induction 1 as [|evs p acts ev Hr IH He]; [apply congr_refl|]. rewrite errors_snoc.
  destruct (runs_wf _ _ _ _ Hr) as [Hp _]. destruct (is_err ev) eqn:Ee.
  - destruct ev as [| |i| |]; try done. eapply congr_trans; [by apply on_err_counted|].
    apply congr_add; [done|apply congr_refl].
  - rewrite Z.add_0_r. eapply congr_trans; [by apply handle_counted|done].
Qed.

(** ** The sweep *)

(** How long a slot may be silent. *)
Definition idle_limit (c : conn_t) : Z :=
  if bool_decide (c.(st) = ST_SNIFF) then SNIFF_TIMEOUT_MS else IDLE_TIMEOUT_MS.

Definition idle_since (now : Z) (c : conn_t) : Z := u32 (now - c.(last_ms)).

Lemma on_slot_get i j f p c : p.(g_conn) !! j = Some c →
  ∃ s, (on_slot i f p).1.(g_conn) !! j = Some (if decide (i = j) then (f c s).1.1 else c).
Proof.
  intros Hc. exists (g_stats p). unfold on_slot. destruct (g_conn p !! i) as [c0|] eqn:E.
  - destruct (f c0 (g_stats p)) as [[c' s'] a] eqn:Ef. cbn. case_decide as Hij.
    + subst j. simplify_eq. rewrite list_lookup_insert_eq by (by apply lookup_lt_Some in Hc). by rewrite Ef.
    + by rewrite list_lookup_insert_ne.
  - cbn. case_decide; [congruence|done].
Qed.

Lemma each_slot_get ids f p j c : NoDup ids → p.(g_conn) !! j = Some c →
  ∃ s, (each_slot ids f p).1.(g_conn) !! j = Some (if decide (j ∈ ids) then (f j c s).1.1 else c).
Proof.
  revert p c. induction ids as [|i ids IH]; intros p c Hn Hc; [by exists (g_stats p)|].
  apply NoDup_cons in Hn as [Hi Hn]. cbn [each_slot].
  destruct (on_slot_get i j (f i) p c Hc) as [s Hs]. destruct (on_slot i (f i) p) as [p1 a1]. cbn [fst] in Hs.
  destruct (IH p1 _ Hn Hs) as [s2 Hs2]. destruct (each_slot ids f p1) as [p2 a2]. cbn [fst] in *. rewrite Hs2.
  destruct (decide (i = j)) as [->|Hij].
  - exists s. rewrite decide_False by done. by rewrite decide_True by (by left).
  - exists s2. destruct (decide (j ∈ ids)).
    + by rewrite decide_True by (by right).
    + rewrite decide_False; [done|]. rewrite elem_of_cons. naive_solver.
Qed.

Lemma slots_get f p j c : proxy_wf p → p.(g_conn) !! j = Some c →
  ∃ s, (each_slot slots f p).1.(g_conn) !! j = Some (f j c s).1.1.
Proof.
  intros [Hn _] Hc. destruct (each_slot_get slots f p j c) as [s Hs]; [apply NoDup_seq|done|].
  exists s. rewrite Hs. rewrite decide_True; [done|]. apply elem_of_seq. apply lookup_lt_Some in Hc. lia.
Qed.

Lemma sweep_slot_get now c s :
  (sweep_slot now c s).1.1 =
  if bool_decide (c.(st) = ST_FREE) || (idle_since now c <? idle_limit c) then c else conn_free.
Proof.
  unfold sweep_slot, is_free, idle_since, idle_limit. case_bool_decide as E; [done|]. cbn [orb].
  destruct (_ <? _); [done|]. by apply conn_close_free.
Qed.

(** Not silent for too long at [now], or served at one of the times [l]. *)
Definition fresh (now : Z) (l : list Z) (c : conn_t) : Prop :=
  c.(st) ≠ ST_FREE → idle_since now c < idle_limit c ∨ c.(last_ms) ∈ l.

Lemma fresh_at now l t c : t ∈ l → fresh now l (c <| last_ms := t |>).
Proof. by right. Qed.

Lemma fresh_free now l : fresh now l conn_free.
Proof. by intros []. Qed.

#[local] Hint Resolve fresh_free : core.

Lemma fresh_as now l c c' : fresh now l c → c'.(st) = c.(st) → c'.(last_ms) = c.(last_ms) → fresh now l c'.
Proof. unfold fresh, idle_since, idle_limit. by intros H -> ->. Qed.

Lemma pump_up_fresh now l c room ok t s : t ∈ l → fresh now l c → fresh now l (pump_up c room ok t s).1.1.
Proof.
  intros Ht Hf. unfold pump_up. destruct (up c); [done|]. destruct (pcb c); [|done].
  destruct (room =? 0), ok; try done. by apply fresh_at.
Qed.

Lemma pump_down_fresh fuel k now l c sends t s : t ∈ l → c.(st) ≠ ST_FREE → fresh now l c →
  fresh now l (pump_down_loop fuel k c sends t s).1.1.
Proof.
  intros Ht. revert k c s. induction fuel as [|fuel IH]; intros k c s Hs Hf; cbn [pump_down_loop]; [done|].
  destruct (rx c) as [|p next]; [done|]. destruct (_ <=? 0).
  { set (c1 := c <| rx := next |> <| rx_off := 0 |>). specialize (IH k c1 s Hs).
    destruct (pump_down_loop _ _ c1 _ _ _) as [[]]. apply IH. by apply (fresh_as now l c). }
  destruct (sends k _) as [n| |]; [|done|by rewrite conn_close_free].
  destruct (0 <? n); [|by rewrite conn_close_free].
  set (c1 := c <| rx_off := _ |> <| last_ms := t |>). set (s1 := s <| bytes_down ::= _ |>).
  specialize (IH (S k) c1 s1 Hs). destruct (pump_down_loop _ _ c1 _ _ _) as [[]]. apply IH. by apply fresh_at.
Qed.

(** When the pumps of the last loop ran. *)
Definition pumped_at (inp : poll_in) (i : nat) : list Z := [inp.(in_up_now) i; inp.(in_down_now) i].

Lemma finish_slot_fresh inp i c s now : conn_wf c → poll_ok inp → fresh now (pumped_at inp i) c →
  fresh now (pumped_at inp i) (finish_slot inp i c s).1.1.
Proof.
  intros Hc Hi Hf. unfold finish_slot, is_free. case_bool_decide as E; [done|].
  set (l := pumped_at inp i) in *.
  assert (in_up_now inp i ∈ l) as Hup by (by left).
  assert (in_down_now inp i ∈ l) as Hdown by (by right; left).
  set (e := if bool_decide (st c = ST_RELAY) then _ else _).
  assert (effect_ok e ∧ fresh now l e.1.1) as [[Hc1 _] He1].
  { unfold e. case_bool_decide; [|by split].
    split; [by apply pump_up_ok, Hi|by apply pump_up_fresh]. }
  destruct e as [[c1 s1] a1]. cbn [fst] in Hc1, He1.
  set (e2 := match rx c1 with [] => _ | _ => _ end).
  assert (effect_ok e2 ∧ fresh now l e2.1.1) as [[Hc2 _] He2].
  { unfold e2. destruct (rx c1) eqn:Er; [by split|].
    split; [by apply pump_down_ok, Hi|]. apply pump_down_fresh; [done| |done].
    destruct (conn_wf_relay c1 Hc1); congruence. }
  destruct e2 as [[c2 s2] a2]. cbn [fst] in Hc2, He2.
  destruct (peer_closed c2) eqn:Ep; [|done]. destruct (rx c2); [|done].
  pose proof (conn_close_free c2 false (s2 <| completed ::= inc |>) (wf_free c2 Hc2)) as Hcl.
  destruct (conn_close c2 false _) as [[c3 s3] a3]. cbn [fst] in *. by rewrite Hcl.
Qed.

Lemma sweep_fresh inp p j c : proxy_wf p → poll_ok inp →
  (each_slot slots (finish_slot inp) (sweep_idle inp.(in_now) p).1).1.(g_conn) !! j = Some c →
  fresh inp.(in_now) (pumped_at inp j) c.
Proof.
  intros Hp Hi Hc. set (p1 := (sweep_idle (in_now inp) p).1) in *.
  destruct (each_slot_ok slots (λ _, sweep_slot (in_now inp)) p Hp) as [Hp1 _]; [intros; by apply sweep_slot_ok|].
  change (proxy_wf p1) in Hp1.
  assert (j < MAX_CONN)%nat as Hj.
  { destruct (each_slot_ok slots (finish_slot inp) p1 Hp1) as [[Hn _] _]; [intros; by apply finish_slot_ok|].
    apply lookup_lt_Some in Hc. by rewrite Hn in Hc. }
  destruct (lookup_lt_is_Some_2 (g_conn p) j) as [c0 Hc0]; [by rewrite (proj1 Hp)|].
  destruct (slots_get (λ _, sweep_slot (in_now inp)) p j c0 Hp Hc0) as [s Hs].
  change (g_conn p1 !! j = Some (sweep_slot (in_now inp) c0 s).1.1) in Hs.
  destruct (slots_get (finish_slot inp) p1 j _ Hp1 Hs) as [s2 Hs2]. rewrite Hs2 in Hc. injection Hc as <-.
  apply finish_slot_fresh; [|done|].
  - destruct Hp1 as [_ Hw]. by eapply Forall_lookup_1.
  - rewrite sweep_slot_get. destruct (bool_decide (st c0 = ST_FREE)) eqn:Eb; cbn [orb].
    + intros Hx. by apply bool_decide_eq_true in Eb.
    + destruct (Z.ltb_spec (idle_since (in_now inp) c0) (idle_limit c0)); [by left|apply fresh_free].
Qed.

(** ** The proxy's start and stop *)

Definition all_free (p : proxy) : Prop := Forall (λ c, c = conn_free) p.(g_conn).

Lemma stop_wf p : proxy_wf p → proxy_wf (awg_proxy_stop p).1 ∧
  all_free (awg_proxy_stop p).1.
Proof.
  intros Hp. unfold awg_proxy_stop.
  destruct (each_slot_ok slots (λ _ c s, conn_close c false s) p Hp) as [Hp1 _]; [intros; by apply conn_close_ok|].
  assert (Forall (λ c, c = conn_free) (each_slot slots (λ _ c s, conn_close c false s) p).1.(g_conn)) as Hf.
  { apply Forall_lookup_2. intros i c Hc. destruct (lookup_lt_is_Some_2 (g_conn p) i) as [c0 Hc0].
    { apply lookup_lt_Some in Hc. destruct Hp as [-> _]. by destruct Hp1 as [<- _]. }
    destruct (slots_get (λ _ c s, conn_close c false s) p i c0 Hp Hc0) as [s Hs].
    rewrite Hs in Hc. injection Hc as <-. apply conn_close_free, wf_free.
    destruct Hp as [_ Hw]. by eapply Forall_lookup_1. }
  destruct (each_slot slots _ p) as [p1 a1]. cbn [fst] in *. by destruct (0 <=? g_listen p1).
Qed.

Lemma start_wf l b1 b2 p : proxy_wf p → all_free p →
  proxy_wf (awg_proxy_start l b1 b2 p).1.1.
Proof.
  intros [Hn _] Hf. unfold awg_proxy_start. destruct (open_listener l b1 b2) as [fd' a]. split; cbn.
  - by rewrite length_fmap.
  - apply Forall_fmap. unfold all_free in Hf. eapply Forall_impl; [exact Hf|]. intros c ->. apply conn_free_wf.
Qed.

Lemma start_free l b1 b2 p : all_free p → all_free (awg_proxy_start l b1 b2 p).1.1.
Proof.
  intros Hf. unfold awg_proxy_start. destruct (open_listener l b1 b2) as [fd' a]. unfold all_free. cbn.
  apply Forall_fmap. eapply Forall_impl; [exact Hf|]. by intros c ->.
Qed.

(** ** Playing a sequence of events *)

Fixpoint play (evs : list event) (p : proxy) : proxy * list action :=
  match evs with
  | [] => (p, [])
  | ev :: evs => let '(p, a1) := handle ev p in let '(p, a2) := play evs p in (p, a1 ++ a2)
  end.

Fixpoint all_enabled (evs : list event) (p : proxy) : Prop :=
  match evs with
  | [] => True
  | ev :: evs => enabled ev p ∧ all_enabled evs (handle ev p).1
  end.

Lemma play_runs_from listen evs0 evs p acts : runs listen evs0 p acts → all_enabled evs p →
  runs listen (evs0 ++ evs) (play evs p).1 (acts ++ (play evs p).2).
Proof.
  revert evs0 p acts. induction evs as [|ev evs IH]; intros evs0 p acts Hr Ha; [by rewrite !app_nil_r|].
  destruct Ha as [He Ha]. pose proof (runs_step _ _ _ _ _ Hr He) as Hs. cbn [play].
  destruct (handle ev p) as [p1 a1]. cbn [fst snd] in *. specialize (IH _ _ _ Hs Ha).
  destruct (play evs p1) as [p2 a2]. cbn [fst snd] in *. by rewrite <- !app_assoc in IH.
Qed.

Lemma play_runs listen evs : all_enabled evs (started listen) →
  runs listen evs (play evs (started listen)).1 (play evs (started listen)).2.
Proof. intros Ha. exact (play_runs_from listen [] evs _ [] (runs_start listen) Ha). Qed.

(** A pass over which nothing happens, and passes that differ in one call. *)
Definition quiet_io : client_io := ClientIo (λ _, RecvAgain) 0 DnsInProgress None false.
Definition quiet_pass (now : Z) : poll_in :=
  PollIn 1 (λ _, 0) (-1) now (λ _, now) now (λ _, now) (λ _, now) (λ _, quiet_io) (λ _ _ _, SendAgain) (λ _ _ _, SendAgain) (λ _, 0) (λ _, true).

Definition accept_pass (now fd : Z) : poll_in :=
  PollIn 1 (λ k, if decide (k = 0)%nat then POLLIN else 0) fd now (λ _, now) now (λ _, now) (λ _, now)
    (λ _, quiet_io) (λ _ _ _, SendAgain) (λ _ _ _, SendAgain) (λ _, 0) (λ _, true).

Definition hello_for (name : list Z) : list Z :=
  hello_head (Hello [3; 1; 1; 0] (replicate 37 5) [] [0x13; 1] [0]) ++
  be16 (zlen (extension_bytes (sni_extension name))) ++ extension_bytes (sni_extension name).

(** The client of the only connection sends a ClientHello; the resolver starts. *)
Definition hello_pass (now : Z) (name : list Z) : poll_in :=
  PollIn 1 (λ k, if decide (k = 1)%nat then POLLIN else 0) (-1) now (λ _, now) now (λ _, now) (λ _, now)
    (λ _, ClientIo (λ space, if zlen (hello_for name) <=? space then Received (hello_for name) else RecvAgain)
            now DnsInProgress None false)
    (λ _ _ _, SendAgain) (λ _ _ _, SendAgain) (λ _, 0) (λ _, true).

(** The client hangs up. *)
Definition hangup_pass (now : Z) : poll_in :=
  PollIn 1 (λ k, if decide (k = 1)%nat then POLLHUP else 0) (-1) now (λ _, now) now (λ _, now) (λ _, now)
    (λ _, quiet_io) (λ _ _ _, SendAgain) (λ _ _ _, SendAgain) (λ _, 0) (λ _, true).

(** The tunnel takes all, the application everything it is offered. *)
Definition relay_pass (now : Z) : poll_in :=
  PollIn 0 (λ _, 0) (-1) now (λ _, now) now (λ _, now) (λ _, now) (λ _, quiet_io) (λ _ _ len, Sent len) (λ _ _ len, Sent len) (λ _, 65535) (λ _, true).

Lemma quiet_ok : recv_ok quiet_io.
Proof. done. Qed.

Lemma again_ok : sends_ok (λ _ _, SendAgain).
Proof. done. Qed.

#[local] Hint Resolve quiet_ok again_ok : core.

Lemma quiet_pass_ok now : poll_ok (quiet_pass now).
Proof. by split. Qed.
Lemma accept_pass_ok now fd : poll_ok (accept_pass now fd).
Proof. by split. Qed.
Lemma hangup_pass_ok now : poll_ok (hangup_pass now).
Proof. by split. Qed.
Lemma relay_pass_ok now : poll_ok (relay_pass now).
Proof. split; cbn; try done; intros i k len n _ [= ->]; lia. Qed.

Lemma hello_pass_ok now name : is_bytes (hello_for name) → poll_ok (hello_pass now name).
Proof.
  intros Hb. split; try (by intros).
  intros i space bytes. cbn [hello_pass in_io io_recv]. destruct (Z.leb_spec (zlen (hello_for name)) space); [|done]. intros [= <-]. by split.
Qed.

(** A connection from its start to the end: accepted, named, resolved, connected,
    relayed, and closed by the remote. *)
Definition sample_run : list event :=
  [EvPoll (-1) (accept_pass 100 7); EvPoll (-1) (hello_pass 200 (str "a.com"));
   EvResolved 0 (str "a.com") (Some 0x01020304) (Some 5) true; EvConnected 0 true;
   EvPoll (-1) (relay_pass 300); EvRecv 0 (Some [str "hello "; str "you"]) true;
   EvPoll (-1) (relay_pass 400); EvRecv 0 None true; EvPoll (-1) (relay_pass 500)].

Ltac byte_list :=
  match goal with |- is_bytes ?l => let v := eval vm_compute in l in change (is_bytes v); word_list end.
Ltac in_slot := eexists; split; [vm_compute; reflexivity|by vm_compute].

Lemma sample_run_enabled : all_enabled sample_run (started 3).
Proof.
  refine (conj (accept_pass_ok _ _) (conj (hello_pass_ok _ _ _) (conj I (conj _ (conj (relay_pass_ok _)
    (conj (conj _ _) (conj (relay_pass_ok _) (conj (conj _ _) (conj (relay_pass_ok _) I))))))))).
  - byte_list.
  - in_slot.
  - in_slot.
  - intros l [= <-]. by repeat constructor.
  - in_slot.
  - done.
Qed.

Lemma sample_runs : runs 3 sample_run (play sample_run (started 3)).1 (play sample_run (started 3)).2.
Proof. apply play_runs, sample_run_enabled. Qed.

(** The client asks for a.com and leaves; the next one, in the same slot, asks for
    b.com; then the answer for a.com arrives. *)
Definition stale_run : list event :=
  [EvPoll (-1) (accept_pass 100 7); EvPoll (-1) (hello_pass 200 (str "a.com"));
   EvPoll (-1) (hangup_pass 300);
   EvPoll (-1) (accept_pass 400 8); EvPoll (-1) (hello_pass 500 (str "b.com"));
   EvResolved 0 (str "a.com") (Some 0x01020304) (Some 5) true].

Lemma stale_run_enabled : all_enabled stale_run (started 3).
Proof.
  refine (conj (accept_pass_ok _ _) (conj (hello_pass_ok _ _ _) (conj (hangup_pass_ok _)
    (conj (accept_pass_ok _ _) (conj (hello_pass_ok _ _ _) (conj I I)))))); byte_list.
Qed.

Lemma poll_fresh extra_fd inp p j c : proxy_wf p → poll_ok inp → 0 <= p.(g_listen) →
  (awg_proxy_poll extra_fd inp p).1.1.(g_conn) !! j = Some c → fresh inp.(in_now) (pumped_at inp j) c.
Proof.
  intros Hp Hi Hl. unfold awg_proxy_poll. rewrite (proj2 (Z.ltb_ge _ _)) by done.
  set (n := length (poll_head p extra_fd)). set (fds := drop n (poll_set p extra_fd)).
  set (served := if 0 <? in_poll inp then _ else _).
  assert (proxy_wf served.1.1) as Hq.
  { unfold served. destruct (0 <? in_poll inp); [|done].
    set (r := if bit _ _ then _ else _).
    assert (proxy_wf r.1) as Hr by (unfold r; destruct (bit _ _); [by apply accept_one_ok|done]).
    destruct r as [q b1]. destruct (serve_loop_ok n fds inp q Hi Hr) as [Hq _].
    by destruct (serve_loop n fds inp q). }
  destruct served as [[q x] a1]. cbn [fst] in Hq. intros Hc. apply (sweep_fresh inp q j); [done|done|].
  destruct (sweep_idle (in_now inp) q) as [q2 a2]. cbn [fst].
  by destruct (each_slot slots (finish_slot inp) q2).
Qed.

(** ** Properties *)

(** C32: whatever the clients, the resolver and the tunnel do, along every run of poll
    passes and callbacks each slot keeps its invariant: the buffer never holds more
    than its size, a free slot holds nothing, the tunnel half is there exactly while
    connecting or relaying, the offset into the first packet stays inside it; and
    only names the filter allows are ever looked up or connected to. *)
Theorem proxy_safe (listen : Z) (evs : list event) (p : proxy) (acts : list action) :
  runs listen evs p acts →
  length p.(g_conn) = MAX_CONN ∧ Forall conn_wf p.(g_conn) ∧
  (∀ h, DnsQuery h ∈ acts → allowed h) ∧
  ∀ i c, p.(g_conn) !! i = Some c → is_Some c.(pcb) → allowed c.(host).
Proof.
  intros Hr. destruct (runs_wf _ _ _ _ Hr) as [[Hn Hw] Ha]. split_and!; [done|done| |].
  - intros h Hh. by apply (proj1 (Forall_forall _ _) Ha) in Hh.
  - intros i c Hc Hp. pose proof (Forall_lookup_1 _ _ _ _ Hw Hc) as [_ _ _ Hb _ _ _ Hh].
    apply Hb in Hp. destruct Hh as [Hh|[Hh|Hh]]; [destruct Hp; congruence..|done].
Qed.

(** Along every run the counters account for the connections: those accepted are
    the completed, the closed, the live and the ones lwIP failed, modulo the width of
    the counters. *)
Theorem proxy_accounting (listen : Z) (evs : list event) (p : proxy) (acts : list action) :
  runs listen evs p acts →
  let s := awg_proxy_get_stats p in
  u32 s.(accepted) = u32 (s.(completed) + s.(closed) + awg_proxy_live p + errors evs).
Proof.
  intros Hr s. apply congr_u32. destruct (runs_counted _ _ _ _ Hr) as [k Hk]. exists k.
  unfold table_count, open_count, s, awg_proxy_get_stats in *. lia.
Qed.

(** The downstream pump hands the application the waiting bytes in order, none
    lost and none twice, acknowledges to lwIP and counts exactly what it handed over,
    and stops only when all is sent, the application takes no more, or a send fails
    and the slot is closed. *)
Theorem pump_down_in_order (c : conn_t) (sends : nat → Z → send_result) (now : Z) (s : awg_proxy_stats) :
  conn_wf c → c.(st) = ST_RELAY → sends_ok sends →
  let out := pump_down c sends now s in
  pumped c sends out ∧ acked out.2 = zlen (sent_down out.2) ∧
  u64 out.1.2.(bytes_down) = u64 (s.(bytes_down) + zlen (sent_down out.2)).
Proof.
  intros Hc Hs Hsend. destruct (proj2 (wf_pcb c Hc) (or_intror Hs)) as [t Ht].
  destruct (pump_down_loop_spec (down_fuel c) 0 c sends now s t) as (HP & _ & HK & HB); [|congruence|done|done| |done].
  - by apply conn_wf_rx_ok.
  - by apply conn_wf_fuel.
Qed.

(** C36: no slot is lost to a peer that vanished: after any pass of an open listener,
    every slot still taken moved a byte in this pass's last loop, or has moved one
    within five seconds before the sweep, by the wrapping clock, if it has sent no
    name yet, and within two minutes otherwise. *)
Theorem poll_reclaims (extra_fd : Z) (inp : poll_in) (p : proxy) (i : nat) (c : conn_t) :
  proxy_wf p → poll_ok inp → 0 <= p.(g_listen) →
  (awg_proxy_poll extra_fd inp p).1.1.(g_conn) !! i = Some c → c.(st) ≠ ST_FREE →
  u32 (inp.(in_now) - c.(last_ms)) <
    (if bool_decide (c.(st) = ST_SNIFF) then SNIFF_TIMEOUT_MS else IDLE_TIMEOUT_MS) ∨
  c.(last_ms) = inp.(in_up_now) i ∨ c.(last_ms) = inp.(in_down_now) i.
Proof.
  intros Hp Hi Hl Hc Hf. destruct (poll_fresh extra_fd inp p i c Hp Hi Hl Hc Hf) as [Hx|Hx]; [by left|right].
  unfold pumped_at in Hx. set_solver.
Qed.

(** The resolver's callback outlives the connection that asked: a client that
    leaves before its answer arrives and whose slot is taken again has the newcomer
    connected, under its own name, to the address of the name the first one asked for. *)
Theorem stale_answer_connects :
  ∃ evs p acts, runs 3 evs p acts ∧
    (EvResolved 0 (str "a.com") (Some 0x01020304) (Some 5) true) ∈ evs ∧
    TcpConnect 5 0x01020304 ∈ acts ∧
    (∃ c, p.(g_conn) !! 0%nat = Some c ∧ c.(st) = ST_CONNECTING ∧ c.(host) = str "b.com") ∧
    ∀ name ip new ok, EvResolved 0 name ip new ok ∈ evs → name ≠ str "b.com".
Proof.
  exists stale_run. do 2 eexists. split; [apply play_runs, stale_run_enabled|].
  split_and!.
  - repeat (apply list_elem_of_here || apply list_elem_of_further).
  - vm_compute. repeat (apply list_elem_of_here || apply list_elem_of_further).
  - in_slot.
  - intros name ip new ok Hin. unfold stale_run in Hin.
    repeat (apply elem_of_cons in Hin as [Hin|Hin];
      [first [discriminate Hin|injection Hin as -> _ _ _; by vm_compute]|]).
    by apply elem_of_nil in Hin.
Qed.

(** ** Witnesses *)

Lemma proxy_safe_witness :
  (∃ c, (play sample_run (started 3)).1.(g_conn) !! 0%nat = Some c ∧ c = conn_free) ∧
  length (play sample_run (started 3)).1.(g_conn) = MAX_CONN ∧
  (∀ h, DnsQuery h ∈ (play sample_run (started 3)).2 → allowed h).
Proof.
  split; [in_slot|]. destruct (proxy_safe 3 sample_run _ _ sample_runs) as (Hn & _ & Hd & _). by split.
Defined.

Lemma proxy_accounting_witness :
  let s := awg_proxy_get_stats (play sample_run (started 3)).1 in
  s.(accepted) = 1 ∧ u32 s.(accepted) =
    u32 (s.(completed) + s.(closed) + awg_proxy_live (play sample_run (started 3)).1 + errors sample_run).
Proof. split; [by vm_compute|]. apply (proxy_accounting 3 sample_run _ _ sample_runs). Defined.

Definition relaying : conn_t := Conn ST_RELAY 7 (Some 5) (str "a.com") 100 [] [[1; 2; 3]; [4; 5]] 1 false.

Lemma relaying_wf : conn_wf relaying.
Proof.
  split; try done.
  - split; [intros _; by right|by exists 5].
  - by repeat constructor.
  - right; right. apply (filter_allowed (str "a.com")); by vm_compute.
Qed.

Lemma pump_down_in_order_witness :
  let out := pump_down relaying (λ k len, if decide (k = 2)%nat then SendAgain else Sent 1) 200 stats_zero in
  sent_down out.2 = [2; 3] ∧ acked out.2 = zlen (sent_down out.2).
Proof.
  split; [by vm_compute|].
  refine (proj1 (proj2 (pump_down_in_order relaying (λ k len, if decide (k = 2)%nat then SendAgain else Sent 1)
    200 stats_zero relaying_wf eq_refl _))).
  intros k len n Hl. case_decide; [done|]. intros [= <-]. lia.
Defined.

(** The clock of the last loop is later than the sweep's. *)
Definition late_pass (now : Z) : poll_in := PollIn 1 (λ _, 0) (-1) now (λ _, now) now (λ _, now + 9) (λ _, now + 9)
  (λ _, quiet_io) (λ _ _ _, SendAgain) (λ _ _ _, SendAgain) (λ _, 0) (λ _, true).

Lemma poll_reclaims_witness :
  let p := (play [EvPoll (-1) (accept_pass 100 7)] (started 3)).1 in
  (∃ c, (awg_proxy_poll (-1) (late_pass 5099) p).1.1.(g_conn) !! 0%nat = Some c ∧ c.(st) = ST_SNIFF ∧
     (u32 (5099 - c.(last_ms)) < SNIFF_TIMEOUT_MS ∨ c.(last_ms) = 5108 ∨ c.(last_ms) = 5108)) ∧
  (∃ c, (awg_proxy_poll (-1) (late_pass 5100) p).1.1.(g_conn) !! 0%nat = Some c ∧ c.(st) = ST_FREE).
Proof.
  split; [|in_slot]. eexists. split; [by vm_compute|]. split; [by vm_compute|].
  refine (poll_reclaims (-1) (late_pass 5099) (play [EvPoll (-1) (accept_pass 100 7)] (started 3)).1 0 _ _ _ _ _ _).
  - refine (proj1 (runs_wf 3 _ _ _ (play_runs 3 [EvPoll (-1) (accept_pass 100 7)] (conj (accept_pass_ok _ _) I)))).
  - by split.
  - by vm_compute.
  - by vm_compute.
  - done.
Defined.
