(* ===== verification/ProxyFlow.v ===== *)
(** * The proxy's streams

    Along every run, what a client has said so far is what has been written to its
    tunnel connection followed by what still waits in the slot, and what the tunnel
    connection has delivered is what the client has been sent followed by the chain
    that still waits: nothing is lost, repeated, reordered or mixed up between slots.
    The streams are read off the trace of actions, by descriptor and by pcb. *)
From stdpp Require Import sets.
From S2P Require Import Prelude Cstr Proxy ProxySni ProxyRun.

(** ** The streams of a trace *)

(** The bytes that came in and the bytes that went out since it was opened, if open. *)
Abbreviation stream := (option (list Z * list Z)).

Definition came (b : list Z) (o : stream) : stream := (λ io, (io.1 ++ b, io.2)) <$> o.
Definition went (b : list Z) (o : stream) : stream := (λ io, (io.1, io.2 ++ b)) <$> o.

Definition fd_step (f : Z) (o : stream) (a : action) : stream :=
  match a with
  | Accepted g => if f =? g then Some ([], []) else o
  | CloseFd g => if f =? g then None else o
  | RecvFd g b => if f =? g then came b o else o
  | SendFd g b => if f =? g then went b o else o
  | _ => o
  end.

Definition pcb_step (t : Z) (o : stream) (a : action) : stream :=
  match a with
  | TcpNew u => if t =? u then Some ([], []) else o
  | TcpAbort u | TcpGone u => if t =? u then None else o
  | TcpGot u b => if t =? u then came b o else o
  | TcpWrite u b => if t =? u then went b o else o
  | _ => o
  end.

Definition fd_stream (f : Z) (acts : list action) : stream := foldl (fd_step f) None acts.
Definition pcb_stream (t : Z) (acts : list action) : stream := foldl (pcb_step t) None acts.

(** [accept] and [tcp_new] return nothing that is in use. *)
Definition sane (acts : list action) : Prop :=
  ∀ a x b, acts = a ++ x :: b →
    match x with
    | Accepted f => fd_stream f a = None
    | TcpNew t => pcb_stream t a = None
    | _ => True
    end.

(** [sane], computed. *)
Definition fresh_handle (a : list action) (x : action) : bool :=
  match x with
  | Accepted f => bool_decide (fd_stream f a = None)
  | TcpNew t => bool_decide (pcb_stream t a = None)
  | _ => true
  end.

Fixpoint all_fresh (a acts : list action) : bool :=
  match acts with [] => true | x :: acts => fresh_handle a x && all_fresh (a ++ [x]) acts end.

Lemma all_fresh_sane acts : all_fresh [] acts = true → sane acts.
Proof.
  intros H a x b ->. change a with ([] ++ a). revert H. generalize (@nil action) as pre.
  induction a as [|y a IH]; intros pre; cbn [app all_fresh]; intros [H1 H2]%andb_true_iff.
  - rewrite app_nil_r. destruct x; try done; by apply bool_decide_eq_true in H1.
  - specialize (IH _ H2). by rewrite <- app_assoc in IH.
Qed.

Lemma fd_stream_app f a b : fd_stream f (a ++ b) = foldl (fd_step f) (fd_stream f a) b.
Proof. apply foldl_app. Qed.
Lemma pcb_stream_app t a b : pcb_stream t (a ++ b) = foldl (pcb_step t) (pcb_stream t a) b.
Proof. apply foldl_app. Qed.

Lemma sane_app a b : sane (a ++ b) → sane a.
Proof. intros Hs c x d ->. apply (Hs c x (d ++ b)). by rewrite <- app_assoc. Qed.

Lemma sane_at a x b : sane (a ++ x :: b) →
  match x with Accepted f => fd_stream f a = None | TcpNew t => pcb_stream t a = None | _ => True end.
Proof. intros Hs. by apply (Hs a x b). Qed.

(** An action about the slot with this descriptor and this pcb, or about none. *)
Definition own (f : Z) (ot : option Z) (a : action) : Prop :=
  match a with
  | CloseFd g | RecvFd g _ | SendFd g _ => g = f
  | TcpAbort u | TcpGone u | TcpGot u _ | TcpWrite u _ => ot = Some u
  | Accepted _ | TcpNew _ => False
  | _ => True
  end.

Lemma fd_other f ot g o acts : Forall (own f ot) acts → g ≠ f → foldl (fd_step g) o acts = o.
Proof.
  intros Ha Hg. induction Ha as [|a acts Ha _ IH]; [done|]. cbn [foldl].
  assert (fd_step g o a = o) as ->; [|done].
  destruct a; cbn in *; try done; subst; by rewrite (proj2 (Z.eqb_neq _ _) Hg).
Qed.

Lemma pcb_other f ot t o acts : Forall (own f ot) acts → ot ≠ Some t → foldl (pcb_step t) o acts = o.
Proof.
  intros Ha Ht. induction Ha as [|a acts Ha _ IH]; [done|]. cbn [foldl].
  assert (pcb_step t o a = o) as ->; [|done].
  destruct a; cbn in *; try done;
    (match goal with |- context [t =? ?u] => destruct (Z.eqb_spec t u) end; [congruence|done]).
Qed.

(** ** One slot *)

(** What the streams of a slot in use have to do with its buffers. *)
Definition flow (acts : list action) (c : conn_t) : Prop :=
  ∃ heard sent, fd_stream c.(cfd) acts = Some (heard, sent) ∧
  match c.(pcb) with
  | None => heard = c.(up) ∧ sent = [] ∧ pending c = []
  | Some t => ∃ got written, pcb_stream t acts = Some (got, written) ∧
                heard = written ++ c.(up) ∧ got = sent ++ pending c
  end.

(** An operation on a slot: a free one is left alone; one in use keeps its descriptor
    and its streams until it is freed, touches no other's, and takes no pcb in use. *)
Record relays_used (acts : list action) (c : conn_t) (e : effect) : Prop := {
  ru_flow : e.1.1.(st) ≠ ST_FREE → e.1.1.(cfd) = c.(cfd) ∧ flow (acts ++ e.2) e.1.1;
  ru_fd f : f ≠ c.(cfd) → fd_stream f (acts ++ e.2) = fd_stream f acts;
  ru_pcb t : is_Some (pcb_stream t acts) → c.(pcb) ≠ Some t → pcb_stream t (acts ++ e.2) = pcb_stream t acts;
  ru_new t : e.1.1.(pcb) = Some t → c.(pcb) = Some t ∨ pcb_stream t acts = None
}.

Definition relays (acts : list action) (c : conn_t) (e : effect) : Prop :=
  (c.(st) = ST_FREE → e.1.1 = c ∧ e.2 = []) ∧
  (c.(st) ≠ ST_FREE → sane (acts ++ e.2) → flow acts c → relays_used acts c e).

Lemma relays_id acts c s : relays acts c (c, s, []).
Proof.
  split; [done|]. intros Hf _ Hfl. split; cbn; rewrite ?app_nil_r; try done. by left.
Qed.

(** Only its own actions, and the same pcb or none. *)
Lemma relays_own acts c c' s a : c.(st) ≠ ST_FREE → Forall (own c.(cfd) c.(pcb)) a →
  (c'.(pcb) = c.(pcb) ∨ c'.(pcb) = None) →
  (c'.(st) ≠ ST_FREE → flow acts c → c'.(cfd) = c.(cfd) ∧ flow (acts ++ a) c') →
  relays acts c (c', s, a).
Proof.
  intros Hf Ha Hp Hfl. split; [done|]. intros _ _ H. split; cbn [fst snd].
  - intros Hf'. by apply Hfl.
  - intros f Hne. rewrite fd_stream_app. by apply (fd_other c.(cfd) c.(pcb)).
  - intros t _ Hne. rewrite pcb_stream_app. by apply (pcb_other c.(cfd) c.(pcb)).
  - intros t Ht. left. destruct Hp; congruence.
Qed.

Lemma relays_trans acts c c1 s1 a1 c2 s2 a2 : relays acts c (c1, s1, a1) → relays (acts ++ a1) c1 (c2, s2, a2) →
  relays acts c (c2, s2, a1 ++ a2).
Proof.
  intros [F1 U1] [F2 U2]. split.
  - cbn [fst snd] in *. intros Hf. destruct (F1 Hf) as [-> ->]. destruct (F2 Hf) as [-> ->]. done.
  - intros Hf Hs Hfl. cbn [fst snd] in *. rewrite app_assoc in Hs.
    destruct (U1 Hf (sane_app _ _ Hs) Hfl) as [R1 D1 P1 N1]. cbn [fst snd] in *.
    destruct (decide (st c1 = ST_FREE)) as [E|E].
    + destruct (F2 E) as [E2 ->]. cbn [fst] in E2. rewrite E2, app_nil_r. by split.
    + destruct (R1 E) as [Hc1 Hfl1]. destruct (U2 E Hs Hfl1) as [R2 D2 P2 N2]. cbn [fst snd] in *.
      split; cbn [fst snd]; rewrite ?app_assoc.
      * intros Hf2. destruct (R2 Hf2) as [-> ?]. done.
      * intros f Hne. rewrite D2 by congruence. by apply D1.
      * intros t Ht Hne. rewrite P2; [by apply P1|by rewrite P1|].
        intros Ht1. destruct (N1 t Ht1) as [|Hn]; [done|]. rewrite Hn in Ht. by destruct Ht.
      * intros t Ht. destruct (N2 t Ht) as [Ht1|Hn]; [by apply N1|].
        destruct (decide (pcb c = Some t)) as [|Hne]; [by left|right].
        destruct (pcb_stream t acts) eqn:Et; [|done]. rewrite P1, Et in Hn by (rewrite ?Et; eauto || done). done.
Qed.

(** ** The operations *)

Lemma close_own c why s f ot : c.(cfd) = f → c.(pcb) = ot ∨ c.(pcb) = None →
  Forall (own f ot) (conn_close c why s).2.
Proof.
  intros <- Hp. unfold conn_close. destruct (st c); [constructor|..]; cbn [snd].
  all: rewrite !Forall_app; split_and!; [destruct (pcb c) eqn:E|destruct (rx c)|destruct (0 <=? cfd c)].
  all: repeat constructor; cbn; destruct Hp; congruence.
Qed.

(** The slot closed, in whatever state it has come to. *)
Lemma relays_close acts c c' why s : c.(st) ≠ ST_FREE → c'.(st) ≠ ST_FREE → c'.(cfd) = c.(cfd) →
  c'.(pcb) = c.(pcb) ∨ c'.(pcb) = None → relays acts c (conn_close c' why s).
Proof.
  intros Hf Hf' Hc Hp. pose proof (close_own c' why s (cfd c) (pcb c) Hc Hp) as Ha.
  pose proof (conn_close_free c' why s ltac:(done)) as Hfree.
  destruct (conn_close c' why s) as [[c1 s1] a]. cbn [fst snd] in *. subst c1.
  apply relays_own; [done|done|by right|done].
Qed.

Lemma flow_same acts c c' : c'.(cfd) = c.(cfd) → c'.(pcb) = c.(pcb) → c'.(up) = c.(up) → pending c' = pending c →
  flow acts c → flow acts c'.
Proof. unfold flow. by intros -> -> -> ->. Qed.

(** The slot as the operation goes on from it: its fields that matter here are the same. *)
Lemma relays_same acts c c' s : c'.(cfd) = c.(cfd) → c'.(pcb) = c.(pcb) → c'.(up) = c.(up) → pending c' = pending c →
  c.(st) ≠ ST_FREE → relays acts c (c', s, []).
Proof.
  intros E1 E2 E3 E4 Hf. apply relays_own; [done|done|by left|]. intros _ Hfl.
  split; [done|]. rewrite app_nil_r. by apply (flow_same acts c).
Qed.

(** An action that no stream records. *)
Definition silent (a : action) : Prop :=
  match a with
  | PbufFree _ | TcpConnect _ _ | TcpRecved _ _ | TcpShutdown _ | DnsQuery _ => True
  | _ => False
  end.

Lemma flow_silent acts a c : silent a → flow acts c → flow (acts ++ [a]) c.
Proof.
  intros Ha (h & d & Hs & Hfl). exists h, d. rewrite fd_stream_app. split; [by destruct a|].
  destruct (pcb c) as [t|]; [|done]. destruct Hfl as (g & w & Hg & Hfl). exists g, w.
  rewrite pcb_stream_app. split; [by destruct a|done].
Qed.

Lemma relays_silent acts c s a : silent a → c.(st) ≠ ST_FREE → relays acts c (c, s, [a]).
Proof.
  intros Ha Hf. apply relays_own; [done|by destruct a; repeat constructor|by left|].
  intros _ Hfl. split; [done|by apply flow_silent].
Qed.

Lemma relays_cons acts c c1 s1 a (e : effect) : relays acts c (c1, s1, [a]) → relays (acts ++ [a]) c1 e →
  relays acts c (let '(c, s, acts) := e in (c, s, a :: acts)).
Proof. destruct e as [[c2 s2] a2]. apply (relays_trans acts c c1 s1 [a]). Qed.

Lemma pump_up_relays acts c room ok now s : conn_wf c → relays acts c (pump_up c room ok now s).
Proof.
  intros Hc. unfold pump_up. destruct (up c) as [|x u] eqn:Eu; [apply relays_id|].
  destruct (pcb c) as [t|] eqn:Et; [|apply relays_id]. destruct (room =? 0); [apply relays_id|].
  destruct ok; cbn [negb]; [|apply relays_id]. set (n := if _ <? room then _ else _).
  assert (st c ≠ ST_FREE) as Hf by (intros E; by rewrite (wf_free c Hc E) in Eu).
  apply relays_own; [done|by repeat constructor|by left|].
  intros _ (h & d & Hs & Hfl). rewrite Et in Hfl. destruct Hfl as (g & w & Hg & -> & ->). split; [done|].
  exists (w ++ up c), d. cbn [cfd pcb modify]. rewrite fd_stream_app, Hs. split; [done|]. cbn. rewrite Et.
  eexists _, (w ++ ztake n (x :: u)). rewrite pcb_stream_app, Hg. cbn. rewrite Z.eqb_refl. split_and!; [done| |done].
  rewrite <- app_assoc. f_equal. rewrite Eu. symmetry. apply take_drop.
Qed.

Lemma pump_down_loop_relays fuel k acts c sends now s : rx_ok c → c.(st) ≠ ST_FREE → is_Some c.(pcb) → sends_ok sends →
  relays acts c (pump_down_loop fuel k c sends now s).
Proof.
  intros Hok Hf Hp Hsend. revert acts k c s Hok Hf Hp.
  induction fuel as [|fuel IH]; intros acts k c s Hok Hf Hp; cbn [pump_down_loop]; [apply relays_id|].
  pose proof Hok as [Ho Hl]. destruct (rx c) as [|p next] eqn:Er; [apply relays_id|].
  apply Forall_cons in Hl as [Hlp Hl]. destruct (Z.leb_spec (zlen p - rx_off c) 0) as [Ha|Ha].
  - set (c1 := c <| rx := next |> <| rx_off := 0 |>). apply (relays_cons acts c c1 s).
    + apply relays_own; [done|by repeat constructor|by left|]. intros _ Hfl. split; [done|].
      apply flow_silent; [done|]. apply (flow_same acts c); try done. symmetry. apply (pending_next c p); lia || done.
    + apply IH; [|done|done]. split; [|done]. cbn. destruct next as [|q next']; [lia|]. pose proof (zlen_nonneg q). lia.
  - destruct (sends k (zlen p - rx_off c)) as [n| |] eqn:Es; [|apply relays_id|by apply relays_close; try done; left].
    destruct (Z.ltb_spec 0 n) as [Hn|Hn]; [|by apply relays_close; try done; left].
    pose proof (Hsend k (zlen p - rx_off c) n Ha Es) as Hle. destruct Hp as [t Et]. rewrite Et.
    rewrite (u16_small n), (u16_small (rx_off c + n)) by (unfold is_u; lia).
    set (c1 := c <| rx_off := rx_off c + n |> <| last_ms := now |>).
    set (b := ztake n (zdrop (rx_off c) p)).
    assert (Hb : pending c = b ++ pending c1) by (apply (pending_sent c p next n); lia || done).
    assert (rx_ok c1) as Hok1 by (split; cbn; rewrite Er; [lia|by constructor]).
    specialize (IH (acts ++ [SendFd (cfd c) b; TcpRecved t n]) (S k) c1 (s <| bytes_down ::= λ x, u64 (x + u32 n) |>)
      Hok1 Hf ltac:(by exists t)).
    destruct (pump_down_loop _ _ c1 _ _ _) as [[c2 s2] a2].
    apply (relays_trans acts c c1 s [SendFd (cfd c) b; TcpRecved t n]); [|exact IH].
    apply relays_own; [done|by repeat constructor|by left|].
    intros _ (h & d & Hs & Hfl). rewrite Et in Hfl. destruct Hfl as (g & w & Hg & -> & ->). split; [done|].
    exists (w ++ up c), (d ++ b). cbn [cfd pcb up c1 modify conn_eta]. rewrite fd_stream_app, Hs. cbn. rewrite Z.eqb_refl, Et.
    split; [done|]. exists (d ++ pending c), w. rewrite pcb_stream_app, Hg. split_and!; [done|done|].
    by rewrite <- app_assoc, <- Hb.
Qed.

Lemma pump_down_relays acts c sends now s : conn_wf c → sends_ok sends → relays acts c (pump_down c sends now s).
Proof.
  intros Hc Hs. destruct (decide (rx c = [])) as [E|E]; [rewrite pump_down_idle by done; apply relays_id|].
  destruct (conn_wf_relay c Hc E) as [Er [t Et]].
  apply pump_down_loop_relays; [by apply conn_wf_rx_ok|congruence|by exists t|done].
Qed.

(** A new tunnel connection. *)
Lemma relays_new acts c s t : c.(st) ≠ ST_FREE → c.(pcb) = None →
  relays acts c (c <| pcb := Some t |> <| st := ST_CONNECTING |>, s, [TcpNew t]).
Proof.
  intros Hf Hp. split; [done|]. intros _ Hs (h & d & Hc & Hfl). rewrite Hp in Hfl. destruct Hfl as (-> & -> & Hpe).
  apply sane_at in Hs. cbn in Hs. split; cbn [fst snd].
  - intros _. split; [done|]. exists (up c), []. rewrite fd_stream_app. split; [exact Hc|]. cbn [pcb modify conn_eta].
    exists [], []. rewrite pcb_stream_app. cbn. rewrite Z.eqb_refl. by split_and!.
  - intros f _. by rewrite fd_stream_app.
  - intros u Hu _. rewrite pcb_stream_app. cbn. destruct (Z.eqb_spec u t) as [->|]; [|done].
    rewrite Hs in Hu. by destruct Hu.
  - cbn. intros u [= <-]. by right.
Qed.

Lemma on_resolved_relays acts c name ip new ok s : conn_wf c → relays acts c (on_resolved c name ip new ok s).
Proof.
  intros Hc. unfold on_resolved. case_bool_decide as E; cbn [negb]; [|apply relays_id].
  assert (st c ≠ ST_FREE) as Hf by congruence.
  assert (pcb c = None) as Hp.
  { destruct (pcb c) eqn:Ep; [|done]. assert (is_Some (pcb c)) as Hs by (by rewrite Ep).
    apply (wf_pcb c Hc) in Hs. naive_solver congruence. }
  destruct ip as [ip|]; [|by apply relays_close; try done; left].
  destruct new as [t|]; [|by apply relays_close; try done; right].
  set (s1 := s <| resolved ::= inc |>). pose proof (relays_new acts c s1 t Hf Hp) as Hn.
  set (c1 := c <| pcb := Some t |> <| st := ST_CONNECTING |>) in *. destruct ok; cbn [negb].
  - apply (relays_trans acts c c1 s1 [TcpNew t] c1 s1 [TcpConnect t ip]); [done|]. by apply relays_silent.
  - apply (relays_cons acts c c1 s1); [done|]. by apply relays_close; try done; left.
Qed.

Lemma on_connected_relays acts c ok s : c.(st) ≠ ST_FREE → relays acts c (on_connected c ok s).
Proof.
  intros Hf. unfold on_connected. destruct ok; cbn [negb]; [by apply relays_same|by apply relays_close; try done; left].
Qed.

Lemma on_recv_relays acts c chain ok s : c.(st) ≠ ST_FREE → is_Some c.(pcb) →
  0 <= c.(rx_off) <= zlen (concat c.(rx)) →
  relays acts c (on_recv c chain ok, s, got c chain ok).
Proof.
  intros Hf [t Et] Ho. unfold on_recv, got. rewrite Et. destruct chain as [l|]; [|by apply relays_same].
  destruct ok; [|by apply relays_id].
  apply relays_own; [done|by repeat constructor|by left|].
  intros _ (h & d & Hs & Hfl). rewrite Et in Hfl. destruct Hfl as (g & w & Hg & -> & ->). split; [done|].
  exists (w ++ up c), d. cbn [cfd pcb up modify conn_eta]. rewrite fd_stream_app, Hs, Et. split; [done|].
  exists ((d ++ pending c) ++ concat l), w. rewrite pcb_stream_app, Hg. cbn. rewrite Z.eqb_refl.
  split_and!; [done|done|]. rewrite <- app_assoc. f_equal. unfold pending. cbn. rewrite concat_app.
  unfold zdrop, zlen in *. by rewrite drop_app_le by lia.
Qed.

Lemma on_err_relays acts c s : c.(st) ≠ ST_FREE →
  relays acts c (let '(c', s', a) := on_err c s in (c', s', gone c ++ a)).
Proof.
  intros Hf. unfold on_err, gone. set (c1 := c <| pcb := None |>). set (s1 := s <| failed ::= inc |>).
  pose proof (close_own c1 false s1 (cfd c) (pcb c) ltac:(done) ltac:(by right)) as Ha.
  pose proof (conn_close_free c1 false s1 ltac:(done)) as Hfree.
  destruct (conn_close c1 false s1) as [[c2 s2] a]. cbn [fst snd] in *. subst c2.
  apply relays_own; [done| |by right|done]. apply Forall_app. split; [|done]. destruct (pcb c); by repeat constructor.
Qed.

Lemma sniff_relays acts c io s : conn_wf c → relays acts c (sniff c io s).
Proof.
  intros Hc. unfold sniff. destruct (st c) eqn:E1; try apply relays_id.
  assert (st c ≠ ST_FREE) as Hf by congruence.
  assert (∀ c' why s', st c' ≠ ST_FREE → cfd c' = cfd c → pcb c' = pcb c → relays acts c (conn_close c' why s')) as Hcl
    by (intros; apply relays_close; try done; by left).
  destruct (sni_hostname (up c) (zlen (up c)) 128) as [name| |];
    [|destruct (SNIFF_LIMIT <=? zlen (up c)); [by apply Hcl|apply relays_id]..].
  destruct (host_normalise (host (c <| host := c_string name |>))) as [h|] eqn:En; [|by apply Hcl].
  destruct (host_denied (host (c <| host := c_string name |> <| host := h |>))) eqn:Ed; [by apply Hcl|].
  pose proof (filter_allowed _ _ En Ed) as Ha. pose proof (conn_wf_named c h Hc E1 Ha) as Hc2.
  set (c2 := c <| host := _ |> <| host := h |> <| st := ST_RESOLVING |>).
  apply (relays_cons acts c c2 s (DnsQuery h)).
  - apply relays_own; [done|by repeat constructor|by left|]. intros _ Hfl. split; [done|].
    by apply flow_silent.
  - change (conn_wf c2) in Hc2.
    destruct (io_dns io) as [ip| |]; [by apply on_resolved_relays|apply relays_id|by apply relays_close; try done; left].
Qed.

Lemma handle_client_readable_relays acts c io s : conn_wf c → c.(st) ≠ ST_FREE → recv_ok io →
  relays acts c (handle_client_readable c io s).
Proof.
  intros Hc Hf Hr. unfold handle_client_readable. destruct (BUF_SIZE - zlen (up c) <=? 0); [apply relays_id|].
  destruct (io_recv io _) as [bytes| |] eqn:Er; [|apply relays_id|by apply relays_close; try done; left].
  apply Hr in Er as [Hb Hle]. destruct bytes as [|x l].
  { destruct (pcb c), (up c); by first [apply relays_silent|apply relays_id]. }
  set (c1 := c <| up ::= λ u, u ++ x :: l |> <| last_ms := io_now io |>).
  apply (relays_cons acts c c1 s (RecvFd (cfd c) (x :: l))); [|by apply sniff_relays, conn_wf_take].
  apply relays_own; [done|by repeat constructor|by left|].
  intros _ (h & d & Hs & Hfl). split; [done|]. exists (h ++ x :: l), d. cbn [cfd pcb up c1 modify conn_eta].
  rewrite fd_stream_app, Hs. cbn. rewrite Z.eqb_refl. split; [done|]. destruct (pcb c) as [t|].
  - destruct Hfl as (g & w & Hg & -> & ->). exists (d ++ pending c), w. rewrite pcb_stream_app. cbn.
    split_and!; [done| |done]. by rewrite app_assoc.
  - destruct Hfl as (-> & -> & Hp). done.
Qed.

Lemma sweep_slot_relays acts now c s : relays acts c (sweep_slot now c s).
Proof.
  unfold sweep_slot, is_free. case_bool_decide; [apply relays_id|].
  destruct (_ <? _); [apply relays_id|by apply relays_close; try done; left].
Qed.

Lemma relays_seq acts c (e : effect) (f : conn_t → awg_proxy_stats → effect) : relays acts c e →
  (∀ s, relays (acts ++ e.2) e.1.1 (f e.1.1 s)) →
  relays acts c (let '(c, s, a1) := e in let '(c, s, a2) := f c s in (c, s, a1 ++ a2)).
Proof.
  destruct e as [[c1 s1] a1]. cbn [fst snd]. intros He Hf. specialize (Hf s1).
  destruct (f c1 s1) as [[c2 s2] a2]. by apply (relays_trans acts c c1 s1).
Qed.

Lemma serve_ready_relays acts i rev inp c s : poll_ok inp → conn_wf c → relays acts c (serve_ready i rev inp c s).
Proof.
  intros [Hr Hs _ _] Hc. unfold serve_ready, is_free. case_bool_decide as E; [apply relays_id|].
  destruct (bit rev (POLLERR .| POLLHUP .| POLLNVAL)); [by apply relays_close; try done; left|].
  set (e := if bit rev POLLOUT then _ else _).
  apply (relays_seq acts c e (λ c s, if negb (bool_decide (st c = ST_FREE)) && bit rev POLLIN
    then handle_client_readable c (in_io inp i) s else (c, s, []))).
  - unfold e. destruct (bit rev POLLOUT); [by apply pump_down_relays|apply relays_id].
  - intros s'. assert (conn_wf e.1.1) as Hc1.
    { unfold e. destruct (bit rev POLLOUT); [|done]. by apply (pump_down_ok c _ _ s Hc (Hs i)). }
    case_bool_decide; [apply relays_id|]. destruct (bit rev POLLIN); [|apply relays_id].
    by apply handle_client_readable_relays.
Qed.

Lemma finish_slot_relays acts inp i c s : poll_ok inp → conn_wf c → relays acts c (finish_slot inp i c s).
Proof.
  intros [_ _ Hs Hr] Hc. unfold finish_slot, is_free. case_bool_decide as E; [apply relays_id|].
  set (e1 := if bool_decide (st c = ST_RELAY) then _ else _).
  assert (relays acts c e1 ∧ conn_wf e1.1.1) as [R1 W1].
  { unfold e1. case_bool_decide; [|split; [apply relays_id|done]].
    split; [by apply pump_up_relays|]. by apply (pump_up_ok c _ (in_write inp i) (in_up_now inp i) s Hc (Hr i)). }
  set (last c s := match rx c with [] => (c, s, []) | _ => pump_down c (in_sends_last inp i) (in_down_now inp i) s end).
  assert (∀ acts c s, conn_wf c → relays acts c (last c s) ∧ conn_wf (last c s).1.1) as HL.
  { intros acts' c' s' Hc'. unfold last. destruct (rx c'); [split; [apply relays_id|done]|].
    split; [by apply pump_down_relays|]. by apply (pump_down_ok c' _ (in_down_now inp i) s' Hc' (Hs i)). }
  destruct e1 as [[c1 s1] a1]. cbn [fst] in W1. destruct (HL (acts ++ a1) c1 s1 W1) as [R2 W2].
  change (match rx c1 with [] => (c1, s1, []) | _ :: _ => _ end) with (last c1 s1).
  destruct (last c1 s1) as [[c2 s2] a2]. cbn [fst] in W2.
  pose proof (relays_trans _ _ _ _ _ _ _ _ R1 R2) as R12.
  set (e3 := match peer_closed c2 with true => _ | false => _ end).
  assert (relays (acts ++ a1 ++ a2) c2 e3) as R3.
  { unfold e3. destruct (peer_closed c2) eqn:Ep; [|apply relays_id]. destruct (rx c2); [|apply relays_id].
    assert (st c2 = ST_RELAY) as Hst by (apply (wf_rx c2 W2); by right).
    apply relays_close; try congruence. by left. }
  destruct e3 as [[c3 s3] a3]. rewrite (app_assoc a1 a2 a3). by apply (relays_trans _ _ _ _ _ _ _ _ R12).
Qed.

(** ** The table *)

Record table_flow (acts : list action) (p : proxy) : Prop := {
  tf_flow i c : p.(g_conn) !! i = Some c → c.(st) ≠ ST_FREE → flow acts c;
  tf_fd i j c d : i ≠ j → p.(g_conn) !! i = Some c → p.(g_conn) !! j = Some d →
    c.(st) ≠ ST_FREE → d.(st) ≠ ST_FREE → c.(cfd) ≠ d.(cfd);
  tf_pcb i j c d t : i ≠ j → p.(g_conn) !! i = Some c → p.(g_conn) !! j = Some d →
    c.(pcb) = Some t → d.(pcb) ≠ Some t
}.

Lemma flow_pcb acts c t : flow acts c → c.(pcb) = Some t → is_Some (pcb_stream t acts).
Proof. intros (h & d & _ & Hfl) Et. rewrite Et in Hfl. destruct Hfl as (g & w & -> & _). eauto. Qed.

(** What the other slots' operations leave alone. *)
Lemma flow_frame acts acts' c : fd_stream c.(cfd) acts' = fd_stream c.(cfd) acts →
  (∀ t, c.(pcb) = Some t → pcb_stream t acts' = pcb_stream t acts) → flow acts c → flow acts' c.
Proof.
  intros Hfd Hp (h & d & Hs & Hfl). exists h, d. rewrite Hfd. split; [done|].
  destruct (pcb c) as [t|]; [|done]. by rewrite Hp.
Qed.

(** A pass's part that keeps the table's streams. *)
Definition keeps (p : proxy) (r : proxy * list action) : Prop :=
  proxy_wf p → proxy_wf r.1 ∧ ∀ acts, table_flow acts p → sane (acts ++ r.2) → table_flow (acts ++ r.2) r.1.

Lemma keeps_nil p : keeps p (p, []).
Proof. intros Hp. split; [done|]. intros acts Ht _. cbn. by rewrite app_nil_r. Qed.

Lemma keeps_seq p (r : proxy * list action) (f : proxy → proxy * list action) : keeps p r → (∀ q, keeps q (f q)) →
  keeps p (let '(p, a1) := r in let '(p, a2) := f p in (p, a1 ++ a2)).
Proof.
  intros Hr Hf Hp. destruct (Hr Hp) as [Hq Hk]. destruct r as [q a1]. cbn [fst snd] in *.
  destruct (Hf q Hq) as [Hq2 Hk2]. destruct (f q) as [q2 a2]. cbn [fst snd] in *. split; [done|].
  intros acts Ht Hs. rewrite app_assoc in *. apply Hk2; [|done]. apply Hk; [done|]. by eapply sane_app.
Qed.

Lemma on_slot_keeps i f p : (proxy_wf p → proxy_wf (on_slot i f p).1) →
  (∀ acts c s, p.(g_conn) !! i = Some c → conn_wf c → relays acts c (f c s)) → keeps p (on_slot i f p).
Proof.
  intros Ho Hf Hp. split; [by apply Ho|]. clear Ho. intros acts Ht Hs. unfold on_slot in *.
  destruct (g_conn p !! i) as [c|] eqn:Ec; [|cbn; by rewrite app_nil_r].
  assert (conn_wf c) as Hw by (destruct Hp as [_ Hp]; by eapply Forall_lookup_1).
  specialize (Hf acts c (g_stats p) eq_refl Hw). destruct (f c (g_stats p)) as [[c' s'] a]. cbn [fst snd] in *.
  destruct Hf as [Hfree Hused]. cbn [fst snd] in *. destruct Ht as [Tf Td Tp].
  assert (∀ j d, (<[i:=c']> (g_conn p)) !! j = Some d → (j = i ∧ d = c') ∨ (j ≠ i ∧ g_conn p !! j = Some d)) as Hcase.
  { intros j d Hj. destruct (decide (j = i)) as [->|Hne].
    - rewrite list_lookup_insert_eq in Hj by (by apply lookup_lt_Some in Ec). left. split; congruence.
    - right. rewrite list_lookup_insert_ne in Hj by done. done. }
  destruct (decide (st c = ST_FREE)) as [E|E].
  { destruct (Hfree E) as [-> ->]. rewrite app_nil_r. split; cbn; rewrite list_insert_id by done; [exact Tf|exact Td|exact Tp]. }
  destruct (Hused E Hs (Tf i c Ec E)) as [R D P N]. cbn [fst snd] in *.
  split; cbn [g_conn modify proxy_eta].
  - intros j d Hj Hd. destruct (Hcase j d Hj) as [[-> ->]|[Hne Hj']]; [by apply R|].
    assert (flow acts d) as Hfl by (by apply (Tf j)). apply (flow_frame acts); [|intros t Et|done].
    + apply D. by apply (Td j i d c).
    + apply P; [by apply (flow_pcb acts d)|]. by apply (Tp j i d c t).
  - intros j k d e Hjk Hj Hk Hd He. destruct (Hcase j d Hj) as [[-> ->]|[Hne Hj']], (Hcase k e Hk) as [[-> ->]|[Hne' Hk']].
    + done.
    + destruct (R Hd) as [-> _]. by apply (Td i k c e).
    + destruct (R He) as [-> _]. by apply (Td j i d c).
    + by apply (Td j k d e).
  - assert (∀ j d t, j ≠ i → g_conn p !! j = Some d → pcb c' = Some t → pcb d ≠ Some t) as Hnew.
    { intros j d t Hne Hj Et Ed. destruct (N t Et) as [Ec'|Hn]; [by apply (Tp i j c d t)|].
      assert (st d ≠ ST_FREE) as Hd.
      { intros Ef. assert (conn_wf d) as Hwd by (destruct Hp as [_ Hp]; by eapply Forall_lookup_1).
        by rewrite (wf_free d Hwd Ef) in Ed. }
      destruct (flow_pcb acts d t (Tf j d Hj Hd) Ed). congruence. }
    intros j k d e t Hjk Hj Hk Hd. destruct (Hcase j d Hj) as [[-> ->]|[Hne Hj']], (Hcase k e Hk) as [[-> ->]|[Hne' Hk']].
    + done.
    + by apply (Hnew k).
    + intros Et. by apply (Hnew j d t).
    + by apply (Tp j k d e).
Qed.

Lemma each_slot_keeps ids f p : (∀ i c s, conn_wf c → effect_ok (f i c s)) →
  (∀ acts i c s, conn_wf c → relays acts c (f i c s)) → keeps p (each_slot ids f p).
Proof.
  intros Ho Hf. revert p. induction ids as [|i ids IH]; intros p; [apply keeps_nil|]. cbn [each_slot].
  apply (keeps_seq p (on_slot i (f i) p)); [|done]. apply on_slot_keeps; [|intros; by apply Hf].
  intros Hp. apply on_slot_ok; [done|]. intros. by apply Ho.
Qed.

Lemma serve_loop_keeps k fds inp p : poll_ok inp → keeps p (serve_loop k fds inp p).
Proof.
  intros Hi. revert k p. induction fds as [|fd fds IH]; intros k p; [apply keeps_nil|]. cbn [serve_loop].
  apply (keeps_seq p (match p_owner fd with Some _ => _ | None => _ end)); [|done].
  destruct (p_owner fd); [|apply keeps_nil].
  apply on_slot_keeps; [|intros; by apply serve_ready_relays].
  intros Hp. apply on_slot_ok; [done|]. intros. by apply serve_ready_ok.
Qed.

(** A descriptor that is not in use touches no slot. *)
Lemma table_flow_fresh acts f p a : table_flow acts p → fd_stream f acts = None → Forall (own f None) a →
  ∀ i c, p.(g_conn) !! i = Some c → c.(st) ≠ ST_FREE → c.(cfd) ≠ f ∧ flow (acts ++ Accepted f :: a) c.
Proof.
  intros [Tf _ _] Hf Ha i c Hc Hu. pose proof (Tf i c Hc Hu) as Hfl.
  assert (cfd c ≠ f) as Hne by (destruct Hfl as (h & d & Hs & _); congruence). split; [done|].
  apply (flow_frame acts); [| |done].
  - rewrite fd_stream_app. cbn [foldl fd_step]. rewrite (proj2 (Z.eqb_neq _ _) Hne).
    by apply (fd_other f None).
  - intros t _. rewrite pcb_stream_app. cbn [foldl pcb_step]. by apply (pcb_other f None).
Qed.

Lemma accept_one_keeps p fd now : keeps p (accept_one p fd now).
Proof.
  intros Hp. split; [by apply accept_one_ok|]. intros acts Ht Hs. unfold accept_one, conn_alloc in *.
  destruct (fd <? 0); [cbn; by rewrite app_nil_r|].
  destruct (conn_alloc_loop (g_conn p) 0) as [i|] eqn:E; cbn [fst snd] in *;
    apply sane_at in Hs as Hf; cbn in Hf; pose proof Ht as [Tf Td Tp].
  2: { split; cbn [g_conn modify proxy_eta]; [|done..]. intros i c Hc Hu.
       by eapply (table_flow_fresh acts fd p [CloseFd fd]); [..|done|done]; [done|done|by repeat constructor]. }
  destruct (conn_alloc_loop_spec _ _ _ E) as (c0 & _ & Hc0 & Hfree). rewrite Nat.sub_0_r in Hc0.
  set (c1 := conn_free <| cfd := fd |> <| st := ST_SNIFF |> <| last_ms := now |>).
  match goal with |- table_flow _ ?q => set (p1 := q) end.
  assert (g_conn p1 = <[i:=c1]> (g_conn p)) as Hg.
  { unfold p1. cbn [g_conn modify proxy_eta]. rewrite !list_insert_alter, list_alter_alter_eq. by apply list_alter_ext. }
  assert (∀ j d, g_conn p1 !! j = Some d → (j = i ∧ d = c1) ∨ (j ≠ i ∧ g_conn p !! j = Some d)) as Hcase.
  { rewrite Hg. intros j d Hj. destruct (decide (j = i)) as [->|Hne].
    - rewrite list_lookup_insert_eq in Hj by (by apply lookup_lt_Some in Hc0). left. split; congruence.
    - right. by rewrite list_lookup_insert_ne in Hj by done. }
  pose proof (table_flow_fresh acts fd p [] Ht Hf ltac:(done)) as Hother.
  split.
  - intros j d Hj Hu. destruct (Hcase j d Hj) as [[-> ->]|[Hne Hj']]; [|by apply (Hother j)].
    exists [], []. rewrite fd_stream_app. cbn. by rewrite Z.eqb_refl.
  - intros j k d e Hjk Hj Hk Hd He. destruct (Hcase j d Hj) as [[-> ->]|[Hne Hj']], (Hcase k e Hk) as [[-> ->]|[Hne' Hk']].
    + done.
    + apply not_eq_sym. by apply (Hother k).
    + by apply (Hother j).
    + by apply (Td j k d e).
  - intros j k d e t Hjk Hj Hk. destruct (Hcase j d Hj) as [[-> ->]|[Hne Hj']], (Hcase k e Hk) as [[-> ->]|[Hne' Hk']].
    + done.
    + done.
    + done.
    + by apply (Tp j k d e).
Qed.

Lemma awg_proxy_poll_keeps extra_fd inp p : poll_ok inp →
  keeps p (let '(q, _, a) := awg_proxy_poll extra_fd inp p in (q, a)).
Proof.
  intros Hi. unfold awg_proxy_poll. destruct (g_listen p <? 0); [apply keeps_nil|].
  set (n := length (poll_head p extra_fd)). set (fds := drop n (poll_set p extra_fd)).
  set (served := if 0 <? in_poll inp then _ else _).
  assert (keeps p (served.1.1, served.2)) as Hserved.
  { unfold served. destruct (0 <? in_poll inp); [|apply keeps_nil].
    set (r := if bit _ _ then _ else _).
    assert (keeps p (let '(q, b1) := r in let '(q, b2) := serve_loop n fds inp q in (q, b1 ++ b2))) as Hk.
    { apply keeps_seq; [|by intros; apply serve_loop_keeps]. unfold r.
      destruct (bit _ _); [apply accept_one_keeps|apply keeps_nil]. }
    destruct r as [q b1]. by destruct (serve_loop n fds inp q). }
  destruct served as [[q x] a1]. cbn [fst snd] in Hserved.
  set (rest q := let '(q, a2) := sweep_idle (in_now inp) q in
    let '(q, a3) := each_slot slots (finish_slot inp) q in (q, a2 ++ a3)).
  assert (∀ q, keeps q (rest q)) as Hrest.
  { intros q1. apply (keeps_seq q1 (sweep_idle (in_now inp) q1)); [|intros q2]; apply each_slot_keeps; intros.
    - by apply sweep_slot_ok.
    - apply sweep_slot_relays.
    - by apply finish_slot_ok.
    - by apply finish_slot_relays. }
  pose proof (keeps_seq p (q, a1) rest Hserved Hrest) as Hk. unfold rest in Hk. clear Hrest rest.
  destruct (sweep_idle (in_now inp) q) as [q2 a2]. by destruct (each_slot slots (finish_slot inp) q2) as [q3 a3].
Qed.

Lemma conn_wf_off c : conn_wf c → 0 <= c.(rx_off) <= zlen (concat c.(rx)).
Proof.
  intros [_ _ _ _ _ [Ho Hl] _ _]. split; [done|]. destruct (rx c) as [|p l]; [done|]. cbn [concat].
  rewrite zlen_app. pose proof (zlen_nonneg (concat l)). lia.
Qed.

Lemma handle_keeps ev p : proxy_wf p → enabled ev p → keeps p (handle ev p).
Proof.
  intros Hp He. pose proof (handle_ok ev p Hp He) as [Hq _].
  destruct ev as [fd inp|i chain ok|i|i ok|i name ip new ok]; cbn [handle] in *; [by apply awg_proxy_poll_keeps|..].
  all: apply on_slot_keeps; [done|]; intros acts c s Hc Hw.
  - destruct He as [(c' & Hc' & Hst) _]. assert (st c = ST_RELAY) as E by congruence.
    apply on_recv_relays; [congruence|apply (wf_pcb c Hw); by right|by apply conn_wf_off].
  - apply on_err_relays. by apply (enabled_not_free (EvErr i) p i c).
  - apply on_connected_relays. by apply (enabled_not_free (EvConnected i ok) p i c).
  - by apply on_resolved_relays.
Qed.

Lemma runs_flow listen evs p acts : runs listen evs p acts → sane acts → table_flow acts p.
Proof.
  induction 1 as [|evs p acts ev Hr IH He]; intros Hs.
  - split.
    + intros i c Hc Hu. apply lookup_replicate in Hc as [-> _]. by destruct Hu.
    + intros i j c d _ Hc _ Hu. apply lookup_replicate in Hc as [-> _]. by destruct Hu.
    + intros i j c d t _ Hc _ Hu. by apply lookup_replicate in Hc as [-> _].
  - destruct (runs_wf _ _ _ _ Hr) as [Hp _]. destruct (handle_keeps ev p Hp He Hp) as [_ Hk].
    apply Hk; [|done]. apply IH. by eapply sane_app.
Qed.

(** ** Every way the proxy is driven *)

(** Polls and callbacks, and the stop and the start of a rebuild. *)
Inductive driven (p : proxy) : list action → proxy → Prop :=
| driven_nil : driven p [] p
| driven_handle a q ev : driven p a q → enabled ev q → driven p (a ++ (handle ev q).2) (handle ev q).1
| driven_stop a q : driven p a q → driven p (a ++ (awg_proxy_stop q).2) (awg_proxy_stop q).1
| driven_start a q fd bind_ok listen_ok : driven p a q → all_free q →
    driven p (a ++ (awg_proxy_start fd bind_ok listen_ok q).2) (awg_proxy_start fd bind_ok listen_ok q).1.1.

Lemma driven_app p a q b r : driven p a q → driven q b r → driven p (a ++ b) r.
Proof.
  intros H1. induction 1 as [|b q' ev _ IH He|b q' _ IH|b q' fd b1 b2 _ IH Hf]; rewrite ?app_nil_r, ?app_assoc; [done|..].
  - by apply driven_handle.
  - by apply driven_stop.
  - by apply driven_start.
Qed.

Lemma free_flow acts p : all_free p → table_flow acts p.
Proof.
  intros Hf. assert (∀ i c, g_conn p !! i = Some c → c = conn_free) as Hc.
  { intros i c Hc. by apply (Forall_lookup_1 _ _ _ _ Hf Hc). }
  split.
  - intros i c Hi Hu. by rewrite (Hc i c Hi) in Hu.
  - intros i j c d _ Hi _ Hu. by rewrite (Hc i c Hi) in Hu.
  - intros i j c d t _ Hi _ Ht. by rewrite (Hc i c Hi) in Ht.
Qed.

Lemma driven_flow listen acts p : driven (started listen) acts p → proxy_wf p ∧ (sane acts → table_flow acts p).
Proof.
  induction 1 as [|a q ev _ [Hp IH] He|a q _ [Hp IH]|a q fd b1 b2 _ [Hp IH] Hf].
  - split; [apply started_wf|]. intros _. apply free_flow. by apply Forall_replicate.
  - destruct (handle_keeps ev q Hp He Hp) as [Hq Hk]. split; [done|]. intros Hs.
    apply Hk; [|done]. apply IH. by eapply sane_app.
  - destruct (stop_wf q Hp) as [Hq Hf]. split; [done|]. intros _. by apply free_flow.
  - split; [by apply start_wf|]. intros _. by apply free_flow, start_free.
Qed.

(** ** Properties *)

(** C33: the proxy relays faithfully. However it is driven, for every slot in use: what
    the client has said since it was accepted, the bytes looked at for its host
    included, is what has been written to the slot's tunnel connection followed by what
    still waits in [up]; what the tunnel connection has brought since it was opened is
    what the client has been sent followed by what is left of the chain. No descriptor
    and no pcb serves two slots. Of the outside it is only assumed that [accept] and
    [tcp_new] return nothing in use. *)
Theorem relay_faithful (listen : Z) (acts : list action) (p : proxy) (i : nat) (c : conn_t) :
  driven (started listen) acts p → sane acts → p.(g_conn) !! i = Some c → c.(st) ≠ ST_FREE →
  (∃ heard sent, fd_stream c.(cfd) acts = Some (heard, sent) ∧
   match c.(pcb) with
   | None => heard = c.(up) ∧ sent = []
   | Some t => ∃ brought written, pcb_stream t acts = Some (brought, written) ∧
       heard = written ++ c.(up) ∧ brought = sent ++ pending c
   end) ∧
  ∀ j d, j ≠ i → p.(g_conn) !! j = Some d → d.(st) ≠ ST_FREE →
    d.(cfd) ≠ c.(cfd) ∧ (is_Some c.(pcb) → d.(pcb) ≠ c.(pcb)).
Proof.
  intros Hd Hs Hi Hu. destruct (driven_flow listen acts p Hd) as [_ Ht]. destruct (Ht Hs) as [Tf Td Tp]. split.
  - destruct (Tf i c Hi Hu) as (h & d & Hfd & Hfl). exists h, d. split; [done|]. destruct (pcb c); [done|]. tauto.
  - intros j d Hne Hj Hdu. split; [by apply (Td j i)|]. intros [t Et]. rewrite Et. by apply (Tp i j c d).
Qed.

(** ** Witnesses *)

Lemma runs_driven listen evs p acts : runs listen evs p acts → driven (started listen) acts p.
Proof. induction 1; [constructor|by apply driven_handle]. Qed.

Lemma all_enabled_take n evs p : all_enabled evs p → all_enabled (take n evs) p.
Proof. revert n p. induction evs as [|ev evs IH]; intros [|n] p; try done. intros [He H]. split; [done|by apply IH]. Qed.

(** The sample run up to its last poll but one: two chunks have come and been handed on. *)
Lemma relay_faithful_witness : ∃ p acts c sent,
  runs 3 (take 7 sample_run) p acts ∧ p.(g_conn) !! 0%nat = Some c ∧
  fd_stream c.(cfd) acts = Some (hello_for (str "a.com"), sent) ∧
  pcb_stream 5 acts = Some (sent, hello_for (str "a.com")) ∧ sent = str "hello you".
Proof.
  assert (runs 3 (take 7 sample_run) (play (take 7 sample_run) (started 3)).1 (play (take 7 sample_run) (started 3)).2) as Hr.
  { apply play_runs, all_enabled_take, sample_run_enabled. }
  set (p := (play (take 7 sample_run) (started 3)).1) in *. set (acts := (play (take 7 sample_run) (started 3)).2) in *.
  set (c := Conn ST_RELAY 7 (Some 5) (str "a.com") 400 [] [] 0 false).
  assert (p.(g_conn) !! 0%nat = Some c) as Hc by (vm_compute; reflexivity).
  destruct (relay_faithful 3 acts p 0 c (runs_driven _ _ _ _ Hr)) as [(heard & sent & Hfd & brought & written & Hp & -> & ->) _].
  - apply all_fresh_sane. vm_compute. reflexivity.
  - exact Hc.
  - discriminate.
  - assert (sent = str "hello you" ∧ written = hello_for (str "a.com")) as [-> ->].
    { assert (fd_stream 7 acts = Some (hello_for (str "a.com"), str "hello you")) as E1 by (vm_compute; reflexivity).
      assert (pcb_stream 5 acts = Some (str "hello you", hello_for (str "a.com"))) as E2 by (vm_compute; reflexivity).
      split; [change (cfd c) with 7 in Hfd; congruence|congruence]. }
    exists p, acts, c, (str "hello you"). split; [exact Hr|]. split; [exact Hc|]. split; [|split; [|reflexivity]].
    + rewrite app_nil_r in Hfd. exact Hfd.
    + rewrite Hp. f_equal.
Defined.
