(* ===== verification/Power.v ===== *)
(** * awg_power.c: power transitions from the play-event log

    The reader of the log: where it stands, the range it asks for and what it answers.
    The log itself and the service calls are inputs; [is_power] says which entries are
    power transitions. *)
From S2P Require Import Prelude Cstr.

Definition EVENT_BATCH : Z := 16.

(** The file's two static variables. *)
Record power := Power { g_ok : bool; g_last_end : Z }.

Definition power_init : power := Power false (-1).

#[export] Instance power_eta : Eta power := λ p, Power p.(g_ok) p.(g_last_end).

(** [init_ok] and [clone_ok] are the results of the two service calls. *)
Definition awg_power_start (init_ok clone_ok : bool) (p : power) : power * bool :=
  if negb init_ok then (p, false)
  else if negb clone_ok then (p, false)
  else (p <| g_ok := true |> <| g_last_end := -1 |>, true).

Definition awg_power_stop (p : power) : power :=
  if negb p.(g_ok) then p else p <| g_ok := false |>.

Section Reader.
Context {E : Type} (is_power : E → bool).

(** The first entry asked for and how many. *)
Definition power_window (last_end first last : Z) : Z * Z :=
  let from := s32 (last_end + 1) in
  let from := if from <? s32 (last - (EVENT_BATCH - 1)) then s32 (last - (EVENT_BATCH - 1)) else from in
  let from := if from <? first then first else from in
  let from := if from <? 0 then 0 else from in
  let want := s32 (last - from + 1) in
  let want := if want >? EVENT_BATCH then EVENT_BATCH else want in
  (from, want).

(** [range] is the first and the last index of the log, or [None] when the call fails;
    [query from want] the entries it returns, or [None]. *)
Definition awg_power_transition (range : option (Z * Z)) (query : Z → Z → option (list E)) (p : power)
    : power * bool :=
  if negb p.(g_ok) then (p, false) else
  match range with
  | None => (p, false)
  | Some (first, last) =>
    if last <=? p.(g_last_end) then (p, false)
    else if p.(g_last_end) <? 0 then (p <| g_last_end := last |>, false)
    else
      let '(from, want) := power_window p.(g_last_end) first last in
      if want <=? 0 then (p <| g_last_end := last |>, false)
      else
        match query from want with
        | None => (p, false)
        | Some events => (p <| g_last_end := last |>, existsb is_power events)
        end
  end.

(** ** The log *)

(** The entries [from, from + n) of a log. *)
Definition entries (log : Z → E) (from : Z) (n : Z) : list E := log <$> seqZ from n.

(** A query that answers for a log. *)
Definition answers (log : Z → E) (query : Z → Z → option (list E)) : Prop :=
  ∀ from want, query from want = None ∨ query from want = Some (entries log from want).

Lemma power_window_spec last_end first last :
  0 <= last_end → 0 <= first → last_end < last < 2 ^ 31 → first < 2 ^ 31 →
  power_window last_end first last =
    (let from := Z.max (last_end + 1) (Z.max (last - 15) first) in (from, last - from + 1)).
Proof.
  intros H0 Hf Hl Hm. unfold power_window, EVENT_BATCH.
  rewrite (s32_int_id (last_end + 1)), (s32_int_id (last - (16 - 1))) by lia.
  set (m := Z.max _ _).
  assert ((if (if last_end + 1 <? last - (16 - 1) then last - (16 - 1) else last_end + 1) <? first then first
           else if last_end + 1 <? last - (16 - 1) then last - (16 - 1) else last_end + 1) = m) as ->.
  { unfold m. repeat case_match; lia. }
  assert (0 <= m) by (unfold m; lia). rewrite (proj2 (Z.ltb_ge m 0)) by lia.
  rewrite s32_int_id by lia. assert (last - m + 1 <= 16) by (unfold m; lia).
  rewrite Z.gtb_ltb, (proj2 (Z.ltb_ge 16 _)) by lia. done.
Qed.

(** A sequence of looks: the range or its failure, and the query. *)
Abbreviation look := (option (Z * Z) * (Z → Z → option (list E)))%type.

Fixpoint power_looks (ls : list look) (p : power) : power * list bool :=
  match ls with
  | [] => (p, [])
  | (range, query) :: ls =>
    let '(p, b) := awg_power_transition range query p in
    let '(p, bs) := power_looks ls p in (p, b :: bs)
  end.

(** ** An observer of the log

    Where a look leaves a reader that has read up to entry [l]: at the log's last entry if
    the calls succeed and there is a newer one, else where it was. It answers for the
    entries it passes. *)
Definition mark (lk : look) (l : Z) : Z :=
  match lk with
  | (Some (first, last), query) =>
    if (l <? last) && bool_decide (is_Some (query (l + 1) (last - l))) then last else l
  | (None, _) => l
  end.

Fixpoint watch (log : Z → E) (ls : list look) (l : Z) : Z * list bool :=
  match ls with
  | [] => (l, [])
  | lk :: ls =>
    let l' := mark lk l in
    let '(e, bs) := watch log ls l' in
    (e, existsb is_power (entries log (l + 1) (l' - l)) :: bs)
  end.

(** The observer keeps up with the log: at every look the entries written since the
    last one it read are at most a batch and still there. *)
Fixpoint keeps_up (log : Z → E) (ls : list look) (l : Z) : Prop :=
  match ls with
  | [] => True
  | (range, query) :: ls =>
    answers log query ∧
    match range with
    | Some (first, last) => 0 <= first <= l + 1 ∧ last <= l + EVENT_BATCH ∧ last < 2 ^ 31 - 1
    | None => True
    end ∧ keeps_up log ls (mark (range, query) l)
  end.

Lemma look_spec log range query ls l : 0 <= l < 2 ^ 31 - 1 → keeps_up log ((range, query) :: ls) l →
  let l' := mark (range, query) l in
  awg_power_transition range query (Power true l) = (Power true l', existsb is_power (entries log (l + 1) (l' - l))) ∧
  l <= l' < 2 ^ 31 - 1.
Proof.
  intros Hl (Hq & Hr & _). assert (existsb is_power (entries log (l + 1) (l - l)) = false) as Hnone.
  { unfold entries. by rewrite seqZ_nil by lia. }
  unfold awg_power_transition, mark. cbn [g_ok g_last_end negb]. destruct range as [[first last]|]; cbv beta iota zeta; [|split; [by rewrite Hnone|lia]].
  unfold EVENT_BATCH in Hr. destruct (Z.leb_spec last l); [rewrite (proj2 (Z.ltb_ge l last)) by lia; cbn [andb]; split; [by rewrite Hnone|lia]|].
  rewrite (proj2 (Z.ltb_lt l last)), (proj2 (Z.ltb_ge l 0)) by lia. rewrite power_window_spec by lia.
  replace (Z.max (l + 1) (Z.max (last - 15) first)) with (l + 1) by lia. cbv beta iota zeta.
  replace (last - (l + 1) + 1) with (last - l) by lia. rewrite (proj2 (Z.leb_gt (last - l) 0)) by lia. cbn [andb].
  destruct (Hq (l + 1) (last - l)) as [Hans | Hans]; rewrite Hans.
  - rewrite bool_decide_false by (by intros [? ?]). split; [by rewrite Hnone|lia].
  - rewrite bool_decide_true by done. split; [done|lia].
Qed.

Lemma looks_watch log ls l : 0 <= l < 2 ^ 31 - 1 → keeps_up log ls l →
  let '(e, bs) := watch log ls l in power_looks ls (Power true l) = (Power true e, bs) ∧ l <= e.
Proof.
  revert l. induction ls as [|[range query] ls IH]; intros l Hl Hk; [done|].
  destruct (look_spec log range query ls l Hl Hk) as [Hlook Hl']. destruct Hk as (_ & _ & Hk).
  cbn [watch power_looks]. rewrite Hlook. specialize (IH (mark (range, query) l) ltac:(lia) Hk).
  destruct (watch log ls (mark (range, query) l)) as [e bs]. destruct IH as [-> ?]. split; [done|lia].
Qed.

(** What the observer's answers say: the entries it has passed are the answers' intervals,
    one after the other. *)
Lemma watch_once log ls l : 0 <= l < 2 ^ 31 - 1 → keeps_up log ls l →
  let '(e, bs) := watch log ls l in
  ∀ k, l < k <= e → is_power (log k) = true →
  ∃ ls1 lk ls2, ls = ls1 ++ lk :: ls2 ∧ bs !! length ls1 = Some true ∧
    (watch log ls1 l).1 < k <= (watch log (ls1 ++ [lk]) l).1.
Proof.
  revert l. induction ls as [|[range query] ls IH]; intros l Hl Hk; [intros k Hr; cbn in Hr; lia|].
  destruct (look_spec log range query ls l Hl Hk) as [_ Hl']. destruct Hk as (_ & _ & Hk). specialize (IH (mark (range, query) l) ltac:(lia) Hk).
  cbn [watch]. set (l' := mark (range, query) l) in *. destruct (watch log ls l') as [e bs]. intros k Hr Hp.
  destruct (decide (k <= l')) as [Hk'|Hk'].
  - exists [], (range, query), ls. split; [done|]. split.
    + refine (f_equal Some _). apply existsb_exists. exists (log k). split; [|done]. apply list_elem_of_In.
      unfold entries. apply list_elem_of_fmap. exists k. split; [done|]. apply elem_of_seqZ. lia.
    + cbn [app watch]. fold l'. cbn [fst]. lia.
  - destruct (IH k ltac:(lia) Hp) as (ls1 & lk & ls2 & -> & Hb & Hw). exists ((range, query) :: ls1), lk, ls2.
    split; [done|]. split; [exact Hb|]. cbn [app watch]. fold l'.
    destruct (watch log ls1 l') as [e1 b1], (watch log (ls1 ++ [lk]) l') as [e2 b2]. done.
Qed.

(** ** Properties *)

(** C30: no power transition is missed and none is reported twice, whatever calls fail:
    the first look that succeeds marks the end of the log and says no; from there on, as
    long as at most a batch of entries is written between reads, every look answers and
    moves exactly as the observer does, which goes to the log's last entry whenever the
    calls succeed and says yes when it passes a transition. So each transition passed lies
    in the entries of one look, and that look says yes. *)
Theorem power_none_missed (log : Z → E) (first last : Z) (query : Z → Z → option (list E)) (ls : list look)
    (p0 : power) :
  0 <= last < 2 ^ 31 - 1 →
  let p := (awg_power_start true true p0).1 in
  let '(p1, b1) := awg_power_transition (Some (first, last)) query p in
  p1 = Power true last ∧ b1 = false ∧
  (keeps_up log ls last →
   let '(e, bs) := watch log ls last in
   power_looks ls p1 = (Power true e, bs) ∧ last <= e ∧
   ∀ k, last < k <= e → is_power (log k) = true →
   ∃ ls1 lk ls2, ls = ls1 ++ lk :: ls2 ∧ bs !! length ls1 = Some true ∧
     (watch log ls1 last).1 < k <= (watch log (ls1 ++ [lk]) last).1).
Proof.
  intros Hl p. assert (awg_power_transition (Some (first, last)) query p = (Power true last, false)) as ->.
  { unfold awg_power_transition, p. cbn. by rewrite (proj2 (Z.leb_gt last (-1))) by lia. }
  split_and!; [done|done|]. intros Hk. pose proof (looks_watch log ls last Hl Hk) as Hs. pose proof (watch_once log ls last Hl Hk) as Ho.
  destruct (watch log ls last) as [e bs], Hs as (Hs & He). by split_and!.
Qed.

(** When the log has run ahead of the reader, a look examines exactly the newest
    entries: at most a batch, none before the log's first, none read before; a failed
    query leaves them for the next look. *)
Theorem power_window_newest (log : Z → E) (first last l : Z) (query : Z → Z → option (list E)) :
  0 <= l → 0 <= first < 2 ^ 31 → l < last < 2 ^ 31 → answers log query →
  let m := Z.max (l + 1) (Z.max (last - (EVENT_BATCH - 1)) first) in
  awg_power_transition (Some (first, last)) query (Power true l) =
  if (m <=? last) && bool_decide (query m (last - m + 1) = None) then (Power true l, false)
  else (Power true last, existsb is_power (entries log m (last - m + 1))).
Proof.
  intros Hl Hf Hlast Hq m. unfold awg_power_transition. cbn [g_ok g_last_end negb].
  rewrite (proj2 (Z.leb_gt last l)), (proj2 (Z.ltb_ge l 0)) by lia.
  rewrite power_window_spec by lia. change (Z.max (l + 1) (Z.max (last - 15) first)) with m. cbv beta iota zeta.
  destruct (Z.leb_spec (last - m + 1) 0) as [Hw|Hw].
  - rewrite (proj2 (Z.leb_gt m last)) by lia. unfold entries. rewrite seqZ_nil by lia. done.
  - rewrite (proj2 (Z.leb_le m last)) by lia. cbn [andb].
    destruct (Hq m (last - m + 1)) as [-> | ->]; by case_bool_decide.
Qed.

End Reader.

(** ** Witnesses *)

(** Entry 7 is a transition; the second look fails, the third reads both batches. *)
Definition sample_looks : list (option (Z * Z) * (Z → Z → option (list Z))) :=
  [(Some (0, 6), λ from want, Some (entries id from want)); (Some (0, 8), λ _ _, None); (None, λ _ _, None);
   (Some (0, 9), λ from want, Some (entries id from want))].

Lemma power_none_missed_witness :
  power_looks (Z.eqb 7) sample_looks (Power true 5) = (Power true 9, [false; false; false; true]).
Proof.
  pose proof (power_none_missed (Z.eqb 7) id 0 5 (λ _ _, None) sample_looks power_init ltac:(lia)) as H.
  destruct H as (_ & _ & H). assert (keeps_up id sample_looks 5) as Hk.
  { cbn. split_and!; try lia; try done; intros from want; by (left + right). }
  specialize (H Hk). destruct (watch (Z.eqb 7) id sample_looks 5) as [e bs] eqn:E. vm_compute in E. injection E as <- <-.
  exact (proj1 H).
Defined.

Lemma power_window_newest_witness :
  awg_power_transition (Z.eqb 7) (Some (0, 30)) (λ from want, Some (entries id from want)) (Power true 2)
  = (Power true 30, false).
Proof.
  refine (power_window_newest (Z.eqb 7) id 0 30 2 (λ from want, Some (entries id from want)) _ _ _ _); [lia..|].
  intros from want. by right.
Defined.
