(* ===== verification/Timeouts.v ===== *)
(** * lwip/core/timeouts.c: lwIP's timers on a clock of 32 bits

    The list of timeouts with the configuration of lwip_port/lwipopts.h: the timer of
    TCP, which runs while there are connections, and the cyclic timers of reassembly and
    of the resolver. The arithmetic of times is an interface, [TimeArith], with two
    instances: the code's, 32 bits compared by subtraction, and unbounded time, which is
    what the code means. The theorems prove properties of the latter and that the former
    does the same, as long as the list is looked at often enough. *)
From Stdlib Require Import Sorting.Sorted.
From stdpp Require Import sets.
From S2P Require Import Prelude.

Class TimeArith := { wrap : Z → Z; less_than : Z → Z → bool }.

Definition LWIP_MAX_TIMEOUT : Z := 0x7fffffff.

(** [TIME_LESS_THAN(t, compare_to)]. *)
Definition TIME_LESS_THAN (t compare_to : Z) : bool := u32 (t - compare_to) >? LWIP_MAX_TIMEOUT.

Definition time32 : TimeArith := {| wrap := u32; less_than := TIME_LESS_THAN |}.
Definition time_ideal : TimeArith := {| wrap := id; less_than := Z.ltb |}.

(** ** The list *)

(** The entries of [lwip_cyclic_timers] after the one of TCP, which is started on demand. *)
Inductive cyclic_timer : Set := ip_reass_tmr | dns_tmr.

Inductive handler : Set := tcpip_tcp_timer | lwip_cyclic_timer (c : cyclic_timer).

#[export] Instance cyclic_timer_eq_dec : EqDecision cyclic_timer.
Proof. solve_decision. Defined.
#[export] Instance handler_eq_dec : EqDecision handler.
Proof. solve_decision. Defined.

Definition TCP_TMR_INTERVAL : Z := 250.
Definition interval_ms (c : cyclic_timer) : Z := match c with ip_reass_tmr => 1000 | dns_tmr => 1000 end.
Definition MEMP_NUM_SYS_TIMEOUT : nat := 8.

Record sys_timeo := Timeo { t_time : Z; t_h : handler }.

(** The module's variables; the list is in the order of its links. *)
Record timeouts := Timeouts { next_timeout : list sys_timeo; current_timeout_due_time : Z; tcpip_tcp_timer_active : bool }.

#[export] Instance timeouts_eta : Eta timeouts := λ s, Timeouts
  s.(next_timeout) s.(current_timeout_due_time) s.(tcpip_tcp_timer_active).

Section timers.
Context `{TimeArith}.

(** What follows the allocation in [sys_timeout_abs]. *)
Fixpoint insert_timeo (x : sys_timeo) (l : list sys_timeo) : list sys_timeo :=
  match l with
  | [] => [x]
  | t :: l => if less_than x.(t_time) t.(t_time) then x :: t :: l else t :: insert_timeo x l
  end.

(** An entry of the pool is free unless it is in the list. *)
Definition sys_timeout_abs (abs_time : Z) (h : handler) (s : timeouts) : timeouts :=
  if decide (MEMP_NUM_SYS_TIMEOUT <= length s.(next_timeout))%nat then s
  else s <| next_timeout ::= insert_timeo (Timeo abs_time h) |>.

(** [now] is the time in milliseconds, of which [sys_now] gives the low bits. *)
Definition sys_timeout (now msecs : Z) (h : handler) (s : timeouts) : timeouts :=
  sys_timeout_abs (wrap (wrap now + msecs)) h s.

Fixpoint remove_first (h : handler) (l : list sys_timeo) : list sys_timeo :=
  match l with
  | [] => []
  | t :: l => if decide (t.(t_h) = h) then l else t :: remove_first h l
  end.

Definition sys_untimeout (h : handler) (s : timeouts) : timeouts := s <| next_timeout ::= remove_first h |>.

Definition tcp_timer_needed (pcbs : bool) (now : Z) (s : timeouts) : timeouts :=
  if negb s.(tcpip_tcp_timer_active) && pcbs then
    sys_timeout now TCP_TMR_INTERVAL tcpip_tcp_timer (s <| tcpip_tcp_timer_active := true |>)
  else s.

Definition sys_timeouts_init (now : Z) (s : timeouts) : timeouts :=
  foldl (λ s c, sys_timeout now (interval_ms c) (lwip_cyclic_timer c) s) s [ip_reass_tmr; dns_tmr].

(** What a handler finds: the time it ends at, whether and when it registered a
    connection meanwhile, and whether there are connections when it is done. *)
Record tick := Tick { k_now : Z; k_registered : option Z; k_pcbs : bool }.

(** The two handlers, once what they call is done. *)
Definition tcp_timer_run (k : tick) (s : timeouts) : timeouts :=
  if k.(k_pcbs) then sys_timeout k.(k_now) TCP_TMR_INTERVAL tcpip_tcp_timer s
  else s <| tcpip_tcp_timer_active := false |>.

Definition cyclic_timer_run (c : cyclic_timer) (k : tick) (s : timeouts) : timeouts :=
  let now := wrap k.(k_now) in
  let next_timeout_time := wrap (s.(current_timeout_due_time) + interval_ms c) in
  if less_than next_timeout_time now then sys_timeout_abs (wrap (now + interval_ms c)) (lwip_cyclic_timer c) s
  else sys_timeout_abs next_timeout_time (lwip_cyclic_timer c) s.

Definition run_handler (h : handler) (k : tick) (s : timeouts) : timeouts :=
  let s := match k.(k_registered) with Some now => tcp_timer_needed true now s | None => s end in
  match h with
  | tcpip_tcp_timer => tcp_timer_run k s
  | lwip_cyclic_timer c => cyclic_timer_run c k s
  end.

Definition SYS_TIMEOUTS_SLEEPTIME_INFINITE : Z := 0xFFFFFFFF.

(** The state, the handlers run, in their order, and the return value; [None] is a loop
    that has not ended. *)
Fixpoint check_loop (fuel : nat) (now : Z) (ticks : nat → tick) (s : timeouts)
    : option (timeouts * list handler * Z) :=
  match fuel with
  | O => None
  | S fuel =>
    match s.(next_timeout) with
    | [] => Some (s, [], SYS_TIMEOUTS_SLEEPTIME_INFINITE)
    | t :: rest =>
      if less_than now t.(t_time) then Some (s, [], wrap (t.(t_time) - now))
      else
        let s := s <| next_timeout := rest |> <| current_timeout_due_time := t.(t_time) |> in
        let s := run_handler t.(t_h) (ticks 0%nat) s in
        '(s, ran, ret) ← check_loop fuel now (λ k, ticks (S k)) s;
        Some (s, t.(t_h) :: ran, ret)
    end
  end.

Definition sys_check_timeouts (now : Z) (ticks : nat → tick) (s : timeouts) : option (timeouts * list handler * Z) :=
  check_loop 7 (wrap now) ticks s.

Definition sys_restart_timeouts (now : Z) (s : timeouts) : timeouts :=
  match s.(next_timeout) with
  | [] => s
  | t :: _ =>
    let base := t.(t_time) in
    s <| next_timeout ::= fmap (λ t, Timeo (wrap (wrap (t.(t_time) - base) + wrap now)) t.(t_h)) |>
  end.

Definition sys_timeouts_sleeptime (now : Z) (s : timeouts) : Z :=
  match s.(next_timeout) with
  | [] => SYS_TIMEOUTS_SLEEPTIME_INFINITE
  | t :: _ =>
    if less_than t.(t_time) (wrap now) then 0 else wrap (t.(t_time) - wrap now)
  end.

(** ** Histories *)

(** The main loop looks at the timers, and connections are registered in between. *)
Inductive timer_event : Type := Check_timers (now : Z) (ticks : nat → tick) | Registers (now : Z).

(** The state and the handlers each event runs. *)
Fixpoint play_timers (evs : list timer_event) (s : timeouts) : option (timeouts * list (list handler)) :=
  match evs with
  | [] => Some (s, [])
  | Check_timers now ticks :: evs =>
    '(s, ran, _) ← sys_check_timeouts now ticks s;
    '(s, rans) ← play_timers evs s;
    Some (s, ran :: rans)
  | Registers now :: evs =>
    '(s, rans) ← play_timers evs (tcp_timer_needed true now s);
    Some (s, [] :: rans)
  end.

End timers.

(** Before [sys_timeouts_init]. *)
Definition timeouts_zero : timeouts := Timeouts [] 0 false.

(** ** The list on unbounded time *)

Definition before (a b : sys_timeo) : Prop := a.(t_time) <= b.(t_time).

(** The handlers that are to be in the list. *)
Definition wanted (s : timeouts) (h : handler) : Prop :=
  match h with tcpip_tcp_timer => s.(tcpip_tcp_timer_active) = true | lwip_cyclic_timer _ => True end.

(** Sorted, with due times from [lo] to [hi], and with each handler that is wanted exactly
    once, the one that is being run, [out], excepted. *)
Record timers_ok (lo hi : Z) (out : option handler) (s : timeouts) : Prop := {
  to_sorted : StronglySorted before s.(next_timeout);
  to_window : Forall (λ t, lo <= t.(t_time) <= hi) s.(next_timeout);
  to_nodup : NoDup (t_h <$> s.(next_timeout));
  to_wanted h : h ∈ t_h <$> s.(next_timeout) ↔ wanted s h ∧ out ≠ Some h
}.

Lemma timers_few lo hi out s : timers_ok lo hi out s → (length s.(next_timeout) <= 3)%nat.
Proof.
  intros [_ _ Hn _]. rewrite <- (length_fmap t_h).
  change 3%nat with (length [tcpip_tcp_timer; lwip_cyclic_timer ip_reass_tmr; lwip_cyclic_timer dns_tmr]).
  apply submseteq_length, NoDup_submseteq; [done|]. intros [|[|]] _; set_solver.
Qed.

Lemma timers_ok_weaken lo hi lo' hi' out s : lo' <= lo → hi <= hi' → timers_ok lo hi out s → timers_ok lo' hi' out s.
Proof.
  intros Hl Hh [H1 H2 H3 H4]. split; [done| |done|done]. eapply Forall_impl; [exact H2|]. cbv beta. lia.
Qed.

Section ideal.
#[local] Existing Instance time_ideal.

Lemma insert_perm x l : insert_timeo x l ≡ₚ x :: l.
Proof.
  induction l as [|t l IH]; cbn [insert_timeo]; [done|]. destruct (less_than _ _); [done|].
  rewrite IH. constructor.
Qed.

Lemma insert_sorted x l : StronglySorted before l → StronglySorted before (insert_timeo x l).
Proof.
  induction 1 as [|t l Hl IH Ht]; cbn [insert_timeo]; [repeat constructor|].
  cbn [less_than time_ideal]. destruct (Z.ltb_spec x.(t_time) t.(t_time)).
  - constructor; [by constructor|]. constructor; [unfold before; lia|].
    eapply Forall_impl; [exact Ht|]. unfold before. lia.
  - constructor; [done|]. rewrite insert_perm. constructor; [done|exact Ht].
Qed.

(** A handler that is wanted and not in the list is put into it. *)
Lemma timeout_abs_ok lo hi out out' s s' at_ h : timers_ok lo hi out s → lo <= at_ <= hi →
  s'.(next_timeout) = s.(next_timeout) → h ∉ t_h <$> s.(next_timeout) →
  (∀ h', h' ≠ h → wanted s' h' ∧ out' ≠ Some h' ↔ wanted s h' ∧ out ≠ Some h') → wanted s' h → out' ≠ Some h →
  timers_ok lo hi out' (sys_timeout_abs at_ h s').
Proof.
  intros Hok Ha El Hnot Hw Hh Ho. pose proof (timers_few _ _ _ _ Hok) as Hlen. destruct Hok as [H1 H2 H3 H4].
  unfold sys_timeout_abs. rewrite El. rewrite decide_False by (unfold MEMP_NUM_SYS_TIMEOUT; lia).
  split; cbn [modify next_timeout tcpip_tcp_timer_active]; rewrite ?El.
  - by apply insert_sorted.
  - rewrite insert_perm. by constructor.
  - rewrite insert_perm. cbn. by constructor.
  - intros h'. rewrite insert_perm. cbn [fmap list_fmap t_h]. rewrite elem_of_cons, H4.
    change (wanted (s' <| next_timeout ::= insert_timeo (Timeo at_ h) |>) h') with (wanted s' h').
    destruct (decide (h' = h)) as [->|Hne]; [naive_solver|]. rewrite (Hw h' Hne). naive_solver.
Qed.

Lemma timer_needed_ok lo hi out s pcbs now : timers_ok lo hi out s → out ≠ Some tcpip_tcp_timer →
  lo <= now + 250 <= hi → timers_ok lo hi out (tcp_timer_needed pcbs now s).
Proof.
  intros Hok Ho Hn. unfold tcp_timer_needed. destruct (tcpip_tcp_timer_active s) eqn:E; [done|].
  destruct pcbs; [|done]. cbn [negb andb]. unfold sys_timeout.
  apply (timeout_abs_ok lo hi out out s); try done.
  - rewrite (to_wanted _ _ _ _ Hok). cbn [wanted]. rewrite E. by intros [? _].
  - by intros [|c] Hc.
Qed.

(** What the handlers of a check find: times in order, from [now] to [fin]. *)
Definition tick_ok (now fin : Z) (k : tick) : Prop :=
  now <= k.(k_now) <= fin ∧ match k.(k_registered) with Some t => now <= t <= fin | None => True end.

Definition due_soon (now : Z) (s : timeouts) : Prop :=
  s.(current_timeout_due_time) <= now.

(** A handler that is run puts itself back, except that TCP's timer may end, and what it
    adds is not due before [now]: not at [now] either, unless it is a cyclic timer that
    was behind. *)
Lemma run_handler_ok lo now fin h k s : timers_ok lo (fin + 1000) (Some h) s → wanted s h → lo <= now →
  lo <= s.(current_timeout_due_time) <= now → tick_ok now fin k →
  timers_ok lo (fin + 1000) None (run_handler h k s).
Proof.
  intros Hok Hw Hl Hd [Hk Hr]. unfold run_handler, tcp_timer_run, cyclic_timer_run.
  set (s1 := match k_registered k with Some t => tcp_timer_needed true t s | None => s end).
  destruct h as [|c].
  - assert (s1 = s) as ->.
    { unfold s1, tcp_timer_needed. cbn in Hw. destruct (k_registered k); [|done]. by rewrite Hw. }
    assert (tcpip_tcp_timer ∉ t_h <$> next_timeout s) as Hnot by (rewrite (to_wanted _ _ _ _ Hok); tauto).
    destruct (k_pcbs k).
    + apply (timeout_abs_ok lo (fin + 1000) (Some tcpip_tcp_timer) None s); try done.
      * unfold TCP_TMR_INTERVAL. cbn [wrap time_ideal id]. unfold id. lia.
      * intros h' Hne. naive_solver.
    + destruct Hok as [H1 H2 H3 H4]. split; [done..|]. intros h. rewrite H4. destruct h as [|c]; cbn [wanted]; [|naive_solver].
      split; [by intros [_ ?]|]. by intros [? _].
  - assert (timers_ok lo (fin + 1000) (Some (lwip_cyclic_timer c)) s1 ∧
      current_timeout_due_time s1 = current_timeout_due_time s) as [Hok1 Hd1].
    { unfold s1. destruct (k_registered k) as [t|]; [|done]. split; [apply timer_needed_ok; [done|done|lia]|].
      unfold tcp_timer_needed, sys_timeout, sys_timeout_abs. by repeat case_match. }
    assert (lwip_cyclic_timer c ∉ t_h <$> next_timeout s1) as Hnot by (rewrite (to_wanted _ _ _ _ Hok1); tauto).
    cbn [wrap time_ideal less_than]. unfold id. rewrite Hd1.
    assert (interval_ms c = 1000) as -> by (by destruct c).
    destruct (Z.ltb_spec (current_timeout_due_time s + 1000) (k_now k));
      (apply (timeout_abs_ok lo (fin + 1000) (Some (lwip_cyclic_timer c)) None s1); try done; [lia|]);
      intros h' Hne; naive_solver.
Qed.

(** How often a timer can still fire in a check at [now]. *)
Definition due_weight (now : Z) (t : sys_timeo) : nat :=
  if now <? t.(t_time) then 0
  else match t.(t_h) with tcpip_tcp_timer => 1 | lwip_cyclic_timer _ => if t.(t_time) <? now then 2 else 1 end.

Definition weight (now : Z) (l : list sys_timeo) : nat := sum_list_with (due_weight now) l.

Lemma weight_later now t h : now < t → due_weight now (Timeo t h) = 0%nat.
Proof. intros Ht. unfold due_weight. cbn [t_time]. by rewrite (proj2 (Z.ltb_lt now t)). Qed.

Lemma weight_from now t h : now <= t → (due_weight now (Timeo t h) <= 1)%nat.
Proof.
  intros Ht. unfold due_weight. cbn [t_time t_h]. destruct (now <? t); [lia|]. destruct h; [lia|].
  by rewrite (proj2 (Z.ltb_ge t now)).
Qed.

Lemma abs_weight now at_ h s :
  (weight now (sys_timeout_abs at_ h s).(next_timeout) <= due_weight now (Timeo at_ h) + weight now s.(next_timeout))%nat.
Proof.
  unfold sys_timeout_abs. destruct (decide _); [lia|]. cbn [modify next_timeout]. unfold weight.
  rewrite insert_perm. cbn. lia.
Qed.

Lemma needed_weight now pcbs t s : now <= t → (weight now (tcp_timer_needed pcbs t s).(next_timeout) <= weight now s.(next_timeout))%nat.
Proof.
  intros Ht. unfold tcp_timer_needed. destruct (_ && pcbs); [|done]. unfold sys_timeout. etrans; [apply abs_weight|].
  rewrite weight_later; [done|]. unfold TCP_TMR_INTERVAL. cbn [wrap time_ideal]. unfold id. lia.
Qed.

Lemma needed_due pcbs t s : (tcp_timer_needed pcbs t s).(current_timeout_due_time) = s.(current_timeout_due_time).
Proof. unfold tcp_timer_needed, sys_timeout, sys_timeout_abs. by repeat case_match. Qed.

Lemma run_handler_weight now fin h k s : tick_ok now fin k → s.(current_timeout_due_time) <= now →
  (weight now (run_handler h k s).(next_timeout) < due_weight now (Timeo s.(current_timeout_due_time) h) + weight now s.(next_timeout))%nat.
Proof.
  intros [Hk Hr] Hd. unfold run_handler, tcp_timer_run, cyclic_timer_run.
  set (s1 := match k_registered k with Some t => tcp_timer_needed true t s | None => s end).
  assert (weight now s1.(next_timeout) <= weight now s.(next_timeout))%nat as Hs1.
  { unfold s1. destruct (k_registered k) as [t|]; [|done]. apply needed_weight. lia. }
  assert (current_timeout_due_time s1 = current_timeout_due_time s) as Hd1.
  { unfold s1. destruct (k_registered k) as [t|]; [|done]. apply needed_due. }
  unfold due_weight at 1. cbn [t_time t_h]. rewrite (proj2 (Z.ltb_ge now _)) by lia. destruct h as [|c].
  - destruct (k_pcbs k).
    + unfold sys_timeout. eapply Nat.le_lt_trans; [apply abs_weight|].
      rewrite weight_later by (unfold TCP_TMR_INTERVAL; cbn [wrap time_ideal]; unfold id; lia). lia.
    + change (next_timeout (s1 <| tcpip_tcp_timer_active := false |>)) with (next_timeout s1). lia.
  - cbn [wrap time_ideal less_than]. unfold id. rewrite Hd1. assert (interval_ms c = 1000) as -> by (by destruct c).
    destruct (Z.ltb_spec (current_timeout_due_time s + 1000) (k_now k)).
    + eapply Nat.le_lt_trans; [apply abs_weight|]. rewrite weight_later by lia. destruct (_ <? now); lia.
    + eapply Nat.le_lt_trans; [apply abs_weight|]. destruct (Z.ltb_spec (current_timeout_due_time s) now).
      * pose proof (weight_from now (current_timeout_due_time s + 1000) (lwip_cyclic_timer c) ltac:(lia)). lia.
      * rewrite weight_later by lia. lia.
Qed.

Lemma weight_few lo hi out s now : timers_ok lo hi out s → (weight now s.(next_timeout) <= 6)%nat.
Proof.
  intros Hok. pose proof (timers_few _ _ _ _ Hok) as Hl.
  assert (∀ l, weight now l <= 2 * length l)%nat as Hw; [|specialize (Hw s.(next_timeout)); lia].
  induction l as [|t l IH]; [done|]. cbn [weight sum_list_with length] in *. unfold weight in IH.
  assert (due_weight now t <= 2)%nat by (unfold due_weight; repeat case_match; lia). lia.
Qed.

(** What is in the list stays there until its time. *)
Lemma abs_keeps u at_ h s : u ∈ s.(next_timeout) → u ∈ (sys_timeout_abs at_ h s).(next_timeout).
Proof.
  intros Hu. unfold sys_timeout_abs. destruct (decide _); [done|]. cbn [modify next_timeout].
  rewrite insert_perm. by right.
Qed.

Lemma needed_keeps u pcbs now s : u ∈ s.(next_timeout) → u ∈ (tcp_timer_needed pcbs now s).(next_timeout).
Proof. intros Hu. unfold tcp_timer_needed, sys_timeout. destruct (_ && pcbs); [by apply abs_keeps|done]. Qed.

Lemma run_handler_keeps u h k s : u ∈ s.(next_timeout) → u ∈ (run_handler h k s).(next_timeout).
Proof.
  intros Hu. unfold run_handler, tcp_timer_run, cyclic_timer_run.
  set (s1 := match k_registered k with Some t => tcp_timer_needed true t s | None => s end).
  assert (u ∈ s1.(next_timeout)) as Hu1 by (unfold s1; destruct (k_registered k); [by apply needed_keeps|done]).
  destruct h; [destruct (k_pcbs k); [by apply abs_keeps|done]|]. case_match; by apply abs_keeps.
Qed.

(** The first timer fires. *)
Lemma fire_ok lo now fin t rest k s : lo <= now → timers_ok lo (fin + 1000) None s → s.(next_timeout) = t :: rest →
  t.(t_time) <= now → tick_ok now fin k →
  let s1 := s <| next_timeout := rest |> <| current_timeout_due_time := t.(t_time) |> in
  lo <= t.(t_time) ∧ timers_ok lo (fin + 1000) None (run_handler t.(t_h) k s1).
Proof.
  intros Hlo [H1 H2 H3 H4] El Hge Hk s1. rewrite El in *. cbn [fmap list_fmap] in H3, H4.
  apply Forall_cons in H2 as [Hw0 H2]. apply NoDup_cons in H3 as [Hnot H3]. inversion H1 as [|? ? Hs Hf]; subst.
  split; [lia|]. apply (run_handler_ok lo now fin); [| |done|cbn; lia|done].
  - split; [done|done|done|]. intros h. specialize (H4 h). rewrite elem_of_cons in H4.
    change (next_timeout s1) with rest. change (wanted s1 h) with (wanted s h).
    assert (Some t.(t_h) ≠ Some h ↔ h ≠ t.(t_h)) as -> by naive_solver.
    destruct (decide (h = t.(t_h))) as [->|Hne]; naive_solver.
  - change (wanted s t.(t_h)). apply (H4 t.(t_h)). set_solver.
Qed.

(** What a check promises: it ends, with the list in order again; whatever was due has
    run, nothing is due any more, and it returns the time that is left. *)
Lemma check_loop_ok fuel lo now fin ticks s : lo <= now → (weight now s.(next_timeout) < fuel)%nat →
  timers_ok lo (fin + 1000) None s → (∀ k, tick_ok now fin (ticks k)) →
  ∃ s' ran ret, check_loop fuel now ticks s = Some (s', ran, ret) ∧
    timers_ok (now + 1) (fin + 1000) None s' ∧
    (∀ t, t ∈ s.(next_timeout) → t.(t_time) <= now → t.(t_h) ∈ ran) ∧
    ret = match s'.(next_timeout) with [] => SYS_TIMEOUTS_SLEEPTIME_INFINITE | t :: _ => t.(t_time) - now end.
Proof.
  intros Hlo. revert ticks s. induction fuel as [|fuel IH]; intros ticks s Hw Hok Ht; [lia|]. cbn [check_loop].
  destruct (next_timeout s) as [|t rest] eqn:El.
  { eexists s, [], _. split; [done|]. rewrite El. split; [|split; [set_solver|done]].
    destruct Hok as [H1 H2 H3 H4]. rewrite El in *. split; rewrite ?El; done. }
  cbn [less_than time_ideal]. destruct (Z.ltb_spec now t.(t_time)) as [Hlt|Hge].
  { eexists s, [], _. split; [done|]. rewrite El. split; [|split; [|done]].
    - destruct Hok as [H1 H2 H3 H4]. split; [done| |done|done]. rewrite El in *.
      inversion H1 as [|? ? _ Hf]; subst. apply Forall_cons in H2 as [Hw0 H2]. constructor; [lia|].
      rewrite Forall_forall in Hf, H2 |- *. intros u Hu. specialize (Hf u Hu). specialize (H2 u Hu). unfold before in Hf. lia.
    - intros u Hu Hle. exfalso. destruct Hok as [H1 _ _ _]. rewrite El in H1. inversion H1 as [|? ? _ Hf]; subst.
      apply elem_of_cons in Hu as [->|Hu]; [lia|]. rewrite Forall_forall in Hf. specialize (Hf u Hu). unfold before in Hf. lia. }
  destruct (fire_ok lo now fin t rest (ticks 0%nat) s Hlo Hok El Hge (Ht 0%nat)) as [_ Hok2].
  set (s1 := s <| next_timeout := rest |> <| current_timeout_due_time := t.(t_time) |>) in *.
  pose proof (run_handler_weight now fin t.(t_h) (ticks 0%nat) s1 (Ht 0%nat) ltac:(cbn; lia)) as Hw2.
  assert (Timeo (current_timeout_due_time s1) (t_h t) = t) as Et by (by destruct t). rewrite Et in Hw2.
  change (next_timeout s1) with rest in Hw2. unfold weight in Hw, Hw2. cbn [sum_list_with] in Hw.
  destruct (IH (λ k, ticks (S k)) (run_handler t.(t_h) (ticks 0%nat) s1)) as (s' & ran & ret & -> & Hok' & Hran & Hret);
    [unfold weight; lia|done|done|].
  eexists _, _, _. split; [done|]. split; [done|]. split; [|done].
  intros u Hu Hle. apply elem_of_cons in Hu as [->|Hu]; [set_solver|]. apply elem_of_cons. right.
  apply Hran; [|done]. by apply run_handler_keeps.
Qed.

End ideal.

(** ** The code's clock *)

Definition on_clock (t : sys_timeo) : sys_timeo := Timeo (u32 t.(t_time)) t.(t_h).

(** The state as the code has it. *)
Definition clocked (s : timeouts) : timeouts :=
  Timeouts (on_clock <$> s.(next_timeout)) (u32 s.(current_timeout_due_time)) s.(tcpip_tcp_timer_active).

Lemma time_less_spec t s : - 2 ^ 31 < t - s < 2 ^ 31 → TIME_LESS_THAN (u32 t) (u32 s) = (t <? s).
Proof.
  intros Hd. unfold TIME_LESS_THAN, LWIP_MAX_TIMEOUT. rewrite !u32_mod, <- Zminus_mod, Z.gtb_ltb.
  destruct (Z.ltb_spec t s).
  - apply Z.ltb_lt. change (2 ^ 31) with 2147483648 in *. change (2 ^ 32) with 4294967296. Z.div_mod_to_equations. lia.
  - apply Z.ltb_ge. change (2 ^ 31) with 2147483648 in *. change (2 ^ 32) with 4294967296. Z.div_mod_to_equations. lia.
Qed.

Lemma u32_add a b : u32 (u32 a + b) = u32 (a + b).
Proof. by rewrite !u32_mod, Zplus_mod_idemp_l. Qed.

Section clock.
Context (lo hi : Z).
Hypothesis narrow : hi - lo < 2 ^ 31.

Definition inside (z : Z) : Prop := lo <= z <= hi.

Lemma insert_clock x l : inside x.(t_time) → Forall (λ t, inside t.(t_time)) l →
  @insert_timeo time32 (on_clock x) (on_clock <$> l) = on_clock <$> @insert_timeo time_ideal x l.
Proof.
  intros Hx. induction 1 as [|t l Ht Hl IH]; [done|]. rewrite fmap_cons. cbn [insert_timeo less_than time32 time_ideal].
  unfold inside in *. cbn [on_clock t_time]. rewrite time_less_spec by lia. destruct (_ <? _); [done|].
  by rewrite fmap_cons, <- IH.
Qed.

Definition all_inside (s : timeouts) : Prop := Forall (λ t, inside t.(t_time)) s.(next_timeout).

Lemma abs_clock at_ h s : inside at_ → all_inside s →
  @sys_timeout_abs time32 (u32 at_) h (clocked s) = clocked (@sys_timeout_abs time_ideal at_ h s).
Proof.
  intros Ha Hs. unfold sys_timeout_abs. cbn [clocked next_timeout]. rewrite length_fmap.
  destruct (decide _); [done|]. unfold clocked. cbn [modify next_timeout current_timeout_due_time tcpip_tcp_timer_active].
  change (Timeo (u32 at_) h) with (on_clock (Timeo at_ h)).
  rewrite <- (insert_clock (Timeo at_ h) s.(next_timeout)) by done. done.
Qed.

Lemma abs_inside at_ h s : inside at_ → all_inside s → all_inside (@sys_timeout_abs time_ideal at_ h s).
Proof.
  intros Ha Hs. unfold all_inside, sys_timeout_abs. destruct (decide _); [done|]. cbn [modify next_timeout].
  rewrite insert_perm. by constructor.
Qed.

Lemma timeout_clock now ms h s : inside (now + ms) → all_inside s →
  @sys_timeout time32 now ms h (clocked s) = clocked (@sys_timeout time_ideal now ms h s).
Proof.
  intros Hi Hs. unfold sys_timeout. cbn [wrap time32 time_ideal]. unfold id. rewrite u32_add. by apply abs_clock.
Qed.

Lemma needed_clock pcbs now s : inside (now + 250) → all_inside s →
  @tcp_timer_needed time32 pcbs now (clocked s) = clocked (@tcp_timer_needed time_ideal pcbs now s).
Proof.
  intros Hi Hs. unfold tcp_timer_needed. cbn [clocked tcpip_tcp_timer_active]. destruct (_ && pcbs); [|done].
  change (clocked s <| tcpip_tcp_timer_active := true |>) with (clocked (s <| tcpip_tcp_timer_active := true |>)).
  by apply timeout_clock.
Qed.

Lemma needed_inside pcbs now s : inside (now + 250) → all_inside s → all_inside (@tcp_timer_needed time_ideal pcbs now s).
Proof. intros Hi Hs. unfold tcp_timer_needed. destruct (_ && pcbs); [|done]. by apply abs_inside. Qed.

Lemma run_handler_clock now fin h k s : tick_ok now fin k → inside now → inside (fin + 1000) →
  inside s.(current_timeout_due_time) → s.(current_timeout_due_time) <= now → all_inside s →
  @run_handler time32 h k (clocked s) = clocked (@run_handler time_ideal h k s).
Proof.
  intros [Hk Hr] Hn Hf Hd Hd' Hs. unfold run_handler, tcp_timer_run, cyclic_timer_run, inside in *.
  set (s1 := match k_registered k with Some t => @tcp_timer_needed time_ideal true t s | None => s end).
  assert (all_inside s1) as Hs1.
  { unfold s1. destruct (k_registered k); [|done]. apply needed_inside; [unfold inside; lia|done]. }
  assert (current_timeout_due_time s1 = current_timeout_due_time s) as Hd1.
  { unfold s1. destruct (k_registered k); [|done]. apply needed_due. }
  replace (match k_registered k with Some t => @tcp_timer_needed time32 true t (clocked s) | None => clocked s end)
    with (clocked s1).
  2: { unfold s1. destruct (k_registered k); [|done]. symmetry. apply needed_clock; [unfold inside; lia|done]. }
  clearbody s1. destruct h as [|c].
  - destruct (k_pcbs k); [|done]. apply timeout_clock; [unfold inside, TCP_TMR_INTERVAL; lia|done].
  - cbn [wrap less_than time32 time_ideal]. unfold id.
    change (current_timeout_due_time (clocked s1)) with (u32 (current_timeout_due_time s1)). rewrite !u32_add, Hd1.
    assert (interval_ms c = 1000) as -> by (by destruct c). rewrite time_less_spec by lia.
    destruct (_ <? _); (apply abs_clock; [unfold inside; lia|done]).
Qed.
End clock.

Definition clock_result (r : timeouts * list handler * Z) : timeouts * list handler * Z :=
  let '(s, ran, ret) := r in (clocked s, ran, ret).

Lemma check_loop_clock fuel lo now fin ticks s : lo <= now → now <= fin → fin + 1000 - lo < 2 ^ 31 →
  timers_ok lo (fin + 1000) None s → (∀ k, tick_ok now fin (ticks k)) →
  @check_loop time32 fuel (u32 now) ticks (clocked s) = clock_result <$> @check_loop time_ideal fuel now ticks s.
Proof.
  intros Hlo Hfin Hn. revert ticks s. induction fuel as [|fuel IH]; intros ticks s Hok Ht; [done|]. cbn [check_loop].
  change (next_timeout (clocked s)) with (on_clock <$> next_timeout s).
  destruct (next_timeout s) as [|t rest] eqn:El; [done|]. rewrite fmap_cons.
  pose proof (to_window _ _ _ _ Hok) as Hw. rewrite El in Hw. apply Forall_cons in Hw as [Hw0 Hw].
  cbn [less_than wrap time32 time_ideal on_clock t_time t_h]. unfold id. rewrite time_less_spec by lia.
  destruct (Z.ltb_spec now t.(t_time)) as [Hlt|Hge].
  { cbn [fmap option_fmap option_map clock_result]. do 2 f_equal.
    rewrite u32_mod, !u32_mod, <- Zminus_mod. apply Z.mod_small. lia. }
  destruct (fire_ok lo now fin t rest (ticks 0%nat) s Hlo Hok El Hge (Ht 0%nat)) as [Hd Hok2].
  set (s1 := s <| next_timeout := rest |> <| current_timeout_due_time := t.(t_time) |>) in *.
  change (clocked s <| next_timeout := on_clock <$> rest |> <| current_timeout_due_time := u32 (t_time t) |>) with (clocked s1).
  rewrite (run_handler_clock lo (fin + 1000) Hn now fin); [|done|by split; lia|by split; lia|by cbn; split; lia|done|done].
  rewrite (IH _ _ Hok2) by done. by destruct (check_loop _ _ _ _) as [[[s' ran] ret]|].
Qed.

(** A check, on either clock. *)
Lemma check_ok lo now fin ticks s : lo <= now → now <= fin → fin + 1000 - lo < 2 ^ 31 →
  timers_ok lo (fin + 1000) None s → (∀ k, tick_ok now fin (ticks k)) →
  ∃ s' ran ret, @sys_check_timeouts time_ideal now ticks s = Some (s', ran, ret) ∧
    @sys_check_timeouts time32 now ticks (clocked s) = Some (clocked s', ran, ret) ∧
    timers_ok (now + 1) (fin + 1000) None s' ∧
    (∀ t, t ∈ s.(next_timeout) → t.(t_time) <= now → t.(t_h) ∈ ran) ∧
    ret = match s'.(next_timeout) with [] => SYS_TIMEOUTS_SLEEPTIME_INFINITE | t :: _ => t.(t_time) - now end.
Proof.
  intros Hlo Hfin Hn Hok Ht. unfold sys_check_timeouts. cbn [wrap time32 time_ideal]. unfold id.
  rewrite (check_loop_clock 7 lo now fin) by done.
  destruct (check_loop_ok 7 lo now fin ticks s) as (s' & ran & ret & -> & Hrest); [done| |done|done|].
  { pose proof (weight_few _ _ _ _ now Hok). lia. }
  exists s', ran, ret. split; [done|]. split; [done|exact Hrest].
Qed.

(** Time goes on, and less than [2 ^ 31] milliseconds pass from one check, which started
    at [c], to the end of the next; [t] is the time of the last event. *)
Fixpoint timely (c t : Z) (evs : list timer_event) : Prop :=
  match evs with
  | [] => True
  | Check_timers now ticks :: evs =>
    t <= now ∧ ∃ fin, now <= fin ∧ (∀ k, tick_ok now fin (ticks k)) ∧ fin + 1000 - c < 2 ^ 31 ∧ timely now fin evs
  | Registers now :: evs => t <= now ∧ now + 1000 - c < 2 ^ 31 ∧ timely c now evs
  end.

Lemma init_ideal t0 : @sys_timeouts_init time_ideal t0 timeouts_zero =
  Timeouts [Timeo (t0 + 1000) (lwip_cyclic_timer ip_reass_tmr); Timeo (t0 + 1000) (lwip_cyclic_timer dns_tmr)] 0 false.
Proof. cbv -[Z.add Z.ltb]. by rewrite Z.ltb_irrefl. Qed.

Lemma init_ok t0 : @sys_timeouts_init time32 t0 timeouts_zero = clocked (@sys_timeouts_init time_ideal t0 timeouts_zero) ∧
  timers_ok t0 (t0 + 1000) None (@sys_timeouts_init time_ideal t0 timeouts_zero).
Proof.
  rewrite init_ideal. split.
  - cbv -[Z.add TIME_LESS_THAN u32]. rewrite !u32_add.
    rewrite time_less_spec by lia. by rewrite Z.ltb_irrefl.
  - split; cbn [next_timeout tcpip_tcp_timer_active fmap list_fmap t_h].
    + repeat constructor. unfold before. cbn. lia.
    + repeat constructor; cbn; lia.
    + apply NoDup_cons. split; [set_solver|]. apply NoDup_cons. split; [set_solver|apply NoDup_nil_2].
    + intros [|[|]]; cbn [wanted tcpip_tcp_timer_active]; set_solver.
Qed.

Lemma timely_play evs c t s ev : c <= t → timers_ok c (t + 1000) None s → timely c t (evs ++ [ev]) →
  ∃ c' t' s' rans, @play_timers time_ideal evs s = Some (s', rans) ∧ @play_timers time32 evs (clocked s) = Some (clocked s', rans) ∧
    c' <= t' ∧ timers_ok c' (t' + 1000) None s' ∧ timely c' t' [ev].
Proof.
  revert c t s. induction evs as [|e evs IH]; intros c t s Hct Hok Ht.
  { by exists c, t, s, []. }
  cbn [app timely play_timers] in *. destruct e as [now ticks|now].
  - destruct Ht as (Hn & fin & Hfin & Hticks & Hgap & Ht).
    destruct (check_ok c now fin ticks s) as (s1 & ran & ret & -> & -> & Hok1 & _);
      [lia|done|done|by eapply timers_ok_weaken; [| |exact Hok]; lia|done|]. cbn [mbind option_bind].
    destruct (IH now fin s1) as (c' & t' & s' & rans & -> & -> & Hrest);
      [done|by eapply timers_ok_weaken; [| |exact Hok1]; lia|done|]. cbn [mbind option_bind].
    by exists c', t', s', (ran :: rans).
  - destruct Ht as (Hn & Hgap & Ht).
    assert (timers_ok c (now + 1000) None s) as Hok0 by (by eapply timers_ok_weaken; [| |exact Hok]; lia).
    rewrite (needed_clock c (now + 1000)) by (first [lia|split; lia|exact (to_window _ _ _ _ Hok0)]).
    destruct (IH c now (@tcp_timer_needed time_ideal true now s)) as (c' & t' & s' & rans & -> & -> & Hrest);
      [lia|by apply timer_needed_ok; [|done|lia]|done|]. cbn [mbind option_bind].
    by exists c', t', s', ([] :: rans).
Qed.

(** The operations no one here calls: the time left is that of unbounded time or zero; a
    list rebased keeps its distances; and what is taken off is one timer. *)
Lemma sleeptime_clock lo hi now s t rest : hi - lo < 2 ^ 31 → lo <= now <= hi → timers_ok lo hi None s →
  s.(next_timeout) = t :: rest →
  @sys_timeouts_sleeptime time32 now (clocked s) = Z.max 0 (t.(t_time) - now).
Proof.
  intros Hn Hw Hok El. pose proof (to_window _ _ _ _ Hok) as Hf. rewrite El in Hf. apply Forall_cons in Hf as [Ht _].
  unfold sys_timeouts_sleeptime. change (next_timeout (clocked s)) with (on_clock <$> next_timeout s). rewrite El, fmap_cons.
  cbn [less_than wrap time32 on_clock t_time]. rewrite time_less_spec by lia.
  destruct (Z.ltb_spec t.(t_time) now); [lia|]. rewrite !u32_mod, <- Zminus_mod, Z.mod_small by lia. lia.
Qed.

Lemma restart_clock now s t rest : s.(next_timeout) = t :: rest →
  (@sys_restart_timeouts time32 now (clocked s)).(next_timeout) =
  (λ u, Timeo (u32 (now + (u.(t_time) - t.(t_time)))) u.(t_h)) <$> s.(next_timeout).
Proof.
  intros El. unfold sys_restart_timeouts. change (next_timeout (clocked s)) with (on_clock <$> next_timeout s).
  rewrite El, fmap_cons. cbn [modify next_timeout]. change (next_timeout (clocked s)) with (on_clock <$> next_timeout s).
  rewrite El. change (on_clock t :: (on_clock <$> rest)) with (on_clock <$> (t :: rest)). rewrite <- list_fmap_compose.
  apply list_fmap_ext. intros i u _. unfold compose. cbn [on_clock t_time t_h wrap time32]. f_equal.
  rewrite !u32_mod, <- Zminus_mod, <- Zplus_mod. f_equal. lia.
Qed.

Lemma untimeout_spec h l : h ∈ t_h <$> l → ∃ pre t post, l = pre ++ t :: post ∧ t.(t_h) = h ∧
  remove_first h l = pre ++ post ∧ h ∉ t_h <$> pre.
Proof.
  induction l as [|t l IH]; cbn [remove_first fmap list_fmap]; [by intros Hc%not_elem_of_nil|].
  intros Hin. destruct (decide (t.(t_h) = h)) as [E|E].
  - exists [], t, l. split_and!; [done..|]. by apply not_elem_of_nil.
  - apply elem_of_cons in Hin as [Hc|Hin]; [by rewrite Hc in E|].
    destruct (IH Hin) as (pre & u & post & -> & Hu & -> & Hp). exists (t :: pre), u, post. split_and!; [done..|].
    cbn. rewrite not_elem_of_cons. split; [by intros Hc; rewrite Hc in E|done].
Qed.

(** ** Properties *)

(** C29: lwIP's timers survive the wrap of their clock. As long as less than [2 ^ 31]
    milliseconds pass from one check to the next, the list kept in 32 bits does along
    every history exactly what it would do on unbounded time: each check ends, runs
    whatever was due when it started, leaves nothing due, returns the time until the next
    timer, and both cyclic timers stay in the list, which never outgrows its pool. *)
Theorem timers_refine (t0 : Z) (evs : list timer_event) (now : Z) (ticks : nat → tick) :
  timely t0 t0 (evs ++ [Check_timers now ticks]) →
  ∃ s rans s' ran ret,
    @play_timers time_ideal evs (@sys_timeouts_init time_ideal t0 timeouts_zero) = Some (s, rans) ∧
    @play_timers time32 evs (@sys_timeouts_init time32 t0 timeouts_zero) = Some (clocked s, rans) ∧
    @sys_check_timeouts time32 now ticks (clocked s) = Some (clocked s', ran, ret) ∧
    (∀ t, t ∈ s.(next_timeout) → t.(t_time) <= now → t.(t_h) ∈ ran) ∧
    (∀ t, t ∈ s'.(next_timeout) → now < t.(t_time)) ∧
    (∀ c, lwip_cyclic_timer c ∈ t_h <$> s'.(next_timeout)) ∧
    (length s'.(next_timeout) < MEMP_NUM_SYS_TIMEOUT)%nat ∧
    ∃ t rest, s'.(next_timeout) = t :: rest ∧ ret = t.(t_time) - now ∧
      Forall (λ u, t.(t_time) <= u.(t_time)) rest.
Proof.
  intros Ht. destruct (init_ok t0) as [-> Hi].
  destruct (timely_play evs t0 t0 _ _ ltac:(lia) Hi Ht) as (c & t & s & rans & -> & -> & Hct & Hok & Hlast).
  destruct Hlast as (Hn & fin & Hfin & Hticks & Hgap & _).
  destruct (check_ok c now fin ticks s) as (s' & ran & ret & _ & E & Hok' & Hran & Hret);
    [lia|done|done|by eapply timers_ok_weaken; [| |exact Hok]; lia|done|].
  exists s, rans, s', ran, ret. split; [done|]. split; [done|]. split; [done|]. split; [done|].
  pose proof (timers_few _ _ _ _ Hok') as Hlen. destruct Hok' as [H1 H2 H3 H4].
  assert (∀ c, lwip_cyclic_timer c ∈ t_h <$> s'.(next_timeout)) as Hc by (intros c'; apply H4; by split).
  split; [|split; [done|split; [unfold MEMP_NUM_SYS_TIMEOUT; lia|]]].
  - intros u Hu. rewrite Forall_forall in H2. specialize (H2 u Hu). lia.
  - destruct (next_timeout s') as [|u rest]; [by specialize (Hc dns_tmr); apply not_elem_of_nil in Hc|].
    exists u, rest. inversion H1; subst. by split_and!.
Qed.

(** Past that they do not: when between [2 ^ 31] and [2 ^ 32] milliseconds have passed
    since every timer was due, which a console asleep for 25 days can bring about, the
    check takes them all for timers of the future and runs none. *)
Theorem long_sleep_stalls (s : timeouts) (now : Z) (ticks : nat → tick) :
  s.(next_timeout) ≠ [] → Forall (λ t, 2 ^ 31 <= now - t.(t_time) < 2 ^ 32) s.(next_timeout) →
  ∃ ret, @sys_check_timeouts time32 now ticks (clocked s) = Some (clocked s, [], ret) ∧ 0 < ret.
Proof.
  intros Hne Hf. unfold sys_check_timeouts. cbn [check_loop]. change (next_timeout (clocked s)) with (on_clock <$> next_timeout s).
  destruct (next_timeout s) as [|t rest]; [done|]. apply Forall_cons in Hf as [Ht _]. rewrite fmap_cons.
  cbn [less_than wrap time32 on_clock t_time]. unfold TIME_LESS_THAN, LWIP_MAX_TIMEOUT.
  rewrite !u32_mod, <- !Zminus_mod. change (2 ^ 31) with 2147483648 in *. change (2 ^ 32) with 4294967296 in *.
  rewrite Z.gtb_ltb, (proj2 (Z.ltb_lt _ _)) by (Z.div_mod_to_equations; lia).
  eexists. split; [done|]. Z.div_mod_to_equations. lia.
Qed.

(** ** Witnesses *)

Definition ticks_at (now : Z) : nat → tick := λ _, Tick now None true.

(** Half a second before the clock wraps; a connection is registered, TCP's timer runs
    before the wrap, and the check after it finds all three timers due. *)
Definition wrap_start : Z := 2 ^ 32 - 500.
Definition wrap_history : list timer_event :=
  [Registers (wrap_start + 10); Check_timers (wrap_start + 260) (ticks_at (wrap_start + 260))].

Lemma timers_refine_witness : ∃ s s' ran ret,
  @play_timers time32 wrap_history (@sys_timeouts_init time32 wrap_start timeouts_zero) =
    Some (clocked s, [[]; [tcpip_tcp_timer]]) ∧
  @sys_check_timeouts time32 (wrap_start + 1010) (ticks_at (wrap_start + 1010)) (clocked s) = Some (clocked s', ran, ret) ∧
  (∀ t, t ∈ s'.(next_timeout) → wrap_start + 1010 < t.(t_time)) ∧
  lwip_cyclic_timer dns_tmr ∈ t_h <$> s'.(next_timeout).
Proof.
  destruct (timers_refine wrap_start wrap_history (wrap_start + 1010) (ticks_at (wrap_start + 1010)))
    as (s & rans & s' & ran & ret & Hi & H32 & Hc & _ & Hlater & Hcyclic & _).
  - cbn [app timely wrap_history]. unfold wrap_start. split; [lia|]. split; [lia|]. split; [lia|].
    exists (2 ^ 32 - 500 + 260). split; [lia|]. split; [intros k; split; [cbn; lia|done]|]. split; [lia|]. split; [lia|].
    exists (2 ^ 32 - 500 + 1010). split; [lia|]. split; [intros k; split; [cbn; lia|done]|]. split; [lia|done].
  - exists s, s', ran, ret. split; [|split; [done|split; [done|apply Hcyclic]]].
    rewrite H32. vm_compute in Hi. injection Hi as _ <-. done.
Defined.

(** A month's sleep, after which TCP's retransmissions, for one, wait for another. *)
Lemma long_sleep_stalls_witness : ∃ ret,
  @sys_check_timeouts time32 (30 * 86400 * 1000) (ticks_at 0) (@sys_timeouts_init time32 0 timeouts_zero) =
    Some (@sys_timeouts_init time32 0 timeouts_zero, [], ret) ∧ 0 < ret.
Proof.
  destruct (init_ok 0) as [-> _]. rewrite init_ideal. apply long_sleep_stalls; [done|].
  repeat (apply Forall_cons_2; [cbn; lia|]). apply Forall_nil_2.
Defined.
