(* ===== verification/Pbuf.v ===== *)
(** * lwip/core/pbuf.c: packet buffers, as far as the tunnel uses them

    A chain of pbufs is the list of the payloads of its links; [len] of a link is the
    length of its payload and [tot_len] of the chain the sum, the invariant lwIP keeps.
    Modelled are the copy out of a chain and the copy into one. *)
From S2P Require Import Prelude.

Abbreviation pbuf := (list (list Z)).

Definition tot_len (p : pbuf) : Z := zlen (concat p).

(** The bytes written to [dataptr]; the code returns their number. *)
Fixpoint pbuf_copy_partial (p : pbuf) (len offset : Z) : list Z :=
  match p with
  | [] => []
  | link :: next =>
    if len =? 0 then []
    else if negb (offset =? 0) && (zlen link <=? offset)
    then pbuf_copy_partial next len (u16 (offset - zlen link))
    else
      let n := u16 (zlen link - offset) in
      let n := if len <? n then len else n in
      ztake n (zdrop offset link) ++ pbuf_copy_partial next (u16 (len - n)) 0
  end.

(** Filling the links one after the other; [Fault] is the failed assertion. *)
Fixpoint pbuf_take_loop (p : pbuf) (data : list Z) : res pbuf :=
  match data, p with
  | [], _ => Ok p
  | _, [] => Fault
  | _, link :: next =>
    let n := if zlen link <? zlen data then zlen link else zlen data in
    next ← pbuf_take_loop next (zdrop n data);
    mret (blit 0 (ztake n data) link :: next)
  end.

(** [Err] is [ERR_MEM]. *)
Definition pbuf_take (p : pbuf) (data : list Z) : res pbuf :=
  if tot_len p <? zlen data then Err else pbuf_take_loop p data.

(** ** What the copies do *)

Lemma tot_len_cons link p : tot_len (link :: p) = zlen link + tot_len p.
Proof. unfold tot_len. cbn [concat]. by rewrite zlen_app. Qed.

Lemma ztake_all {A} (l : list A) n : zlen l <= n → ztake n l = l.
Proof. intros Hn. apply take_ge. unfold zlen in Hn. lia. Qed.

Lemma ztake_app_le {A} n (l k : list A) : 0 <= n <= zlen l → ztake n (l ++ k) = ztake n l.
Proof. intros Hn. unfold ztake, zlen in *. by rewrite take_app_le by lia. Qed.

Lemma ztake_app_ge {A} n (l k : list A) : zlen l <= n → ztake n (l ++ k) = l ++ ztake (n - zlen l) k.
Proof.
  intros Hn. unfold ztake, zlen in *. rewrite take_app_ge by lia. repeat f_equal. lia.
Qed.

Lemma zlen_ztake {A} n (l : list A) : 0 <= n <= zlen l → zlen (ztake n l) = n.
Proof. unfold ztake, zlen. rewrite length_take. lia. Qed.

(** From any offset, as many of the chain's bytes as there are, up to [len]. *)
Lemma pbuf_copy_partial_spec p len offset : tot_len p < 65536 → 0 <= len < 65536 → 0 <= offset < 65536 →
  pbuf_copy_partial p len offset = ztake len (zdrop offset (concat p)).
Proof.
  revert len offset. induction p as [|link p IH]; intros len offset Ht Hl Ho.
  { cbn. unfold ztake, zdrop. by rewrite drop_nil, take_nil. }
  rewrite tot_len_cons in Ht. pose proof (zlen_nonneg link). pose proof (zlen_nonneg (concat p)).
  unfold tot_len in *. cbn [pbuf_copy_partial concat].
  destruct (Z.eqb_spec len 0) as [->|Hl0]; [done|].
  destruct (Z.leb_spec (zlen link) offset) as [Hle|Hlt].
  - destruct (Z.eqb_spec offset 0) as [->|Ho0]; cbn [negb andb].
    + assert (zlen link = 0) as E by lia. rewrite (nil_length_inv link) by (unfold zlen in E; lia).
      change (zlen (@nil Z)) with 0. rewrite Z.sub_0_r. change (u16 0) with 0.
      rewrite (proj2 (Z.ltb_ge len 0)) by lia. rewrite Z.sub_0_r, u16_small by (unfold is_u; lia).
      rewrite IH by lia. done.
    + rewrite u16_small, IH by (unfold is_u; lia). unfold zdrop, zlen in *.
      rewrite drop_app_ge by lia. repeat f_equal. lia.
  - rewrite andb_false_r. rewrite (u16_small (zlen link - offset)) by (unfold is_u; lia).
    assert (zdrop offset (link ++ concat p) = zdrop offset link ++ concat p) as ->.
    { unfold zdrop, zlen in *. by rewrite drop_app_le by lia. }
    assert (zlen (zdrop offset link) = zlen link - offset) as Hz by (apply zlen_zdrop; lia).
    destruct (Z.ltb_spec len (zlen link - offset)) as [Hs|Hs].
    + rewrite Z.sub_diag. change (u16 0) with 0. rewrite IH by lia.
      change (ztake 0 (zdrop 0 (concat p))) with (@nil Z). rewrite app_nil_r. symmetry. apply ztake_app_le. lia.
    + rewrite u16_small, IH by (unfold is_u; lia). rewrite ztake_app_ge by lia.
      rewrite Hz. f_equal. by apply ztake_all; lia.
Qed.

Lemma pbuf_take_loop_spec p data : zlen data <= tot_len p →
  ∃ p', pbuf_take_loop p data = Ok p' ∧ concat p' = data ++ zdrop (zlen data) (concat p) ∧
    zlen <$> p' = zlen <$> p.
Proof.
  revert data. induction p as [|link p IH]; intros data Hd.
  { unfold tot_len in Hd. change (zlen (concat [])) with 0 in Hd. destruct data; [by exists []|].
    rewrite zlen_cons in Hd. pose proof (zlen_nonneg data). lia. }
  destruct data as [|x data]; [by exists (link :: p)|]. cbn [pbuf_take_loop].
  set (d := x :: data) in *. rewrite tot_len_cons in Hd.
  set (n := if zlen link <? zlen d then zlen link else zlen d).
  pose proof (zlen_nonneg link). pose proof (zlen_nonneg d). assert (0 <= tot_len p) by apply zlen_nonneg.
  assert (n = Z.min (zlen link) (zlen d)) as Hn by (unfold n; case_match; lia).
  rewrite Hn. clear n Hn. set (n := Z.min _ _).
  destruct (IH (zdrop n d)) as (p' & -> & Hc & Hz); [rewrite zlen_zdrop by lia; unfold n; lia|].
  cbn [mbind res_bind]. eexists. split; [reflexivity|]. cbn [concat]. rewrite !fmap_cons, Hc, Hz. split.
  - rewrite zlen_zdrop by lia. destruct (Z.leb_spec (zlen link) (zlen d)).
    + replace n with (zlen link) by (unfold n; lia).
      assert (blit 0 (ztake (zlen link) d) link = ztake (zlen link) d) as ->.
      { unfold blit, ztake, zlen in *. cbn [take]. rewrite length_take, drop_ge by lia. by rewrite app_nil_r. }
      rewrite app_assoc. unfold ztake, zdrop at 1. rewrite take_drop. f_equal.
      unfold zdrop, zlen in *. rewrite drop_app_ge by lia. repeat f_equal. lia.
    + replace n with (zlen d) by (unfold n; lia). rewrite ztake_all by lia.
      assert (zdrop (zlen d) d = []) as -> by (apply drop_ge; unfold zlen; lia).
      rewrite Z.sub_diag. unfold blit, zdrop, zlen in *. cbn [take app Nat.add].
      rewrite drop_app_le, Nat2Z.id by lia. change (Z.to_nat 0) with 0%nat.
      rewrite take_0, drop_0. cbn [app]. by rewrite <- app_assoc.
  - assert (zlen (ztake n d) = n) as Hl by (apply zlen_ztake; lia). f_equal. unfold zlen in *.
    rewrite length_blit; [done|]. lia.
Qed.

(** A chain that is exactly as long as the data holds it after the copy. *)
Lemma pbuf_take_exact p data : tot_len p = zlen data →
  ∃ p', pbuf_take p data = Ok p' ∧ concat p' = data.
Proof.
  intros Ht. unfold pbuf_take. rewrite Ht, Z.ltb_irrefl.
  destruct (pbuf_take_loop_spec p data) as (p' & -> & Hc & _); [lia|]. exists p'. split; [done|].
  rewrite Hc, <- Ht. unfold zdrop, tot_len. rewrite drop_ge by (unfold zlen; lia). apply app_nil_r.
Qed.

(** The whole chain, flattened. *)
Lemma pbuf_copy_all p : tot_len p < 65536 → pbuf_copy_partial p (tot_len p) 0 = concat p.
Proof.
  intros Ht. pose proof (zlen_nonneg (concat p)). rewrite pbuf_copy_partial_spec by (unfold tot_len in *; lia).
  by apply ztake_all.
Qed.
