(* ===== verification/PbufPool.v ===== *)
(** * lwip/core/memp.c and lwip/core/pbuf.c: the pool of packet buffers

    The packets that come out of the tunnel live in chains of pbufs taken from a pool of
    [PBUF_POOL_SIZE] blocks; the proxy keeps such chains, lengthens and frees them. Here
    the blocks are the cells of a memory, with their [next] pointers, reference counts
    and lengths, and the free ones are the list the allocator keeps. A chain that the
    rest of the library writes as a list of payloads is shown to be laid out in it
    ([holds]), beside whatever else is there.

    An access to a block that is not allocated is a [Fault], and so is a failed
    assertion, which this build would pass over ([LWIP_PLATFORM_ASSERT] is empty). *)
From stdpp Require Import fin_maps gmap.
From S2P Require Import Prelude Pbuf.

(** ** The pool *)

Definition PBUF_POOL_SIZE : Z := 24.
Definition PBUF_POOL_BUFSIZE_ALIGNED : Z := 1500.
Definition LWIP_MEM_ALIGN_SIZE (size : Z) : Z := Z.land (size + 3) (Z.lnot 3).

(** [len] is the length of [p_payload]; type and flags are the same for all of them. *)
Record cell := Cell { p_next : option Z; p_payload : list Z; p_tot_len : Z; p_ref : Z }.

#[export] Instance cell_eta : Eta cell := λ c, Cell c.(p_next) c.(p_payload) c.(p_tot_len) c.(p_ref).

(** The allocated blocks, the free ones from the first on, and the statistics. *)
Record pool := Pool { cells : gmap Z cell; tab : list Z; used : Z; max_used : Z; alloc_err : Z }.

#[export] Instance pool_eta : Eta pool := λ P, Pool P.(cells) P.(tab) P.(used) P.(max_used) P.(alloc_err).

(** All blocks free, each pushed in front of those before it. *)
Definition memp_init_pool (num : Z) : pool :=
  Pool ∅ (foldl (λ tab i, Z.of_nat i :: tab) [] (seq 0 (Z.to_nat num))) 0 0 0.

Definition pool_init : pool := memp_init_pool PBUF_POOL_SIZE.

Definition memp_malloc (P : pool) : option Z * pool :=
  match P.(tab) with
  | [] => (None, P <| alloc_err ::= λ e, u16 (e + 1) |>)
  | a :: rest =>
    let n := u16 (P.(used) + 1) in
    (Some a, P <| tab := rest |> <| used := n |> <| max_used ::= λ m, if m <? n then n else m |>)
  end.

Definition memp_free (P : pool) (a : Z) : pool :=
  P <| cells ::= delete a |> <| tab ::= cons a |> <| used ::= λ n, u16 (n - 1) |>.

Definition deref (P : pool) (a : Z) : res cell :=
  match P.(cells) !! a with Some c => Ok c | None => Fault end.

Definition store (P : pool) (a : Z) (c : cell) : pool := P <| cells ::= <[a := c]> |>.

(** ** Reference counts *)

(** Fuel that runs out is a [Fault]. *)
Fixpoint free_loop (fuel : nat) (P : pool) (p : option Z) (count : Z) : res (pool * Z) :=
  match p, fuel with
  | None, _ => Ok (P, count)
  | Some _, O => Fault
  | Some a, S fuel =>
    c ← deref P a;
    if c.(p_ref) <=? 0 then Fault
    else
      let ref := u8 (c.(p_ref) - 1) in
      if ref =? 0 then free_loop fuel (memp_free P a) c.(p_next) (u8 (count + 1))
      else Ok (store P a (c <| p_ref := ref |>), count)
  end.

(** The number of blocks freed is a [u8_t]. *)
Definition pbuf_free (P : pool) (p : option Z) : res (pool * Z) :=
  free_loop (S (size P.(cells))) P p 0.

Definition pbuf_ref (P : pool) (p : option Z) : res pool :=
  match p with
  | None => Ok P
  | Some a =>
    c ← deref P a;
    let ref := u8 (c.(p_ref) + 1) in
    if ref <=? 0 then Fault else mret (store P a (c <| p_ref := ref |>))
  end.

Fixpoint clen_loop (fuel : nat) (P : pool) (p : option Z) (len : Z) : res Z :=
  match p, fuel with
  | None, _ => Ok len
  | Some _, O => Fault
  | Some a, S fuel => c ← deref P a; clen_loop fuel P c.(p_next) (u16 (len + 1))
  end.

Definition pbuf_clen (P : pool) (p : option Z) : res Z := clen_loop (S (size P.(cells))) P p 0.

(** ** Chains *)

(** From [p] on to the last pbuf, which gets [t] behind it. *)
Fixpoint cat_loop (fuel : nat) (P : pool) (p t : Z) : res pool :=
  match fuel with
  | O => Fault
  | S fuel =>
    c ← deref P p;
    ct ← deref P t;
    match c.(p_next) with
    | Some q => cat_loop fuel (store P p (c <| p_tot_len := u16 (c.(p_tot_len) + ct.(p_tot_len)) |>)) q t
    | None =>
      if negb (c.(p_tot_len) =? zlen c.(p_payload)) then Fault
      else mret (store P p (c <| p_tot_len := u16 (c.(p_tot_len) + ct.(p_tot_len)) |> <| p_next := Some t |>))
    end
  end.

Definition pbuf_cat (P : pool) (h t : option Z) : res pool :=
  match h, t with
  | Some h, Some t => if h =? t then Fault else cat_loop (S (size P.(cells))) P h t
  | _, _ => Ok P
  end.

Definition pbuf_chain (P : pool) (h t : option Z) : res pool :=
  P ← pbuf_cat P h t; pbuf_ref P t.

Definition pbuf_dechain (P : pool) (p : Z) : res (pool * option Z) :=
  c ← deref P p;
  match c.(p_next) with
  | None => if negb (c.(p_tot_len) =? zlen c.(p_payload)) then Fault else mret (P, None)
  | Some q =>
    cq ← deref P q;
    let rest := c.(p_tot_len) - zlen c.(p_payload) in
    if negb (cq.(p_tot_len) =? rest) then Fault
    else
      let P := store P q (cq <| p_tot_len := u16 rest |>) in
      let P := store P p (c <| p_next := None |> <| p_tot_len := zlen c.(p_payload) |>) in
      '(P, tail_gone) ← pbuf_free P (Some q);
      mret (P, if 0 <? tail_gone then None else Some q)
  end.

(** Stepping over the pbufs that stay; returns the new last one and its length. *)
Fixpoint realloc_loop (fuel : nat) (P : pool) (q rem_len shrink : Z) : res (pool * Z * Z) :=
  match fuel with
  | O => Fault
  | S fuel =>
    c ← deref P q;
    if zlen c.(p_payload) <? rem_len then
      let P := store P q (c <| p_tot_len := u16 (c.(p_tot_len) - shrink) |>) in
      match c.(p_next) with
      | None => Fault
      | Some n => realloc_loop fuel P n (u16 (rem_len - zlen c.(p_payload))) shrink
      end
    else mret (P, q, rem_len)
  end.

(** What is done to the new last one. *)
Definition realloc_end (r : pool * Z * Z) : res pool :=
  let '(P, q, rem_len) := r in
  c ← deref P q;
  let P := store P q (c <| p_payload := ztake rem_len c.(p_payload) |> <| p_tot_len := rem_len |>) in
  '(P, _) ← pbuf_free P c.(p_next);
  c ← deref P q;
  mret (store P q (c <| p_next := None |>)).

Definition pbuf_realloc (P : pool) (p new_len : Z) : res pool :=
  c ← deref P p;
  if c.(p_tot_len) <=? new_len then mret P
  else
    let shrink := u16 (c.(p_tot_len) - new_len) in
    realloc_loop (S (size P.(cells))) P p new_len shrink ≫= realloc_end.

(** ** Allocation *)

Section alloc.
(** What a block's buffer holds when it is taken. *)
Variable old : Z → list Z.

(** [p] is the head so far and [last] its last pbuf. *)
Fixpoint alloc_loop (fuel : nat) (P : pool) (p last : option Z) (rem_len offset : Z) : res (pool * option Z) :=
  match fuel with
  | O => Fault
  | S fuel =>
    match memp_malloc P with
    | (None, P) =>
      match p with
      | Some _ => '(P, _) ← pbuf_free P p; mret (P, None)
      | None => mret (P, None)
      end
    | (Some q, P) =>
      let room := u16 (PBUF_POOL_BUFSIZE_ALIGNED - LWIP_MEM_ALIGN_SIZE offset) in
      let qlen := if rem_len <? room then rem_len else room in
      let payload := ztake qlen (zdrop (LWIP_MEM_ALIGN_SIZE offset) (old q)) in
      let P := store P q (Cell None payload rem_len 1) in
      P ← match last with
          | None => mret P
          | Some l => c ← deref P l; mret (store P l (c <| p_next := Some q |>))
          end;
      let p := match p with None => Some q | Some _ => p end in
      let rem_len := u16 (rem_len - qlen) in
      if 0 <? rem_len then alloc_loop fuel P p (Some q) rem_len 0 else mret (P, p)
    end
  end.

(** The case of [PBUF_POOL]. *)
Definition pbuf_alloc (P : pool) (layer length : Z) : res (pool * option Z) :=
  alloc_loop (S (List.length P.(tab))) P None None length layer.
End alloc.

(** The loop of [pbuf_take]; the lengths of the pbufs stay. *)
Fixpoint take_loop (fuel : nat) (P : pool) (p : option Z) (data : list Z) : res pool :=
  match data, p, fuel with
  | [], _, _ => Ok P
  | _, None, _ | _, _, O => Fault
  | _, Some a, S fuel =>
    c ← deref P a;
    let n := if zlen c.(p_payload) <? zlen data then zlen c.(p_payload) else zlen data in
    take_loop fuel (store P a (c <| p_payload ::= blit 0 (ztake n data) |>)) c.(p_next) (zdrop n data)
  end.

(** [Err] is [ERR_MEM]. *)
Definition pbuf_take_pool (P : pool) (p : Z) (data : list Z) : res pool :=
  c ← deref P p;
  if c.(p_tot_len) <? zlen data then Err else take_loop (S (size P.(cells))) P (Some p) data.

(** ** Chains in memory *)

Record link := Link { l_at : Z; l_bytes : list Z; l_ref : Z }.

#[export] Instance link_eta : Eta link := λ l, Link l.(l_at) l.(l_bytes) l.(l_ref).

(** The payloads, which is what [Pbuf] takes for a chain. *)
Definition bytes_of (ls : list link) : pbuf := l_bytes <$> ls.
Definition head_at (ls : list link) : option Z := l_at <$> head ls.

Definition link_ok (l : link) : Prop := 0 < l.(l_ref) < 256 ∧ zlen l.(l_bytes) < 65536.

(** The cell of [l] in front of [ls], while [n] more bytes are to come behind them. *)
Definition cell_of (n : Z) (l : link) (ls : list link) : cell :=
  Cell (head_at ls) l.(l_bytes) (u16 (tot_len (bytes_of (l :: ls)) + n)) l.(l_ref).

(** The cells of [ls] when [rest] is chained behind it. *)
Fixpoint seg (n : Z) (ls rest : list link) : gmap Z cell :=
  match ls with
  | [] => ∅
  | l :: ls => <[l.(l_at) := cell_of n l (ls ++ rest)]> (seg n ls rest)
  end.

(** The cells [C] are those of the chain [ls] and, apart from them, [F]. A chain that is
    still being allocated announces [n] bytes more than it has. *)
Record laid (n : Z) (C : gmap Z cell) (ls : list link) (F : gmap Z cell) : Prop := {
  chain_cells : C = seg n ls [] ∪ F;
  chain_apart : seg n ls [] ##ₘ F;
  chain_nodup : NoDup (l_at <$> ls);
  chain_links : Forall link_ok ls
}.

Abbreviation chain := (laid 0).

Lemma seg_None n ls rest a : seg n ls rest !! a = None ↔ a ∉ l_at <$> ls.
Proof.
  induction ls as [|l ls IH]; cbn [seg fmap list_fmap].
  - rewrite lookup_empty. split; [intros _; apply not_elem_of_nil|done].
  - rewrite lookup_insert_None, IH, not_elem_of_cons. intuition congruence.
Qed.

Lemma seg_disjoint n ls rest F : seg n ls rest ##ₘ F ↔ ∀ l, l ∈ ls → F !! l.(l_at) = None.
Proof.
  rewrite map_disjoint_spec. split.
  - intros H l Hl. apply eq_None_not_Some. intros [c Hc].
    destruct (seg n ls rest !! l_at l) as [d|] eqn:E; [by eapply H|].
    apply seg_None in E. apply E. by apply list_elem_of_fmap_2.
  - intros H a c d Hc Hd.
    destruct (decide (a ∈ l_at <$> ls)) as [Hin|Hin].
    + apply list_elem_of_fmap in Hin as (l & -> & Hl). apply H in Hl. congruence.
    + apply seg_None with (n := n) (rest := rest) in Hin. congruence.
Qed.

Lemma seg_app n ls1 ls2 rest : seg n (ls1 ++ ls2) rest = seg n ls1 (ls2 ++ rest) ∪ seg n ls2 rest.
Proof.
  induction ls1 as [|l ls1 IH]; cbn [seg app].
  - by rewrite (left_id_L ∅ (∪)).
  - rewrite IH, insert_union_l, <- app_assoc. done.
Qed.

Lemma tot_len_app p q : tot_len (p ++ q) = tot_len p + tot_len q.
Proof. unfold tot_len. by rewrite concat_app, zlen_app. Qed.

Lemma bytes_of_app ls1 ls2 : bytes_of (ls1 ++ ls2) = bytes_of ls1 ++ bytes_of ls2.
Proof. apply fmap_app. Qed.

Lemma seg_size n ls rest : NoDup (l_at <$> ls) → size (seg n ls rest) = length ls.
Proof.
  induction ls as [|l ls IH]; cbn [seg fmap list_fmap]; intros Hn; [apply map_size_empty|].
  apply NoDup_cons in Hn as [Hl Hn]. rewrite map_size_insert_None, IH by (done || by apply seg_None). done.
Qed.

(** A chain without its first link, which joins the rest of the memory. *)
Lemma chain_cons n C l ls F : laid n C (l :: ls) F ↔
  link_ok l ∧ F !! l.(l_at) = None ∧
  laid n C ls (<[l.(l_at) := cell_of n l ls]> F).
Proof.
  split.
  - intros [-> Hd Hn Hl]. apply NoDup_cons in Hn as [Hx Hn]. apply Forall_cons in Hl as [Hl Hls].
    rewrite seg_disjoint in Hd. split; [done|]. split; [apply Hd; left|]. split; [| |done|done].
    + cbn [seg]. rewrite app_nil_r, <- insert_union_l, insert_union_r; [done|]. by apply seg_None.
    + apply seg_disjoint. intros k Hk. rewrite lookup_insert_ne; [by apply Hd; right|].
      intros E. apply Hx. rewrite E. by apply list_elem_of_fmap_2.
  - intros (Hl & HF & [-> Hd Hn Hls]). rewrite seg_disjoint in Hd.
    assert (l_at l ∉ l_at <$> ls) as Hx.
    { intros (k & E & Hk)%list_elem_of_fmap. apply Hd in Hk. rewrite <- E, lookup_insert in Hk. by case_decide. }
    split; [| |by apply NoDup_cons|by apply Forall_cons].
    + cbn [seg]. rewrite app_nil_r, <- insert_union_l, insert_union_r; [done|]. by apply seg_None.
    + apply seg_disjoint. intros k Hk. apply elem_of_cons in Hk as [->|Hk]; [done|].
      specialize (Hd k Hk). rewrite lookup_insert_ne in Hd; [done|]. intros E. apply Hx. rewrite E.
      by apply list_elem_of_fmap_2.
Qed.

Lemma chain_nil n C F : laid n C [] F ↔ C = F.
Proof.
  split.
  - intros [-> _ _ _]. apply (left_id_L ∅ (∪)).
  - intros ->. split; [symmetry; apply (left_id_L ∅ (∪))|apply map_disjoint_empty_l|constructor|constructor].
Qed.

(** Only the frame holds what is not a link. *)
Lemma chain_lookup_frame n C ls F a : laid n C ls F → a ∉ l_at <$> ls → C !! a = F !! a.
Proof. intros [-> _ _ _] Ha. apply lookup_union_r. by apply seg_None. Qed.

Lemma chain_frame_None n C ls F l : laid n C ls F → l ∈ ls → F !! l.(l_at) = None.
Proof. intros [_ Hd _ _]. rewrite seg_disjoint in Hd. apply Hd. Qed.

Lemma chain_insert n C ls F a c : laid n C ls F → a ∉ l_at <$> ls → laid n (<[a := c]> C) ls (<[a := c]> F).
Proof.
  intros [-> Hd Hn Hl] Ha. split; [| |done|done].
  - rewrite insert_union_r; [done|]. by apply seg_None.
  - apply map_disjoint_insert_r. split; [by apply seg_None|done].
Qed.

Lemma chain_delete n C ls F a : laid n C ls F → a ∉ l_at <$> ls → laid n (delete a C) ls (delete a F).
Proof.
  intros [-> Hd Hn Hl] Ha. split; [| |done|done].
  - rewrite delete_union. by rewrite (delete_id (seg n ls [])) by (by apply seg_None).
  - by apply map_disjoint_delete_r.
Qed.

(** The first link's cell, and what is left when it goes or changes. *)
Lemma chain_head n C l ls F : laid n C (l :: ls) F → C !! l.(l_at) = Some (cell_of n l ls).
Proof.
  intros Hc. apply chain_cons in Hc as (_ & HF & Hc). pose proof (chain_nodup _ _ _ _ Hc).
  rewrite (chain_lookup_frame _ _ _ _ _ Hc), lookup_insert; [by case_decide|].
  intros (k & E & Hk)%list_elem_of_fmap. eapply chain_frame_None in Hk; [|done].
  rewrite <- E, lookup_insert in Hk. by case_decide.
Qed.

Lemma chain_not_in n C l ls F : laid n C (l :: ls) F → l.(l_at) ∉ l_at <$> ls.
Proof. intros [_ _ Hn _]. by apply NoDup_cons in Hn as [? _]. Qed.

Lemma chain_tail_delete n C l ls F : laid n C (l :: ls) F → laid n (delete l.(l_at) C) ls F.
Proof.
  intros Hc. pose proof (chain_not_in _ _ _ _ _ Hc) as Hx. apply chain_cons in Hc as (_ & HF & Hc).
  eapply chain_delete in Hc; [|done]. by rewrite delete_insert_id in Hc.
Qed.

Lemma chain_head_store n C l l' ls F : laid n C (l :: ls) F → l'.(l_at) = l.(l_at) → link_ok l' →
  laid n (<[l.(l_at) := cell_of n l' ls]> C) (l' :: ls) F.
Proof.
  intros Hc E Hok. pose proof (chain_not_in _ _ _ _ _ Hc) as Hx. apply chain_cons in Hc as (_ & HF & Hc).
  apply chain_cons. rewrite E. split; [done|]. split; [done|].
  apply (chain_insert _ _ _ _ (l_at l) (cell_of n l' ls)) in Hc; [|done].
  by rewrite insert_insert_eq in Hc.
Qed.

(** The part of the memory that is no link of the chain. *)
Lemma chain_size n C ls F : laid n C ls F → (length ls <= size C)%nat.
Proof.
  intros [-> Hd Hn _]. rewrite map_size_disj_union by done. rewrite seg_size by done. lia.
Qed.

(** Two chains beside each other, either of them seen first. *)
Lemma chain_swap C a b F1 F : chain C a F1 → chain F1 b F → ∃ F2, chain C b F2 ∧ chain F2 a F.
Proof.
  intros [-> Hd1 Hn1 Hl1] [-> Hd2 Hn2 Hl2]. apply map_disjoint_union_r in Hd1 as [Hab HaF].
  exists (seg 0 a [] ∪ F). split; [|by split].
  split; [|by apply map_disjoint_union_r|done|done].
  rewrite !(assoc_L (∪)). f_equal. by apply map_union_comm.
Qed.

(** ** What the operations do to chains *)

Lemma deref_ok P a c : P.(cells) !! a = Some c → deref P a = Ok c.
Proof. unfold deref. by intros ->. Qed.

Lemma cells_store P a c : (store P a c).(cells) = <[a := c]> P.(cells).
Proof. done. Qed.

(** The links freed by giving up one reference to the head, and those that stay. *)
Fixpoint release (ls : list link) : list link * list link :=
  match ls with
  | [] => ([], [])
  | l :: ls =>
    if l.(l_ref) =? 1 then let '(gone, kept) := release ls in (l :: gone, kept)
    else ([], l <| l_ref ::= λ r, r - 1 |> :: ls)
  end.

(** The pool after the blocks of [gone] went back to it, in their order. *)
Definition given_back (P : pool) (gone : list link) (C : gmap Z cell) : pool :=
  P <| cells := C |> <| tab := reverse (l_at <$> gone) ++ P.(tab) |> <| used := u16 (P.(used) - zlen gone) |>.

Lemma u16_sub_u16 a b : u16 (u16 a - b) = u16 (a - b).
Proof. rewrite !u16_mod. apply Zminus_mod_idemp_l. Qed.
Lemma u16_add_u16 a b : u16 (u16 a + b) = u16 (a + b).
Proof. rewrite !u16_mod. apply Zplus_mod_idemp_l. Qed.
Lemma u16_add_u16_r a b : u16 (a + u16 b) = u16 (a + b).
Proof. rewrite !u16_mod. apply Zplus_mod_idemp_r. Qed.
Lemma u8_add_u8 a b : u8 (u8 a + b) = u8 (a + b).
Proof. rewrite !u8_mod. apply Zplus_mod_idemp_l. Qed.

Lemma free_loop_spec n ls : ∀ fuel P F count, laid n P.(cells) ls F → (length ls < fuel)%nat →
  is_u 8 count → is_u 16 P.(used) →
  ∃ C, laid n C (release ls).2 F ∧
    free_loop fuel P (head_at ls) count =
      Ok (given_back P (release ls).1 C, u8 (count + zlen (release ls).1)).
Proof.
  induction ls as [|l ls IH]; intros [|fuel] P F count Hc Hf Hcount Hu; try (cbn in Hf; lia).
  - exists P.(cells). split; [done|]. cbn [head_at head fmap option_fmap option_map free_loop release fst].
    unfold given_back. change (zlen (@nil link)) with 0. rewrite Z.add_0_r, Z.sub_0_r, u8_small, u16_small by done.
    by destruct P.
  - pose proof (chain_head _ _ _ _ _ Hc) as Hh. pose proof (chain_links _ _ _ _ Hc) as Hl.
    apply Forall_cons in Hl as [[Hr Hb] Hl].
    change (head_at (l :: ls)) with (Some (l_at l)). cbn [free_loop]. rewrite (deref_ok _ _ _ Hh). cbn [mbind res_bind].
    cbn [cell_of p_ref p_next]. rewrite (proj2 (Z.leb_gt _ _)) by lia. rewrite u8_small by (unfold is_u; lia).
    cbn [release]. destruct (Z.eqb_spec (l_ref l) 1) as [E|E].
    + rewrite (proj2 (Z.eqb_eq _ 0)) by lia. apply chain_tail_delete in Hc.
      destruct (IH fuel (memp_free P (l_at l)) F (u8 (count + 1))) as (C & HC & ->);
        [done|cbn in Hf; lia|apply u8_bound|apply u16_bound|].
      destruct (release ls) as [gone kept]. cbn [fst snd] in *. exists C. split; [done|].
      unfold given_back. rewrite u8_add_u8, zlen_cons, fmap_cons, reverse_cons, <- app_assoc.
      cbn. rewrite u16_sub_u16. by rewrite Z.sub_add_distr, Z.add_assoc.
    + rewrite (proj2 (Z.eqb_neq _ 0)) by lia. cbn [fst snd].
      exists (<[l_at l := cell_of n (l <| l_ref ::= λ r, r - 1 |>) ls]> P.(cells)). split.
      * apply chain_head_store; [done|done|]. split; cbn; lia.
      * unfold given_back, store. change (zlen (@nil link)) with 0.
        rewrite Z.add_0_r, Z.sub_0_r, u8_small, u16_small by done. by destruct P.
Qed.

(** Giving up a reference frees the links up to the first one that has another. *)
Lemma pbuf_free_spec n P ls F : laid n P.(cells) ls F → is_u 16 P.(used) →
  ∃ C, laid n C (release ls).2 F ∧
    pbuf_free P (head_at ls) = Ok (given_back P (release ls).1 C, u8 (zlen (release ls).1)).
Proof.
  intros Hc Hu. apply free_loop_spec; [done| |done|done]. apply chain_size in Hc. lia.
Qed.

(** One chain in front of another that the frame of the first holds. *)
Lemma chain_join C ls1 ls2 F1 F : C = seg 0 ls1 ls2 ∪ F1 → seg 0 ls1 [] ##ₘ F1 → NoDup (l_at <$> ls1) →
  Forall link_ok ls1 → chain F1 ls2 F → chain C (ls1 ++ ls2) F.
Proof.
  intros -> Hd Hn Hl [-> Hd2 Hn2 Hl2]. rewrite seg_disjoint in Hd.
  assert (∀ l, l ∈ ls1 → (l_at l ∉ l_at <$> ls2) ∧ F !! l_at l = None) as Hx.
  { intros l Hi. specialize (Hd l Hi). rewrite lookup_union_None, seg_None in Hd. done. }
  split.
  - by rewrite seg_app, app_nil_r, (assoc_L (∪)).
  - apply seg_disjoint. intros l [Hi|Hi]%elem_of_app; [by apply Hx|].
    rewrite seg_disjoint in Hd2. by apply Hd2.
  - rewrite fmap_app. apply NoDup_app. split; [done|]. split; [|done].
    intros a (l & -> & Hi)%list_elem_of_fmap. by apply Hx.
  - by apply Forall_app.
Qed.

Lemma cat_loop_spec ls2 t ct ls1 : ∀ fuel P l F1, chain P.(cells) (l :: ls1) F1 →
  head_at ls2 = Some t → F1 !! t = Some ct → ct.(p_tot_len) = u16 (tot_len (bytes_of ls2)) →
  (length ls1 < fuel)%nat →
  cat_loop fuel P l.(l_at) t = Ok (P <| cells := seg 0 (l :: ls1) ls2 ∪ F1 |>).
Proof.
  induction ls1 as [|l' ls1 IH]; intros [|fuel] P l F1 Hc Hh Ht Hlen Hf; try (cbn in Hf; lia).
  all: pose proof (chain_head _ _ _ _ _ Hc) as Hl; pose proof (chain_not_in _ _ _ _ _ Hc) as Hx.
  all: pose proof (chain_frame_None _ _ _ _ l Hc ltac:(left)) as HF.
  all: cbn [cat_loop]; rewrite (deref_ok _ _ _ Hl); cbn [mbind res_bind].
  all: assert (P.(cells) !! t = Some ct) as Hct
    by (rewrite (chain_cells _ _ _ _ Hc); apply lookup_union_Some_r; [apply Hc|done]).
  all: rewrite (deref_ok _ _ _ Hct); cbn [mbind res_bind cell_of p_next p_tot_len p_payload]; rewrite Hlen.
  - cbn [head_at head fmap option_fmap option_map bytes_of list_fmap].
    pose proof (chain_links _ _ _ _ Hc) as [[_ Hb] _]%Forall_cons.
    assert (tot_len [l_bytes l] = zlen (l_bytes l)) as Hz by (unfold tot_len; cbn; by rewrite app_nil_r).
    rewrite Z.add_0_r, Hz, u16_small, Z.eqb_refl by (unfold is_u; pose proof (zlen_nonneg (l_bytes l)); lia). cbn [negb mret res_ret].
    assert (seg 0 [l] ls2 ∪ F1 = <[l_at l := cell_of 0 l ls2]> P.(cells)) as ->.
    { rewrite (chain_cells _ _ _ _ Hc). cbn [seg]. by rewrite <- !insert_union_l, insert_insert_eq. }
    unfold cell_of. rewrite !Z.add_0_r, u16_add_u16_r, <- tot_len_cons, Hh. done.
  - change (head_at (l' :: ls1)) with (Some (l_at l')). cbn [cells].
    set (c' := cell_of 0 _ _ <| p_tot_len := _ |>).
    assert (c' = cell_of 0 l ((l' :: ls1) ++ ls2)) as E.
    { unfold c', cell_of. change (l :: (l' :: ls1) ++ ls2) with ((l :: l' :: ls1) ++ ls2).
      rewrite !Z.add_0_r, u16_add_u16, u16_add_u16_r, bytes_of_app, tot_len_app. done. }
    rewrite (IH fuel (store P (l_at l) c') l' (<[l_at l := c']> F1)); [| |done| |done|cbn in *; lia].
    + set (k := l' :: ls1) in *. cbn [seg]. rewrite E, <- insert_union_l, insert_union_r; [done|]. by apply seg_None.
    + apply chain_cons in Hc as (_ & _ & Hc). apply (chain_insert _ _ _ _ (l_at l) c') in Hc; [|done].
      by rewrite insert_insert_eq in Hc.
    + rewrite lookup_insert_ne; [done|]. intros Ea. rewrite Ea in HF. congruence.
Qed.

(** The two chains are one. *)
Lemma pbuf_cat_spec P ls1 ls2 F1 F : chain P.(cells) ls1 F1 → chain F1 ls2 F → ls1 ≠ [] → ls2 ≠ [] →
  ∃ C, chain C (ls1 ++ ls2) F ∧ pbuf_cat P (head_at ls1) (head_at ls2) = Ok (P <| cells := C |>).
Proof.
  intros H1 H2 N1 N2. destruct ls1 as [|l ls1], ls2 as [|t ls2]; try done.
  pose proof (chain_head _ _ _ _ _ H2) as Ht. pose proof (chain_frame_None _ _ _ _ l H1 ltac:(left)) as Hl.
  exists (seg 0 (l :: ls1) (t :: ls2) ∪ F1). split; [eapply chain_join; [done|apply H1..|done]|].
  cbn [head_at head fmap option_fmap option_map pbuf_cat].
  destruct (Z.eqb_spec (l_at l) (l_at t)) as [E|_]; [rewrite E in Hl; congruence|].
  eapply cat_loop_spec; [done|done|done|cbn; by rewrite Z.add_0_r|]. apply chain_size in H1. cbn in H1. lia.
Qed.

(** ** Allocation *)

Lemma chain_last n C ls : ∀ l F, laid n C (ls ++ [l]) F → C !! l.(l_at) = Some (cell_of n l []).
Proof.
  induction ls as [|x ls IH]; intros l F Hc; [by eapply chain_head|].
  apply chain_cons in Hc as (_ & _ & Hc). by eapply IH.
Qed.

(** A new last link takes its share of the bytes to come. *)
Lemma laid_snoc n C ls l k : ∀ F, laid n C (ls ++ [l]) F → C !! k.(l_at) = None → link_ok k →
  laid (n - zlen k.(l_bytes))
    (<[l.(l_at) := cell_of (n - zlen k.(l_bytes)) l [k]]> (<[k.(l_at) := cell_of (n - zlen k.(l_bytes)) k []]> C))
    ((ls ++ [l]) ++ [k]) F.
Proof.
  set (n' := n - zlen k.(l_bytes)).
  induction ls as [|x ls IH]; intros F Hc Hk Hok; cbn [app] in *; apply chain_cons in Hc as (Hx & HF & Hc).
  - apply chain_nil in Hc. subst C. rewrite lookup_insert_None in Hk. destruct Hk as [Hk Hne].
    apply chain_cons. split; [done|]. split; [done|]. apply chain_cons. split; [done|].
    split; [by rewrite lookup_insert_ne|]. apply chain_nil.
    rewrite (insert_insert_ne (<[l_at l := _]> F) (l_at l)), insert_insert_eq by done. done.
  - apply chain_cons. split; [done|]. split; [done|].
    assert (cell_of n' x ((ls ++ [l]) ++ [k]) = cell_of n x (ls ++ [l])) as ->; [|by apply IH].
    unfold cell_of. f_equal.
    + by destruct ls.
    + change (x :: (ls ++ [l]) ++ [k]) with ((x :: ls ++ [l]) ++ [k]). rewrite bytes_of_app, tot_len_app.
      unfold tot_len at 2. cbn [bytes_of fmap list_fmap concat]. rewrite app_nil_r. f_equal. unfold n'. lia.
Qed.

Definition last_at (ls : list link) : option Z := l_at <$> last ls.

(** Nothing is both free and in use. *)
Definition fresh_tab (P : pool) : Prop := NoDup P.(tab) ∧ ∀ a, a ∈ P.(tab) → P.(cells) !! a = None.

Definition unshared : list link → Prop := Forall (λ l, l.(l_ref) = 1).

Lemma release_unshared ls : unshared ls → release ls = (ls, []).
Proof. induction 1 as [|l ls Hl _ IH]; [done|]. cbn [release]. by rewrite Hl, IH. Qed.

Section alloc_spec.
Variable old : Z → list Z.
Hypothesis old_size : ∀ a, zlen (old a) = PBUF_POOL_BUFSIZE_ALIGNED.

Definition room (offset : Z) : Z := PBUF_POOL_BUFSIZE_ALIGNED - LWIP_MEM_ALIGN_SIZE offset.

(** One more block at the end of the chain. *)
Lemma alloc_step P ls F rem_len a payload : laid rem_len P.(cells) ls F → is_u 16 rem_len →
  P.(cells) !! a = None → zlen payload <= rem_len →
  ∃ C, match last_at ls with
       | None => mret (store P a (Cell None payload rem_len 1))
       | Some l => c ← deref (store P a (Cell None payload rem_len 1)) l;
                   mret (store (store P a (Cell None payload rem_len 1)) l (c <| p_next := Some a |>))
       end = Ok (P <| cells := C |>) ∧
    laid (rem_len - zlen payload) C (ls ++ [Link a payload 1]) F ∧
    ∀ b, b ≠ a → P.(cells) !! b = None → C !! b = None.
Proof.
  set (k := Link a payload 1). intros Hc Hr Ha Hp. pose proof (zlen_nonneg payload). unfold is_u in Hr.
  assert (Cell None payload rem_len 1 = cell_of (rem_len - zlen payload) k []) as ->.
  { unfold cell_of, k, tot_len. cbn. rewrite app_nil_r, u16_small; [|unfold is_u; lia].
    by replace (zlen payload + (rem_len - zlen payload)) with rem_len by lia. }
  assert (link_ok k) as Hk by (split; cbn; lia).
  destruct ls as [|l ls _] using rev_ind.
  - apply chain_nil in Hc. eexists. split; [reflexivity|]. split.
    + apply chain_cons. split; [done|]. split; [cbn; by rewrite <- Hc|]. apply chain_nil. cbn. by rewrite Hc.
    + intros b Hb Hn. by rewrite lookup_insert_ne.
  - pose proof (chain_last _ _ _ _ _ Hc) as Hl. unfold last_at. rewrite last_snoc. cbn [fmap option_fmap option_map].
    assert (l_at l ≠ a) as Hne by congruence.
    rewrite (deref_ok _ _ (cell_of rem_len l [])) by (cbn; by rewrite lookup_insert_ne by done). cbn [mbind res_bind].
    eexists. split; [reflexivity|]. split.
    + assert (cell_of rem_len l [] <| p_next := Some a |> = cell_of (rem_len - zlen payload) l [k]) as ->.
      { unfold cell_of, k. cbn. rewrite !tot_len_cons. change (tot_len []) with 0.
        by replace (zlen (l_bytes l) + (zlen payload + 0) + (rem_len - zlen payload))
          with (zlen (l_bytes l) + 0 + rem_len) by lia. }
      by apply (laid_snoc rem_len _ ls l k F).
    + intros b Hb Hn. rewrite lookup_insert_ne, cells_store, lookup_insert_ne by congruence. exact Hn.
Qed.

(** The chain as far as it is built, with [rem_len] bytes to come. *)
Lemma alloc_loop_spec fuel : ∀ P ls F rem_len offset, laid rem_len P.(cells) ls F → unshared ls →
  fresh_tab P → (length P.(tab) < fuel)%nat → is_u 16 rem_len → is_u 16 P.(used) →
  0 < rem_len ∨ ls = [] → 0 <= offset → 0 < room offset →
  ∃ P' r, alloc_loop old fuel P (head_at ls) (last_at ls) rem_len offset = Ok (P', r) ∧
  match r with
  | None => P'.(cells) = F ∧ P'.(tab) ≡ₚ (l_at <$> ls) ++ P.(tab) ∧ P'.(used) = u16 (P.(used) - zlen ls) ∧
            (P.(tab) = [] ∨ room offset + 1500 * (zlen P.(tab) - 1) < rem_len)
  | Some a => ∃ ks, chain P'.(cells) (ls ++ ks) F ∧ unshared ks ∧ tot_len (bytes_of ks) = rem_len ∧
            head_at (ls ++ ks) = Some a ∧ P.(tab) = (l_at <$> ks) ++ P'.(tab) ∧
            P'.(used) = u16 (P.(used) + zlen ks)
  end.
Proof.
  induction fuel as [|fuel IH]; intros P ls F rem offset Hc Hu Hf Hfuel Hr Hused Hrem Hoff Hroom; [lia|].
  assert (0 <= LWIP_MEM_ALIGN_SIZE offset) as Hal by (apply Z.land_nonneg; left; lia).
  assert (room offset <= 1500) by (unfold room, PBUF_POOL_BUFSIZE_ALIGNED; lia).
  cbn [alloc_loop]. unfold memp_malloc at 1. destruct (tab P) as [|a tab'] eqn:Et.
  { set (P1 := P <| alloc_err := _ |>). destruct ls as [|l ls].
    - exists P1, None. split; [done|]. apply chain_nil in Hc. cbn. rewrite Et, Z.sub_0_r, u16_small by done.
      by repeat split; try left.
    - destruct (pbuf_free_spec rem P1 (l :: ls) F) as (C & HC & Hfree); [done|done|].
      rewrite release_unshared in * by done. cbn [fst snd] in *. apply chain_nil in HC. subst C.
      change (head_at (l :: ls)) with (Some (l_at l)) in *. rewrite Hfree. cbn [mbind res_bind].
      eexists _, None. split; [done|]. cbn -[fmap reverse zlen]. rewrite Et. split; [done|]. rewrite !app_nil_r.
      split; [by rewrite reverse_Permutation|]. split; [done|]. by left. }
  destruct Hf as [Hnd Hf]. rewrite Et in Hnd, Hf. apply NoDup_cons in Hnd as [Ha Hnd].
  fold (room offset). rewrite (u16_small (room offset)) by (unfold is_u; lia).
  set (qlen := if rem <? room offset then rem else room offset).
  set (payload := ztake qlen (zdrop (LWIP_MEM_ALIGN_SIZE offset) (old a))).
  set (P1 := P <| tab := tab' |> <| used := _ |> <| max_used ::= _ |>).
  unfold is_u in Hr. assert (0 <= qlen <= rem) as Hq by (unfold qlen; destruct (Z.ltb_spec rem (room offset)); lia).
  assert (zlen payload = qlen) as Hp.
  { unfold payload. rewrite zlen_ztake; [done|]. rewrite zlen_zdrop by (rewrite old_size; unfold room in *; lia). rewrite old_size.
    unfold qlen, room in *. destruct (Z.ltb_spec rem (PBUF_POOL_BUFSIZE_ALIGNED - LWIP_MEM_ALIGN_SIZE offset)); lia. }
  destruct (alloc_step P1 ls F rem a payload) as (C & -> & HC & Hfresh); [done|done|apply Hf; left|lia|].
  cbn [mbind res_bind]. rewrite Hp in HC. rewrite u16_small by (unfold is_u; lia).
  assert (fresh_tab (P1 <| cells := C |>)) as HfC.
  { split; [exact Hnd|]. intros b Hb. apply Hfresh; [|by apply Hf; right]. intros ->. done. }
  assert (zlen tab' + 1 = zlen (a :: tab')) as Hz by (rewrite zlen_cons; lia).
  replace (match head_at ls with Some _ => _ | None => _ end) with (head_at (ls ++ [Link a payload 1])) by (by destruct ls).
  destruct (Z.ltb_spec 0 (rem - qlen)) as [Hmore|Hdone].
  - destruct (IH (P1 <| cells := C |>) (ls ++ [Link a payload 1]) F (rem - qlen) 0) as (P' & r & Hl & Hcase);
      [done|apply Forall_app; split; [done|by apply Forall_singleton]|done| |unfold is_u; lia|apply u16_bound|by left|done|done|].
    { change (length tab' < fuel)%nat. cbn in Hfuel. lia. }
    unfold last_at in Hl. rewrite last_snoc in Hl. exists P', r. split; [exact Hl|].
    assert (qlen = room offset) as Eq by (unfold qlen in *; destruct (Z.ltb_spec rem (room offset)); lia).
    destruct r as [h|].
    + destruct Hcase as (ks & Hk & Hku & Hkl & Hkh & Hkt & Hkn). exists (Link a payload 1 :: ks).
      rewrite <- app_assoc in Hk, Hkh. split; [done|]. split; [by apply Forall_cons|].
      split; [cbn; rewrite tot_len_cons, Hp; unfold bytes_of in Hkl; lia|]. split; [done|].
      split; [cbn; cbn in Hkt; by rewrite Hkt|]. rewrite Hkn. cbn. rewrite u16_add_u16, zlen_cons. f_equal. lia.
    + destruct Hcase as (Hk & Hkt & Hkn & Hkr). split; [done|].
      split; [rewrite Hkt, fmap_app, <- app_assoc; done|]. split.
      * rewrite Hkn. cbn. rewrite u16_sub_u16, zlen_app. f_equal. change (zlen [_]) with 1. lia.
      * right. destruct Hkr as [Hkr|Hkr]; change (tab (P1 <| cells := C |>)) with tab' in Hkr.
        { rewrite Hkr in Hz. change (zlen (@nil Z)) with 0 in Hz. rewrite Hkr. lia. }
        change (room 0) with 1500 in Hkr. lia.
  - exists (P1 <| cells := C |>), (head_at (ls ++ [Link a payload 1])). split; [done|].
    replace (rem - qlen) with 0 in HC by lia.
    destruct (head_at (ls ++ [Link a payload 1])) as [h|] eqn:Eh; [|by destruct ls].
    exists [Link a payload 1]. split; [done|]. split; [by apply Forall_cons|].
    split; [unfold tot_len; cbn; rewrite app_nil_r; lia|]. by repeat split.
Qed.
End alloc_spec.

(** ** Every block is accounted for *)

Record pool_wf (P : pool) : Prop := {
  wf_blocks : P.(tab) ++ (map_to_list P.(cells)).*1 ≡ₚ pool_init.(tab);
  wf_used : P.(used) = Z.of_nat (size P.(cells))
}.

Lemma pool_init_wf : pool_wf pool_init.
Proof. split; [|done]. change (cells pool_init) with (∅ : gmap Z cell). by rewrite map_to_list_empty, app_nil_r. Qed.

Lemma wf_nodup P : pool_wf P → NoDup (P.(tab) ++ (map_to_list P.(cells)).*1).
Proof. intros [-> _]. apply (bool_decide_eq_true_1 (NoDup _)). vm_compute. reflexivity. Qed.

Lemma wf_fresh P : pool_wf P → fresh_tab P.
Proof.
  intros Hp%wf_nodup. apply NoDup_app in Hp as (Ht & Hx & _). split; [done|].
  intros a Ha%Hx. apply eq_None_not_Some. intros [c Hc]. apply Ha.
  apply list_elem_of_fmap. exists (a, c). by rewrite elem_of_map_to_list.
Qed.

Lemma wf_size P : pool_wf P → zlen P.(tab) + Z.of_nat (size P.(cells)) = PBUF_POOL_SIZE.
Proof.
  intros [Hp _]. apply Permutation_length in Hp. rewrite length_app, length_fmap, length_map_to_list in Hp.
  unfold zlen. rewrite <- Nat2Z.inj_add, Hp. done.
Qed.

Lemma wf_used_u16 P : pool_wf P → is_u 16 P.(used).
Proof.
  intros Hp. rewrite (wf_used _ Hp). pose proof (wf_size _ Hp). pose proof (zlen_nonneg (tab P)).
  unfold is_u, PBUF_POOL_SIZE in *. lia.
Qed.

Lemma chain_keys n C ls : ∀ F, laid n C ls F → (map_to_list C).*1 ≡ₚ (l_at <$> ls) ++ (map_to_list F).*1.
Proof.
  induction ls as [|l ls IH]; intros F Hc; [by apply chain_nil in Hc as ->|].
  apply chain_cons in Hc as (_ & HF & Hc). rewrite (IH _ Hc), map_to_list_insert by done. cbn.
  symmetry. apply Permutation_middle.
Qed.

(** The links of [ls] become those of [ls'], the blocks moving to and from the free ones. *)
Lemma wf_change n n' P P' ls ls' F : pool_wf P → laid n P.(cells) ls F → laid n' P'.(cells) ls' F →
  P'.(tab) ++ (l_at <$> ls') ≡ₚ P.(tab) ++ (l_at <$> ls) → P'.(used) = u16 (P.(used) + zlen ls' - zlen ls) →
  pool_wf P'.
Proof.
  intros Hp Hc Hc' Ht Hu. pose proof (wf_size _ Hp) as Hs. destruct Hp as [Hp Hused].
  pose proof (chain_keys _ _ _ _ Hc) as Hk. pose proof (chain_keys _ _ _ _ Hc') as Hk'.
  assert (P'.(tab) ++ (map_to_list P'.(cells)).*1 ≡ₚ pool_init.(tab)) as Hb.
  { rewrite Hk', app_assoc, Ht, <- app_assoc, <- Hk. exact Hp. }
  split; [done|]. rewrite Hu, Hused.
  apply Permutation_length in Hk, Hk', Hb. rewrite length_app, !length_fmap, length_map_to_list in *.
  change (length (tab pool_init)) with 24%nat in Hb. rewrite u16_small; [unfold zlen; lia|].
  unfold is_u, zlen, PBUF_POOL_SIZE in *. lia.
Qed.

(** ** The operations on an accounted pool *)

Lemma release_ats ls : l_at <$> ls = (l_at <$> (release ls).1) ++ (l_at <$> (release ls).2).
Proof.
  induction ls as [|l ls IH]; [done|]. cbn [release]. destruct (_ =? 1); [|done].
  destruct (release ls) as [gone kept]. cbn in *. by rewrite IH.
Qed.

Lemma pbuf_free_ok n P ls F : pool_wf P → laid n P.(cells) ls F →
  ∃ P', pbuf_free P (head_at ls) = Ok (P', zlen (release ls).1) ∧ laid n P'.(cells) (release ls).2 F ∧ pool_wf P'.
Proof.
  intros Hp Hc. pose proof (wf_used_u16 _ Hp) as Hu. destruct (pbuf_free_spec _ _ _ _ Hc Hu) as (C & HC & ->).
  pose proof (release_ats ls) as Ha. assert (Hz := Ha). apply (f_equal length) in Hz.
  rewrite length_app, !length_fmap in Hz. pose proof (chain_size _ _ _ _ Hc) as Hl. pose proof (wf_size _ Hp) as Hs.
  pose proof (zlen_nonneg (tab P)). rewrite u8_small by (unfold is_u, zlen, PBUF_POOL_SIZE in *; lia).
  eexists. split; [reflexivity|]. split; [exact HC|]. eapply wf_change; [done|exact Hc|exact HC| |].
  - cbn [given_back]. rewrite Ha. cbn. rewrite reverse_Permutation, <- app_assoc. rewrite !app_assoc.
    by rewrite (Permutation_app_comm (l_at <$> (release ls).1)).
  - cbn. f_equal. unfold zlen. lia.
Qed.

(** A chain whose links nobody else refers to goes back to the pool entirely. *)
Lemma pbuf_free_all P ls F : pool_wf P → chain P.(cells) ls F → unshared ls →
  ∃ P', pbuf_free P (head_at ls) = Ok (P', zlen ls) ∧ P'.(cells) = F ∧ pool_wf P'.
Proof.
  intros Hp Hc Hu. destruct (pbuf_free_ok 0 P ls F Hp Hc) as (P' & E & HC & Hw).
  rewrite release_unshared in * by done. exists P'. split; [done|]. split; [by apply chain_nil in HC|done].
Qed.

Lemma pbuf_cat_ok P ls1 ls2 F1 F : pool_wf P → chain P.(cells) ls1 F1 → chain F1 ls2 F → ls1 ≠ [] → ls2 ≠ [] →
  ∃ P', pbuf_cat P (head_at ls1) (head_at ls2) = Ok P' ∧ chain P'.(cells) (ls1 ++ ls2) F ∧ pool_wf P'.
Proof.
  intros Hp H1 H2 N1 N2. destruct (pbuf_cat_spec P ls1 ls2 F1 F H1 H2 N1 N2) as (C & HC & ->).
  eexists. split; [done|]. split; [exact HC|]. destruct Hp as [Hp Hu].
  assert ((map_to_list C).*1 ≡ₚ (map_to_list P.(cells)).*1) as E.
  { rewrite (chain_keys _ _ _ _ HC), (chain_keys _ _ _ _ H1), (chain_keys _ _ _ _ H2), fmap_app. by rewrite app_assoc. }
  split; cbn; [by rewrite E|]. rewrite Hu. apply Permutation_length in E.
  rewrite !length_fmap, !length_map_to_list in E. congruence.
Qed.

(** A chain of fresh blocks of just the length asked for, or nothing at all. *)
Lemma pbuf_alloc_ok old P layer length : (∀ a, zlen (old a) = PBUF_POOL_BUFSIZE_ALIGNED) → pool_wf P →
  is_u 16 length → 0 <= layer → 0 < room layer →
  ∃ P' r, pbuf_alloc old P layer length = Ok (P', r) ∧ pool_wf P' ∧
  match r with
  | None => P'.(cells) = P.(cells) ∧ (P.(tab) = [] ∨ room layer + 1500 * (zlen P.(tab) - 1) < length)
  | Some a => ∃ ls, chain P'.(cells) ls P.(cells) ∧ unshared ls ∧ tot_len (bytes_of ls) = length ∧ head_at ls = Some a
  end.
Proof.
  intros Ho Hp Hl Hn Hr. pose proof (wf_fresh _ Hp) as Hf. pose proof (wf_used_u16 _ Hp) as Hu.
  assert (laid length P.(cells) [] P.(cells)) as Hc by (by apply chain_nil).
  destruct (alloc_loop_spec old Ho (S (List.length P.(tab))) P [] P.(cells) length layer)
    as (P' & r & E & Hcase); try done; [by constructor|lia|by right|].
  exists P', r. split; [exact E|]. destruct r as [a|].
  - destruct Hcase as (ks & Hk & Hku & Hkl & Hkh & Hkt & Hkn). split; [|by exists ks].
    eapply (wf_change length 0 P P' [] ks); [done|done|done| |].
    + rewrite Hkt. cbn. rewrite app_nil_r. apply Permutation_app_comm.
    + rewrite Hkn. f_equal. change (zlen (@nil link)) with 0. lia.
  - destruct Hcase as (Hk & Hkt & Hkn & Hkr). split; [|done].
    cbn in Hkt. change (zlen (@nil link)) with 0 in Hkn.
    eapply (wf_change length length P P' [] []); [done|done|by apply chain_nil|by rewrite Hkt|].
    rewrite Hkn. f_equal. change (zlen (@nil link)) with 0. lia.
Qed.

(** ** Working inside a chain *)

(** The rest of a chain may change as long as its head and its length stay. *)
Lemma chain_suffix n C ls1 ls2 : ∀ F, laid n C (ls1 ++ ls2) F →
  ∃ F1, laid n C ls2 F1 ∧
    ∀ C' ls2', laid n C' ls2' F1 → head_at ls2' = head_at ls2 →
      tot_len (bytes_of ls2') = tot_len (bytes_of ls2) → laid n C' (ls1 ++ ls2') F.
Proof.
  induction ls1 as [|l ls1 IH]; intros F Hc; [by exists F|].
  cbn [app] in Hc. apply chain_cons in Hc as (Hl & HF & Hc). destruct (IH _ Hc) as (F1 & H1 & Hback).
  exists F1. split; [done|]. intros C' ls2' Hc' Hh Ht. cbn [app]. apply chain_cons. split; [done|]. split; [done|].
  assert (cell_of n l (ls1 ++ ls2') = cell_of n l (ls1 ++ ls2)) as ->; [|by apply Hback].
  unfold cell_of. f_equal.
  - destruct ls1; [exact Hh|done].
  - change (l :: ls1 ++ ls2') with ((l :: ls1) ++ ls2'). change (l :: ls1 ++ ls2) with ((l :: ls1) ++ ls2).
    by rewrite !bytes_of_app, !tot_len_app, Ht.
Qed.

Lemma elem_of_map_keys {V} (m : gmap Z V) b : b ∈ (map_to_list m).*1 ↔ is_Some (m !! b).
Proof.
  rewrite list_elem_of_fmap. split.
  - intros ([b' e] & -> & He). apply elem_of_map_to_list in He. by exists e.
  - intros [e He]. exists (b, e). by rewrite elem_of_map_to_list.
Qed.

Lemma wf_store P a c d : pool_wf P → P.(cells) !! a = Some d → pool_wf (store P a c).
Proof.
  intros [Hp Hu] Ha. split; cbn.
  - rewrite <- Hp. f_equiv. apply NoDup_Permutation; [apply NoDup_fst_map_to_list..|]. intros b.
    rewrite !elem_of_map_keys. destruct (decide (a = b)) as [->|Hne].
    + rewrite lookup_insert_eq, Ha. split; by intros _.
    + by rewrite lookup_insert_ne.
  - rewrite Hu. f_equal. by rewrite map_size_insert_Some by done.
Qed.

(** One more reference to the head of the rest of a chain. *)
Lemma pbuf_ref_ok P ls1 l ls2 F : pool_wf P → chain P.(cells) (ls1 ++ l :: ls2) F → l.(l_ref) < 255 →
  ∃ P', pbuf_ref P (Some l.(l_at)) = Ok P' ∧ chain P'.(cells) (ls1 ++ l <| l_ref ::= λ r, r + 1 |> :: ls2) F ∧ pool_wf P'.
Proof.
  intros Hp Hc Hr. destruct (chain_suffix _ _ _ _ _ Hc) as (F1 & H1 & Hback).
  pose proof (chain_links _ _ _ _ H1) as [[Hl Hb] _]%Forall_cons.
  unfold pbuf_ref. rewrite (deref_ok _ _ _ (chain_head _ _ _ _ _ H1)). cbn [mbind res_bind cell_of p_ref].
  rewrite u8_small by (unfold is_u; lia). rewrite (proj2 (Z.leb_gt _ _)) by lia.
  eexists. split; [reflexivity|].
  assert (chain (<[l_at l := cell_of 0 (l <| l_ref ::= λ r, r + 1 |>) ls2]> P.(cells))
            (ls1 ++ l <| l_ref ::= λ r, r + 1 |> :: ls2) F) as Hc'.
  { apply Hback; [|done|done]. apply chain_head_store; [done|done|]. split; cbn; lia. }
  split; [exact Hc'|]. eapply wf_store; [done|by eapply chain_head].
Qed.

(** Giving up a reference to the rest of a chain that has another one. *)
Lemma pbuf_free_shared P ls1 l ls2 F : pool_wf P → chain P.(cells) (ls1 ++ l :: ls2) F → 1 < l.(l_ref) →
  ∃ P', pbuf_free P (Some l.(l_at)) = Ok (P', 0) ∧
    chain P'.(cells) (ls1 ++ l <| l_ref ::= λ r, r - 1 |> :: ls2) F ∧ pool_wf P'.
Proof.
  intros Hp Hc Hr. destruct (chain_suffix _ _ _ _ _ Hc) as (F1 & H1 & Hback).
  destruct (pbuf_free_ok _ _ _ _ Hp H1) as (P' & E & HC & Hw).
  cbn [release] in *. rewrite (proj2 (Z.eqb_neq _ 1)) in * by lia. exists P'. split; [exact E|]. split; [|done].
  by apply Hback.
Qed.

Lemma pbuf_chain_ok P ls1 l ls2 F1 F : pool_wf P → chain P.(cells) ls1 F1 → chain F1 (l :: ls2) F →
  ls1 ≠ [] → l.(l_ref) < 255 →
  ∃ P', pbuf_chain P (head_at ls1) (Some l.(l_at)) = Ok P' ∧
    chain P'.(cells) (ls1 ++ l <| l_ref ::= λ r, r + 1 |> :: ls2) F ∧ pool_wf P'.
Proof.
  intros Hp H1 H2 N1 Hr.
  destruct (pbuf_cat_ok P ls1 (l :: ls2) F1 F Hp H1 H2 N1 ltac:(done)) as (P1 & E1 & Hc & Hw).
  destruct (pbuf_ref_ok P1 ls1 l ls2 F Hw Hc Hr) as (P2 & E2 & Hc2 & Hw2).
  exists P2. unfold pbuf_chain. change (head_at (l :: ls2)) with (Some (l_at l)) in E1. rewrite E1. by split.
Qed.

Lemma pbuf_clen_spec n P ls F : laid n P.(cells) ls F → zlen ls < 65536 → pbuf_clen P (head_at ls) = Ok (zlen ls).
Proof.
  intros Hc Hz. unfold pbuf_clen. pose proof (chain_size _ _ _ _ Hc) as Hs.
  assert (∀ fuel ls F k, laid n P.(cells) ls F → (length ls < fuel)%nat → 0 <= k → k + zlen ls < 65536 →
    clen_loop fuel P (head_at ls) k = Ok (k + zlen ls)) as Hloop.
  { clear. induction fuel as [|fuel IH]; intros ls F k Hc Hf Hk Hz; [lia|]. destruct ls as [|l ls].
    - cbn. by rewrite Z.add_0_r.
    - change (head_at (l :: ls)) with (Some (l_at l)). cbn [clen_loop].
      rewrite (deref_ok _ _ _ (chain_head _ _ _ _ _ Hc)). cbn [mbind res_bind cell_of p_next].
      rewrite zlen_cons in *. pose proof (zlen_nonneg ls). rewrite u16_small by (unfold is_u; lia).
      apply chain_cons in Hc as (_ & _ & Hc). erewrite IH; [f_equal; lia|done|cbn in Hf; lia|lia|lia]. }
  by rewrite (Hloop _ _ _ 0 Hc) by lia.
Qed.

(** *** Filling a chain *)

Definition with_bytes (ls : list link) (p : pbuf) : list link := zip_with (λ l b, l <| l_bytes := b |>) ls p.

Lemma with_bytes_ats ls p : length p = length ls → l_at <$> with_bytes ls p = l_at <$> ls.
Proof. revert p. induction ls as [|l ls IH]; intros [|b p] E; try done. cbn. f_equal. apply IH. cbn in E. lia. Qed.

Lemma bytes_of_with ls p : length p = length ls → bytes_of (with_bytes ls p) = p.
Proof. revert p. induction ls as [|l ls IH]; intros [|b p] E; try done. cbn. f_equal. apply IH. cbn in E. lia. Qed.

Lemma with_bytes_unshared ls p : unshared ls → unshared (with_bytes ls p).
Proof.
  intros Hu. revert p. induction Hu as [|l ls Hl Hu IH]; intros [|b p]; try by constructor.
  by constructor; [|apply IH].
Qed.

Lemma with_bytes_id ls : with_bytes ls (bytes_of ls) = ls.
Proof. induction ls as [|l ls IH]; [done|]. unfold bytes_of in *. cbn [fmap list_fmap with_bytes zip_with]. fold (with_bytes ls (l_bytes <$> ls)). rewrite IH. by destruct l. Qed.

Lemma tot_len_shape (p q : pbuf) : zlen <$> p = zlen <$> q → tot_len p = tot_len q.
Proof.
  revert q. induction p as [|b p IH]; intros [|c q] E; try done. cbn in E. injection E as Eb E.
  by rewrite !tot_len_cons, Eb, (IH q E).
Qed.

Lemma zlen_blit_min d b : zlen (blit 0 (ztake (if zlen b <? zlen d then zlen b else zlen d) d) b) = zlen b.
Proof.
  pose proof (zlen_nonneg b). pose proof (zlen_nonneg d). unfold zlen at 1. rewrite length_blit; [done|].
  unfold ztake, zlen in *. rewrite length_take. case_match; lia.
Qed.

Lemma pbuf_take_shape p : ∀ data p', pbuf_take_loop p data = Ok p' → zlen <$> p' = zlen <$> p.
Proof.
  induction p as [|b p IH]; intros [|x data] p' E; try by injection E as <-.
  { done. }
  cbn [pbuf_take_loop] in E. destruct (pbuf_take_loop p _) as [q| |] eqn:Eq; try done. injection E as <-.
  rewrite !fmap_cons, zlen_blit_min. f_equal. by eapply IH.
Qed.

(** The loop fills the chain as the one on lists does. *)
Lemma take_loop_spec ls : ∀ fuel P F data p', pool_wf P → chain P.(cells) ls F → (length ls < fuel)%nat →
  pbuf_take_loop (bytes_of ls) data = Ok p' →
  ∃ P', take_loop fuel P (head_at ls) data = Ok P' ∧ chain P'.(cells) (with_bytes ls p') F ∧ pool_wf P' ∧
    P'.(tab) = P.(tab).
Proof.
  induction ls as [|l ls IH]; intros fuel P F data p' Hp Hc Hf E.
  - destruct data; [|done]. injection E as <-. exists P. by destruct fuel.
  - destruct data as [|x data].
    + injection E as <-. exists P. rewrite with_bytes_id. by destruct fuel.
    + destruct fuel as [|fuel]; [cbn in Hf; lia|].
      change (head_at (l :: ls)) with (Some (l_at l)). cbn [take_loop bytes_of fmap list_fmap pbuf_take_loop] in *.
      pose proof (chain_head _ _ _ _ _ Hc) as Hh. rewrite (deref_ok _ _ _ Hh). cbn [mbind res_bind cell_of p_payload p_next].
      set (d := x :: data) in *. set (m := if zlen (l_bytes l) <? zlen d then zlen (l_bytes l) else zlen d) in *.
      change (l_bytes <$> ls) with (bytes_of ls) in E.
      destruct (pbuf_take_loop (bytes_of ls) (zdrop m d)) as [pt| |] eqn:Et; try done. injection E as <-.
      set (l' := l <| l_bytes ::= blit 0 (ztake m d) |>).
      pose proof (chain_links _ _ _ _ Hc) as [[Hr Hb] _]%Forall_cons.
      assert (zlen (l_bytes l') = zlen (l_bytes l)) as Hz.
      { apply zlen_blit_min. }
      assert (cell_of 0 l ls <| p_payload ::= blit 0 (ztake m d) |> = cell_of 0 l' ls) as Ec.
      { unfold cell_of. cbn [bytes_of fmap list_fmap]. by rewrite !tot_len_cons, Hz. }
      assert (chain (store P (l_at l) (cell_of 0 l' ls)).(cells) (l' :: ls) F) as Hc'.
      { rewrite cells_store. apply chain_head_store; [done|done|]. split; [exact Hr|]. by rewrite Hz. }
      apply chain_cons in Hc' as (Hl' & HF & Hc').
      destruct (IH fuel (store P (l_at l) (cell_of 0 l' ls)) (<[l_at l := cell_of 0 l' ls]> F) (zdrop m d) pt)
        as (P' & E' & HC & Hw & Htab); [by eapply wf_store|done|cbn in Hf; lia|done|].
      exists P'. rewrite Ec. split; [exact E'|]. split; [|done].
      assert (zlen <$> pt = zlen <$> bytes_of ls) as Hsh.
      { by eapply pbuf_take_shape. }
      assert (length pt = length ls) as Hlen by (apply (f_equal length) in Hsh; unfold bytes_of in Hsh; by rewrite !length_fmap in Hsh).
      change (with_bytes (l :: ls) (blit 0 (ztake m d) (l_bytes l) :: pt)) with (l' :: with_bytes ls pt).
      apply chain_cons. split; [done|]. split; [done|].
      assert (cell_of 0 l' (with_bytes ls pt) = cell_of 0 l' ls) as ->; [|done].
      unfold cell_of. f_equal; [by destruct ls, pt|]. cbn [bytes_of fmap list_fmap].
      change (l_bytes <$> with_bytes ls pt) with (bytes_of (with_bytes ls pt)). rewrite !tot_len_cons, bytes_of_with by done.
      by rewrite (tot_len_shape pt (bytes_of ls)).
Qed.

(** The copy into a chain does in memory what [Pbuf.pbuf_take] does to the list. *)
Lemma pbuf_take_pool_ok P l ls F data : pool_wf P → chain P.(cells) (l :: ls) F →
  tot_len (bytes_of (l :: ls)) < 65536 →
  match pbuf_take (bytes_of (l :: ls)) data with
  | Ok p => ∃ P', pbuf_take_pool P l.(l_at) data = Ok P' ∧ chain P'.(cells) (with_bytes (l :: ls) p) F ∧
              pool_wf P' ∧ P'.(tab) = P.(tab)
  | Err => pbuf_take_pool P l.(l_at) data = Err
  | Fault => False
  end.
Proof.
  intros Hp Hc Ht. unfold pbuf_take_pool, pbuf_take. rewrite (deref_ok _ _ _ (chain_head _ _ _ _ _ Hc)).
  cbn [mbind res_bind cell_of p_tot_len]. assert (0 <= tot_len (bytes_of (l :: ls))) by apply zlen_nonneg.
  rewrite Z.add_0_r, u16_small by (unfold is_u; lia).
  destruct (Z.ltb_spec (tot_len (bytes_of (l :: ls))) (zlen data)) as [Hd|Hd]; [done|].
  destruct (pbuf_take_loop_spec (bytes_of (l :: ls)) data Hd) as (p & E & _). rewrite E.
  apply (take_loop_spec (l :: ls)); [done|done| |done]. apply chain_size in Hc. lia.
Qed.

(** *** Cutting a chain short *)

(** What stays of a chain cut to [n] bytes, and the links behind. *)
Fixpoint cut (n : Z) (ls : list link) : list link * list link :=
  match ls with
  | [] => ([], [])
  | l :: ls =>
    if zlen l.(l_bytes) <? n then let '(kept, rest) := cut (n - zlen l.(l_bytes)) ls in (l :: kept, rest)
    else ([l <| l_bytes ::= ztake n |>], ls)
  end.

Lemma cut_cons n l ls : cut n (l :: ls) =
  if zlen l.(l_bytes) <? n then let '(kept, rest) := cut (n - zlen l.(l_bytes)) ls in (l :: kept, rest)
  else ([l <| l_bytes ::= ztake n |>], ls).
Proof. done. Qed.

Lemma bytes_of_cons l ls : bytes_of (l :: ls) = l.(l_bytes) :: bytes_of ls.
Proof. done. Qed.

Lemma cut_bytes ls : ∀ n, 0 <= n <= tot_len (bytes_of ls) → ls ≠ [] →
  concat (bytes_of (cut n ls).1) = ztake n (concat (bytes_of ls)).
Proof.
  induction ls as [|l ls IH]; intros n Hn Hne; [done|]. cbn [bytes_of fmap list_fmap] in Hn. rewrite tot_len_cons in Hn.
  cbn [cut]. pose proof (zlen_nonneg (l_bytes l)). destruct (Z.ltb_spec (zlen (l_bytes l)) n) as [Hlt|Hge].
  - destruct (cut (n - zlen (l_bytes l)) ls) as [kept rest] eqn:E. cbn [fst bytes_of fmap list_fmap concat].
    rewrite ztake_app_ge by lia. f_equal. specialize (IH (n - zlen (l_bytes l))). rewrite E in IH. apply IH.
    + unfold bytes_of. lia.
    + intros ->. change (tot_len (l_bytes <$> [])) with 0 in Hn. lia.
  - cbn. rewrite app_nil_r. symmetry. apply ztake_app_le. lia.
Qed.

Lemma cut_tot n ls : 0 <= n <= tot_len (bytes_of ls) → ls ≠ [] → tot_len (bytes_of (cut n ls).1) = n.
Proof. intros Hn Hne. unfold tot_len in *. rewrite cut_bytes by done. by apply zlen_ztake. Qed.

Lemma cut_head n ls : head_at (cut n ls).1 = head_at ls.
Proof. destruct ls as [|l ls]; [done|]. cbn [cut]. destruct (_ <? _); [|done]. by destruct (cut _ ls). Qed.

Lemma realloc_end_spec P l ls F rem : pool_wf P → chain P.(cells) (l :: ls) F → unshared ls →
  0 <= rem <= zlen l.(l_bytes) →
  ∃ P', realloc_end (P, l.(l_at), rem) = Ok P' ∧ chain P'.(cells) [l <| l_bytes ::= ztake rem |>] F ∧ pool_wf P'.
Proof.
  intros Hp Hc Hu Hr. pose proof (chain_head _ _ _ _ _ Hc) as Hh. pose proof (chain_not_in _ _ _ _ _ Hc) as Hx.
  unfold realloc_end. rewrite (deref_ok _ _ _ Hh). cbn [mbind res_bind cell_of p_payload p_next].
  set (c1 := cell_of 0 l ls <| p_payload := _ |> <| p_tot_len := rem |>).
  apply chain_cons in Hc as ([Hl Hb] & HF & Hc). apply (chain_insert _ _ _ _ (l_at l) c1) in Hc; [|done].
  rewrite insert_insert_eq in Hc.
  destruct (pbuf_free_all (store P (l_at l) c1) ls _ ltac:(by eapply wf_store) Hc Hu) as (P2 & -> & EC & Hw).
  assert (P2.(cells) !! l_at l = Some c1) as H1 by (by rewrite EC, lookup_insert_eq).
  cbn [mbind res_bind]. rewrite (deref_ok _ _ _ H1). cbn [mbind res_bind].
  eexists. split; [reflexivity|]. split; [|by eapply wf_store].
  rewrite cells_store, EC, insert_insert_eq. apply chain_cons. split; [|split; [done|]].
  - split; [exact Hl|]. change (zlen (ztake rem (l_bytes l)) < 65536). rewrite zlen_ztake; lia.
  - apply chain_nil. unfold c1, cell_of. cbn. rewrite (tot_len_cons (ztake rem (l_bytes l)) []), zlen_ztake by lia.
    change (tot_len []) with 0. rewrite !Z.add_0_r, (u16_small rem); [done|]. unfold is_u; lia.
Qed.

Lemma realloc_loop_spec ls : ∀ l fuel P F rem shrink, pool_wf P → chain P.(cells) (l :: ls) F → unshared ls →
  (length ls < fuel)%nat → 0 <= rem → 0 < shrink → rem + shrink = tot_len (bytes_of (l :: ls)) → rem + shrink < 65536 →
  ∃ P', (realloc_loop fuel P l.(l_at) rem shrink ≫= realloc_end) = Ok P' ∧
    chain P'.(cells) (cut rem (l :: ls)).1 F ∧ pool_wf P'.
Proof.
  induction ls as [|k ls IH]; intros l [|fuel] P F rem shrink Hp Hc Hu Hf Hr Hs Ht Hb; try (cbn in Hf; lia).
  all: pose proof (chain_head _ _ _ _ _ Hc) as Hh; pose proof (chain_not_in _ _ _ _ _ Hc) as Hx.
  all: rewrite bytes_of_cons, tot_len_cons in Ht; pose proof (zlen_nonneg (l_bytes l)).
  all: rewrite cut_cons; cbn [realloc_loop]; rewrite (deref_ok _ _ _ Hh); cbn [mbind res_bind cell_of p_payload p_next p_tot_len].
  all: destruct (Z.ltb_spec (zlen (l_bytes l)) rem) as [Hlt|Hge].
  { change (tot_len (bytes_of [])) with 0 in Ht. lia. }
  { change (mret ?x ≫= realloc_end) with (realloc_end x). apply (realloc_end_spec P l [] F rem); [done..|lia]. }
  2: { change (mret ?x ≫= realloc_end) with (realloc_end x). apply (realloc_end_spec P l (k :: ls) F rem); [done..|lia]. }
  change (head_at (k :: ls)) with (Some (l_at k)). assert (0 <= tot_len (bytes_of (k :: ls))) by apply zlen_nonneg.
  rewrite bytes_of_cons, tot_len_cons, Z.add_0_r, (u16_small (zlen _ + tot_len _)), (u16_small (rem - _)) by (unfold is_u; lia).
  set (c1 := cell_of 0 l (k :: ls) <| p_tot_len := _ |>).
  apply chain_cons in Hc as (Hl & HF & Hc). apply (chain_insert _ _ _ _ (l_at l) c1) in Hc; [|done].
  rewrite insert_insert_eq in Hc.
  destruct (IH k fuel (store P (l_at l) c1) (<[l_at l := c1]> F) (rem - zlen (l_bytes l)) shrink)
    as (P' & E & HC & Hw); [by eapply wf_store|done|by apply Forall_cons in Hu as [_ ?]|cbn in Hf; lia|lia..|].
  exists P'. split; [exact E|]. split; [|done].
  pose proof (cut_head (rem - zlen (l_bytes l)) (k :: ls)) as Hhd.
  pose proof (cut_tot (rem - zlen (l_bytes l)) (k :: ls) ltac:(lia) ltac:(done)) as Htot.
  destruct (cut (rem - zlen (l_bytes l)) (k :: ls)) as [kept rest]. cbn [fst] in *.
  apply chain_cons. split; [done|]. split; [done|]. assert (cell_of 0 l kept = c1) as ->; [|done].
  unfold c1, cell_of. rewrite Hhd, !(bytes_of_cons l), !(tot_len_cons (l_bytes l)), Htot.
  replace (zlen (l_bytes l) + (rem - zlen (l_bytes l)) + 0) with (zlen (l_bytes l) + tot_len (bytes_of (k :: ls)) - shrink) by lia.
  done.
Qed.

(** The chain is cut to its first [new_len] bytes and the links behind are freed. *)
Lemma pbuf_realloc_ok P l ls F new_len : pool_wf P → chain P.(cells) (l :: ls) F → unshared (l :: ls) →
  tot_len (bytes_of (l :: ls)) < 65536 → 0 <= new_len <= tot_len (bytes_of (l :: ls)) →
  ∃ P' ls', pbuf_realloc P l.(l_at) new_len = Ok P' ∧ chain P'.(cells) ls' F ∧ pool_wf P' ∧ unshared ls' ∧
    head_at ls' = Some l.(l_at) ∧ concat (bytes_of ls') = ztake new_len (concat (bytes_of (l :: ls))).
Proof.
  intros Hp Hc Hu Ht Hn. unfold pbuf_realloc. rewrite (deref_ok _ _ _ (chain_head _ _ _ _ _ Hc)).
  cbn [mbind res_bind cell_of p_tot_len]. rewrite Z.add_0_r, (u16_small (tot_len _)) by (unfold is_u; lia).
  destruct (Z.leb_spec (tot_len (bytes_of (l :: ls))) new_len) as [Hle|Hlt].
  - exists P, (l :: ls). split_and!; try done. symmetry. by apply ztake_all.
  - rewrite u16_small by (unfold is_u; lia). apply Forall_cons in Hu as [Hul Hu].
    destruct (realloc_loop_spec ls l (S (size P.(cells))) P F new_len (tot_len (bytes_of (l :: ls)) - new_len))
      as (P' & E & HC & Hw); try done; try lia.
    { apply chain_size in Hc. cbn in Hc. lia. }
    exists P', (cut new_len (l :: ls)).1. split_and!; try done.
    + assert (unshared (l :: ls)) as Hul' by by constructor. clear -Hul'. revert new_len. 
      induction Hul' as [|k ks Hk Hks IH]; intros n; [constructor|]. rewrite cut_cons. destruct (_ <? n); [|by constructor].
      specialize (IH (n - zlen (l_bytes k))). destruct (cut _ ks). by constructor.
    + by rewrite cut_head.
    + by apply cut_bytes.
Qed.

(** The head stands alone; its reference to the rest is given up. *)
Lemma pbuf_dechain_ok P l q ls F : pool_wf P → chain P.(cells) (l :: q :: ls) F →
  tot_len (bytes_of (l :: q :: ls)) < 65536 →
  ∃ P' F', pbuf_dechain P l.(l_at) =
      Ok (P', match (release (q :: ls)).1 with [] => Some q.(l_at) | _ => None end) ∧
    chain P'.(cells) (release (q :: ls)).2 F' ∧ chain F' [l] F ∧ pool_wf P'.
Proof.
  intros Hp Hc Ht. pose proof (chain_head _ _ _ _ _ Hc) as Hh. pose proof (chain_not_in _ _ _ _ _ Hc) as Hx.
  apply chain_cons in Hc as (Hl & HF & Hc). pose proof (chain_head _ _ _ _ _ Hc) as Hq.
  rewrite bytes_of_cons, tot_len_cons in Ht. pose proof (zlen_nonneg (l_bytes l)).
  assert (0 <= tot_len (bytes_of (q :: ls))) by apply zlen_nonneg.
  unfold pbuf_dechain. rewrite (deref_ok _ _ _ Hh). cbn [mbind res_bind cell_of p_next].
  change (head_at (q :: ls)) with (Some (l_at q)). cbv beta iota. rewrite (deref_ok _ _ _ Hq).
  cbn [mbind res_bind cell_of p_tot_len p_payload]. rewrite (bytes_of_cons l (q :: ls)), (tot_len_cons (l_bytes l)), !Z.add_0_r.
  rewrite (u16_small (zlen (l_bytes l) + _)), (u16_small (tot_len _)) by (unfold is_u; lia).
  rewrite Z.add_simpl_l, Z.eqb_refl, u16_small by (unfold is_u; lia). cbn [negb].
  assert (cell_of 0 q ls <| p_tot_len := tot_len (bytes_of (q :: ls)) |> = cell_of 0 q ls) as ->.
  { unfold cell_of. by rewrite Z.add_0_r, u16_small by (unfold is_u; lia). }
  assert (store P (l_at q) (cell_of 0 q ls) = P) as ->.
  { destruct P as [C t u m e]. unfold store. change (Pool (<[l_at q := cell_of 0 q ls]> C) t u m e = Pool C t u m e).
    by rewrite (insert_id C) by done. }
  assert (cell_of 0 l (q :: ls) <| p_next := None |> <| p_tot_len := zlen (l_bytes l) |> = cell_of 0 l []) as ->.
  { unfold cell_of. rewrite (bytes_of_cons l []), (tot_len_cons (l_bytes l)). change (tot_len (bytes_of [])) with 0.
    rewrite !Z.add_0_r, (u16_small (zlen (l_bytes l))) by (unfold is_u; lia). done. }
  apply (chain_insert _ _ _ _ (l_at l) (cell_of 0 l [])) in Hc; [|done]. rewrite insert_insert_eq in Hc.
  destruct (pbuf_free_ok 0 (store P (l_at l) (cell_of 0 l [])) (q :: ls) _ ltac:(by eapply wf_store) Hc) as (P' & E & HC & Hw).
  change (head_at (q :: ls)) with (Some (l_at q)) in E. rewrite E. cbn [mbind res_bind].
  exists P', (<[l_at l := cell_of 0 l []]> F). split; [|split; [done|split; [|done]]].
  - destruct (release (q :: ls)).1 as [|g gone]; [done|]. rewrite zlen_cons. pose proof (zlen_nonneg gone).
    rewrite (proj2 (Z.ltb_lt _ _)) by lia. done.
  - apply chain_cons. split; [done|]. split; [done|]. by apply chain_nil.
Qed.

(** ** Seen from outside *)

(** The payloads of a chain, link by link. *)
Fixpoint payloads (fuel : nat) (P : pool) (p : option Z) : list (list Z) :=
  match p, fuel with
  | Some a, S fuel =>
    match P.(cells) !! a with Some c => c.(p_payload) :: payloads fuel P c.(p_next) | None => [] end
  | _, _ => []
  end.

Lemma payloads_chain P ls : ∀ fuel F, chain P.(cells) ls F → (length ls < fuel)%nat →
  payloads fuel P (head_at ls) = bytes_of ls.
Proof.
  induction ls as [|l ls IH]; intros [|fuel] F Hc Hf; try done; [cbn in Hf; lia|].
  change (head_at (l :: ls)) with (Some (l_at l)). cbn [payloads]. rewrite (chain_head _ _ _ _ _ Hc).
  change (p_payload (cell_of 0 l ls)) with (l_bytes l). change (p_next (cell_of 0 l ls)) with (head_at ls).
  apply chain_cons in Hc as (_ & _ & Hc). rewrite (IH fuel _ Hc) by (cbn in Hf; lia). done.
Qed.

(** The addresses of a chain. *)
Fixpoint blocks (fuel : nat) (P : pool) (p : option Z) : list Z :=
  match p, fuel with
  | Some a, S fuel => match P.(cells) !! a with Some c => a :: blocks fuel P c.(p_next) | None => [a] end
  | _, _ => []
  end.

Lemma blocks_chain P ls : ∀ fuel F, chain P.(cells) ls F → (length ls < fuel)%nat →
  blocks fuel P (head_at ls) = l_at <$> ls.
Proof.
  induction ls as [|l ls IH]; intros [|fuel] F Hc Hf; try done; [cbn in Hf; lia|].
  change (head_at (l :: ls)) with (Some (l_at l)). cbn [blocks]. rewrite (chain_head _ _ _ _ _ Hc).
  change (p_next (cell_of 0 l ls)) with (head_at ls).
  apply chain_cons in Hc as (_ & _ & Hc). rewrite (IH fuel _ Hc) by (cbn in Hf; lia). done.
Qed.

Definition chain_payloads (P : pool) (p : option Z) : list (list Z) := payloads (S (size P.(cells))) P p.
Definition chain_blocks (P : pool) (p : option Z) : list Z := blocks (S (size P.(cells))) P p.

Lemma chain_payloads_ok P ls F : chain P.(cells) ls F → chain_payloads P (head_at ls) = bytes_of ls.
Proof. intros Hc. apply (payloads_chain P ls _ F Hc). apply chain_size in Hc. lia. Qed.

Lemma chain_blocks_ok P ls F : chain P.(cells) ls F → chain_blocks P (head_at ls) = l_at <$> ls.
Proof. intros Hc. apply (blocks_chain P ls _ F Hc). apply chain_size in Hc. lia. Qed.

(** The allocator as a function of the length asked for. *)
Definition pool_of (old : Z → list Z) (P : pool) (n : Z) : option pbuf :=
  if 65535 <? n then None
  else match pbuf_alloc old P 0 n with Ok (P', Some a) => Some (chain_payloads P' (Some a)) | _ => None end.

Lemma pool_of_tot old P n p : (∀ a, zlen (old a) = PBUF_POOL_BUFSIZE_ALIGNED) → pool_wf P → 0 <= n →
  pool_of old P n = Some p → tot_len p = n.
Proof.
  intros Ho Hw Hn. unfold pool_of. destruct (Z.ltb_spec 65535 n); [done|].
  destruct (pbuf_alloc_ok old P 0 n Ho Hw) as (P' & r & E & _ & Hr); [unfold is_u; lia|lia|done|]. rewrite E.
  destruct r as [a|]; [|done]. destruct Hr as (ls & Hc & _ & Ht & Hh). intros [= <-].
  by rewrite <- Hh, (chain_payloads_ok _ _ _ Hc).
Qed.

(** Buffers that hold zeros. *)
Definition zeros : Z → list Z := λ _, replicate 1500 0.

Lemma zeros_size a : zlen (zeros a) = PBUF_POOL_BUFSIZE_ALIGNED.
Proof. reflexivity. Qed.

(** The examples of lwIP's comment on [pbuf_free]: the reference counts of a chain. *)
Definition counts (rs : list Z) : list link := (λ r, Link r [] r) <$> rs.
Definition after_free (rs : list Z) : list Z := l_ref <$> (release (counts rs)).2.

Example free_123 : after_free [1; 2; 3] = [1; 3].
Proof. reflexivity. Qed.
Example free_333 : after_free [3; 3; 3] = [2; 3; 3].
Proof. reflexivity. Qed.
Example free_112 : after_free [1; 1; 2] = [1].
Proof. reflexivity. Qed.
Example free_211 : after_free [2; 1; 1] = [1; 1; 1].
Proof. reflexivity. Qed.
Example free_111 : after_free [1; 1; 1] = [].
Proof. reflexivity. Qed.
