(* ===== verification/ProxyMem.v ===== *)
(** * awg_proxy.c and the pool: who owns the packets

    The three places where the proxy touches packet buffers - [on_recv], [pump_down] and
    [conn_close] - are written here as they are in the code, on a slot that holds the
    pointer [rx_head] and on the pool of [PbufPool]. They do what the definitions of
    [Proxy] do to the list of payloads. Every other operation of the proxy leaves
    [rx_head] alone or closes the slot ([realises]); so along any run the pool consists of
    the chains of the slots, the chains the stack holds, and the free blocks. *)
From stdpp Require Import fin_maps gmap.
From S2P Require Import Prelude Cstr Proxy ProxyRun Pbuf PbufPool.

(** A slot; its contents but for [rx], which stands here as a pointer. *)
Record mconn := MConn { base : conn_t; rx_head : option Z }.

#[export] Instance mconn_eta : Eta mconn := λ m, MConn m.(base) m.(rx_head).

(** ** The operations that touch the pool *)

(** [PbufFree] with the number of blocks freed, which is what [pbuf_free] returns. *)
Definition mem_close (m : mconn) (why : bool) (P : pool) (s : awg_proxy_stats)
    : res (mconn * pool * awg_proxy_stats * list action) :=
  let c := m.(base) in
  match c.(st) with
  | ST_FREE => Ok (m, P, s, [])
  | _ =>
    let a1 := match c.(pcb) with Some p => [TcpAbort p] | None => [] end in
    '(P, a2) ← match m.(rx_head) with
               | None => mret (P, [])
               | Some _ => '(P, n) ← pbuf_free P m.(rx_head); mret (P, [PbufFree (Z.to_nat n)])
               end;
    let a3 := if 0 <=? c.(cfd) then [CloseFd c.(cfd)] else [] in
    mret (MConn conn_free None, P, (if why then s <| closed ::= inc |> else s), a1 ++ a2 ++ a3)
  end.

Definition mem_on_recv (m : mconn) (P : pool) (p : option Z) (err_ok : bool) : res (mconn * pool) :=
  match p with
  | None => Ok (m <| base ::= λ c, c <| peer_closed := true |> |>, P)
  | Some _ =>
    if negb err_ok then '(P, _) ← pbuf_free P p; mret (m, P)
    else
      match m.(rx_head) with
      | Some _ => P ← pbuf_cat P m.(rx_head) p; mret (m, P)
      | None => Ok (m <| rx_head := p |>, P)
      end
  end.

Fixpoint mem_pump_loop (fuel k : nat) (m : mconn) (P : pool) (sends : nat → Z → send_result) (now : Z)
    (s : awg_proxy_stats) : res (mconn * pool * awg_proxy_stats * list action) :=
  match fuel with
  | O => Ok (m, P, s, [])
  | S fuel =>
    match m.(rx_head) with
    | None => Ok (m, P, s, [])
    | Some p =>
      c ← deref P p;
      let off := m.(base).(rx_off) in
      let avail := zlen c.(p_payload) - off in
      if avail <=? 0 then
        let next := c.(p_next) in
        let P := store P p (c <| p_next := None |>) in
        '(P, n) ← pbuf_free P (Some p);
        '(m, P, s, acts) ← mem_pump_loop fuel k (m <| rx_head := next |> <| base ::= λ b, b <| rx_off := 0 |> |>) P sends now s;
        mret (m, P, s, PbufFree (Z.to_nat n) :: acts)
      else
        let bytes := zdrop off c.(p_payload) in
        match sends k avail with
        | Sent n =>
          if 0 <? n then
            let ack := match m.(base).(pcb) with Some t => [TcpRecved t (u16 n)] | None => [] end in
            let sent := SendFd m.(base).(cfd) (ztake n bytes) :: ack in
            '(m, P, s, acts) ← mem_pump_loop fuel (S k)
              (m <| base ::= λ b, b <| rx_off := u16 (b.(rx_off) + u16 n) |> <| last_ms := now |> |>) P sends now
              (s <| bytes_down ::= λ b, u64 (b + u32 n) |>);
            mret (m, P, s, sent ++ acts)
          else mem_close m true P s
        | SendAgain => Ok (m, P, s, [])
        | SendFailed => mem_close m true P s
        end
    end
  end.

(** ** What a slot holds *)

(** The slot of [c] in memory, when its chain is [ls]. *)
Definition mem_of (c : conn_t) (ls : list link) : mconn := MConn (c <| rx := [] |>) (head_at ls).

(** [ls] is the slot's chain, nobody else's, and the pool has [F] besides. *)
Record slot_holds (c : conn_t) (P : pool) (ls : list link) (F : gmap Z cell) : Prop := {
  sh_chain : chain P.(cells) ls F;
  sh_own : unshared ls;
  sh_bytes : c.(rx) = bytes_of ls;
  sh_free : c.(st) = ST_FREE → ls = [];
  sh_wf : pool_wf P
}.

Lemma mem_close_ok c P ls F why s : slot_holds c P ls F →
  let '(c', s', acts) := conn_close c why s in
  ∃ P' ls', mem_close (mem_of c ls) why P s = Ok (mem_of c' ls', P', s', acts) ∧ slot_holds c' P' ls' F.
Proof.
  intros [Hc Hu Hb Hf Hw]. unfold conn_close, mem_close, mem_of. cbn [base rx_head].
  change (st (c <| rx := [] |>)) with (st c). change (pcb (c <| rx := [] |>)) with (pcb c).
  change (cfd (c <| rx := [] |>)) with (cfd c).
  destruct (pbuf_free_all P ls F Hw Hc Hu) as (P' & E & HF & Hw').
  assert (slot_holds c P ls F) as Hh by done. destruct (st c) eqn:Es; [by exists P, ls|..].
  all: destruct ls as [|l ls]; rewrite Hb; cbn [head_at head fmap option_fmap option_map bytes_of list_fmap mret res_ret mbind res_bind].
  all: try (exists P, []; split; [done|]; by split).
  all: change (head_at (l :: ls)) with (Some (l_at l)) in E; rewrite E; cbn [mbind res_bind].
  all: exists P', []; split; [|by split; [by apply chain_nil|constructor| | |]].
  all: unfold zlen; rewrite Nat2Z.id; cbn [length]; by rewrite length_fmap.
Qed.

(** The first link of a slot's chain, detached and freed. *)
Lemma detach_head P l ls F : pool_wf P → chain P.(cells) (l :: ls) F → l.(l_ref) = 1 →
  ∃ P', pbuf_free (store P l.(l_at) (cell_of 0 l ls <| p_next := None |>)) (Some l.(l_at)) = Ok (P', 1) ∧
    chain P'.(cells) ls F ∧ pool_wf P'.
Proof.
  intros Hw Hc Hr. pose proof (chain_head _ _ _ _ _ Hc) as Hh.
  pose proof (chain_links _ _ _ _ Hc) as [Hl _]%Forall_cons. apply chain_tail_delete in Hc.
  assert (cell_of 0 l ls <| p_next := None |> = cell_of (tot_len (bytes_of ls)) l []) as ->.
  { unfold cell_of. rewrite !bytes_of_cons, !(tot_len_cons (l_bytes l)). change (tot_len (bytes_of [])) with 0.
    rewrite !Z.add_0_r. done. }
  set (n := tot_len (bytes_of ls)). set (P1 := store P (l_at l) (cell_of n l [])).
  assert (laid n P1.(cells) [l] (delete (l_at l) P.(cells))) as H1.
  { apply chain_cons. split; [done|]. split; [apply lookup_delete_eq|]. apply chain_nil.
    unfold P1. by rewrite cells_store, insert_delete_eq. }
  destruct (pbuf_free_ok n P1 [l] _ ltac:(by eapply wf_store) H1) as (P' & E & HC & Hw').
  cbn [release] in E, HC. rewrite Hr in E, HC. cbn in HC. apply chain_nil in HC.
  exists P'. split; [exact E|]. by rewrite HC.
Qed.

Lemma mem_pump_loop_ok sends now fuel : ∀ k c P ls F s, slot_holds c P ls F → c.(st) ≠ ST_FREE →
  let '(c', s', acts) := pump_down_loop fuel k c sends now s in
  ∃ P' ls', mem_pump_loop fuel k (mem_of c ls) P sends now s = Ok (mem_of c' ls', P', s', acts) ∧ slot_holds c' P' ls' F.
Proof.
  induction fuel as [|fuel IH]; intros k c P ls F s Hh Hst; [by exists P, ls|].
  pose proof Hh as [Hc Hu Hb Hf Hw]. cbn [pump_down_loop mem_pump_loop].
  destruct ls as [|l ls]; rewrite Hb; [by exists P, []|].
  change (rx_head (mem_of c (l :: ls))) with (Some (l_at l)). cbv beta iota.
  rewrite (deref_ok _ _ _ (chain_head _ _ _ _ _ Hc)). cbn [mbind res_bind].
  change (rx_off (base (mem_of c (l :: ls)))) with (rx_off c).
  change (p_payload (cell_of 0 l ls)) with (l_bytes l). change (p_next (cell_of 0 l ls)) with (head_at ls).
  rewrite bytes_of_cons. apply Forall_cons in Hu as [Hr Hu].
  destruct (zlen (l_bytes l) - rx_off c <=? 0).
  - destruct (detach_head P l ls F Hw Hc Hr) as (P1 & -> & Hc1 & Hw1). cbn [mbind res_bind].
    set (c1 := c <| rx := bytes_of ls |> <| rx_off := 0 |>).
    assert (slot_holds c1 P1 ls F) as H1 by (split; done).
    specialize (IH k c1 P1 ls F s H1 Hst). destruct (pump_down_loop fuel k c1 sends now s) as [[c' s'] acts].
    destruct IH as (P' & ls' & E & HH). exists P', ls'. split; [|done].
    change (mem_of c (l :: ls) <| rx_head := head_at ls |> <| base ::= _ |>) with (mem_of c1 ls).
    rewrite E. done.
  - destruct (sends k (zlen (l_bytes l) - rx_off c)) as [n| |].
    + destruct (0 <? n).
      * set (c1 := c <| rx_off := u16 (rx_off c + u16 n) |> <| last_ms := now |>).
        assert (slot_holds c1 P (l :: ls) F) as H1 by (split; done || by constructor).
        specialize (IH (S k) c1 P (l :: ls) F (s <| bytes_down ::= λ b, u64 (b + u32 n) |>) H1 Hst).
        destruct (pump_down_loop fuel (S k) c1 sends now _) as [[c' s'] acts].
        destruct IH as (P' & ls' & E & HH). exists P', ls'. split; [|done].
        change (mem_of c (l :: ls) <| base ::= _ |>) with (mem_of c1 (l :: ls)).
        rewrite E. done.
      * by apply (mem_close_ok c P (l :: ls) F true s).
    + by exists P, (l :: ls).
    + by apply (mem_close_ok c P (l :: ls) F true s).
Qed.

Lemma mem_on_recv_ok c P ls ks F1 F : slot_holds c P ls F1 → chain F1 ks F → unshared ks → ks ≠ [] →
  c.(st) ≠ ST_FREE →
  ∃ P', mem_on_recv (mem_of c ls) P (head_at ks) true =
      Ok (mem_of (on_recv c (Some (bytes_of ks)) true) (ls ++ ks), P') ∧
    slot_holds (on_recv c (Some (bytes_of ks)) true) P' (ls ++ ks) F.
Proof.
  intros [Hc Hu Hb Hf Hw] Hk Huk Hne Hst. cbn [on_recv].
  assert (unshared (ls ++ ks)) as Hua by by apply Forall_app.
  assert (∀ P', chain P'.(cells) (ls ++ ks) F → pool_wf P' →
    slot_holds (c <| rx ::= λ l, l ++ bytes_of ks |>) P' (ls ++ ks) F) as Hfin.
  { intros P' Hc' Hw'. split; try done. cbn. by rewrite Hb, bytes_of_app. }
  destruct ks as [|t ks]; [done|]. change (head_at (t :: ks)) with (Some (l_at t)). cbn [mem_on_recv negb].
  destruct ls as [|l ls].
  - exists P. split; [done|]. apply Hfin; [|done]. apply chain_nil in Hc as ->. exact Hk.
  - destruct (pbuf_cat_ok P (l :: ls) (t :: ks) F1 F Hw Hc Hk ltac:(done) Hne) as (P' & E & HC & Hw').
    change (head_at (t :: ks)) with (Some (l_at t)) in E. change (rx_head (mem_of c (l :: ls))) with (head_at (l :: ls)).
    exists P'. split; [|by apply Hfin]. rewrite E. done.
Qed.

(** A chain that comes with an error is given back. *)
Lemma mem_on_recv_err c P ls ks F1 F : slot_holds c P ls F1 → chain F1 ks F → unshared ks → ks ≠ [] →
  ∃ P', mem_on_recv (mem_of c ls) P (head_at ks) false = Ok (mem_of c ls, P') ∧ slot_holds c P' ls F.
Proof.
  intros [Hc Hu Hb Hf Hw] Hk Huk Hne. destruct (chain_swap _ _ _ _ _ Hc Hk) as (F2 & H1 & H2).
  destruct (pbuf_free_all P ks F2 Hw H1 Huk) as (P' & E & HF & Hw').
  destruct ks as [|t ks]; [done|]. change (head_at (t :: ks)) with (Some (l_at t)) in *. cbn [mem_on_recv negb].
  rewrite E. exists P'. split; [done|]. split; try done. by rewrite HF.
Qed.

(** The pump with the fuel of [Proxy.pump_down]. *)
Definition mem_pump_down (m : mconn) (P : pool) (sends : nat → Z → send_result) (now : Z) (s : awg_proxy_stats) :
    res (mconn * pool * awg_proxy_stats * list action) :=
  let l := chain_payloads P m.(rx_head) in
  mem_pump_loop (S (length l + length (concat l))) 0 m P sends now s.

Lemma mem_pump_down_ok c P ls F sends now s : slot_holds c P ls F → c.(st) ≠ ST_FREE →
  let '(c', s', acts) := pump_down c sends now s in
  ∃ P' ls', mem_pump_down (mem_of c ls) P sends now s = Ok (mem_of c' ls', P', s', acts) ∧ slot_holds c' P' ls' F.
Proof.
  intros Hh Hst. pose proof Hh as [Hc _ Hb _ _]. unfold mem_pump_down, pump_down, down_fuel.
  change (rx_head (mem_of c ls)) with (head_at ls). rewrite (chain_payloads_ok P ls F Hc), Hb.
  by apply mem_pump_loop_ok.
Qed.

(** ** The other operations *)

(** The frees among what an operation does. *)
Definition frees : list action → list nat := omap (λ a, match a with PbufFree n => Some n | _ => None end).

Lemma frees_app a b : frees (a ++ b) = frees a ++ frees b.
Proof. apply omap_app. Qed.

(** What can happen to a slot's memory: other fields change, it is pumped, it is closed. *)
Inductive mpath (m : mconn) (P : pool) : list nat → mconn → pool → Prop :=
| mp_done : mpath m P [] m P
| mp_keep fr m1 P1 c : mpath m P fr m1 P1 → c.(st) ≠ ST_FREE → c.(rx) = [] → mpath m P fr (m1 <| base := c |>) P1
| mp_pump fr m1 P1 sends now s m2 P2 s2 acts : mpath m P fr m1 P1 →
    mem_pump_down m1 P1 sends now s = Ok (m2, P2, s2, acts) → mpath m P (fr ++ frees acts) m2 P2
| mp_close fr m1 P1 why s m2 P2 s2 acts : mpath m P fr m1 P1 →
    mem_close m1 why P1 s = Ok (m2, P2, s2, acts) → mpath m P (fr ++ frees acts) m2 P2.

Lemma mpath_app m P fr m1 P1 fr' m2 P2 : mpath m P fr m1 P1 → mpath m1 P1 fr' m2 P2 → mpath m P (fr ++ fr') m2 P2.
Proof.
  intros H1. induction 1; rewrite ?app_nil_r, ?app_assoc; [done|by apply mp_keep|by eapply mp_pump|by eapply mp_close].
Qed.

(** An operation on lists that can be carried out in memory, with the same frees. *)
Definition realises (c : conn_t) (e : effect) : Prop := ∀ P ls F, slot_holds c P ls F →
  ∃ P' ls', mpath (mem_of c ls) P (frees e.2) (mem_of e.1.1 ls') P' ∧ slot_holds e.1.1 P' ls' F.

Lemma realises_id c s : realises c (c, s, []).
Proof. intros P ls F Hh. exists P, ls. split; [by constructor|done]. Qed.

Lemma realises_keep c c' s acts : c'.(rx) = c.(rx) → c'.(st) ≠ ST_FREE → frees acts = [] → realises c (c', s, acts).
Proof.
  intros Hr Hst Hfr P ls F [Hc Hu Hb Hf Hw]. exists P, ls. cbn [fst snd]. rewrite Hfr. split.
  - change (mem_of c' ls) with (mem_of c ls <| base := c' <| rx := [] |> |>). apply mp_keep; [apply mp_done|done|done].
  - split; try done. by rewrite Hr.
Qed.

Lemma realises_trans c c1 s1 a1 c2 s2 a2 : realises c (c1, s1, a1) → realises c1 (c2, s2, a2) →
  realises c (c2, s2, a1 ++ a2).
Proof.
  intros H1 H2 P ls F Hh. destruct (H1 P ls F Hh) as (P1 & l1 & M1 & Hh1). destruct (H2 P1 l1 F Hh1) as (P2 & l2 & M2 & Hh2).
  exists P2, l2. cbn [fst snd] in *. rewrite frees_app. split; [by eapply mpath_app|done].
Qed.

Lemma realises_seq c (e : effect) (f : conn_t → awg_proxy_stats → effect) : realises c e →
  (∀ s, realises e.1.1 (f e.1.1 s)) →
  realises c (let '(c, s, a1) := e in let '(c, s, a2) := f c s in (c, s, a1 ++ a2)).
Proof.
  destruct e as [[c1 s1] a1]. cbn [fst]. intros He Hf. specialize (Hf s1).
  destruct (f c1 s1) as [[c2 s2] a2]. by apply (realises_trans c c1 s1).
Qed.

Lemma realises_cons c (e : effect) a : frees [a] = [] → realises c e →
  realises c (let '(c, s, acts) := e in (c, s, a :: acts)).
Proof. destruct e as [[c1 s1] a1]. intros Ha He P ls F Hh. apply He in Hh. cbn [fst snd] in *. by destruct a. Qed.

(** Closing a slot, some other fields of it changed before. *)
Lemma realises_close c c1 why s : c1.(rx) = c.(rx) → c1.(st) ≠ ST_FREE → realises c (conn_close c1 why s).
Proof.
  intros Hr Hst. assert (realises c1 (conn_close c1 why s)) as Hcl.
  { intros P ls F Hh. pose proof (mem_close_ok c1 P ls F why s Hh) as H.
    destruct (conn_close c1 why s) as [[c2 s2] a2]. destruct H as (P' & ls' & E & Hh'). exists P', ls'. split; [|done].
    eapply (mp_close _ _ []); [constructor|exact E]. }
  pose proof (realises_keep c c1 s [] Hr Hst eq_refl) as Hk.
  destruct (conn_close c1 why s) as [[c2 s2] a2]. by apply (realises_trans _ _ _ _ _ _ _ Hk).
Qed.

Lemma realises_pump c sends now s : realises c (pump_down c sends now s).
Proof.
  intros P ls F Hh. destruct (decide (c.(st) = ST_FREE)) as [E|E].
  - pose proof (sh_free _ _ _ _ Hh E) as ->. pose proof (sh_bytes _ _ _ _ Hh) as Hb.
    rewrite pump_down_idle by done. exists P, []. split; [by constructor|done].
  - pose proof (mem_pump_down_ok c P ls F sends now s Hh E) as H.
    destruct (pump_down c sends now s) as [[c2 s2] a2]. destruct H as (P' & ls' & E2 & Hh'). exists P', ls'. split; [|done].
    eapply (mp_pump _ _ []); [constructor|exact E2].
Qed.

Ltac keeps := first [apply realises_id | by apply realises_keep | by apply realises_close; try done; congruence].

Lemma on_resolved_realises c name ip new ok s : realises c (on_resolved c name ip new ok s).
Proof.
  unfold on_resolved. case_bool_decide as E; cbn [negb]; [|keeps]. assert (st c ≠ ST_FREE) as Hf by congruence.
  destruct ip as [ip|]; [|keeps]. destruct new as [t|]; [|keeps]. destruct ok; cbn [negb]; [keeps|].
  apply realises_cons; [done|keeps].
Qed.

Lemma on_connected_realises c ok s : c.(st) ≠ ST_FREE → realises c (on_connected c ok s).
Proof. intros Hf. unfold on_connected. destruct ok; keeps. Qed.

Lemma on_err_realises c s : c.(st) ≠ ST_FREE →
  realises c (let '(c', s', a) := on_err c s in (c', s', gone c ++ a)).
Proof.
  intros Hf. unfold on_err, gone. set (e := conn_close _ false _). assert (realises c e) as He by keeps.
  destruct (pcb c) as [t|]; [by apply (realises_cons c e (TcpGone t))|]. by destruct e as [[? ?] ?].
Qed.

Lemma pump_up_realises c room ok now s : c.(st) ≠ ST_FREE → realises c (pump_up c room ok now s).
Proof.
  intros Hf. unfold pump_up. destruct (up c), (pcb c); try keeps.
  destruct (room =? 0); [keeps|]. destruct ok; keeps.
Qed.

Lemma sniff_realises c io s : realises c (sniff c io s).
Proof.
  unfold sniff. destruct (st c) eqn:E; try keeps. assert (st c ≠ ST_FREE) as Hf by congruence.
  destruct (sni_hostname (up c) (zlen (up c)) 128) as [name| |]; [|destruct (_ <=? _); keeps..].
  destruct (host_normalise _) as [h|]; [|keeps]. destruct (host_denied _); [keeps|].
  set (c2 := c <| host := _ |> <| host := h |> <| st := ST_RESOLVING |>).
  apply realises_cons; [done|]. pose proof (realises_keep c c2 s [] ltac:(done) ltac:(done) ltac:(done)) as Hk.
  destruct (io_dns io) as [ip| |]; [|exact Hk|by apply realises_close].
  pose proof (on_resolved_realises c2 (host c2) (Some ip) (io_new io) (io_connect io) s) as Hr.
  destruct (on_resolved c2 _ _ _ _ s) as [[c3 s3] a3]. by apply (realises_trans _ _ _ _ _ _ _ Hk).
Qed.

Lemma handle_client_readable_realises c io s : c.(st) ≠ ST_FREE → realises c (handle_client_readable c io s).
Proof.
  intros Hf. unfold handle_client_readable. destruct (_ <=? 0); [keeps|].
  destruct (io_recv io _) as [bytes| |]; [|keeps|keeps]. destruct bytes as [|x l].
  { destruct (pcb c), (up c); keeps. }
  set (c1 := c <| up ::= λ u, u ++ x :: l |> <| last_ms := io_now io |>). apply realises_cons; [done|].
  pose proof (realises_keep c c1 s [] ltac:(done) Hf ltac:(done)) as Hk. pose proof (sniff_realises c1 io s) as Hr.
  destruct (sniff c1 io s) as [[c3 s3] a3]. by apply (realises_trans _ _ _ _ _ _ _ Hk).
Qed.

Lemma sweep_slot_realises now c s : realises c (sweep_slot now c s).
Proof. unfold sweep_slot, is_free. case_bool_decide; [keeps|]. destruct (_ <? _); keeps. Qed.

Lemma stop_slot_realises c s : realises c (conn_close c false s).
Proof.
  destruct (decide (c.(st) = ST_FREE)) as [E|E]; [|keeps]. unfold conn_close. rewrite E. keeps.
Qed.

Lemma serve_ready_realises i rev inp c s : realises c (serve_ready i rev inp c s).
Proof.
  unfold serve_ready, is_free. case_bool_decide as E; [keeps|]. destruct (bit rev _); [keeps|].
  set (e := if bit rev POLLOUT then _ else _).
  apply (realises_seq c e (λ c s, if negb (bool_decide (st c = ST_FREE)) && bit rev POLLIN
    then handle_client_readable c (in_io inp i) s else (c, s, []))).
  - unfold e. destruct (bit rev POLLOUT); [apply realises_pump|keeps].
  - intros s'. case_bool_decide; [keeps|]. destruct (bit rev POLLIN); [|keeps].
    by apply handle_client_readable_realises.
Qed.

Lemma finish_slot_realises inp i c s : realises c (finish_slot inp i c s).
Proof.
  unfold finish_slot, is_free. case_bool_decide as E; [keeps|].
  set (last c s := match rx c with [] => (c, s, []) | _ => pump_down c (in_sends_last inp i) (in_down_now inp i) s end).
  set (done c s := match peer_closed c, rx c with true, [] => conn_close c false (s <| completed ::= inc |>) | _, _ => (c, s, []) end).
  set (e1 := if bool_decide (st c = ST_RELAY) then _ else _).
  change (realises c (let '(c, s, a1) := e1 in let '(c, s, a2) := last c s in let '(c, s, a3) := done c s in
    (c, s, a1 ++ a2 ++ a3))).
  assert (realises c e1) as H1 by (unfold e1; case_bool_decide; [by apply pump_up_realises|keeps]).
  destruct e1 as [[c1 s1] a1].
  assert (realises c1 (last c1 s1)) as H2 by (unfold last; destruct (rx c1); [keeps|apply realises_pump]).
  destruct (last c1 s1) as [[c2 s2] a2].
  assert (realises c2 (done c2 s2)) as H3.
  { unfold done. destruct (peer_closed c2); [|keeps]. destruct (rx c2); [|keeps].
    destruct (decide (st c2 = ST_FREE)) as [E2|E2]; [|keeps]. unfold conn_close. rewrite E2.
    intros P ls F Hh. exists P, ls. split; [by constructor|done]. }
  destruct (done c2 s2) as [[c3 s3] a3]. rewrite app_assoc.
  eapply realises_trans; [|exact H3]. by eapply realises_trans.
Qed.

(** ** Several chains *)

(** The chains of [lss] one beside the other, and [F]. *)
Fixpoint chains (C : gmap Z cell) (lss : list (list link)) (F : gmap Z cell) : Prop :=
  match lss with
  | [] => C = F
  | ls :: lss => ∃ F1, chain C ls F1 ∧ chains F1 lss F
  end.

Lemma chains_app C lss kss F : chains C (lss ++ kss) F ↔ ∃ F1, chains C lss F1 ∧ chains F1 kss F.
Proof.
  revert C. induction lss as [|ls lss IH]; intros C; cbn [chains app].
  - split; [by exists C|]. by intros (F1 & -> & H).
  - split.
    + intros (F1 & Hc & H). apply IH in H as (F2 & H1 & H2). exists F2. split; [by exists F1|done].
    + intros (F2 & (F1 & Hc & H1) & H2). exists F1. split; [done|]. apply IH. by exists F2.
Qed.

(** One of them seen first; it may be changed in the others' presence. *)
Lemma chains_focus C lss F i ls : chains C lss F → lss !! i = Some ls →
  ∃ F1, chain C ls F1 ∧ ∀ C' ls', chain C' ls' F1 → chains C' (<[i := ls']> lss) F.
Proof.
  revert C i. induction lss as [|l0 lss IH]; intros C [|i] Hc Hi; try done; destruct Hc as (F0 & H0 & Hc).
  - injection Hi as ->. exists F0. split; [done|]. intros C' ls' H'. by exists F0.
  - destruct (IH F0 i Hc Hi) as (F1 & H1 & Hback). destruct (chain_swap _ _ _ _ _ H0 H1) as (F2 & H2 & H3).
    exists F2. split; [done|]. intros C' ls' H'. destruct (chain_swap _ _ _ _ _ H' H3) as (F3 & H4 & H5).
    exists F3. split; [done|]. by apply Hback.
Qed.

(** One of them taken out. *)
Lemma chains_delete C lss F j ks : chains C lss F → lss !! j = Some ks →
  ∃ F1, chain C ks F1 ∧ chains F1 (delete j lss) F.
Proof.
  revert C j. induction lss as [|l0 lss IH]; intros C [|j] Hc Hj; try done; destruct Hc as (F0 & H0 & Hc).
  - injection Hj as ->. by exists F0.
  - destruct (IH F0 j Hc Hj) as (F1 & H1 & Hd). destruct (chain_swap _ _ _ _ _ H0 H1) as (F2 & H2 & H3).
    exists F2. split; [done|]. by exists F1.
Qed.

Lemma chains_push C lss F F0 ks : chain C ks F0 → chains F0 lss F → chains C (lss ++ [ks]) F.
Proof.
  revert C F0. induction lss as [|l0 lss IH]; intros C F0 Hk Hc; cbn [app chains].
  - exists F0. by split.
  - destruct Hc as (F2 & H0 & Hc). destruct (chain_swap _ _ _ _ _ Hk H0) as (F3 & H1 & H2). exists F3.
    split; [done|]. by eapply IH.
Qed.

Lemma chains_keys C lss F : chains C lss F →
  (map_to_list C).*1 ≡ₚ (l_at <$> concat lss) ++ (map_to_list F).*1.
Proof.
  revert C. induction lss as [|ls lss IH]; intros C Hc; [by rewrite Hc|]. destruct Hc as (F1 & Hc & H).
  cbn [concat]. by rewrite (chain_keys _ _ _ _ Hc), (IH _ H), fmap_app, app_assoc.
Qed.

(** ** The table *)

Definition slot_ok (c : conn_t) (ls : list link) : Prop :=
  unshared ls ∧ c.(rx) = bytes_of ls ∧ (c.(st) = ST_FREE → ls = []).

(** The table in memory: the slots' chains [lss], and [F] besides. *)
Record table_holds (p : proxy) (P : pool) (lss : list (list link)) (F : gmap Z cell) : Prop := {
  th_chains : chains P.(cells) lss F;
  th_slots : Forall2 slot_ok p.(g_conn) lss;
  th_wf : pool_wf P
}.

Definition mems (p : proxy) (lss : list (list link)) : list mconn := zip_with mem_of p.(g_conn) lss.

(** Slot after slot. *)
Inductive tpath (ms : list mconn) (P : pool) : list nat → list mconn → pool → Prop :=
| tp_done : tpath ms P [] ms P
| tp_slot fr ms1 P1 i m fr' m' P2 : tpath ms P fr ms1 P1 → ms1 !! i = Some m → mpath m P1 fr' m' P2 →
    tpath ms P (fr ++ fr') (<[i := m']> ms1) P2
| tp_accept fr ms1 P1 i m c : tpath ms P fr ms1 P1 → ms1 !! i = Some m → m.(base).(st) = ST_FREE → c.(rx) = [] →
    tpath ms P fr (<[i := MConn c None]> ms1) P1.

Lemma tpath_app ms P fr ms1 P1 fr' ms2 P2 : tpath ms P fr ms1 P1 → tpath ms1 P1 fr' ms2 P2 → tpath ms P (fr ++ fr') ms2 P2.
Proof. intros H1. induction 1; rewrite ?app_nil_r, ?app_assoc; [done|by eapply tp_slot|by eapply tp_accept]. Qed.

Definition carries (p : proxy) (r : proxy * list action) : Prop := ∀ P lss F, table_holds p P lss F →
  ∃ P' lss', tpath (mems p lss) P (frees r.2) (mems r.1 lss') P' ∧ table_holds r.1 P' lss' F.

Lemma carries_nil p : carries p (p, []).
Proof. intros P lss F Hh. exists P, lss. split; [by constructor|done]. Qed.

Lemma carries_seq p (r : proxy * list action) (f : proxy → proxy * list action) : carries p r → (∀ q, carries q (f q)) →
  carries p (let '(p, a1) := r in let '(p, a2) := f p in (p, a1 ++ a2)).
Proof.
  destruct r as [q a1]. intros Hr Hf P lss F Hh. destruct (Hr P lss F Hh) as (P1 & l1 & M1 & H1).
  specialize (Hf q P1 l1 F H1). cbn [fst snd] in *. destruct (f q) as [q2 a2]. destruct Hf as (P2 & l2 & M2 & H2).
  exists P2, l2. cbn [fst snd] in *. rewrite frees_app. split; [by eapply tpath_app|done].
Qed.

Lemma mems_insert p i c ls lss c' ls' : p.(g_conn) !! i = Some c → lss !! i = Some ls →
  zip_with mem_of (<[i := c']> p.(g_conn)) (<[i := ls']> lss) = <[i := mem_of c' ls']> (mems p lss).
Proof. intros Hc Hl. unfold mems. by rewrite insert_zip_with. Qed.

Lemma on_slot_carries i f p : (∀ c s, p.(g_conn) !! i = Some c → realises c (f c s)) → carries p (on_slot i f p).
Proof.
  intros Hf P lss F Hh. unfold on_slot. destruct (g_conn p !! i) as [c|] eqn:Ec; [|by apply carries_nil].
  specialize (Hf c (g_stats p) eq_refl). pose proof Hh as [Hc Hs Hw].
  destruct (Forall2_lookup_l _ _ _ _ _ Hs Ec) as (ls & El & Hu & Hb & Hfr).
  destruct (chains_focus _ _ _ _ _ Hc El) as (F1 & H1 & Hback).
  destruct (Hf P ls F1) as (P' & ls' & M & Hh'); [by split|]. destruct (f c (g_stats p)) as [[c' s'] acts].
  cbn [fst snd] in *. exists P', (<[i := ls']> lss). destruct Hh' as [Hc' Hu' Hb' Hf' Hw']. split.
  - unfold mems. cbn [g_conn modify proxy_eta]. change (g_conn (p <| g_conn ::= <[i:=c']> |> <| g_stats := s' |>)) with (<[i:=c']> (g_conn p)).
    rewrite (mems_insert p i c ls lss c' ls' Ec El). eapply (tp_slot _ _ [] _ _ i (mem_of c ls)); [constructor| |done].
    unfold mems. by rewrite lookup_zip_with, Ec, El.
  - split; [by apply Hback| |done]. cbn. by apply Forall2_insert.
Qed.

Lemma each_slot_carries ids f p : (∀ i c s, realises c (f i c s)) → carries p (each_slot ids f p).
Proof.
  intros Hf. revert p. induction ids as [|i ids IH]; intros p; [apply carries_nil|]. cbn [each_slot].
  apply (carries_seq p (on_slot i (f i) p)); [|done]. apply on_slot_carries. intros. apply Hf.
Qed.

Lemma serve_loop_carries k fds inp p : carries p (serve_loop k fds inp p).
Proof.
  revert k p. induction fds as [|fd fds IH]; intros k p; [apply carries_nil|]. cbn [serve_loop].
  apply (carries_seq p (match p_owner fd with Some _ => _ | None => _ end)); [|done].
  destruct (p_owner fd); [|apply carries_nil]. apply on_slot_carries. intros. apply serve_ready_realises.
Qed.

Lemma accept_one_carries p fd now : carries p (accept_one p fd now).
Proof.
  intros P lss F Hh. pose proof Hh as [Hc Hs Hw]. unfold accept_one, conn_alloc.
  destruct (fd <? 0); [by apply carries_nil|].
  destruct (conn_alloc_loop (g_conn p) 0) as [i|] eqn:E; [|exists P, lss; split; [by constructor|done]].
  destruct (conn_alloc_loop_spec _ _ _ E) as (c0 & _ & Hc0 & Hfree). rewrite Nat.sub_0_r in Hc0.
  set (c1 := conn_free <| cfd := fd |> <| st := ST_SNIFF |> <| last_ms := now |>).
  match goal with |- context [table_holds (?q, _).1] => set (p1 := q) end.
  assert (g_conn p1 = <[i:=c1]> (g_conn p)) as Hg.
  { unfold p1. cbn [g_conn modify proxy_eta]. rewrite !list_insert_alter, list_alter_alter_eq. by apply list_alter_ext. }
  destruct (Forall2_lookup_l _ _ _ _ _ Hs Hc0) as (ls & El & Hu & Hb & Hfr).
  assert (ls = []) as -> by by apply Hfr.
  exists P, lss. cbn [fst snd]. assert (lss = <[i:=[]]> lss) as El2 by (by rewrite list_insert_id).
  split; [|split; [done| |done]].
  - assert (mems p1 lss = <[i := mem_of c1 []]> (mems p lss)) as ->.
    { rewrite <- (mems_insert p i c0 [] lss c1 [] Hc0 El), <- El2. unfold mems. by rewrite Hg. }
    apply (tp_accept _ _ [] (mems p lss) P i (mem_of c0 [])); [constructor| | |done].
    + unfold mems. by rewrite lookup_zip_with, Hc0, El.
    + done.
  - rewrite Hg, El2. by apply Forall2_insert.
Qed.

Lemma awg_proxy_poll_carries extra_fd inp p : carries p (let '(q, _, a) := awg_proxy_poll extra_fd inp p in (q, a)).
Proof.
  unfold awg_proxy_poll. destruct (g_listen p <? 0); [apply carries_nil|].
  set (n := length (poll_head p extra_fd)). set (fds := drop n (poll_set p extra_fd)).
  set (served := if 0 <? in_poll inp then _ else _).
  assert (carries p (served.1.1, served.2)) as Hserved.
  { unfold served. destruct (0 <? in_poll inp); [|apply carries_nil].
    set (r := if bit _ _ then _ else _).
    assert (carries p (let '(q, b1) := r in let '(q, b2) := serve_loop n fds inp q in (q, b1 ++ b2))) as Hk.
    { apply carries_seq; [|by intros; apply serve_loop_carries]. unfold r.
      destruct (bit _ _); [apply accept_one_carries|apply carries_nil]. }
    destruct r as [q b1]. by destruct (serve_loop n fds inp q). }
  destruct served as [[q x] a1]. cbn [fst snd] in Hserved.
  set (rest q := let '(q, a2) := sweep_idle (in_now inp) q in
    let '(q, a3) := each_slot slots (finish_slot inp) q in (q, a2 ++ a3)).
  assert (∀ q, carries q (rest q)) as Hrest.
  { intros q1. apply (carries_seq q1 (sweep_idle (in_now inp) q1)); [|intros q2]; apply each_slot_carries; intros.
    - apply sweep_slot_realises.
    - apply finish_slot_realises. }
  pose proof (carries_seq p (q, a1) rest Hserved Hrest) as Hk. unfold rest in Hk. clear Hrest rest.
  destruct (sweep_idle (in_now inp) q) as [q2 a2]. by destruct (each_slot slots (finish_slot inp) q2) as [q3 a3].
Qed.

Lemma awg_proxy_stop_carries p : carries p (awg_proxy_stop p).
Proof.
  unfold awg_proxy_stop. pose proof (each_slot_carries slots (λ _ c s, conn_close c false s) p) as Hk.
  destruct (each_slot slots _ p) as [q a1]. specialize (Hk (λ _, stop_slot_realises)).
  destruct (0 <=? g_listen q); [|done]. intros P lss F Hh. destruct (Hk P lss F Hh) as (P' & lss' & M & H').
  exists P', lss'. cbn [fst snd] in *. rewrite frees_app, app_nil_r. split; [done|]. by destruct H'.
Qed.

(** The events that bring no data; the others are treated below. *)
Definition no_data (ev : event) : bool := match ev with EvRecv _ (Some _) _ => false | _ => true end.

Lemma handle_carries ev p : proxy_wf p → enabled ev p → no_data ev = true → carries p (handle ev p).
Proof.
  intros Hp He Hn. destruct ev as [fd inp|i chain ok|i|i ok|i name ip new ok]; cbn [handle];
    [apply awg_proxy_poll_carries|apply on_slot_carries; intros c s Hc..].
  - destruct chain; [done|]. destruct He as [(c' & Hc' & Hst) _]. assert (st c = ST_RELAY) as E by congruence.
    unfold got. destruct (pcb c); apply realises_keep; try done; cbn; congruence.
  - apply on_err_realises. by apply (enabled_not_free (EvErr i) p i c).
  - apply on_connected_realises. by apply (enabled_not_free (EvConnected i ok) p i c).
  - apply on_resolved_realises.
Qed.
