(* ===== verification/ProxyPool.v ===== *)
(** * The proxy, the stack and the pool together

    A machine whose state is the table of [Proxy], the slots and the pool as they are in
    memory ([ProxyMem], [PbufPool]), and the heads of the chains the stack holds. Packets
    come in from the tunnel (awg_netif.c, [awg_netif_input]), the stack cuts them to
    their length, drops them or hands them to a slot, and the proxy does with them what
    awg_proxy.c does. In every state it reaches each block of the pool is free or in
    exactly one chain, and whatever the table of lists does next can be done in memory. *)
From stdpp Require Import fin_maps gmap.
From S2P Require Import Prelude Cstr Proxy ProxyRun ProxyFlow Pbuf PbufPool ProxyMem.

(** ** The machine *)

(** A packet from the tunnel: the chain handed to [ip4_input], if any. *)
Definition mem_netif_input (old : Z → list Z) (P : pool) (packet : list Z) : res (pool * option Z) :=
  if zlen packet <=? 0 then Ok (P, None)
  else
    '(P, p) ← pbuf_alloc old P 0 (u16 (zlen packet));
    match p with
    | None => mret (P, None)
    | Some a =>
      match pbuf_take_pool P a (ztake (u16 (zlen packet)) packet) with
      | Ok P => mret (P, Some a)
      | Err => '(P, _) ← pbuf_free P (Some a); mret (P, None)
      | Fault => Fault
      end
    end.

Record machine := Machine { m_proxy : proxy; m_slots : list mconn; m_stack : list Z; m_pool : pool }.

(** The slot with its chain read out of the memory. *)
Definition view (P : pool) (m : mconn) : conn_t := m.(base) <| rx := chain_payloads P m.(rx_head) |>.

Definition shows (p : proxy) (ms : list mconn) (P : pool) : Prop := p.(g_conn) = view P <$> ms.

Lemma delete_app_plus {A} (l k : list A) j : delete (length l + j)%nat (l ++ k) = l ++ delete j k.
Proof. induction l as [|x l IH]; [done|]. cbn. f_equal. exact IH. Qed.

Lemma delete_insert_same {A} (l : list A) j x : delete j (<[j := x]> l) = delete j l.
Proof. revert j. induction l as [|y l IH]; intros [|j]; try done. cbn. f_equal. apply IH. Qed.

(** With no block free a packet is dropped. *)
Lemma input_empty old P packet : P.(tab) = [] →
  mem_netif_input old P packet = Ok (if zlen packet <=? 0 then P else P <| alloc_err ::= λ e, u16 (e + 1) |>, None).
Proof.
  intros Ht. unfold mem_netif_input. destruct (zlen packet <=? 0); [done|].
  unfold pbuf_alloc. rewrite Ht. cbn [alloc_loop length]. unfold memp_malloc. by rewrite Ht.
Qed.

Section machine.
(** What the blocks of the pool hold when they are taken. *)
Variable old : Z → list Z.
Hypothesis old_size : ∀ a, zlen (old a) = PBUF_POOL_BUFSIZE_ALIGNED.

Inductive mstep : machine → machine → Prop :=
| step_event p ms stk P ev ms' P' : enabled ev p → no_data ev = true →
    tpath ms P (frees (handle ev p).2) ms' P' → shows (handle ev p).1 ms' P' →
    mstep (Machine p ms stk P) (Machine (handle ev p).1 ms' stk P')
| step_recv p ms stk P i j a ok m m' P' : stk !! j = Some a →
    enabled (EvRecv i (Some (chain_payloads P (Some a))) ok) p → ms !! i = Some m →
    mem_on_recv m P (Some a) ok = Ok (m', P') →
    mstep (Machine p ms stk P)
      (Machine (handle (EvRecv i (Some (chain_payloads P (Some a))) ok) p).1 (<[i := m']> ms) (delete j stk) P')
| step_stop p ms stk P ms' P' : tpath ms P (frees (awg_proxy_stop p).2) ms' P' → shows (awg_proxy_stop p).1 ms' P' →
    mstep (Machine p ms stk P) (Machine (awg_proxy_stop p).1 ms' stk P')
| step_start p ms stk P fd bind_ok listen_ok : all_free p →
    mstep (Machine p ms stk P) (Machine (awg_proxy_start fd bind_ok listen_ok p).1.1 ms stk P)
| step_input p ms stk P packet P' r : zlen packet < 65536 → mem_netif_input old P packet = Ok (P', r) →
    mstep (Machine p ms stk P) (Machine p ms (stk ++ option_list r) P')
| step_trim p ms stk P j a n P' : stk !! j = Some a → 0 <= n → pbuf_realloc P a n = Ok P' →
    mstep (Machine p ms stk P) (Machine p ms stk P')
| step_done p ms stk P j a n P' : stk !! j = Some a → pbuf_free P (Some a) = Ok (P', n) →
    mstep (Machine p ms stk P) (Machine p ms (delete j stk) P').

(** The table empty, all blocks free. *)
Definition machine_init (listen : Z) : machine :=
  Machine (started listen) (replicate MAX_CONN (MConn conn_free None)) [] pool_init.

Inductive reached (listen : Z) : machine → Prop :=
| reached_init : reached listen (machine_init listen)
| reached_step x y : reached listen x → mstep x y → reached listen y.

(** ** The invariant *)

Definition m_ok (m : mconn) (ls : list link) : Prop :=
  m.(rx_head) = head_at ls ∧ unshared ls ∧ m.(base).(rx) = [] ∧ (m.(base).(st) = ST_FREE → ls = []).
Definition k_ok (a : Z) (ks : list link) : Prop :=
  head_at ks = Some a ∧ unshared ks ∧ tot_len (bytes_of ks) < 65536.

(** The pool is made of the slots' chains and the stack's. *)
Record owned (x : machine) (lss kss : list (list link)) : Prop := {
  ow_chains : chains x.(m_pool).(cells) (lss ++ kss) ∅;
  ow_slots : Forall2 m_ok x.(m_slots) lss;
  ow_stack : Forall2 k_ok x.(m_stack) kss;
  ow_wf : pool_wf x.(m_pool);
  ow_shows : shows x.(m_proxy) x.(m_slots) x.(m_pool);
  ow_proxy : proxy_wf x.(m_proxy)
}.

Lemma chains_each C lss F i ls : chains C lss F → lss !! i = Some ls → ∃ F1, chain C ls F1.
Proof. intros Hc Hi. destruct (chains_focus _ _ _ _ _ Hc Hi) as (F1 & H1 & _). by exists F1. Qed.

(** What a slot shows, given its chain. *)
Lemma view_ok P m ls F : m_ok m ls → chain P.(cells) ls F → view P m = m.(base) <| rx := bytes_of ls |>.
Proof. intros (Hh & _) Hc. unfold view. by rewrite Hh, (chain_payloads_ok P ls F Hc). Qed.

Lemma mem_of_view m ls : m_ok m ls → mem_of (m.(base) <| rx := bytes_of ls |>) ls = m.
Proof.
  intros (Hh & _ & Hr & _). destruct m as [b h]. cbn in *. subst h. unfold mem_of. f_equal.
  destruct b. cbn in Hr. by subst.
Qed.

Lemma m_ok_holds P m ls F : m_ok m ls → chain P.(cells) ls F → pool_wf P →
  slot_holds (m.(base) <| rx := bytes_of ls |>) P ls F.
Proof. intros (Hh & Hu & Hr & Hf) Hc Hw. by split. Qed.

Lemma mem_of_ok c P ls F : slot_holds c P ls F → m_ok (mem_of c ls) ls.
Proof. intros [Hc Hu Hb Hf Hw]. by split_and!. Qed.

(** No path leaves it. *)
Lemma mpath_ok m P ls F fr m' P' : chain P.(cells) ls F → m_ok m ls → pool_wf P → mpath m P fr m' P' →
  ∃ ls', chain P'.(cells) ls' F ∧ m_ok m' ls' ∧ pool_wf P'.
Proof.
  intros Hc Hm Hw. induction 1 as [|fr m1 P1 c _ IH Hst Hr|fr m1 P1 sends now s m2 P2 s2 acts _ IH E|fr m1 P1 why s m2 P2 s2 acts _ IH E].
  - by exists ls.
  - destruct IH as (l1 & H1 & (Hh & Hu & _ & _) & Hw1). exists l1. split_and!; done.
  - destruct IH as (l1 & H1 & Hm1 & Hw1). set (c := m1.(base) <| rx := bytes_of l1 |>).
    pose proof (m_ok_holds P1 m1 l1 F Hm1 H1 Hw1) as Hh. rewrite <- (mem_of_view m1 l1 Hm1) in E.
    destruct (decide (st c = ST_FREE)) as [Ef|Ef].
    + pose proof (sh_free _ _ _ _ Hh Ef) as ->. injection E as <- <- <- <-. exists []. split_and!; [done|by eapply mem_of_ok|done].
    + pose proof (mem_pump_down_ok c P1 l1 F sends now s Hh Ef) as Hp. destruct (pump_down c sends now s) as [[c' s'] a'].
      destruct Hp as (P' & ls' & E' & Hh'). fold c in E. rewrite E in E'. injection E' as -> -> -> ->.
      exists ls'. split_and!; [apply Hh'|by eapply mem_of_ok|apply Hh'].
  - destruct IH as (l1 & H1 & Hm1 & Hw1). set (c := m1.(base) <| rx := bytes_of l1 |>).
    pose proof (m_ok_holds P1 m1 l1 F Hm1 H1 Hw1) as Hh. rewrite <- (mem_of_view m1 l1 Hm1) in E.
    pose proof (mem_close_ok c P1 l1 F why s Hh) as Hp. destruct (conn_close c why s) as [[c' s'] a'].
    destruct Hp as (P' & ls' & E' & Hh'). fold c in E. rewrite E in E'. injection E' as -> -> -> ->.
    exists ls'. split_and!; [apply Hh'|by eapply mem_of_ok|apply Hh'].
Qed.

Lemma tpath_ok ms P lss F fr ms' P' : chains P.(cells) lss F → Forall2 m_ok ms lss → pool_wf P → tpath ms P fr ms' P' →
  ∃ lss', chains P'.(cells) lss' F ∧ Forall2 m_ok ms' lss' ∧ pool_wf P'.
Proof.
  intros Hc Hm Hw. induction 1 as [|fr ms1 P1 i m fr' m' P2 _ IH Hi Hp|fr ms1 P1 i m c _ IH Hi Hst Hr].
  - by exists lss.
  - destruct IH as (l1 & H1 & Hm1 & Hw1). destruct (Forall2_lookup_l _ _ _ _ _ Hm1 Hi) as (ls & El & Hok).
    destruct (chains_focus _ _ _ _ _ H1 El) as (F1 & H2 & Hback).
    destruct (mpath_ok m P1 ls F1 fr' m' P2 H2 Hok Hw1 Hp) as (ls' & H3 & Hok' & Hw2).
    exists (<[i := ls']> l1). split_and!; [by apply Hback|by apply Forall2_insert|done].
  - destruct IH as (l1 & H1 & Hm1 & Hw1). destruct (Forall2_lookup_l _ _ _ _ _ Hm1 Hi) as (ls & El & (Hh & Hu & Hb & Hf)).
    rewrite (Hf Hst) in El. exists l1. split_and!; [done| |done]. rewrite <- (list_insert_id l1 i []) by done.
    apply Forall2_insert; [done|]. split_and!; by try constructor.
Qed.

(** The table seen as in [ProxyMem], and back. *)
Lemma view_slots P ms lss F : chains P.(cells) lss F → Forall2 m_ok ms lss →
  Forall2 slot_ok (view P <$> ms) lss ∧ zip_with mem_of (view P <$> ms) lss = ms.
Proof.
  intros Hc Hm. assert (∀ ls, ls ∈ lss → ∃ F1, chain P.(cells) ls F1) as Hall.
  { intros ls [i Hi]%list_elem_of_lookup. by eapply chains_each. }
  clear Hc. induction Hm as [|m ls ms lss Hok Hm IH]; [by split|].
  destruct (Hall ls) as [F1 H1]; [left|]. destruct IH as [IH1 IH2]; [intros; apply Hall; by right|].
  cbn [fmap list_fmap zip_with]. rewrite (view_ok P m ls F1 Hok H1), IH2, mem_of_view by done. split; [|done].
  constructor; [|done]. destruct Hok as (Hh & Hu & Hr & Hf). by split_and!.
Qed.

Lemma owned_table x lss kss : owned x lss kss → ∃ F, chains F kss ∅ ∧
  table_holds x.(m_proxy) x.(m_pool) lss F ∧ x.(m_slots) = mems x.(m_proxy) lss.
Proof.
  intros [Hc Hm Hk Hw Hs Hp]. apply chains_app in Hc as (F & Hc & Hck).
  destruct (view_slots _ _ _ _ Hc Hm) as [H1 H2]. exists F. split; [done|]. unfold mems. rewrite Hs, H2. split; [|done].
  by rewrite <- Hs in H1.
Qed.

Lemma table_shows p P lss F : table_holds p P lss F → shows p (mems p lss) P ∧ Forall2 m_ok (mems p lss) lss.
Proof.
  intros [Hc Hs Hw]. unfold shows, mems.
  assert (∀ ls, ls ∈ lss → ∃ F1, chain P.(cells) ls F1) as Hall.
  { intros ls [i Hi]%list_elem_of_lookup. by eapply chains_each. }
  clear Hc. induction Hs as [|c ls cs lss (Hu & Hb & Hf) Hs IH]; [by split; constructor|].
  destruct (Hall ls) as [F1 H1]; [left|]. destruct IH as [IH1 IH2]; [intros; apply Hall; by right|].
  assert (m_ok (mem_of c ls) ls) as Hok by by split_and!.
  cbn [zip_with fmap list_fmap]. split; [|by constructor]. f_equal; [|exact IH1].
  rewrite (view_ok P (mem_of c ls) ls F1 Hok H1), <- Hb. by destruct c.
Qed.

(** Whatever an operation of the table does can be done, and comes out as it does. *)
Lemma carries_step x lss kss (r : proxy * list action) : owned x lss kss → carries x.(m_proxy) r →
  ∃ ms' P', tpath x.(m_slots) x.(m_pool) (frees r.2) ms' P' ∧ shows r.1 ms' P'.
Proof.
  intros Ho Hr. destruct (owned_table x lss kss Ho) as (F & _ & Ht & ->).
  destruct (Hr _ _ _ Ht) as (P' & lss' & Hp & Ht'). exists (mems r.1 lss'), P'. split; [done|]. by eapply table_shows.
Qed.

Lemma path_owned x lss kss fr ms' P' q : owned x lss kss → tpath x.(m_slots) x.(m_pool) fr ms' P' →
  shows q ms' P' → proxy_wf q → ∃ lss', owned (Machine q ms' x.(m_stack) P') lss' kss.
Proof.
  intros [Hc Hm Hk Hw Hs Hp] Hpath Hq Hwq. apply chains_app in Hc as (F & Hc & Hck).
  destruct (tpath_ok _ _ _ _ _ _ _ Hc Hm Hw Hpath) as (lss' & Hc' & Hm' & Hw'). exists lss'.
  split; try done. apply chains_app. by exists F.
Qed.

Lemma init_owned listen : owned (machine_init listen) (replicate MAX_CONN []) [].
Proof.
  split; cbn [machine_init m_pool m_slots m_stack m_proxy]; [| | |apply pool_init_wf|done|apply started_wf].
  - rewrite app_nil_r. change (cells pool_init) with (∅ : gmap Z cell). generalize MAX_CONN. intros n.
    induction n as [|n IH]; cbn [replicate chains]; [done|]. exists ∅. split; [by apply chain_nil|done].
  - apply Forall2_replicate. split_and!; by try constructor.
  - constructor.
Qed.

(** ** Steps of the stack *)

Definition showing (m : mconn) (ls : list link) : conn_t := m.(base) <| rx := bytes_of ls |>.

Lemma views_eq P ms lss F : chains P.(cells) lss F → Forall2 m_ok ms lss → view P <$> ms = zip_with showing ms lss.
Proof.
  intros Hc Hm. assert (∀ ls, ls ∈ lss → ∃ F1, chain P.(cells) ls F1) as Hall.
  { intros ls [i Hi]%list_elem_of_lookup. by eapply chains_each. }
  clear Hc. induction Hm as [|m ls ms lss Hok Hm IH]; [done|]. destruct (Hall ls) as [F1 H1]; [left|].
  cbn [fmap list_fmap zip_with]. rewrite (view_ok P m ls F1 Hok H1). f_equal. apply IH. intros. apply Hall. by right.
Qed.

Lemma stack_owned x lss kss stk' kss' P' : owned x lss kss → chains P'.(cells) (lss ++ kss') ∅ →
  Forall2 k_ok stk' kss' → pool_wf P' → owned (Machine x.(m_proxy) x.(m_slots) stk' P') lss kss'.
Proof.
  intros [Hc Hm Hk Hw Hs Hp] Hc' Hk' Hw'. split; try done. cbn [m_proxy m_slots m_pool]. unfold shows in *. rewrite Hs.
  apply chains_app in Hc as (F & Hc & _). apply chains_app in Hc' as (F' & Hc' & _).
  by rewrite (views_eq _ _ _ _ Hc Hm), (views_eq _ _ _ _ Hc' Hm).
Qed.

Lemma owned_stack x lss kss j a : owned x lss kss → x.(m_stack) !! j = Some a →
  ∃ ks l rest F, kss !! j = Some ks ∧ k_ok a ks ∧ ks = l :: rest ∧ l.(l_at) = a ∧ chain x.(m_pool).(cells) ks F ∧
    (∀ C' ks', chain C' ks' F → chains C' (lss ++ <[j := ks']> kss) ∅) ∧
    chains F (lss ++ delete j kss) ∅.
Proof.
  intros [Hc Hm Hk Hw Hs Hp] Hj. destruct (Forall2_lookup_l _ _ _ _ _ Hk Hj) as (ks & Ek & Hok).
  assert ((lss ++ kss) !! (length lss + j)%nat = Some ks) as Eapp.
  { rewrite lookup_app_r by lia. by replace (length lss + j - length lss)%nat with j by lia. }
  destruct (chains_focus _ _ _ _ _ Hc Eapp) as (F & H1 & Hback).
  pose proof Hok as (Hh & _ & _). destruct ks as [|l rest]; [done|]. injection Hh as Ea.
  exists (l :: rest), l, rest, F. split_and!; try done.
  - intros C' ks' H'. specialize (Hback C' ks' H'). rewrite insert_app_r in Hback. done.
  - assert (chains F (<[(length lss + j)%nat := []]> (lss ++ kss)) ∅) as Hn by (apply Hback; by apply chain_nil).
    destruct (chains_delete _ _ _ (length lss + j) [] Hn) as (F1 & Hc1 & Hd).
    { apply list_lookup_insert_eq. by eapply lookup_lt_Some. }
    apply chain_nil in Hc1. subst F1. by rewrite delete_insert_same, delete_app_plus in Hd.
Qed.

(** The stack gives up one of its chains. *)
Lemma done_step x lss kss j a : owned x lss kss → x.(m_stack) !! j = Some a →
  ∃ P' n, pbuf_free x.(m_pool) (Some a) = Ok (P', n) ∧
    owned (Machine x.(m_proxy) x.(m_slots) (delete j x.(m_stack)) P') lss (delete j kss).
Proof.
  intros Ho Hj. destruct (owned_stack x lss kss j a Ho Hj) as (ks & l & rest & F & Ek & (Hh & Hu & Ht) & -> & <- & Hc & _ & Hd).
  destruct (pbuf_free_all _ _ _ (ow_wf _ _ _ Ho) Hc Hu) as (P' & E & HF & Hw).
  exists P', (zlen (l :: rest)). split; [exact E|]. eapply stack_owned; [done|by rewrite HF| |done].
  apply Forall2_delete, Ho.
Qed.

Lemma trim_step x lss kss j a n : owned x lss kss → x.(m_stack) !! j = Some a → 0 <= n →
  ∃ P' kss', pbuf_realloc x.(m_pool) a n = Ok P' ∧ owned (Machine x.(m_proxy) x.(m_slots) x.(m_stack) P') lss kss'.
Proof.
  intros Ho Hj Hn. destruct (owned_stack x lss kss j a Ho Hj) as (ks & l & rest & F & Ek & (Hh & Hu & Ht) & -> & <- & Hc & Hback & _).
  destruct (Z.le_gt_cases n (tot_len (bytes_of (l :: rest)))) as [Hle|Hgt].
  - destruct (pbuf_realloc_ok _ _ _ _ n (ow_wf _ _ _ Ho) Hc Hu Ht ltac:(lia)) as (P' & ls' & E & Hc' & Hw & Hu' & Hh' & Hb).
    exists P', (<[j := ls']> kss). split; [done|]. eapply stack_owned; [done|by apply Hback| |done].
    rewrite <- (list_insert_id (m_stack x) j (l_at l)) by done. apply Forall2_insert; [apply Ho|].
    split_and!; [done|done|]. unfold tot_len. rewrite Hb, zlen_ztake by (unfold tot_len in *; lia). unfold tot_len in *. lia.
  - exists (m_pool x), kss. split; [|by destruct x]. unfold pbuf_realloc.
    rewrite (deref_ok _ _ _ (chain_head _ _ _ _ _ Hc)). cbn [mbind res_bind cell_of p_tot_len].
    assert (0 <= tot_len (bytes_of (l :: rest))) by apply zlen_nonneg.
    rewrite Z.add_0_r, u16_small by (unfold is_u; lia). by rewrite (proj2 (Z.leb_le _ _)) by lia.
Qed.

Lemma input_step x lss kss packet : owned x lss kss → zlen packet < 65536 →
  ∃ P' r, mem_netif_input old x.(m_pool) packet = Ok (P', r) ∧
  match r with
  | None => owned (Machine x.(m_proxy) x.(m_slots) x.(m_stack) P') lss kss ∧
            (packet = [] ∨ x.(m_pool).(tab) = [] ∨ 1500 * zlen x.(m_pool).(tab) < zlen packet)
  | Some a => ∃ ks, owned (Machine x.(m_proxy) x.(m_slots) (x.(m_stack) ++ [a]) P') lss (kss ++ [ks]) ∧
            concat (bytes_of ks) = packet ∧ (length P'.(tab) < length x.(m_pool).(tab))%nat
  end.
Proof.
  intros Ho Hz. unfold mem_netif_input. pose proof (zlen_nonneg packet).
  destruct (Z.leb_spec (zlen packet) 0) as [Hle|Hgt].
  { exists (m_pool x), None. split; [done|]. split; [by destruct x|]. left. apply nil_length_inv. unfold zlen in *. lia. }
  rewrite u16_small by (unfold is_u; lia).
  destruct (pbuf_alloc_ok old x.(m_pool) 0 (zlen packet) old_size (ow_wf _ _ _ Ho)) as (P1 & r & E & Hw & Hr);
    [unfold is_u; lia|lia|done|]. rewrite E. cbn [mbind res_bind]. destruct r as [a|].
  - destruct Hr as (ls & Hc & Hu & Ht & Hh). destruct ls as [|l ls]; [done|]. injection Hh as <-.
    rewrite ztake_all by lia.
    pose proof (pbuf_take_pool_ok P1 l ls _ packet Hw Hc ltac:(lia)) as Htk.
    destruct (pbuf_take_exact (bytes_of (l :: ls)) packet Ht) as (p & Ep & Hp). rewrite Ep in Htk.
    destruct Htk as (P2 & -> & Hc2 & Hw2 & Etab). exists P2, (Some (l_at l)). split; [done|].
    assert (length p = length (l :: ls)) as Hlen.
    { unfold pbuf_take in Ep. destruct (_ <? _); [done|]. apply pbuf_take_shape in Ep. apply (f_equal length) in Ep.
      unfold bytes_of in Ep. by rewrite !length_fmap in Ep. }
    exists (with_bytes (l :: ls) p). rewrite bytes_of_with by done. split; [|split; [done|]].
    2: { pose proof (wf_size _ Hw) as Hs1. pose proof (wf_size _ (ow_wf _ _ _ Ho)) as Hs0.
      apply chain_keys, Permutation_length in Hc. rewrite length_app, !length_fmap, !length_map_to_list in Hc.
      rewrite Etab. unfold zlen in *. cbn [length] in Hc. lia. }
    eapply stack_owned; [done| | |done].
    + rewrite app_assoc. eapply chains_push; [done|]. apply Ho.
    + apply Forall2_app; [apply Ho|]. constructor; [|constructor]. split_and!.
      * by destruct p as [|b p]; [discriminate Hlen|].
      * by apply with_bytes_unshared.
      * rewrite bytes_of_with by done. unfold tot_len. rewrite Hp. lia.
  - destruct Hr as [Hcells Hfull]. exists P1, None. split; [done|]. split.
    + eapply stack_owned; [done|rewrite Hcells; apply Ho|apply Ho|done].
    + right. destruct Hfull as [Ht|Hr]; [by left|right]. change (room 0) with 1500 in Hr. lia.
Qed.

(** A chain of the stack's is handed to a slot. *)
Lemma recv_step x lss kss i j a ok m : owned x lss kss → x.(m_stack) !! j = Some a → x.(m_slots) !! i = Some m →
  let ev := EvRecv i (Some (chain_payloads x.(m_pool) (Some a))) ok in enabled ev x.(m_proxy) →
  ∃ m' P' lss', mem_on_recv m x.(m_pool) (Some a) ok = Ok (m', P') ∧
    owned (Machine (handle ev x.(m_proxy)).1 (<[i := m']> x.(m_slots)) (delete j x.(m_stack)) P') lss' (delete j kss).
Proof.
  intros Ho Hj Hi ev He.
  destruct (owned_stack x lss kss j a Ho Hj) as (ks & l & rest & F & Ek & (Hh & Hu & Ht) & El & <- & Hc & _ & Hd).
  assert (head_at ks = Some (l_at l)) as Hhd by by subst.
  pose proof (chain_payloads_ok _ _ _ Hc) as Hpay. rewrite Hhd in Hpay. unfold ev in *. rewrite Hpay in *. clear ev.
  destruct Ho as [Hcs Hm Hk Hw Hs Hp]. destruct (Forall2_lookup_l _ _ _ _ _ Hm Hi) as (ls & Els & Hok).
  apply chains_app in Hd as (F0 & Hd & Hd2).
  destruct (chains_focus _ _ _ _ _ Hd Els) as (F1 & H1 & Hback).
  destruct (chain_swap _ _ _ _ _ Hc H1) as (F2 & H2 & H3).
  pose proof (m_ok_holds _ _ _ _ Hok H2 Hw) as Hholds. set (c := showing m ls).
  change (slot_holds c (m_pool x) ls F2) in Hholds.
  assert (g_conn (m_proxy x) !! i = Some c) as Hci.
  { unfold shows in Hs. rewrite Hs, list_lookup_fmap, Hi. cbn. f_equal. by apply (view_ok _ _ _ F2). }
  assert (st c ≠ ST_FREE) as Hst.
  { destruct He as [(c' & Hc' & E) _]. simplify_eq. congruence. }
  assert (handle_ok : proxy_wf (handle (EvRecv i (Some (bytes_of ks)) ok) (m_proxy x)).1) by by apply handle_ok.
  assert (ks ≠ []) as Hne by by subst.
  assert (g_conn (handle (EvRecv i (Some (bytes_of ks)) ok) (m_proxy x)).1 =
          <[i := on_recv c (Some (bytes_of ks)) ok]> (g_conn (m_proxy x))) as Hg.
  { cbn [handle]. unfold on_slot. by rewrite Hci. }
  assert (∀ m' P' ls', slot_holds (on_recv c (Some (bytes_of ks)) ok) P' ls' F1 →
    m' = mem_of (on_recv c (Some (bytes_of ks)) ok) ls' →
    owned (Machine (handle (EvRecv i (Some (bytes_of ks)) ok) (m_proxy x)).1 (<[i := m']> (m_slots x))
      (delete j (m_stack x)) P') (<[i := ls']> lss) (delete j kss)) as Hfin.
  { intros m' P' ls' Hh' ->. pose proof (mem_of_ok _ _ _ _ Hh') as Hok'. pose proof Hh' as [Hc' Hu' Hb' Hf' Hw'].
    assert (chains P'.(cells) (<[i := ls']> lss) F0) as Hcc by by apply Hback.
    split; cbn [m_pool m_slots m_stack m_proxy]; [|by apply Forall2_insert|by apply Forall2_delete|done| |done].
    - apply chains_app. by exists F0.
    - unfold shows. rewrite Hg, (views_eq _ _ _ _ Hcc) by (by apply Forall2_insert).
      apply chains_app in Hcs as (F' & Hcs & _).
      rewrite <- insert_zip_with, <- (views_eq _ _ _ _ Hcs Hm). unfold shows in Hs. rewrite Hs. f_equal.
      unfold showing, mem_of. cbn [base]. rewrite <- Hb'. by destruct (on_recv c _ ok). }
  destruct ok.
  - destruct (mem_on_recv_ok c (m_pool x) ls ks F2 F1 Hholds H3 Hu Hne Hst) as (P' & E & Hh').
    exists (mem_of (on_recv c (Some (bytes_of ks)) true) (ls ++ ks)), P', (<[i := ls ++ ks]> lss).
    split; [|by apply Hfin]. rewrite <- Hhd, <- E. f_equal. symmetry. by apply mem_of_view.
  - destruct (mem_on_recv_err c (m_pool x) ls ks F2 F1 Hholds H3 Hu Hne) as (P' & E & Hh').
    exists (mem_of c ls), P', (<[i := ls]> lss). split; [|by apply Hfin].
    rewrite <- Hhd, <- E. f_equal. symmetry. by apply mem_of_view.
Qed.

(** ** Runs *)

Lemma start_same fd b l p : all_free p → g_conn (awg_proxy_start fd b l p).1.1 = g_conn p.
Proof.
  intros Hf. unfold awg_proxy_start. destruct (open_listener fd b l) as [ln a]. cbn.
  unfold all_free in Hf. induction Hf as [|c cs -> Hf IH]; [done|]. cbn. by rewrite IH.
Qed.

Lemma reached_owned listen x : reached listen x → ∃ lss kss, owned x lss kss.
Proof.
  induction 1 as [|x y _ (lss & kss & Ho) Hst]; [by eexists _, _; apply init_owned|]. pose proof (ow_proxy _ _ _ Ho) as Hp.
  destruct Hst as [p ms stk P ev ms' P' He Hn Hpath Hsh|p ms stk P i j a ok m m' P' Hj He Hi E|p ms stk P ms' P' Hpath Hsh
    |p ms stk P fd b l Hf|p ms stk P packet P' r Hz E|p ms stk P j a n P' Hj Hn E|p ms stk P j a n P' Hj E].
  - destruct (path_owned _ _ _ _ _ _ _ Ho Hpath Hsh) as (lss' & Ho'); [by apply handle_ok|]. by exists lss', kss.
  - destruct (recv_step _ _ _ i j a ok m Ho Hj Hi He) as (m2 & P2 & lss' & E2 & Ho'). cbn [m_pool] in E2.
    rewrite E in E2. injection E2 as <- <-. by exists lss', (delete j kss).
  - destruct (path_owned _ _ _ _ _ _ _ Ho Hpath Hsh) as (lss' & Ho'); [by apply stop_wf|]. by exists lss', kss.
  - exists lss, kss. destruct Ho as [Hc Hm Hk Hw Hs _]. split; try done; cbn in *; [|by apply start_wf].
    unfold shows in *. by rewrite start_same.
  - destruct (input_step _ _ _ packet Ho Hz) as (P2 & r2 & E2 & Hr). cbn [m_pool] in E2. rewrite E in E2. injection E2 as <- <-.
    destruct r as [a|]; [|exists lss, kss; cbn; rewrite app_nil_r; apply Hr].
    destruct Hr as (ks & Ho' & _ & _). by exists lss, (kss ++ [ks]).
  - destruct (trim_step _ _ _ j a n Ho Hj Hn) as (P2 & kss' & E2 & Ho'). cbn [m_pool] in E2. rewrite E in E2. injection E2 as <-.
    by exists lss, kss'.
  - destruct (done_step _ _ _ j a Ho Hj) as (P2 & n2 & E2 & Ho'). cbn [m_pool] in E2. rewrite E in E2. injection E2 as <- <-.
    by exists lss, (delete j kss).
Qed.

(** The blocks in the chains of the slots and of the stack. *)
Definition held (x : machine) : list Z :=
  concat ((λ m, chain_blocks x.(m_pool) m.(rx_head)) <$> x.(m_slots)) ++
  concat ((λ a, chain_blocks x.(m_pool) (Some a)) <$> x.(m_stack)).

Lemma held_spec x lss kss : owned x lss kss → held x = l_at <$> concat (lss ++ kss).
Proof.
  intros [Hc Hm Hk Hw Hs Hp]. rewrite concat_app, fmap_app. unfold held.
  assert (∀ ls, ls ∈ lss ++ kss → ∃ F1, chain x.(m_pool).(cells) ls F1) as Hall.
  { intros ls [i Hi]%list_elem_of_lookup. by eapply chains_each. }
  clear Hc. f_equal.
  - assert (∀ ls, ls ∈ lss → ∃ F1, chain x.(m_pool).(cells) ls F1) as Hl by (intros; apply Hall, elem_of_app; by left).
    clear Hall Hk Hs. induction Hm as [|m ls ms lss (Hh & _) Hm IH]; [done|]. destruct (Hl ls) as [F1 H1]; [left|].
    cbn [fmap list_fmap concat]. rewrite Hh, (chain_blocks_ok _ _ _ H1), fmap_app, <- IH; [done|].
    intros. apply Hl. by right.
  - assert (∀ ls, ls ∈ kss → ∃ F1, chain x.(m_pool).(cells) ls F1) as Hl by (intros; apply Hall, elem_of_app; by right).
    clear Hall Hm Hs. induction Hk as [|a ls stk kss (Hh & _) Hm IH]; [done|]. destruct (Hl ls) as [F1 H1]; [left|].
    cbn [fmap list_fmap concat]. rewrite <- Hh, (chain_blocks_ok _ _ _ H1), fmap_app, <- IH; [done|].
    intros. apply Hl. by right.
Qed.

Lemma owned_blocks x lss kss : owned x lss kss → x.(m_pool).(tab) ++ held x ≡ₚ pool_init.(tab).
Proof.
  intros Ho. rewrite (held_spec _ _ _ Ho). destruct Ho as [Hc _ _ [Hb _] _ _].
  rewrite (chains_keys _ _ _ Hc), map_to_list_empty in Hb. cbn in Hb. by rewrite app_nil_r in Hb.
Qed.

Lemma event_step x lss kss ev : owned x lss kss → enabled ev x.(m_proxy) → no_data ev = true →
  ∃ ms' P', mstep x (Machine (handle ev x.(m_proxy)).1 ms' x.(m_stack) P').
Proof.
  intros Ho He Hn. destruct (carries_step _ _ _ (handle ev x.(m_proxy)) Ho) as (ms' & P' & Hp & Hs);
    [apply handle_carries; [apply Ho|done|done]|]. exists ms', P'. destruct x. by apply step_event.
Qed.

Lemma stop_step x lss kss : owned x lss kss →
  ∃ ms' P', mstep x (Machine (awg_proxy_stop x.(m_proxy)).1 ms' x.(m_stack) P').
Proof.
  intros Ho. destruct (carries_step _ _ _ (awg_proxy_stop x.(m_proxy)) Ho) as (ms' & P' & Hp & Hs);
    [apply awg_proxy_stop_carries|]. exists ms', P'. destruct x. by apply step_stop.
Qed.

Lemma play_reached listen evs : ∀ x, reached listen x → all_enabled evs x.(m_proxy) → forallb no_data evs = true →
  ∃ y, reached listen y ∧ y.(m_proxy) = (play evs x.(m_proxy)).1 ∧ y.(m_stack) = x.(m_stack).
Proof.
  induction evs as [|ev evs IH]; intros x Hx Ha Hn; [by exists x|]. cbn in Ha, Hn. apply andb_true_iff in Hn as [Hn1 Hn].
  destruct Ha as [He Ha]. destruct (reached_owned _ _ Hx) as (lss & kss & Ho).
  destruct (event_step _ _ _ _ Ho He Hn1) as (ms' & P' & Hst). pose proof (reached_step _ _ _ Hx Hst) as Hy.
  destruct (IH _ Hy Ha Hn) as (y & Hr & Hp & Hk). exists y. split; [done|]. cbn [m_proxy m_stack] in *. rewrite Hp.
  split; [|done]. cbn [play]. destruct (handle ev (m_proxy x)) as [q a1]. cbn [fst]. by destruct (play evs q).
Qed.

(** A data event that the table could take, from the chain that carries it. *)
Lemma data_step x lss kss i j a ok : owned x lss kss → x.(m_stack) !! j = Some a →
  enabled (EvRecv i (Some (chain_payloads x.(m_pool) (Some a))) ok) x.(m_proxy) →
  ∃ m m' P', x.(m_slots) !! i = Some m ∧ mem_on_recv m x.(m_pool) (Some a) ok = Ok (m', P') ∧
    mstep x (Machine (handle (EvRecv i (Some (chain_payloads x.(m_pool) (Some a))) ok) x.(m_proxy)).1
      (<[i := m']> x.(m_slots)) (delete j x.(m_stack)) P').
Proof.
  intros Ho Hj He. assert (∃ m, x.(m_slots) !! i = Some m) as [m Hi].
  { destruct He as [(c & Hc & _) _]. pose proof (ow_shows _ _ _ Ho) as Hs. unfold shows in Hs. rewrite Hs in Hc.
    rewrite list_lookup_fmap in Hc. destruct (m_slots x !! i) as [m|]; [by exists m|done]. }
  destruct (recv_step _ _ _ i j a ok m Ho Hj Hi He) as (m' & P' & lss' & E & _).
  exists m, m', P'. split_and!; [done|done|]. destruct x. by eapply step_recv.
Qed.

(** ** A client that does not read *)

(** One client in slot 0, relayed, nothing unread; nothing else is going on. *)
Definition lone_client (x : machine) : Prop :=
  (∃ c, x.(m_proxy).(g_conn) !! 0%nat = Some c ∧ c.(st) = ST_RELAY ∧ c.(rx) = []) ∧
  (∀ i c, i ≠ 0%nat → x.(m_proxy).(g_conn) !! i = Some c → c = conn_free) ∧ x.(m_stack) = [].

Lemma cat_loop_tab fuel : ∀ P p t P', cat_loop fuel P p t = Ok P' → P'.(tab) = P.(tab).
Proof.
  induction fuel as [|fuel IH]; intros P p t P' E; [done|]. cbn [cat_loop] in E.
  destruct (deref P p) as [c| |]; try done. destruct (deref P t) as [ct| |]; try done. cbn [mbind res_bind] in E.
  destruct (p_next c).
  - by apply IH in E.
  - destruct (negb _); [done|]. by injection E as <-.
Qed.

Lemma mem_on_recv_tab m P a m' P' : mem_on_recv m P (Some a) true = Ok (m', P') → P'.(tab) = P.(tab).
Proof.
  cbn [mem_on_recv negb]. destruct (rx_head m) as [h|]; [|by intros [= <- <-]]. cbn [pbuf_cat].
  destruct (h =? a); [done|]. destruct (cat_loop _ P h a) as [P1| |] eqn:E; try done.
  intros [= <- <-]. by eapply cat_loop_tab.
Qed.

(** lwipopts.h: the segment size and the receive window, in bytes. *)
Definition TCP_MSS : Z := 1360.
Definition TCP_WND : Z := 16 * TCP_MSS.

(** What the stack still lets the other end of slot [i] send: [tcp_recved] gives the
    window back only for what the proxy has passed on. *)
Definition window_left (x : machine) (i : nat) : Z :=
  match x.(m_proxy).(g_conn) !! i with Some c => TCP_WND - zlen (concat c.(rx)) | None => 0 end.

(** Segments for slot [i] come out of the tunnel one after the other, none longer than the
    segment size, each within the window left, and [on_recv] keeps them; the proxy is not
    polled. Their headers are counted as if they were data. *)
Inductive segments (i : nat) : machine → list (list Z) → machine → Prop :=
| seg_none x : segments i x [] x
| seg_next p ms P seg segs P1 a m m' P2 y :
    let x := Machine p ms [] P in
    let ev := EvRecv i (Some (chain_payloads P1 (Some a))) true in
    0 < zlen seg <= TCP_MSS → zlen seg <= window_left x i →
    mem_netif_input old P seg = Ok (P1, Some a) →
    enabled ev p → ms !! i = Some m → mem_on_recv m P1 (Some a) true = Ok (m', P2) →
    segments i (Machine (handle ev p).1 (<[i := m']> ms) [] P2) segs y →
    segments i x (seg :: segs) y.

(** One more segment: it is kept, and at least one block is gone. *)
Lemma one_segment listen x i c seg : reached listen x → x.(m_stack) = [] →
  x.(m_proxy).(g_conn) !! i = Some c → c.(st) = ST_RELAY → x.(m_pool).(tab) ≠ [] → 0 < zlen seg <= TCP_MSS →
  ∃ P1 a m m' P2, let ev := EvRecv i (Some (chain_payloads P1 (Some a))) true in
    let y := Machine (handle ev x.(m_proxy)).1 (<[i := m']> x.(m_slots)) [] P2 in
    mem_netif_input old x.(m_pool) seg = Ok (P1, Some a) ∧ enabled ev x.(m_proxy) ∧ x.(m_slots) !! i = Some m ∧
    mem_on_recv m P1 (Some a) true = Ok (m', P2) ∧ reached listen y ∧
    (length P2.(tab) < length x.(m_pool).(tab))%nat ∧
    ∃ c', y.(m_proxy).(g_conn) !! i = Some c' ∧ c'.(st) = ST_RELAY ∧ concat c'.(rx) = concat c.(rx) ++ seg.
Proof.
  intros Hx Hstk Hc Hst Htab Hseg. destruct (reached_owned _ _ Hx) as (lss & kss & Ho). unfold TCP_MSS in Hseg.
  destruct (input_step _ _ _ seg Ho ltac:(lia)) as (P1 & r & E & Hr). destruct r as [a|].
  2: { destruct Hr as [_ [->|[?|H]]]; [change (zlen []) with 0 in Hseg; lia|done|]. destruct (tab (m_pool x)); [done|].
       unfold zlen in *. cbn [length] in H. lia. }
  destruct Hr as (ks & Ho1 & Hb & Hlt). destruct x as [p ms stk P]. cbn [m_proxy m_slots m_stack m_pool] in *. subst stk.
  pose proof (reached_step _ _ _ Hx (step_input p ms [] P seg P1 (Some a) ltac:(lia) E)) as Hx1.
  destruct (owned_stack _ _ _ 0 a Ho1 eq_refl) as (ks' & l & rest & F & Hks & (Hh & _) & _ & _ & Hch & _).
  assert (kss = []) as -> by (pose proof (ow_stack _ _ _ Ho) as Hk; by apply Forall2_nil_inv_l in Hk).
  cbn in Hks. injection Hks as <-.
  pose proof (chain_payloads_ok _ _ _ Hch) as Hpay. rewrite Hh in Hpay. cbn [m_pool] in Hpay.
  destruct (data_step _ _ _ i 0 a true Ho1 eq_refl) as (m & m' & P2 & Hm & E2 & Hstep).
  { split; [by exists c|]. intros q [= <-]. cbn [m_pool]. rewrite Hpay. apply chain_links in Hch.
    unfold bytes_of. apply Forall_fmap. eapply Forall_impl; [exact Hch|]. by intros ? [_ ?]. }
  exists P1, a, m, m', P2. cbv zeta. split; [done|]. split.
  { split; [by exists c|]. intros q [= <-]. rewrite Hpay. apply chain_links in Hch.
    unfold bytes_of. apply Forall_fmap. eapply Forall_impl; [exact Hch|]. by intros ? [_ ?]. }
  split; [done|]. split; [done|]. split; [exact (reached_step _ _ _ Hx1 Hstep)|].
  split; [by rewrite (mem_on_recv_tab _ _ _ _ _ E2)|].
  exists (on_recv c (Some (chain_payloads P1 (Some a))) true). cbn [m_proxy handle]. unfold on_slot. rewrite Hc.
  split; [apply list_lookup_insert_eq; by eapply lookup_lt_Some|]. split; [exact Hst|].
  change (rx (on_recv c (Some (chain_payloads P1 (Some a))) true)) with (rx c ++ chain_payloads P1 (Some a)).
  by rewrite concat_app, Hpay, Hb.
Qed.

(** Each segment takes a block, until none is left. *)
Lemma fill_pool listen i segs : ∀ x c, reached listen x → x.(m_stack) = [] →
  x.(m_proxy).(g_conn) !! i = Some c → c.(st) = ST_RELAY → Forall (λ s, 0 < zlen s <= TCP_MSS) segs →
  zlen (concat c.(rx)) + zlen (concat segs) <= TCP_WND → (length x.(m_pool).(tab) <= length segs)%nat →
  ∃ taken rest y c', segs = taken ++ rest ∧ segments i x taken y ∧ reached listen y ∧ y.(m_pool).(tab) = [] ∧
    y.(m_proxy).(g_conn) !! i = Some c' ∧ c'.(st) = ST_RELAY ∧ concat c'.(rx) = concat c.(rx) ++ concat taken.
Proof.
  induction segs as [|seg segs IH]; intros x c Hx Hstk Hc Hst Hs Hw Hn.
  { exists [], [], x, c. cbn [concat]. rewrite !app_nil_r. split_and!; try done; [exact (seg_none i x)|]. cbn in Hn.
    apply nil_length_inv. lia. }
  destruct (decide (x.(m_pool).(tab) = [])) as [Ht|Ht].
  { exists [], (seg :: segs), x, c. cbn [concat]. rewrite !app_nil_r. split_and!; try done. exact (seg_none i x). }
  apply Forall_cons in Hs as [Hseg Hs]. cbn [concat] in Hw. rewrite zlen_app in Hw.
  destruct (one_segment listen x i c seg Hx Hstk Hc Hst Ht Hseg) as (P1 & a & m & m' & P2 & H). cbv zeta in H.
  destruct H as (E & He & Hm & E2 & Hy & Hlt & c1 & Hc1 & Hst1 & Hrx).
  destruct (IH _ c1 Hy eq_refl Hc1 Hst1 Hs) as (taken & rest & y & c' & -> & Hg & Hr & Ht' & Hc' & Hst' & Hrx').
  { rewrite Hrx, zlen_app. lia. }
  { cbn [m_pool length] in *. lia. }
  exists (seg :: taken), rest, y, c'. split; [done|]. split; [|rewrite Hrx', Hrx; cbn [concat]; by rewrite app_assoc].
  destruct x as [p ms stk P]. cbn [m_proxy m_slots m_stack m_pool] in *. subst stk.
  eapply seg_next; [done| |done|done|done|done|done]. unfold window_left. cbn [m_proxy]. rewrite Hc.
  pose proof (zlen_nonneg (concat (taken ++ rest))). lia.
Qed.

Lemma lone_client_reached : ∃ x, reached 3 x ∧ lone_client x.
Proof.
  destruct (play_reached 3 (take 4 sample_run) (machine_init 3)) as (y & Hy & Hp & Hs).
  - constructor.
  - apply (all_enabled_take 4), sample_run_enabled.
  - done.
  - exists y. split; [exact Hy|]. unfold lone_client. rewrite Hp, Hs. clear y Hy Hp Hs.
    change (m_proxy (machine_init 3)) with (started 3). change (m_stack (machine_init 3)) with (@nil Z).
    assert ((play (take 4 sample_run) (started 3)).1.(g_conn) =
      Conn ST_RELAY 7 (Some 5) (str "a.com") 200 (hello_for (str "a.com")) [] 0 false :: replicate 15 conn_free) as ->
      by (vm_compute; reflexivity).
    split; [by eexists|split; [|reflexivity]].
    intros [|i] c Hne Hi; [by destruct Hne|]. by apply lookup_replicate in Hi as [-> _].
Qed.
End machine.

(** ** Properties *)

(** Along every run of the proxy, the stack and the pool together, whatever comes out
    of the tunnel and whenever the proxy is polled, called back, stopped or started: the
    slots in memory show the table, and each block of the pool is either free or in
    exactly one chain of a slot or of the stack; none is lost, shared or freed twice. So
    when no slot is in use and the stack holds nothing, all of them are free. *)
Theorem pool_accounts (old : Z → list Z) (listen : Z) (x : machine) :
  (∀ a, zlen (old a) = PBUF_POOL_BUFSIZE_ALIGNED) → reached old listen x →
  shows x.(m_proxy) x.(m_slots) x.(m_pool) ∧
  x.(m_pool).(tab) ++ held x ≡ₚ pool_init.(tab) ∧
  (all_free x.(m_proxy) → x.(m_stack) = [] → x.(m_pool).(tab) ≡ₚ pool_init.(tab)).
Proof.
  intros Ho Hx. destruct (reached_owned old Ho listen x Hx) as (lss & kss & Hw). pose proof (owned_blocks _ _ _ Hw) as Hb.
  split; [apply Hw|]. split; [done|]. intros Hf Hs. rewrite (held_spec _ _ _ Hw) in Hb.
  pose proof (ow_stack _ _ _ Hw) as Hk. rewrite Hs in Hk. apply Forall2_nil_inv_l in Hk. subst kss.
  assert (concat lss = []) as E; [|by rewrite app_nil_r, E in Hb; cbn in Hb; rewrite app_nil_r in Hb].
  destruct (owned_table _ _ _ Hw) as (F & _ & [_ Hsl _] & _). unfold all_free in Hf. clear -Hf Hsl.
  induction Hsl as [|c ls cs lss (_ & _ & Hc) Hsl IH]; [done|]. apply Forall_cons in Hf as [-> Hf].
  cbn. by rewrite Hc, IH.
Qed.

(** C34: the code in memory does what the table of lists does, and never goes wrong: in
    every state of such a run, whatever event the table may take next the memory can
    take too, with the same frees and showing the same table afterwards; a packet from
    the tunnel, a cut and a drop by the stack succeed as well. In none of them is a block
    touched that is not allocated, or freed without a reference. *)
Theorem pool_refines (old : Z → list Z) (listen : Z) (x : machine) :
  (∀ a, zlen (old a) = PBUF_POOL_BUFSIZE_ALIGNED) → reached old listen x →
  (∀ ev, enabled ev x.(m_proxy) → no_data ev = true →
    ∃ ms' P', mstep old x (Machine (handle ev x.(m_proxy)).1 ms' x.(m_stack) P')) ∧
  (∀ i j a ok, x.(m_stack) !! j = Some a →
    let ev := EvRecv i (Some (chain_payloads x.(m_pool) (Some a))) ok in enabled ev x.(m_proxy) →
    ∃ ms' P', mstep old x (Machine (handle ev x.(m_proxy)).1 ms' (delete j x.(m_stack)) P')) ∧
  (∃ ms' P', mstep old x (Machine (awg_proxy_stop x.(m_proxy)).1 ms' x.(m_stack) P')) ∧
  (∀ packet, zlen packet < 65536 → ∃ P' r, mem_netif_input old x.(m_pool) packet = Ok (P', r) ∧
    ∀ a, r = Some a → concat (chain_payloads P' (Some a)) = packet) ∧
  (∀ j a n, x.(m_stack) !! j = Some a → 0 <= n → ∃ P', pbuf_realloc x.(m_pool) a n = Ok P') ∧
  (∀ j a, x.(m_stack) !! j = Some a → ∃ P' n, pbuf_free x.(m_pool) (Some a) = Ok (P', n)).
Proof.
  intros Ho Hx. destruct (reached_owned old Ho listen x Hx) as (lss & kss & Hw). split_and!.
  - intros ev. by eapply event_step.
  - intros i j a ok Hj ev He. destruct (data_step old _ _ _ i j a ok Hw Hj He) as (m & m' & P' & _ & _ & H). eauto.
  - by eapply stop_step.
  - intros packet Hz. destruct (input_step old Ho _ _ _ packet Hw Hz) as (P' & r & E & Hr). exists P', r. split; [done|].
    intros a ->. destruct Hr as (ks & Hw' & Hb & _).
    destruct (owned_stack _ _ _ (length x.(m_stack)) a Hw') as (ks' & l & rest & F & Ek & (Hh & _) & _ & _ & Hc & _).
    { cbn [m_stack]. by apply list_lookup_middle. }
    assert (length x.(m_stack) = length kss) as El by (eapply Forall2_length; apply Hw).
    rewrite El, list_lookup_middle in Ek by done. injection Ek as <-.
    pose proof (chain_payloads_ok _ _ _ Hc) as Hpay. rewrite Hh in Hpay. cbn [m_pool] in Hpay. by rewrite Hpay.
  - intros j a n Hj Hn. destruct (trim_step _ _ _ j a n Hw Hj Hn) as (P' & kss' & E & _). by exists P'.
  - intros j a Hj. destruct (done_step _ _ _ j a Hw Hj) as (P' & n & E & _). by exists P', n.
Qed.

(** C35: one client can stop the tunnel, and the receive window does not prevent it. From
    any state of such a run, when the stack holds nothing and a relayed client is not
    read from: of any segments for it, as many as there are free blocks, none longer than
    the segment size and together within the window (twenty-four of up to 906 bytes are),
    the stack can deliver some, all inside the window, after which the slot holds their
    bytes and every block of the pool, and every packet of the tunnel is dropped. *)
Theorem one_client_fills_pool (old : Z → list Z) (listen : Z) (x : machine) (i : nat) (c : conn_t) (segs : list (list Z)) :
  (∀ a, zlen (old a) = PBUF_POOL_BUFSIZE_ALIGNED) → reached old listen x → x.(m_stack) = [] →
  x.(m_proxy).(g_conn) !! i = Some c → c.(st) = ST_RELAY →
  length segs = length x.(m_pool).(tab) → Forall (λ s, 0 < zlen s <= TCP_MSS) segs →
  zlen (concat c.(rx)) + zlen (concat segs) <= TCP_WND →
  ∃ taken rest y c', segs = taken ++ rest ∧ segments old i x taken y ∧ reached old listen y ∧
    y.(m_proxy).(g_conn) !! i = Some c' ∧ c'.(st) = ST_RELAY ∧ concat c'.(rx) = concat c.(rx) ++ concat taken ∧
    ∀ packet, ∃ P', mem_netif_input old y.(m_pool) packet = Ok (P', None).
Proof.
  intros Ho Hx Hstk Hc Hst Hn Hs Hw.
  destruct (fill_pool old Ho listen i segs x c Hx Hstk Hc Hst Hs Hw ltac:(lia))
    as (taken & rest & y & c' & E & Hg & Hr & Ht & Hc' & Hst' & Hrx).
  exists taken, rest, y, c'. split_and!; try done. intros packet. eexists. by apply input_empty.
Qed.

(** ** Witnesses *)

(** As many segments of 906 bytes as blocks are free fit the window. *)
Definition flood (x : machine) : list (list Z) := replicate (length x.(m_pool).(tab)) (replicate 906 7).

Lemma flood_fits x : reached zeros 3 x → zlen (concat (flood x)) <= TCP_WND.
Proof.
  intros Hx. destruct (reached_owned zeros zeros_size 3 x Hx) as (lss & kss & Ho).
  pose proof (owned_blocks _ _ _ Ho) as Hb. apply Permutation_length in Hb. rewrite length_app in Hb.
  change (length (tab pool_init)) with 24%nat in Hb.
  assert (∀ n (l : list Z), zlen (concat (replicate n l)) = zlen l * Z.of_nat n) as E.
  { induction n as [|n IH]; intros l; [by rewrite Z.mul_0_r|]. cbn [replicate concat]. rewrite zlen_app, IH. lia. }
  unfold flood. rewrite E. change (zlen (replicate 906 7)) with 906. unfold TCP_WND, TCP_MSS. lia.
Qed.

Lemma flood_small x : Forall (λ s, 0 < zlen s <= TCP_MSS) (flood x).
Proof. apply Forall_replicate. unfold TCP_MSS. change (zlen (replicate 906 7)) with 906. lia. Qed.

(** The pool full of one client's segments: its blocks are exactly those of the chain. *)
Lemma pool_accounts_witness : ∃ x, reached zeros 3 x ∧ held x ≡ₚ pool_init.(tab).
Proof.
  destruct (lone_client_reached zeros zeros_size) as (x0 & Hx0 & (c & Hc & Hst & Hrx) & _ & Hstk).
  destruct (fill_pool zeros zeros_size 3 0 (flood x0) x0 c Hx0 Hstk Hc Hst (flood_small x0))
    as (taken & rest & x & c' & _ & _ & Hx & Ht & _).
  - rewrite Hrx. change (zlen (concat [])) with 0. pose proof (flood_fits x0 Hx0). lia.
  - unfold flood. by rewrite length_replicate.
  - exists x. split; [exact Hx|].
    pose proof (proj1 (proj2 (pool_accounts zeros 3 x zeros_size Hx))) as Hb. rewrite Ht in Hb. exact Hb.
Defined.

(** The proxy stopped with a client connected. *)
Lemma pool_refines_witness : ∃ x, reached zeros 3 x ∧ lone_client x ∧
  ∃ ms' P', mstep zeros x (Machine (awg_proxy_stop x.(m_proxy)).1 ms' x.(m_stack) P').
Proof.
  destruct (lone_client_reached zeros zeros_size) as (x & Hx & Hl). exists x. split; [exact Hx|]. split; [exact Hl|].
  exact (proj1 (proj2 (proj2 (pool_refines zeros 3 x zeros_size Hx)))).
Defined.

Lemma one_client_fills_pool_witness : ∃ x taken y, reached zeros 3 x ∧ lone_client x ∧
  segments zeros 0 x taken y ∧ ∀ packet, ∃ P', mem_netif_input zeros y.(m_pool) packet = Ok (P', None).
Proof.
  destruct (lone_client_reached zeros zeros_size) as (x & Hx & Hl). pose proof Hl as ((c & Hc & Hst & Hrx) & _ & Hstk).
  destruct (one_client_fills_pool zeros 3 x 0 c (flood x) zeros_size Hx Hstk Hc Hst) as (taken & rest & y & c' & _ & Hg & _ & _ & _ & _ & Hd).
  - unfold flood. by rewrite length_replicate.
  - apply flood_small.
  - rewrite Hrx. change (zlen (concat [])) with 0. pose proof (flood_fits x Hx). lia.
  - exists x, taken, y. split; [exact Hx|]. split; [exact Hl|]. split; [exact Hg|exact Hd].
Defined.
