(* ===== verification/Netif.v ===== *)
(** * awg_netif.c: the tunnel as an lwIP network interface

    The interface's static state, its output into the session and its input from it.
    lwIP's own calls ([netif_add], the pbuf pool, [ip4_input]) are inputs or results. *)
From S2P Require Import Prelude Awg AEAD Noise Session Pbuf PbufPool.

Definition TUNNEL_MTU : Z := 1400.
Definition OUT_CAP : Z := 2048.

Inductive err_t : Set := ERR_OK | ERR_MEM | ERR_BUF | ERR_RTE | ERR_VAL | ERR_USE | ERR_ARG | ERR_INPROGRESS | ERR_IF.

#[export] Instance err_t_eq_dec : EqDecision err_t.
Proof. solve_decision. Defined.

(** [struct netif], as far as the driver fills it in. *)
Record lwip_netif := LwipNetif {
  n_name : list Z; n_mtu : Z; n_flags : Z; n_addr : Z; n_mask : Z; n_gw : Z; n_default : bool
}.

#[export] Instance lwip_netif_eta : Eta lwip_netif := λ n,
  LwipNetif n.(n_name) n.(n_mtu) n.(n_flags) n.(n_addr) n.(n_mask) n.(n_gw) n.(n_default).

(** The file's static variables; the session and the configuration are the caller's,
    [has_sess] says whether their addresses are set. *)
Record netif := Netif {
  g_netif : lwip_netif; has_sess : bool; g_fd : Z; g_peer : list Z; g_ready : bool
}.

#[export] Instance netif_eta : Eta netif := λ n,
  Netif n.(g_netif) n.(has_sess) n.(g_fd) n.(g_peer) n.(g_ready).

Definition netif_init : netif := Netif (LwipNetif [] 0 0 0 0 0 false) false (-1) [] false.

Definition NETIF_FLAG_UP : Z := 1.
Definition NETIF_FLAG_LINK_UP : Z := 4.
Definition SOCKADDR_STORAGE : Z := 128.

Definition tunnel_netif_init (n : lwip_netif) : lwip_netif :=
  n <| n_name := [97; 119] |> <| n_mtu := TUNNEL_MTU |> <| n_flags := NETIF_FLAG_UP .| NETIF_FLAG_LINK_UP |>.

(** [IP4_ADDR], in network order. *)
Definition IP4_ADDR (a b c d : Z) : Z := le_val [a; b; c; d].

(** [add_ok] is whether [netif_add] succeeds; it fills in the addresses and runs
    [tunnel_netif_init]. *)
Definition awg_netif_start (cfg : awg_config) (fd : Z) (peer : list Z) (add_ok : bool) (n : netif) : netif * Z :=
  if (zlen peer <=? 0) || (zlen peer >? SOCKADDR_STORAGE) then (n, -1)
  else
    let n := n <| has_sess := true |> <| g_fd := fd |> <| g_peer := peer |> in
    if negb add_ok then (n, -1)
    else
      let i := n.(g_netif) <| n_addr := cfg.(address) |> <| n_mask := IP4_ADDR 255 255 255 255 |>
                           <| n_gw := IP4_ADDR 0 0 0 0 |> in
      let i := tunnel_netif_init i in
      let i := i <| n_default := true |> <| n_flags ::= λ f, f .| (NETIF_FLAG_UP .| NETIF_FLAG_LINK_UP) |> in
      (n <| g_netif := i |> <| g_ready := true |>, 0).

Definition awg_netif_set_fd (fd : Z) (n : netif) : netif := n <| g_fd := fd |>.
Definition awg_netif_ready (n : netif) : bool := n.(g_ready).

(** Whether lwIP's timers run: [sys_check_timeouts] is called. *)
Definition awg_netif_poll (n : netif) : bool := n.(g_ready).

(** The chain handed to [ip4_input], if any; [pool] is [pbuf_alloc], and [in_ok] what
    [ip4_input] returns: [true] in the last component when the chain is freed here. *)
Definition awg_netif_input (n : netif) (packet : list Z) (pool : Z → option pbuf) (in_ok : bool)
    : res (option pbuf * bool) :=
  if negb n.(g_ready) || (zlen packet <=? 0) then Ok (None, false)
  else
    match pool (u16 (zlen packet)) with
    | None => Ok (None, false)
    | Some p =>
      match pbuf_take p (ztake (u16 (zlen packet)) packet) with
      | Ok p => Ok (Some p, negb in_ok)
      | Err => Ok (None, true)
      | Fault => Fault
      end
    end.

Section Output.
Context `{Entropy}.

(** What is sent to the peer, with the descriptor; [sent] is whether [sendto] succeeds.
    The chain is copied into [inner[TUNNEL_MTU]]: a [Fault] when it does not fit. *)
Definition tunnel_output (n : netif) (s : awg_session) (cfg : awg_config) (p : pbuf) (sys_now : Z)
    (sent : bool) (pos : nat) : res (awg_session * err_t * option (Z * list Z) * nat) :=
  if negb n.(has_sess) || negb s.(established) then Ok (s, ERR_IF, None, pos)
  else if tot_len p >? TUNNEL_MTU then Ok (s, ERR_MEM, None, pos)
  else if negb (within 0 (tot_len p) TUNNEL_MTU) then Fault
  else
    let inner := pbuf_copy_partial p (u16 (tot_len p)) 0 in
    if negb (zlen inner =? tot_len p) then Ok (s, ERR_BUF, None, pos)
    else
      '(s, out, pos) ← awg_session_build_data s cfg inner OUT_CAP (u64 sys_now) pos;
      match out with
      | None => Ok (s, ERR_MEM, None, pos)
      | Some d => if negb sent then Ok (s, ERR_IF, Some (n.(g_fd), d), pos)
                  else Ok (s, ERR_OK, Some (n.(g_fd), d), pos)
      end.

End Output.

(** ** What the interface does *)

Section OutputLemmas.
Context `{Entropy}.

(** The session after a packet is sent. *)
Definition after_output (s : awg_session) (sys_now : Z) : awg_session :=
  s <| tx_counter ::= λ n, u64 (n + 1) |> <| packets_tx ::= λ n, u32 (n + 1) |> <| last_tx_ms := u64 sys_now |>.

Lemma tunnel_output_spec n s cfg p sys_now sent pos : nonce_ok cfg cfg.(s4) → tot_len p < 65536 →
  tunnel_output n s cfg p sys_now sent pos =
  if negb n.(has_sess) || negb s.(established) then Ok (s, ERR_IF, None, pos)
  else if decide (tot_len p <= TUNNEL_MTU ∧ cfg.(s4) + 32 + padded_to_16 (tot_len p) <= OUT_CAP) then
    let prefix := (awg_random_bytes (Z.to_nat cfg.(s4)) pos).1 in
    Ok (after_output s sys_now, if sent then ERR_OK else ERR_IF,
        Some (n.(g_fd), sealed cfg s.(cur) s.(tx_counter) prefix (concat p)), (pos + Z.to_nat cfg.(s4))%nat)
  else Ok (s, ERR_MEM, None, pos).
Proof.
  intros Hn Ht. unfold tunnel_output. destruct (negb (has_sess n)), (established s) eqn:Ee; try done; cbn [negb orb].
  assert (0 <= tot_len p) by apply zlen_nonneg.
  rewrite Z.gtb_ltb. destruct (Z.ltb_spec TUNNEL_MTU (tot_len p)) as [Hm|Hm].
  { rewrite decide_False; [done|]. lia. }
  rewrite within_true by lia. cbn [negb]. rewrite u16_small by (unfold is_u; lia). rewrite pbuf_copy_all by done.
  change (zlen (concat p)) with (tot_len p). rewrite Z.eqb_refl. cbn [negb].
  unfold awg_session_build_data. rewrite Ee, seal_spec by apply Hn. cbn [negb].
  change (zlen (concat p)) with (tot_len p).
  destruct (decide (tot_len p <= TUNNEL_MTU ∧ _)) as [[_ Hc]|Hc].
  - rewrite decide_True by (split; [done|unfold OUT_CAP in *; lia]). by destruct sent.
  - rewrite decide_False; [done|]. intros [_ Hx]. apply Hc. split; [done|unfold OUT_CAP in *; lia].
Qed.

End OutputLemmas.

(** The pool gives chains of exactly the length asked for. *)
Definition pool_ok (pool : Z → option pbuf) : Prop :=
  ∀ n p, 0 <= n → pool n = Some p → tot_len p = n.

Lemma input_spec n packet pool in_ok : n.(g_ready) = true → 0 < zlen packet < 65536 → pool_ok pool →
  match pool (zlen packet) with
  | None => awg_netif_input n packet pool in_ok = Ok (None, false)
  | Some _ => ∃ p, awg_netif_input n packet pool in_ok = Ok (Some p, negb in_ok) ∧ concat p = packet
  end.
Proof.
  intros Hr Hl Hp. unfold awg_netif_input. rewrite Hr, (proj2 (Z.leb_gt (zlen packet) 0)) by lia. cbn [negb orb].
  rewrite u16_small by (unfold is_u; lia). destruct (pool (zlen packet)) as [p|] eqn:E; [|done].
  rewrite ztake_all by lia. destruct (pbuf_take_exact p packet (Hp _ _ (zlen_nonneg _) E)) as (p' & -> & Hc). by exists p'.
Qed.

(** ** Properties *)

(** C20: a packet that lwIP sends on the interface reaches the stack on the other side of
    the tunnel: whatever chain it comes in, the datagram sent opens under the peer's
    keys, and the chain the peer's interface hands to its stack holds the same packet
    followed by fewer than sixteen zero bytes. *)
Theorem netif_delivers `{Entropy} (n m : netif) (s : awg_session) (cfg : awg_config) (p : pbuf)
    (sys_now : Z) (sent : bool) (pos : nat) (s' : awg_session) (e : err_t) (fd : Z) (d : list Z) (pos' : nat)
    (hsR : awg_handshake) (cap : Z) (pool : Z → option pbuf) (in_ok : bool) :
  nonce_ok cfg cfg.(s4) → is_u 32 cfg.(h4) → is_u 32 s.(cur).(remote_index) → is_u 64 s.(tx_counter) →
  is_bytes (concat p) → 0 < tot_len p < 65536 → peers s.(cur) hsR → 1408 <= cap < 2 ^ 31 - 16 →
  m.(g_ready) = true → pool_ok pool →
  tunnel_output n s cfg p sys_now sent pos = Ok (s', e, Some (fd, d), pos') →
  fd = n.(g_fd) ∧
  ∃ pkt plain, awg_transport_open cfg hsR d cap = Ok (pkt, Some (plain, s.(tx_counter))) ∧
    (is_Some (pool (zlen plain)) →
     ∃ q k, awg_netif_input m plain pool in_ok = Ok (Some q, negb in_ok) ∧
       concat q = concat p ++ replicate k 0 ∧ (k < 16)%nat).
Proof.
  intros Hn H4 Hr Hc Hb Ht Hpeers Hcap Hm Hpool Hout. rewrite tunnel_output_spec in Hout by (done || lia).
  destruct (_ || _); [discriminate|]. destruct (decide _) as [[Hmtu Hfit]|]; [|discriminate]. cbv zeta in Hout.
  set (prefix := (awg_random_bytes (Z.to_nat cfg.(s4)) pos).1) in Hout.
  assert (fd = g_fd n ∧ d = sealed cfg s.(cur) s.(tx_counter) prefix (concat p)) as [-> ->] by (split; congruence).
  split; [done|]. pose proof (padded_to_16_bounds (tot_len p) ltac:(lia)) as [Hp1 Hp2]. unfold TUNNEL_MTU in *.
  assert (padded_to_16 (tot_len p) <= 1408) as Hp3 by (Z.div_mod_to_equations; lia).
  destruct (open_sealed cfg s.(cur) hsR s.(tx_counter) prefix (concat p) cap) as [pkt Ho]; try done.
  { by apply zlen_random, Hn. }
  { change (zlen (concat p)) with (tot_len p). lia. }
  { lia. }
  exists pkt, (padded_payload (concat p)). split; [done|]. intros [q0 Hq0].
  pose proof (zlen_padded_payload (concat p)) as Hz. change (zlen (concat p)) with (tot_len p) in Hz.
  pose proof (input_spec m (padded_payload (concat p)) pool in_ok Hm) as Hi. rewrite Hq0 in Hi.
  destruct Hi as (q & Hq & Hqc); [lia|done|]. exists q. eexists. split; [done|]. split; [done|].
  change (zlen (concat p)) with (tot_len p). lia.
Qed.

(** Every outcome of the interface's output: without an established session
    nothing is sent and the answer is [ERR_IF]; a packet beyond the MTU, or one whose
    sealed form outgrows the buffer, is refused with [ERR_MEM] and costs no counter;
    any other packet is sent once, sealed under the next counter, even when [sendto]
    then fails; the copy out of the chain never comes up short. *)
Theorem netif_output_outcomes `{Entropy} (n : netif) (s : awg_session) (cfg : awg_config) (p : pbuf)
    (sys_now : Z) (sent : bool) (pos : nat) :
  nonce_ok cfg cfg.(s4) → tot_len p < 65536 → is_u 32 sys_now →
  ∃ s' e out pos', tunnel_output n s cfg p sys_now sent pos = Ok (s', e, out, pos') ∧ e ≠ ERR_BUF ∧
  match out with
  | None => s' = s ∧ pos' = pos ∧
      (e = ERR_IF ∧ (n.(has_sess) = false ∨ s.(established) = false) ∨
       e = ERR_MEM ∧ (TUNNEL_MTU < tot_len p ∨ OUT_CAP < cfg.(s4) + 32 + padded_to_16 (tot_len p)))
  | Some (fd, d) =>
      fd = n.(g_fd) ∧ e = (if sent then ERR_OK else ERR_IF) ∧ s.(established) = true ∧
      zlen d = cfg.(s4) + 32 + padded_to_16 (tot_len p) ∧ zlen d <= OUT_CAP ∧
      s'.(tx_counter) = u64 (s.(tx_counter) + 1) ∧ s'.(last_tx_ms) = sys_now
  end.
Proof.
  intros Hn Ht Hnow. rewrite tunnel_output_spec by done.
  destruct (has_sess n), (established s) eqn:Ee; cbn [negb orb].
  2-4: (do 4 eexists; split; [done|]; split; [done|]; split_and!; [done|done|left; naive_solver]).
  destruct (decide _) as [[Hm Hc]|Hx].
  - cbv zeta. set (prefix := (awg_random_bytes (Z.to_nat cfg.(s4)) pos).1).
    do 4 eexists. split; [done|]. split; [by destruct sent|].
    assert (zlen (sealed cfg s.(cur) s.(tx_counter) prefix (concat p)) = cfg.(s4) + 32 + padded_to_16 (tot_len p)) as Hz.
    { unfold sealed. assert (zlen prefix = cfg.(s4)) as Hl by (apply zlen_random, Hn).
      rewrite !zlen_app, zlen_header_xor, Hl. pose proof (zlen_padded_payload (concat p)) as He.
      unfold tot_len, zlen in *. rewrite length_encrypt. unfold transport_header. rewrite put_u64_le_le. len. }
    rewrite Hz. split_and!; try done. cbn. apply u64_small. unfold is_u in *. lia.
  - do 4 eexists. split; [done|]. split; [done|]. split_and!; [done|done|right]. split; [done|].
    destruct (Z.le_gt_cases (tot_len p) TUNNEL_MTU); [right|by left; lia].
    destruct (Z.le_gt_cases (cfg.(s4) + 32 + padded_to_16 (tot_len p)) OUT_CAP); [|lia]. by destruct Hx.
Qed.

(** The interface hands the session lwIP's 32-bit clock where the session's other
    callers use 64 bits: once the console has been up for 2^32 milliseconds, a packet
    sent at [t] is recorded as sent 2^32 milliseconds or more before, and a keepalive
    is due at that very moment. *)
Theorem netif_clock_truncated `{Entropy} (n : netif) (s : awg_session) (cfg : awg_config) (p : pbuf)
    (t : Z) (sent : bool) (pos : nat) (s' : awg_session) (e : err_t) (out : Z * list Z) (pos' : nat) :
  nonce_ok cfg cfg.(s4) → tot_len p < 65536 → 2 ^ 32 <= t < 2 ^ 64 → 0 <= s.(keepalive_s) <= 4294967 →
  tunnel_output n s cfg p (u32 t) sent pos = Ok (s', e, Some out, pos') →
  awg_session_needs_keepalive s' t = true.
Proof.
  intros Hn Ht Hnow Hk Hout. rewrite tunnel_output_spec in Hout by done.
  destruct (has_sess n), (established s) eqn:Ee; try discriminate. cbn [negb orb] in Hout.
  destruct (decide _); [|discriminate].
  assert (s' = after_output s (u32 t)) as -> by congruence.
  unfold awg_session_needs_keepalive, elapsed, ms_of_s. cbn. rewrite Ee. cbn [negb].
  pose proof (u32_bound t) as Hu. unfold is_u in Hu.
  assert (t - u32 t >= 2 ^ 32).
  { rewrite u32_mod. Z.div_mod_to_equations. lia. }
  rewrite (u64_small (u32 t)) by (unfold is_u; lia). rewrite (u64_small (keepalive_s s)) by (unfold is_u; lia).
  rewrite (u64_small (t - u32 t)), (u64_small (keepalive_s s * 1000)) by (unfold is_u; lia).
  rewrite Z.geb_leb, Z.leb_le. lia.
Qed.

(** ** Witnesses *)

Definition toy_netif : netif := netif_init <| has_sess := true |> <| g_fd := 4 |> <| g_ready := true |>.
Definition toy_session : awg_session :=
  session_zero <| established := true |> <| cur := toy_sender |> <| tx_counter := 5 |>.

(** lwIP's pool, nothing taken yet. *)
Lemma lwip_pool_ok : pool_ok (pool_of zeros pool_init).
Proof. intros n p Hn. apply pool_of_tot; [apply zeros_size|apply pool_init_wf|done]. Qed.

Lemma netif_delivers_witness :
  ∃ d pkt plain q, @awg_transport_open toy_config toy_receiver d 1500 = Ok (pkt, Some (plain, 5)) ∧
    awg_netif_input toy_netif plain (pool_of zeros pool_init) true = Ok (Some q, false) ∧ take 5 (concat q) = [69; 0; 1; 2; 3].
Proof.
  destruct (@tunnel_output toy_entropy toy_netif toy_session toy_config [[69; 0]; [1; 2; 3]] 1000 true 0)
    as [[[[s' e] [[fd d]|]] pos']| |] eqn:E; [|discriminate E..].
  destruct (@netif_delivers toy_entropy toy_netif toy_netif toy_session toy_config [[69; 0]; [1; 2; 3]] 1000 true 0
    s' e fd d pos' toy_receiver 1500 (pool_of zeros pool_init) true) as (_ & pkt & plain & Ho & Hi).
  - split; [vm_compute; congruence|intros _; vm_compute; congruence].
  - split; vm_compute; congruence.
  - split; vm_compute; congruence.
  - split; vm_compute; congruence.
  - repeat (apply Forall_cons_2; [split; vm_compute; congruence|]). apply Forall_nil_2.
  - split; vm_compute; congruence.
  - split; reflexivity.
  - split; vm_compute; congruence.
  - reflexivity.
  - exact lwip_pool_ok.
  - exact E.
  - assert (zlen plain = 16) as Hz.
    { pose proof E as E2. vm_compute in E2. injection E2 as _ _ _ Ed _. rewrite <- Ed in Ho. vm_compute in Ho.
      injection Ho as _ Hp. rewrite <- Hp. reflexivity. }
    destruct Hi as (q & k & Hq & Hc & _); [rewrite Hz; eexists; reflexivity|].
    exists d, pkt, plain, q. split; [exact Ho|split; [exact Hq|rewrite Hc; reflexivity]].
Defined.

Lemma netif_output_outcomes_witness : ∃ s' e out pos',
  @tunnel_output toy_entropy toy_netif toy_session toy_config [replicate 1401 0] 1000 true 0 = Ok (s', e, out, pos') ∧
  e ≠ ERR_BUF ∧ out = None.
Proof.
  destruct (@netif_output_outcomes toy_entropy toy_netif toy_session toy_config [replicate 1401 0] 1000 true 0)
    as (s' & e & out & pos' & E & He & _).
  - split; [vm_compute; congruence|intros _; vm_compute; congruence].
  - vm_compute; congruence.
  - split; vm_compute; congruence.
  - exists s', e, out, pos'. split; [exact E|split; [exact He|]].
    assert (out = None) as ->; [|reflexivity]. vm_compute in E. congruence.
Defined.
