(* ===== verification/Chksum.v ===== *)
(** * lwip/core/inet_chksum.c: the Internet checksum

    The summation lwIP selects ([LWIP_CHKSUM_ALGORITHM] 2), which reads the data two
    bytes at a time from wherever it lies, and the checksums of buffers, of chains and
    of chains behind a pseudo header. A piece of memory is its address, of which only
    the parity matters, and its bytes; the machine is little-endian. The reference is
    RFC 1071, and the equivalence is with the sum over the bytes put together, whatever
    the addresses and wherever the chain is cut. *)
From S2P Require Import Prelude IpProbe.

(** ** The code *)

Definition FOLD_U32T (u : Z) : Z := u32 ((u .>> 16) + (u .& 0xFFFF)).
Definition SWAP_BYTES_IN_WORD (w : Z) : Z := ((w .& 0xFF) .<< 8) .| ((w .& 0xFF00) .>> 8).
Definition lwip_htons (n : Z) : Z := ((n .& 0xFF) .<< 8) .| ((n .& 0xFF00) .>> 8).

(** A 16-bit load. *)
Definition le16 (a b : Z) : Z := a .| (b .<< 8).

(** The bulk of the data; what is left is at most one byte. *)
Fixpoint chksum_loop (ps : list Z) (sum : Z) : Z * list Z :=
  match ps with
  | a :: b :: ps => chksum_loop ps (u32 (sum + le16 a b))
  | _ => (sum, ps)
  end.

Definition lwip_standard_chksum (dataptr : Z) (data : list Z) : Z :=
  let odd := (dataptr .& 1) =? 1 in
  let '(t1, pb) := match data with b :: pb => if odd then (b, pb) else (0, data) | [] => (0, []) end in
  let '(sum, ps) := chksum_loop pb 0 in
  let t0 := match ps with b :: _ => b | [] => 0 end in
  let sum := u32 (sum + le16 t0 t1) in
  let sum := FOLD_U32T sum in
  let sum := FOLD_U32T sum in
  let sum := if odd then SWAP_BYTES_IN_WORD sum else sum in
  u16 sum.

Definition inet_chksum (dataptr : Z) (data : list Z) : Z := u16 (Z.lnot (lwip_standard_chksum dataptr data)).

(** A chain: the address and the bytes of each payload. *)
Abbreviation chain := (list (Z * list Z)).
Definition payload (p : chain) : list Z := concat (p.*2).

(** One link: its sum is added, and the sum turned when the link is odd. *)
Definition chksum_link (link : Z * list Z) (bytes : list Z) (acc : Z) (swapped : bool) : Z * bool :=
  let acc := u32 (acc + lwip_standard_chksum link.1 bytes) in
  let acc := FOLD_U32T acc in
  if negb (zlen link.2 mod 2 =? 0) then (SWAP_BYTES_IN_WORD acc, negb swapped) else (acc, swapped).

Fixpoint chksum_chain (p : chain) (acc : Z) (swapped : bool) : Z :=
  match p with
  | [] => if swapped then SWAP_BYTES_IN_WORD acc else acc
  | q :: p => let '(acc, swapped) := chksum_link q q.2 acc swapped in chksum_chain p acc swapped
  end.

(** A length of 0x7fff that is left over after a link fails an assertion: a [Fault]. *)
Fixpoint chksum_chain_partial (p : chain) (chksum_len acc : Z) (swapped : bool) : res Z :=
  match p with
  | q :: p =>
    if chksum_len >? 0 then
      let chklen := if zlen q.2 >? chksum_len then chksum_len else zlen q.2 in
      let chksum_len := u16 (chksum_len - chklen) in
      if chksum_len <? 0x7FFF then
        let '(acc, swapped) := chksum_link q (ztake chklen q.2) acc swapped in
        chksum_chain_partial p chksum_len acc swapped
      else Fault
    else Ok (if swapped then SWAP_BYTES_IN_WORD acc else acc)
  | [] => Ok (if swapped then SWAP_BYTES_IN_WORD acc else acc)
  end.

Definition inet_chksum_pbuf (p : chain) : Z := u16 (Z.lnot (chksum_chain p 0 false .& 0xFFFF)).

(** The end of both pseudo checksums. *)
Definition pseudo_end (proto proto_len acc : Z) : Z :=
  let acc := u32 (acc + lwip_htons proto) in
  let acc := u32 (acc + lwip_htons proto_len) in
  let acc := FOLD_U32T acc in
  let acc := FOLD_U32T acc in
  u16 (Z.lnot (acc .& 0xFFFF)).

Definition inet_cksum_pseudo_base (p : chain) (proto proto_len acc : Z) : Z :=
  pseudo_end proto proto_len (chksum_chain p acc false).

Definition inet_cksum_pseudo_partial_base (p : chain) (proto proto_len chksum_len acc : Z) : res Z :=
  acc ← chksum_chain_partial p chksum_len acc false; Ok (pseudo_end proto proto_len acc).

Definition pseudo_addrs (src dest : Z) : Z :=
  let acc := src .& 0xFFFF in
  let acc := u32 (acc + ((src .>> 16) .& 0xFFFF)) in
  let acc := u32 (acc + (dest .& 0xFFFF)) in
  let acc := u32 (acc + ((dest .>> 16) .& 0xFFFF)) in
  FOLD_U32T (FOLD_U32T acc).

Definition inet_chksum_pseudo (p : chain) (proto proto_len src dest : Z) : Z :=
  inet_cksum_pseudo_base p proto proto_len (pseudo_addrs src dest).

Definition inet_chksum_pseudo_partial (p : chain) (proto proto_len chksum_len src dest : Z) : res Z :=
  inet_cksum_pseudo_partial_base p proto proto_len chksum_len (pseudo_addrs src dest).

(** IPv4 is the only version compiled in. *)
Definition ip_chksum_pseudo : chain → Z → Z → Z → Z → Z := inet_chksum_pseudo.
Definition ip_chksum_pseudo_partial : chain → Z → Z → Z → Z → Z → res Z := inet_chksum_pseudo_partial.

(** ** RFC 1071 *)

(** One's complement addition of 16-bit words: the carry goes around. *)
Definition ones_add (a b : Z) : Z := let s := a + b in s mod 65536 + s / 65536.

(** The 16-bit words of a text, an odd last byte padded with zero. *)
Fixpoint be_words (p : list Z) : list Z :=
  match p with
  | a :: b :: p => 256 * a + b :: be_words p
  | [a] => [256 * a]
  | [] => []
  end.

Definition rfc1071 (p : list Z) : Z := 65535 - foldl ones_add 0 (be_words p).

Definition pseudo (src dest proto len : Z) : list Z :=
  le_bytes 4 src ++ le_bytes 4 dest ++ [0; proto] ++ put_be16 len.

(** ** Sums up to the carry

    Two sums stand for the same 16-bit value when they are congruent modulo 65535 and
    zero together. *)
Definition ones_eq (a b : Z) : Prop :=
  0 <= a ∧ 0 <= b ∧ (a = 0 ↔ b = 0) ∧ ∃ k, a = b + 65535 * k.
Infix "≃" := ones_eq (at level 70) : awg_scope.

#[export] Instance ones_eq_sym : Symmetric ones_eq.
Proof. intros a b (? & ? & ? & k & ->). split_and!; [lia..|]. exists (- k). lia. Qed.
#[export] Instance ones_eq_trans : Transitive ones_eq.
Proof. intros a b c (? & ? & ? & k & ->) (? & ? & ? & l & ->). split_and!; [lia..|]. exists (l + k). lia. Qed.

(** Where both sides are sums, they may be rewritten. *)
#[export] Instance ones_eq_add : Proper (ones_eq ==> ones_eq ==> ones_eq) Z.add.
Proof.
  intros a b (? & ? & ? & k & ->) c d (? & ? & ? & l & ->). split_and!; [lia..|]. exists (k + l). lia.
Qed.

Lemma ones_refl a : 0 <= a → a ≃ a.
Proof. intros. split_and!; [done..|]. exists 0. lia. Qed.
#[export] Hint Extern 1 (ProperProxy ones_eq _) => apply ones_refl; lia : typeclass_instances.

Lemma ones_mul n a b : 0 <= n → a ≃ b → n * a ≃ n * b.
Proof.
  intros Hn (? & ? & ? & k & ->). split_and!; [nia..|]. exists (n * k). lia.
Qed.

Lemma ones_turn a : 0 <= a → 65536 * a ≃ a.
Proof. intros. split_and!; [lia..|]. exists a. lia. Qed.

(** In 16 bits there is one representative. *)
Lemma ones_unique a b : a ≃ b → a < 65536 → b < 65536 → a = b.
Proof.
  intros (? & ? & Hz & k & Hk) ? ?. destruct (Z.eq_dec a 0), (Z.eq_dec b 0); lia.
Qed.

(** ** The operations on the accumulator *)

(** Sums that do not overflow, from the inside out. *)
Ltac u32s := repeat match goal with
  | |- context [u32 ?x] => lazymatch x with context [u32 _] => fail | _ => rewrite (u32_small x) by (unfold is_u; lia) end
  end.

Lemma land_16 u : u .& 0xFFFF = u mod 65536.
Proof. change 0xFFFF with (Z.ones 16). by rewrite Z.land_ones by lia. Qed.

Lemma fold_ones u : is_u 32 u → FOLD_U32T u ≃ u ∧ FOLD_U32T u <= 131070 ∧ (u <= 131070 → FOLD_U32T u < 65536).
Proof.
  unfold is_u. change (2 ^ 32) with 4294967296. intros Hu. unfold FOLD_U32T.
  rewrite land_16, Z.shiftr_div_pow2 by lia. change (2 ^ 16) with 65536.
  rewrite u32_small by (unfold is_u; Z.div_mod_to_equations; lia).
  split; [|split; Z.div_mod_to_equations; lia]. split_and!; [Z.div_mod_to_equations; lia..|].
  exists (- (u / 65536)). Z.div_mod_to_equations. lia.
Qed.

Lemma fold_once u x : u ≃ x → u <= 131070 → FOLD_U32T u ≃ x ∧ is_u 16 (FOLD_U32T u).
Proof.
  intros Hx Hu. destruct (fold_ones u) as (He & _ & Hb); [destruct Hx; unfold is_u; lia|].
  split; [by rewrite He|]. destruct He. unfold is_u. auto.
Qed.

Lemma fold_twice u x : u ≃ x → is_u 32 u → FOLD_U32T (FOLD_U32T u) ≃ x ∧ is_u 16 (FOLD_U32T (FOLD_U32T u)).
Proof.
  intros Hx Hu. destruct (fold_ones u Hu) as (He & Hb & _). apply fold_once; [by rewrite He|done].
Qed.

Lemma swap_value w : is_u 16 w → SWAP_BYTES_IN_WORD w = 256 * (w mod 256) + w / 256.
Proof.
  unfold is_u. change (2 ^ 16) with 65536. intros Hw. unfold SWAP_BYTES_IN_WORD.
  assert ((w .& 0xFF00) .>> 8 = w / 256) as ->.
  { rewrite Z.shiftr_land. change (0xFF00 .>> 8) with (Z.ones 8). rewrite Z.land_ones, Z.shiftr_div_pow2 by lia.
    change (2 ^ 8) with 256. apply Z.mod_small. Z.div_mod_to_equations; lia. }
  change 0xFF with (Z.ones 8). rewrite Z.land_ones by lia. change (2 ^ 8) with 256.
  rewrite Z.lor_comm, lor_add_shift by (unfold is_u; Z.div_mod_to_equations; lia).
  change (2 ^ 8) with 256. lia.
Qed.

(** Turning the bytes of a sum multiplies it by 256. *)
Lemma swap_ones w x : w ≃ x → is_u 16 w → SWAP_BYTES_IN_WORD w ≃ 256 * x ∧ is_u 16 (SWAP_BYTES_IN_WORD w).
Proof.
  intros Hx Hw. rewrite swap_value by done.
  unfold is_u in *. change (2 ^ 16) with 65536 in *. split; [|Z.div_mod_to_equations; lia].
  transitivity (256 * w); [|apply ones_mul; [lia|done]].
  split_and!; [Z.div_mod_to_equations; lia..|]. exists (- (w / 256)). Z.div_mod_to_equations. lia.
Qed.

(** ** The sum as the machine reads it *)

(** The words read low byte first; an odd last byte is a word of its own. *)
Fixpoint lwords (p : list Z) : Z :=
  match p with
  | a :: b :: p => a + 256 * b + lwords p
  | [a] => a
  | [] => 0
  end.

Lemma lwords_bound p : is_bytes p → 0 <= lwords p <= 65535 * ((zlen p + 1) / 2).
Proof.
  induction p as [|a|a b p IH] using pair_ind; intros Hp; cbn [lwords].
  - done.
  - rewrite Forall_singleton in Hp. unfold is_u in Hp. change ((zlen [a] + 1) / 2) with 1. lia.
  - rewrite !Forall_cons in Hp. destruct Hp as (Ha & Hb & Hp). specialize (IH Hp). unfold is_u in *.
    rewrite !zlen_cons. replace (1 + (1 + zlen p) + 1) with (zlen p + 1 + 1 * 2) by lia.
    rewrite Z.div_add by lia. lia.
Qed.

Lemma lwords_nonneg p : is_bytes p → 0 <= lwords p.
Proof. intros. by apply lwords_bound. Qed.
#[export] Hint Resolve lwords_nonneg : word.

(** A byte in front turns every word. *)
Lemma lwords_cons b p : is_bytes (b :: p) → lwords (b :: p) ≃ b + 256 * lwords p.
Proof.
  revert b. induction p as [|a|a c p IH] using pair_ind; intros b Hp.
  - rewrite Forall_singleton in Hp. destruct Hp. cbn [lwords]. replace (b + 256 * 0) with b by lia. by apply ones_refl.
  - rewrite !Forall_cons in Hp. destruct Hp as ([] & [] & _). cbn [lwords]. rewrite Z.add_0_r. apply ones_refl. lia.
  - rewrite !Forall_cons in Hp. destruct Hp as ([] & [] & Hc & Hp).
    destruct (IH c) as (? & ? & ? & k & Hk); [by constructor|]. pose proof (lwords_nonneg p Hp). destruct Hc.
    change (lwords (b :: a :: c :: p)) with (b + 256 * a + lwords (c :: p)).
    change (lwords (a :: c :: p)) with (a + 256 * c + lwords p).
    split_and!; [lia..|]. exists (k - c). lia.
Qed.

(** What stands in front of a text turns it or does not. *)
Definition turn (odd : bool) (x : Z) : Z := if odd then 256 * x else x.

Lemma turn_nonneg o x : 0 <= x → 0 <= turn o x.
Proof. destruct o; cbn; lia. Qed.

Lemma turn_eq o x y : x ≃ y → turn o x ≃ turn o y.
Proof. destruct o; [apply ones_mul; lia|done]. Qed.

Lemma turn_add o x y : turn o (x + y) = turn o x + turn o y.
Proof. destruct o; cbn; lia. Qed.

Lemma turn_turn o q x : 0 <= x → turn o (turn q x) ≃ turn (xorb o q) x.
Proof.
  intros. destruct o, q; cbn; try (apply ones_refl; lia).
  replace (256 * (256 * x)) with (65536 * x) by lia. by apply ones_turn.
Qed.

Definition zodd (l : list Z) : bool := Z.odd (zlen l).

Lemma zodd_cons x l : zodd (x :: l) = negb (zodd l).
Proof. unfold zodd. by rewrite zlen_cons, Z.add_1_l, Z.odd_succ, <- Z.negb_odd. Qed.

Lemma zodd_app l k : zodd (l ++ k) = xorb (zodd l) (zodd k).
Proof. unfold zodd. by rewrite zlen_app, Z.odd_add. Qed.

Lemma lwords_app l k : is_bytes l → is_bytes k → lwords (l ++ k) ≃ lwords l + turn (zodd l) (lwords k).
Proof.
  intros Hl Hk. pose proof (lwords_nonneg k Hk). induction Hl as [|b l Hb Hl IH].
  { cbn. rewrite Z.add_0_l. by apply ones_refl. }
  pose proof (lwords_nonneg l Hl). unfold is_u in Hb. pose proof (turn_nonneg (zodd l) (lwords k) ltac:(done)).
  pose proof (turn_nonneg (zodd (b :: l)) (lwords k) ltac:(done)).
  cbn [app]. rewrite (lwords_cons b (l ++ k)) by (constructor; [done|by apply is_bytes_app]).
  rewrite (lwords_cons b l) by by constructor.
  rewrite (ones_mul 256 _ _ ltac:(lia) IH), Z.mul_add_distr_l, Z.add_assoc.
  apply ones_eq_add; [apply ones_refl; lia|].
  rewrite zodd_cons. by apply (turn_turn true (zodd l)).
Qed.

(** The reference reads the same words high byte first. *)
Lemma words_turn p : is_bytes p → words p ≃ 256 * lwords p.
Proof.
  induction p as [|a|a b p IH] using pair_ind; intros Hp; cbn [words lwords].
  - by apply ones_refl.
  - rewrite Forall_singleton in Hp. destruct Hp. apply ones_refl. lia.
  - rewrite !Forall_cons in Hp. destruct Hp as ([] & [] & Hp). destruct (IH Hp) as (? & ? & ? & k & Hk).
    pose proof (lwords_nonneg p Hp). split_and!; [lia..|]. exists (k - b). lia.
Qed.

(** ** What the code computes *)

Lemma le16_value a b : is_byte a → is_byte b → le16 a b = a + 256 * b.
Proof. intros Ha Hb. unfold le16. rewrite lor_add_shift by (done || lia). change (2 ^ 8) with 256. lia. Qed.

Lemma chksum_loop_spec ps sum : is_bytes ps → 0 <= sum → sum + lwords ps < 2 ^ 32 →
  let '(s, rest) := chksum_loop ps sum in
  let t := match rest with b :: _ => b | [] => 0 end in
  s + t = sum + lwords ps ∧ is_byte t.
Proof.
  revert sum. induction ps as [|a|a b ps IH] using pair_ind; intros sum Hp Hs Hb; cbn [chksum_loop lwords] in *.
  - done.
  - rewrite Forall_singleton in Hp. done.
  - rewrite !Forall_cons in Hp. destruct Hp as (Ha & Hc & Hp). rewrite le16_value by done.
    pose proof (lwords_nonneg ps Hp). rewrite u32_small by (unfold is_u in *; lia).
    specialize (IH (sum + (a + 256 * b)) Hp). unfold is_u in Ha, Hc. destruct (chksum_loop _ _).
    destruct IH; [lia..|]. split; [lia|done].
Qed.

Lemma land_1 n : (n .& 1 =? 1) = Z.odd n.
Proof.
  change 1 with (Z.ones 1) at 1. rewrite Z.land_ones by lia. change (2 ^ 1) with 2.
  rewrite Zmod_odd. by destruct (Z.odd n).
Qed.

(** The documented limit: 0x20000 bytes. *)
Lemma lwip_standard_chksum_spec addr data : is_bytes data → zlen data <= 0x20000 →
  lwip_standard_chksum addr data ≃ lwords data ∧ is_u 16 (lwip_standard_chksum addr data).
Proof.
  intros Hd Hl. unfold lwip_standard_chksum. rewrite land_1.
  assert (∀ t1 pb, is_byte t1 → is_bytes pb → zlen pb <= 0x20000 →
    let '(sum, ps) := chksum_loop pb 0 in
    let sum := FOLD_U32T (FOLD_U32T (u32 (sum + le16 (match ps with b :: _ => b | [] => 0 end) t1))) in
    (t1 = 0 ∨ zlen pb < 0x20000) → sum ≃ 256 * t1 + lwords pb ∧ is_u 16 sum) as Hsum.
  { intros t1 pb Ht Hp Hz. pose proof (lwords_bound pb Hp) as Hb.
    assert (lwords pb <= 65535 * 65536) as Hb2 by (Z.div_mod_to_equations; lia). change (2 ^ 32) with 4294967296.
    pose proof (chksum_loop_spec pb 0 Hp) as H. destruct (chksum_loop pb 0) as [s rest]. cbn zeta in *.
    destruct H as [Hs Hr]; [lia..|]. intros Hc. rewrite le16_value by done. rewrite Z.add_assoc, Hs, Z.add_0_l, Z.add_comm.
    assert (is_u 32 (256 * t1 + lwords pb)) as Hu.
    { unfold is_u in *. change (2 ^ 32) with 4294967296. destruct Hc as [-> |Hc]; [lia|].
      assert (lwords pb <= 65535 * 65536) by lia. lia. }
    rewrite u32_small by done. apply fold_twice; [apply ones_refl, Hu|done]. }
  assert (∀ x, is_u 16 x → u16 x = x) as Hu16 by apply u16_small.
  destruct data as [|b pb], (Z.odd addr) eqn:Ho.
  1-2: vm_compute; split_and!; try done; exists 0; done.
  - inversion_clear Hd as [|?? Hb Hp]. rewrite zlen_cons in Hl. specialize (Hsum b pb Hb Hp ltac:(lia)).
    destruct (chksum_loop pb 0). destruct Hsum as [He Hu]; [right; lia|]. apply swap_ones with (x := 256 * b + lwords pb) in Hu as [He' Hu']; [|done].
    rewrite Hu16 by done. split; [|done]. rewrite He', lwords_cons by by constructor.
    pose proof (lwords_nonneg pb Hp). unfold is_u in Hb. rewrite Z.mul_add_distr_l, Z.mul_assoc. change (256 * 256) with 65536.
    apply ones_eq_add; [apply ones_turn; lia|apply ones_refl; lia].
  - specialize (Hsum 0 (b :: pb) ltac:(done) Hd Hl). destruct (chksum_loop (b :: pb) 0).
    destruct Hsum as [He Hu]; [by left|]. rewrite Hu16 by done. done.
Qed.

(** ** Chains *)

Definition chain_ok (p : chain) : Prop := Forall (λ q, is_bytes q.2 ∧ zlen q.2 < 65536) p.

Lemma payload_cons q p : payload (q :: p) = q.2 ++ payload p.
Proof. done. Qed.

Lemma payload_bytes p : chain_ok p → is_bytes (payload p).
Proof. induction 1 as [|q p [Hq _] _ IH]; [constructor|]. by apply is_bytes_app. Qed.

(** A link added to a sum that stands for [x]. *)
Lemma chksum_link_spec q bytes acc sw x : is_bytes bytes → zlen bytes <= 0x20000 →
  is_u 16 acc → 0 <= x → acc ≃ turn sw x →
  let '(acc', sw') := chksum_link q bytes acc sw in
  is_u 16 acc' ∧ sw' = xorb sw (zodd q.2) ∧ acc' ≃ turn sw' (x + turn sw (lwords bytes)).
Proof.
  intros Hb Hz Ha Hx He. unfold chksum_link.
  destruct (lwip_standard_chksum_spec q.1 bytes Hb Hz) as [Hc Hcu]. pose proof (lwords_nonneg bytes Hb).
  pose proof (turn_nonneg sw (lwords bytes) ltac:(done)).
  unfold is_u in Ha, Hcu. change (2 ^ 16) with 65536 in *. rewrite u32_small by (unfold is_u; lia).
  destruct (fold_once (acc + lwip_standard_chksum q.1 bytes) (turn sw x + lwords bytes)) as [Hf Hfu]; [|lia|].
  { by apply ones_eq_add. }
  assert (turn sw x + lwords bytes ≃ turn sw (x + turn sw (lwords bytes))) as Hx2.
  { rewrite turn_add. pose proof (turn_nonneg sw x Hx). apply ones_eq_add; [by apply ones_refl|].
    rewrite turn_turn, xorb_nilpotent by done. by apply ones_refl. }
  assert ((zlen q.2 mod 2 =? 0) = negb (zodd q.2)) as ->.
  { unfold zodd. rewrite Zmod_odd. by destruct (Z.odd _). }
  destruct (zodd q.2); cbn [negb].
  - destruct (swap_ones _ _ Hf Hfu) as [Hs Hsu]. split; [done|]. split; [by destruct sw|].
    rewrite Hs. rewrite (ones_mul 256 _ _ ltac:(lia) Hx2).
    apply (turn_turn true sw). lia.
  - split; [done|]. rewrite xorb_false_r. split; [done|]. by rewrite Hf.
Qed.

Lemma chksum_end sw acc x : is_u 16 acc → 0 <= x → acc ≃ turn sw x →
  let r := if sw then SWAP_BYTES_IN_WORD acc else acc in r ≃ x ∧ is_u 16 r.
Proof.
  intros Ha Hx He. destruct sw; [|done]. destruct (swap_ones acc _ He Ha) as [Hs Hu]. split; [|done].
  rewrite Hs. apply (turn_turn true true). done.
Qed.

(** Two links in a row are their bytes in a row. *)
Lemma turn_two sw x l k : 0 <= x → is_bytes l → is_bytes k →
  x + turn sw (lwords l) + turn (xorb sw (zodd l)) (lwords k) ≃ x + turn sw (lwords (l ++ k)).
Proof.
  intros Hx Hl Hk. pose proof (lwords_nonneg l Hl). pose proof (lwords_nonneg k Hk).
  rewrite <- Z.add_assoc. apply ones_eq_add; [by apply ones_refl|].
  rewrite (turn_eq sw _ _ (lwords_app l k Hl Hk)), turn_add.
  apply ones_eq_add; [by apply ones_refl, turn_nonneg|]. symmetry. by apply turn_turn.
Qed.

Lemma chksum_chain_spec p acc sw x : chain_ok p → is_u 16 acc → 0 <= x → acc ≃ turn sw x →
  let r := chksum_chain p acc sw in r ≃ x + turn sw (lwords (payload p)) ∧ is_u 16 r.
Proof.
  intros Hp. revert acc sw x. induction Hp as [|q p [Hq Hz] Hp IH]; intros acc sw x Ha Hx He; cbn [chksum_chain].
  { destruct (chksum_end sw acc x Ha Hx He). split; [|done].
    change (lwords (payload [])) with 0. by replace (x + turn sw 0) with x by (destruct sw; cbn; lia). }
  pose proof (chksum_link_spec q q.2 acc sw x Hq ltac:(lia) Ha Hx He) as Hl.
  destruct (chksum_link q q.2 acc sw) as [acc' sw']. destruct Hl as (Hu & -> & He').
  pose proof (turn_nonneg sw _ (lwords_nonneg _ Hq)).
  destruct (IH acc' _ (x + turn sw (lwords q.2)) Hu ltac:(lia) He') as [Hr Hru]. split; [|done].
  rewrite Hr, payload_cons. apply turn_two; [done..|by apply payload_bytes].
Qed.

Lemma payload_ztake n q p : 0 <= n → ztake n (payload (q :: p)) =
  if zlen q.2 >? n then ztake n q.2 else q.2 ++ ztake (n - zlen q.2) (payload p).
Proof.
  intros Hn. rewrite payload_cons. unfold ztake, zlen. rewrite Z.gtb_ltb.
  destruct (Z.ltb_spec n (Z.of_nat (length q.2))); [by rewrite take_app_le by lia|].
  rewrite take_app_ge by lia. do 2 f_equal. lia.
Qed.

(** What the assertion lets through: less than 0x7fff bytes behind the first link. *)
Definition asserted (n : Z) (p : chain) : bool := match p with q :: _ => n - zlen q.2 <? 0x7FFF | [] => true end.

Lemma chksum_chain_partial_spec p n acc sw x : chain_ok p → 0 <= n < 65536 →
  is_u 16 acc → 0 <= x → acc ≃ turn sw x →
  if asserted n p
  then ∃ r, chksum_chain_partial p n acc sw = Ok r ∧ r ≃ x + turn sw (lwords (ztake n (payload p))) ∧ is_u 16 r
  else chksum_chain_partial p n acc sw = Fault.
Proof.
  intros Hp. revert n acc sw x. induction Hp as [|q p [Hq Hz] Hp IH]; intros n acc sw x Hn Ha Hx He; cbn [chksum_chain_partial].
  { cbn [asserted]. destruct (chksum_end sw acc x Ha Hx He). eexists. split; [done|]. split; [|done].
    change (payload []) with (@nil Z). unfold ztake. rewrite take_nil. cbn [lwords].
    by replace (x + turn sw 0) with x by (destruct sw; cbn; lia). }
  cbn [asserted]. pose proof (zlen_nonneg q.2) as Hzq. rewrite Z.gtb_ltb. destruct (Z.ltb_spec 0 n) as [Hn0|Hn0].
  2:{ replace n with 0 by lia. rewrite (proj2 (Z.ltb_lt (0 - zlen q.2) _)) by lia. destruct (chksum_end sw acc x Ha Hx He).
      eexists. split; [done|]. split; [|done].
      change (lwords (ztake 0 _)) with 0. by replace (x + turn sw 0) with x by (destruct sw; cbn; lia). }
  rewrite payload_ztake by lia. cbn zeta.
  destruct (zlen q.2 >? n) eqn:Hc; rewrite Z.gtb_ltb in Hc; [apply Z.ltb_lt in Hc|apply Z.ltb_ge in Hc].
  - rewrite (proj2 (Z.ltb_lt (n - zlen q.2) _)) by lia.
    assert (zlen (ztake n q.2) <= 0x20000) as Hz2 by (unfold ztake, zlen in *; rewrite length_take; lia).
    pose proof (chksum_link_spec q (ztake n q.2) acc sw x ltac:(by apply is_bytes_take) Hz2 Ha Hx He) as Hl.
    pose proof (turn_nonneg sw _ (lwords_nonneg _ (is_bytes_take (Z.to_nat n) _ Hq))) as H0.
    destruct (chksum_link q (ztake n q.2) acc sw) as [acc' sw']. destruct Hl as (Hu & -> & He').
    rewrite Z.sub_diag. change (u16 0) with 0. cbn [Z.ltb Z.compare].
    assert (∀ l a s, chksum_chain_partial l 0 a s = Ok (if (s : bool) then SWAP_BYTES_IN_WORD a else a)) as E by by intros [].
    rewrite E. eexists. split; [done|]. apply chksum_end; [done| |done]. unfold ztake. lia.
  - assert (ztake (zlen q.2) q.2 = q.2) as -> by (unfold ztake, zlen; rewrite Nat2Z.id; by apply firstn_all).
    rewrite u16_small by (unfold is_u; lia). destruct (Z.ltb_spec (n - zlen q.2) 0x7FFF) as [Hlt|]; [|done].
    pose proof (chksum_link_spec q q.2 acc sw x Hq ltac:(lia) Ha Hx He) as Hl.
    destruct (chksum_link q q.2 acc sw) as [acc' sw']. destruct Hl as (Hu & -> & He').
    pose proof (turn_nonneg sw _ (lwords_nonneg _ Hq)).
    pose proof (IH (n - zlen q.2) acc' _ (x + turn sw (lwords q.2)) ltac:(lia) Hu ltac:(lia) He') as Hr.
    assert (asserted (n - zlen q.2) p = true) as Has.
    { destruct p as [|q2 p]; [done|]. apply Z.ltb_lt. pose proof (zlen_nonneg q2.2). lia. }
    rewrite Has in Hr. destruct Hr as (r & Er & Hr & Hru). exists r. split; [exact Er|]. split; [|done].
    rewrite Hr. apply turn_two; [done..|]. by apply is_bytes_take, payload_bytes.
Qed.

(** ** Against the reference *)

Lemma ones_add_spec a b : is_u 16 a → is_u 16 b → ones_add a b ≃ a + b ∧ is_u 16 (ones_add a b).
Proof.
  unfold is_u, ones_add. change (2 ^ 16) with 65536. intros Ha Hb.
  split; [|Z.div_mod_to_equations; lia]. split_and!; [Z.div_mod_to_equations; lia..|].
  exists (- ((a + b) / 65536)). Z.div_mod_to_equations. lia.
Qed.

Lemma rfc1071_sum p acc : is_bytes p → is_u 16 acc →
  let r := foldl ones_add acc (be_words p) in r ≃ acc + words p ∧ is_u 16 r.
Proof.
  intros Hp. revert acc. induction p as [|a|a b p IH] using pair_ind; intros acc Ha; cbn [be_words foldl words].
  - split; [|done]. rewrite Z.add_0_r. apply ones_refl, Ha.
  - rewrite Forall_singleton in Hp. apply ones_add_spec; [done|]. unfold is_u in *. lia.
  - rewrite !Forall_cons in Hp. destruct Hp as (Hb & Hc & Hp).
    assert (is_u 16 (256 * a + b)) as Hw by (unfold is_u in *; lia).
    destruct (ones_add_spec acc (256 * a + b) Ha Hw) as [He Hu]. destruct (IH Hp _ Hu) as [Hr Hru]. split; [|done].
    pose proof (words_bound p Hp). rewrite Hr, Z.add_assoc. apply ones_eq_add; [done|apply ones_refl; lia].
Qed.

Lemma not16 r : is_u 16 r → u16 (Z.lnot r) = 65535 - r.
Proof.
  unfold is_u. change (2 ^ 16) with 65536. intros. rewrite u16_mod. change (2 ^ 16) with 65536.
  unfold Z.lnot, Z.pred. Z.div_mod_to_equations. lia.
Qed.

(** The complement of the sum, in the order of the machine, is the reference's. *)
Lemma complement_spec r p : is_bytes p → r ≃ lwords p → is_u 16 r → u16 (Z.lnot r) = lwip_htons (rfc1071 p).
Proof.
  intros Hp Hr Hu. destruct (rfc1071_sum p 0 Hp ltac:(done)) as [Hw Hwu]. rewrite Z.add_0_l in Hw.
  unfold rfc1071. set (w := foldl ones_add 0 (be_words p)) in *. clearbody w.
  destruct (swap_ones w _ (transitivity Hw (words_turn p Hp)) Hwu) as [Hs Hsu].
  assert (r = SWAP_BYTES_IN_WORD w) as ->.
  { apply ones_unique; [|apply Hu|apply Hsu]. rewrite Hr, Hs. symmetry.
    apply (turn_turn true true). auto with word. }
  rewrite not16 by done. change lwip_htons with SWAP_BYTES_IN_WORD. unfold is_u in Hwu. change (2 ^ 16) with 65536 in Hwu.
  rewrite (swap_value w), (swap_value (65535 - w)) by (unfold is_u; lia). Z.div_mod_to_equations; lia.
Qed.

Lemma inet_chksum_spec addr data : is_bytes data → zlen data <= 0x20000 →
  inet_chksum addr data = lwip_htons (rfc1071 data).
Proof. intros Hd Hl. apply complement_spec; [done|by apply lwip_standard_chksum_spec..]. Qed.

Lemma land_u16 r : is_u 16 r → r .& 0xFFFF = r.
Proof. apply u16_small. Qed.

Lemma inet_chksum_pbuf_spec p : chain_ok p → inet_chksum_pbuf p = lwip_htons (rfc1071 (payload p)).
Proof.
  intros Hp. destruct (chksum_chain_spec p 0 false 0 Hp) as [Hr Hu]; [done..|by apply (ones_refl 0)|].
  unfold inet_chksum_pbuf. rewrite land_u16 by done. by apply complement_spec; [apply payload_bytes|..].
Qed.

Lemma htons_value v : is_u 16 v → lwip_htons v = lwords (put_be16 v).
Proof.
  intros Hv. change lwip_htons with SWAP_BYTES_IN_WORD. rewrite swap_value by done. unfold put_be16, is_u in *. change (2 ^ 16) with 65536 in *.
  cbn [lwords]. rewrite Z.shiftr_div_pow2, !u8_mod by lia. change (2 ^ 8) with 256.
  rewrite (Z.mod_small (v / 256)) by (Z.div_mod_to_equations; lia). lia.
Qed.

Lemma htons_u16 v : is_u 16 v → is_u 16 (lwip_htons v).
Proof. intros Hv. apply (swap_ones v v); [apply ones_refl, Hv|done]. Qed.
#[export] Hint Resolve htons_u16 : word.

Lemma htons_twice v : is_u 16 v → lwip_htons (lwip_htons v) = v.
Proof.
  intros Hv. pose proof (htons_u16 v Hv) as Hu. change lwip_htons with SWAP_BYTES_IN_WORD in *.
  rewrite !swap_value in * by done. unfold is_u in Hv. change (2 ^ 16) with 65536 in Hv. Z.div_mod_to_equations. lia.
Qed.

Lemma addr_words a : is_u 32 a → (a .& 0xFFFF) + ((a .>> 16) .& 0xFFFF) = lwords (le_bytes 4 a) ∧
  is_u 16 (a .& 0xFFFF) ∧ is_u 16 ((a .>> 16) .& 0xFFFF).
Proof.
  intros Ha. rewrite !land_16, !Z.shiftr_div_pow2 by lia. change (2 ^ 16) with 65536.
  cbn [le_bytes lwords]. rewrite !u8_mod, !Z.shiftr_div_pow2 by lia. change (2 ^ 8) with 256.
  unfold is_u in *. change (2 ^ 32) with 4294967296 in Ha. change (2 ^ 16) with 65536.
  Z.div_mod_to_equations. lia.
Qed.

Lemma pseudo_addrs_spec src dest : is_u 32 src → is_u 32 dest →
  let r := pseudo_addrs src dest in r ≃ lwords (le_bytes 4 src ++ le_bytes 4 dest) ∧ is_u 16 r.
Proof.
  intros Hs Hd. unfold pseudo_addrs. destruct (addr_words src Hs) as (Es & Hs1 & Hs2).
  destruct (addr_words dest Hd) as (Ed & Hd1 & Hd2). unfold is_u in Hs1, Hs2, Hd1, Hd2.
  change (2 ^ 16) with 65536 in *. u32s.
  apply fold_twice; [|unfold is_u; lia]. rewrite Es, <- Z.add_assoc, Ed.
  pose proof (lwords_nonneg (le_bytes 4 src) ltac:(auto with word)).
  pose proof (lwords_nonneg (le_bytes 4 dest) ltac:(auto with word)).
  rewrite (lwords_app (le_bytes 4 src)) by auto with word.
  assert (zodd (le_bytes 4 src) = false) as -> by (unfold zodd, zlen; by rewrite length_le_bytes).
  apply ones_refl. cbn [turn]. lia.
Qed.

Lemma put_be16_even v : zodd (put_be16 v) = false.
Proof. done. Qed.

Lemma pseudo_bytes src dest proto len : is_byte proto → is_bytes (pseudo src dest proto len).
Proof.
  intros Hp. unfold pseudo. repeat apply is_bytes_app; auto with word; [|apply put_be16_bytes].
  repeat constructor; try done; apply Hp.
Qed.

Lemma pseudo_end_spec proto len acc src dest data : is_byte proto → is_u 16 len → is_u 16 acc → is_bytes data →
  acc ≃ lwords (le_bytes 4 src ++ le_bytes 4 dest) + lwords data →
  pseudo_end proto len acc = lwip_htons (rfc1071 (pseudo src dest proto len ++ data)).
Proof.
  intros Hp Hl Ha Hb He. unfold pseudo_end. rewrite (htons_value len) by done.
  rewrite (htons_value proto) by (eapply is_u_mono; [|done]; lia).
  assert (put_be16 proto = [0; proto]) as ->.
  { unfold put_be16. rewrite (u8_small proto), Z.shiftr_div_pow2 by (done || lia).
    rewrite Z.div_small by apply Hp. done. }
  pose proof (put_be16_bytes len) as Hlb. pose proof (lwords_bound _ Hlb) as Hlw. change (_ / 2) with 1 in Hlw.
  assert (is_bytes [0; proto]) as Hpb by (repeat constructor; try done; apply Hp).
  pose proof (lwords_bound _ Hpb) as Hpw. change (_ / 2) with 1 in Hpw.
  unfold is_u in Ha. change (2 ^ 16) with 65536 in *. u32s.
  set (addrs := le_bytes 4 src ++ le_bytes 4 dest) in *.
  assert (is_bytes addrs) as Hab by (apply is_bytes_app; auto with word).
  pose proof (lwords_nonneg _ Hab). pose proof (lwords_nonneg _ Hb).
  edestruct (fold_twice (acc + lwords [0; proto] + lwords (put_be16 len))) as [Hf Hfu].
  { apply ones_eq_add; [apply ones_eq_add; [exact He|]|]; apply ones_refl; lia. }
  { unfold is_u. lia. }
  rewrite land_u16 by done. apply complement_spec; [|rewrite Hf|done].
  { apply is_bytes_app; [by apply pseudo_bytes|done]. }
  unfold pseudo. change (le_bytes 4 src ++ le_bytes 4 dest ++ [0; proto] ++ put_be16 len) with
    (addrs ++ [0; proto] ++ put_be16 len). rewrite <- !app_assoc.
  assert (is_bytes (put_be16 len ++ data)) as Hr by by apply is_bytes_app.
  rewrite lwords_app; [|done|by apply is_bytes_app]. change (zodd addrs) with false. cbn [turn].
  pose proof (lwords_app (put_be16 len) data Hlb Hb) as E1. cbn [turn zodd] in E1. change (zodd (put_be16 len)) with false in E1. cbn [turn] in E1.
  pose proof (lwords_app [0; proto] (put_be16 len ++ data) Hpb Hr) as E2. change (zodd [0; proto]) with false in E2. cbn [turn] in E2.
  rewrite E2, E1. match goal with |- ?a ≃ ?b => replace a with b by lia end. apply ones_refl. lia.
Qed.

Lemma inet_chksum_pseudo_spec p proto len src dest : chain_ok p → is_byte proto → is_u 16 len → is_u 32 src → is_u 32 dest →
  inet_chksum_pseudo p proto len src dest = lwip_htons (rfc1071 (pseudo src dest proto len ++ payload p)).
Proof.
  intros Hp Hpr Hl Hs Hd. destruct (pseudo_addrs_spec src dest Hs Hd) as [He Hu].
  assert (is_bytes (le_bytes 4 src ++ le_bytes 4 dest)) by (apply is_bytes_app; auto with word).
  destruct (chksum_chain_spec p _ false _ Hp Hu (lwords_nonneg _ ltac:(done)) He) as [Hr Hru].
  apply pseudo_end_spec; try done. by apply payload_bytes.
Qed.

Lemma inet_chksum_pseudo_partial_spec p proto len n src dest : chain_ok p → is_byte proto → is_u 16 len → is_u 16 n →
  is_u 32 src → is_u 32 dest →
  inet_chksum_pseudo_partial p proto len n src dest =
  if asserted n p then Ok (lwip_htons (rfc1071 (pseudo src dest proto len ++ ztake n (payload p)))) else Fault.
Proof.
  intros Hp Hpr Hl Hn Hs Hd. destruct (pseudo_addrs_spec src dest Hs Hd) as [He Hu].
  assert (is_bytes (le_bytes 4 src ++ le_bytes 4 dest)) by (apply is_bytes_app; auto with word).
  pose proof (chksum_chain_partial_spec p n _ false _ Hp Hn Hu (lwords_nonneg _ ltac:(done)) He) as Hr.
  unfold inet_chksum_pseudo_partial, inet_cksum_pseudo_partial_base. destruct (asserted n p); [|by rewrite Hr].
  destruct Hr as (r & -> & Hr & Hru). cbn [mbind res_bind]. f_equal.
  apply pseudo_end_spec; try done. by apply is_bytes_take, payload_bytes.
Qed.

(** ** Senders and receivers *)

(** A text verifies when its words sum to all ones. *)
Definition verifies (p : list Z) : Prop := rfc1071 p = 0.

Lemma verifies_sum p : is_bytes p → verifies p ↔ lwords p ≃ 65535.
Proof.
  intros Hp. unfold verifies, rfc1071. destruct (rfc1071_sum p 0 Hp ltac:(done)) as [Hw Hu]. rewrite Z.add_0_l in Hw.
  set (w := foldl _ _ _) in *. clearbody w. pose proof (transitivity Hw (words_turn p Hp)) as He.
  assert (∀ x, 0 <= x → (256 * x ≃ 65535 ↔ x ≃ 65535)) as Hturn.
  { intros x Hx. split; intros (? & ? & ? & k & Hk); split_and!; try lia; [exists (256 * k + 255 - x)|exists (256 * k + 255)]; lia. }
  rewrite <- Hturn by auto with word. split.
  - intros E. rewrite <- He. replace w with 65535 by lia. by apply ones_refl.
  - intros E. enough (w = 65535) by lia. apply ones_unique; [by rewrite He|apply Hu|done].
Qed.

Lemma htons_zero v : is_u 16 v → lwip_htons v = 0 ↔ v = 0.
Proof.
  intros Hv. change lwip_htons with SWAP_BYTES_IN_WORD. rewrite swap_value by done. unfold is_u in Hv.
  Z.div_mod_to_equations. lia.
Qed.

Lemma rfc1071_u16 p : is_bytes p → is_u 16 (rfc1071 p).
Proof.
  intros Hp. destruct (rfc1071_sum p 0 Hp ltac:(done)) as [_ Hu]. unfold rfc1071, is_u in *. lia.
Qed.

(** The code says 0 for exactly these texts. *)
Lemma chksum_zero p : is_bytes p → lwip_htons (rfc1071 p) = 0 ↔ verifies p.
Proof. intros Hp. by rewrite htons_zero by by apply rfc1071_u16. Qed.

Lemma two_bytes x y l : is_byte x → is_byte y → is_bytes l → is_bytes ([x; y] ++ l).
Proof. intros. by repeat apply Forall_cons_2. Qed.
#[local] Hint Resolve two_bytes : word.

Lemma zero_byte : is_byte 0.
Proof. done. Qed.
#[local] Hint Resolve zero_byte : word.

Lemma lwords_field pre x y post : is_bytes pre → is_byte x → is_byte y → is_bytes post → zodd pre = false →
  lwords (pre ++ [x; y] ++ post) ≃ lwords (pre ++ [0; 0] ++ post) + (x + 256 * y).
Proof.
  intros Hp Hx Hy Hq He. assert (is_bytes ([x; y] ++ post)) by auto with word.
  assert (is_bytes ([0; 0] ++ post)) by auto with word.
  pose proof (lwords_nonneg pre Hp). pose proof (lwords_nonneg post Hq). unfold is_u in Hx, Hy.
  rewrite (lwords_app pre ([x; y] ++ post)), (lwords_app pre ([0; 0] ++ post)), He by done. cbn [turn app lwords].
  match goal with |- ?a ≃ ?b => replace a with b by lia end. apply ones_refl. lia.
Qed.

(** The field zero, the sum taken, the sum stored where the zero was: the text verifies. *)
Lemma stored_verifies pre post : is_bytes pre → is_bytes post → zodd pre = false →
  verifies (pre ++ le_bytes 2 (lwip_htons (rfc1071 (pre ++ [0; 0] ++ post))) ++ post).
Proof.
  intros Hp Hq He. set (p0 := pre ++ [0; 0] ++ post).
  assert (is_bytes p0) as Hp0 by (unfold p0; auto with word).
  set (v := lwip_htons (rfc1071 p0)).
  assert (is_u 16 v ∧ lwords p0 + v ≃ 65535) as [Hv Hs].
  { destruct (rfc1071_sum p0 0 Hp0 ltac:(done)) as [Hw Hu]. rewrite Z.add_0_l in Hw.
    destruct (swap_ones _ _ (transitivity Hw (words_turn p0 Hp0)) Hu) as [Hs Hsu].
    set (r := SWAP_BYTES_IN_WORD _) in *. clearbody r.
    assert (r ≃ lwords p0) as Hr by (rewrite Hs; apply (turn_turn true true); auto with word).
    pose proof (complement_spec r p0 Hp0 Hr Hsu) as E. fold v in E. rewrite <- E, not16 by done.
    unfold is_u in Hsu. change (2 ^ 16) with 65536 in Hsu. split; [unfold is_u; lia|].
    rewrite <- Hr. replace (r + (65535 - r)) with 65535 by lia. by apply ones_refl. }
  clearbody v. unfold is_u in Hv. change (2 ^ 16) with 65536 in Hv. cbn [le_bytes].
  rewrite verifies_sum.
  - rewrite lwords_field by auto with word. fold p0. rewrite !u8_mod, Z.shiftr_div_pow2 by lia. change (2 ^ 8) with 256.
    replace (v mod 256 + 256 * ((v / 256) mod 256)) with v by (Z.div_mod_to_equations; lia). done.
  - apply is_bytes_app; [done|]. apply two_bytes; auto with word.
Qed.

(** A word changed to another one is noticed, unless all ones replace all zeros or the
    other way round. *)
Lemma change_noticed pre x y x' y' post : is_bytes pre → is_byte x → is_byte y → is_byte x' → is_byte y' → is_bytes post →
  zodd pre = false → verifies (pre ++ [x; y] ++ post) → verifies (pre ++ [x'; y'] ++ post) →
  x = x' ∧ y = y' ∨ x = 0 ∧ y = 0 ∧ x' = 255 ∧ y' = 255 ∨ x = 255 ∧ y = 255 ∧ x' = 0 ∧ y' = 0.
Proof.
  intros Hp Hx Hy Hx' Hy' Hq He. assert (∀ a b, is_byte a → is_byte b → is_bytes (pre ++ [a; b] ++ post)) as Hab.
  { intros. auto with word. }
  rewrite !verifies_sum by auto. rewrite (lwords_field pre x y), (lwords_field pre x' y') by done. intros (_ & _ & _ & k & Hk) (_ & _ & _ & l & Hl).
  unfold is_u in *. change (2 ^ 8) with 256 in *.
  assert (k = l ∨ k = l + 1 ∨ k = l - 1) as [-> |[-> | ->]] by lia; lia.
Qed.

(** ** Properties *)

(** C25: lwIP's checksums are RFC 1071's. Whatever the address of the data and however a
    chain is cut, odd pieces included, the code gives the reference's checksum of the
    bytes put together, in network order: up to the documented 0x20000 bytes in one piece,
    of any length in a chain, behind the pseudo header, and for a prefix of the chain, unless 0x7fff bytes or more of
    the prefix lie behind the first link: those the code's assertion refuses. *)
Theorem chksum_is_rfc1071 (addr : Z) (data : list Z) (p : chain) (proto len n src dest : Z) :
  is_bytes data → zlen data <= 0x20000 → chain_ok p →
  is_byte proto → is_u 16 len → is_u 16 n → is_u 32 src → is_u 32 dest →
  inet_chksum addr data = lwip_htons (rfc1071 data) ∧
  inet_chksum_pbuf p = lwip_htons (rfc1071 (payload p)) ∧
  ip_chksum_pseudo p proto len src dest = lwip_htons (rfc1071 (pseudo src dest proto len ++ payload p)) ∧
  ip_chksum_pseudo_partial p proto len n src dest =
    if asserted n p then Ok (lwip_htons (rfc1071 (pseudo src dest proto len ++ ztake n (payload p)))) else Fault.
Proof.
  intros. split_and!; [by apply inet_chksum_spec|by apply inet_chksum_pbuf_spec|by apply inet_chksum_pseudo_spec|].
  by apply inet_chksum_pseudo_partial_spec.
Qed.

(** What a sender stores, a receiver accepts: a segment whose checksum field was zero
    when the sum was taken has the sum 0 once it is filled in, in whatever chain
    it arrives; and the receiver refuses the segment when any other 16 bits of it are
    changed, unless the change is between all zeros and all ones. *)
Theorem chksum_protects (p q r : chain) (pre post : list Z) (x y x' y' : Z) (proto src dest : Z) :
  chain_ok p → chain_ok q → chain_ok r → is_byte proto → is_u 32 src → is_u 32 dest →
  zodd pre = false → zlen (payload p) < 65536 → payload p = pre ++ [0; 0] ++ post →
  let chksum := ip_chksum_pseudo p proto (zlen (payload p)) src dest in
  payload q = pre ++ le_bytes 2 chksum ++ post →
  ip_chksum_pseudo q proto (zlen (payload p)) src dest = 0 ∧
  (∀ a b, zodd a = false → payload q = a ++ [x; y] ++ b → payload r = a ++ [x'; y'] ++ b →
   ip_chksum_pseudo r proto (zlen (payload p)) src dest = 0 →
   x = x' ∧ y = y' ∨ x = 0 ∧ y = 0 ∧ x' = 255 ∧ y' = 255 ∨ x = 255 ∧ y = 255 ∧ x' = 0 ∧ y' = 0).
Proof.
  intros Hp Hq Hr Hpr Hs Hd He Hz Ep chksum Eq. assert (is_u 16 (zlen (payload p))) as Hl by (split; [apply zlen_nonneg|done]).
  set (len := zlen (payload p)) in *. clearbody len.
  pose proof (pseudo_bytes src dest proto len Hpr) as Hps. set (ps := pseudo _ _ _ _) in *.
  assert (zodd ps = false) as Heps by done.
  assert (∀ c, chain_ok c → ip_chksum_pseudo c proto len src dest = 0 ↔ verifies (ps ++ payload c)) as Hv.
  { intros c Hc. unfold ip_chksum_pseudo. rewrite inet_chksum_pseudo_spec by done. apply chksum_zero.
    apply is_bytes_app; [done|by apply payload_bytes]. }
  pose proof (payload_bytes p Hp) as Hb. rewrite Ep in Hb. apply Forall_app in Hb as [Hpre Hb]. apply Forall_app in Hb as [_ Hpost].
  assert (verifies (ps ++ payload q)) as Hok.
  { rewrite Eq, app_assoc. unfold chksum, ip_chksum_pseudo. rewrite inet_chksum_pseudo_spec by done. rewrite Ep.
    rewrite (app_assoc (pseudo _ _ _ _) pre). fold ps. apply stored_verifies; [by apply is_bytes_app|done|].
    by rewrite zodd_app, He. }
  split; [by apply Hv|]. intros a b Ha Eqa Era Hr0. apply Hv in Hr0; [|done]. rewrite Eqa in Hok. rewrite Era in Hr0.
  pose proof (payload_bytes q Hq) as Hqb. pose proof (payload_bytes r Hr) as Hrb. rewrite Eqa in Hqb. rewrite Era in Hrb.
  rewrite !Forall_app, !Forall_cons in Hqb, Hrb. destruct Hqb as (Hab & (? & ? & _) & ?), Hrb as (_ & (? & ? & _) & _).
  rewrite app_assoc in Hok, Hr0. eapply (change_noticed (ps ++ a) x y x' y' b); try done; [by apply is_bytes_app|].
  by rewrite zodd_app, Ha.
Qed.

(** ** The probe's query, read by lwIP *)

Lemma verifies_words p : is_bytes p → 0 < words p → words p mod 65535 = 0 → verifies p.
Proof.
  intros Hp H0 Hm. apply verifies_sum; [done|]. pose proof (words_turn p Hp) as He.
  pose proof (lwords_nonneg p Hp). destruct He as (_ & _ & Hz & k & Hk).
  split_and!; [done|done|lia|]. apply Z.mod_divide in Hm as [m Hm]; [|done].
  exists (256 * (m - k) - lwords p - 1). lia.
Qed.

Lemma build_dns_bytes cap src dst sport txid host pkt : is_bytes host →
  ipprobe_build_dns cap src dst sport txid host = Some pkt →
  is_bytes pkt ∧ ∃ rest, pkt = 69 :: rest.
Proof.
  intros Hh. unfold ipprobe_build_dns. destruct (_ <? _); [done|].
  destruct (encode_name _ host) as [name|] eqn:En; [|done].
  pose proof (encode_loop_bound _ _ _ _ _ En) as (Hnl & s & Hns & Hw). cbn [app] in Hns. subst s.
  pose proof (wire_name_bytes _ (Hw Hh)) as Hnb. cbv zeta.
  intros E. apply (f_equal (default [])) in E. change (default [] (Some pkt)) with pkt in E. subst pkt.
  split; [|by eexists].
  repeat first [apply is_bytes_app | apply blit_bytes | apply put_be16_bytes | apply le_bytes_bytes | done
               | apply is_bytes_zeros | apply Forall_cons_2 | apply u8_bound].
Qed.

(** The query awg_ipprobe.c builds by hand passes both checks of a stack like lwIP: the
    header's, and behind the pseudo header the datagram's, in whatever chain it lies. *)
Theorem probe_query_accepted (cap src dst sport txid : Z) (host pkt : list Z) (addr : Z) (p : chain) :
  cap <= 65535 → is_bytes host → is_u 32 src → is_u 32 dst →
  ipprobe_build_dns cap src dst sport txid host = Some pkt →
  chain_ok p → payload p = drop 20 pkt →
  inet_chksum addr (take 20 pkt) = 0 ∧ ip_chksum_pseudo p 17 (zlen (payload p)) src dst = 0.
Proof.
  intros Hc Hh Hs Hd Hb Hp Ep. pose proof (build_dns_bytes _ _ _ _ _ _ _ Hh Hb) as (Hpb & rest & Hrest).
  destruct (build_dns_ok _ _ _ _ _ _ _ Hc Hh Hs Hd Hb) as (name & _ & Hz & Hcap & _ & Hi & Hu).
  pose proof (zlen_nonneg name).
  assert (zlen (payload p) = 24 + zlen name) as Hl by (rewrite Ep; unfold zlen in *; rewrite length_drop; lia).
  rewrite Hl. split.
  - rewrite inet_chksum_spec by (auto with word; unfold zlen; rewrite length_take; lia).
    apply chksum_zero; [auto with word|]. apply verifies_words; [auto with word| |done].
    rewrite Hrest in Hpb |- *. destruct rest as [|b rest]; cbn [take words]; [done|].
    inversion_clear Hpb as [|?? _ Hr]. inversion_clear Hr as [|?? Hb0 Hr0].
    pose proof (words_bound (take 18 rest) ltac:(auto with word)). unfold is_u in Hb0. lia.
  - assert (is_bytes (pseudo src dst 17 (24 + zlen name))) as Hps by by apply pseudo_bytes.
    pose proof (payload_bytes p Hp) as Hpay. rewrite Ep in Hpay.
    unfold ip_chksum_pseudo. rewrite inet_chksum_pseudo_spec; [|done|done|unfold is_u; lia|done|done].
    rewrite Ep. apply chksum_zero; [by apply is_bytes_app|].
    change (pseudo src dst 17) with (pseudo_header src dst) in *.
    assert (words (pseudo_header src dst (24 + zlen name) ++ drop 20 pkt) =
      words (pseudo_header src dst (24 + zlen name)) + words (drop 20 pkt)) as E by by apply sum_words_app.
    apply verifies_words; [by apply is_bytes_app|rewrite E|by rewrite E].
    pose proof (words_bound _ Hpay). unfold pseudo_header. rewrite !sum_words_app by done.
    pose proof (words_bound (le_bytes 4 src) ltac:(auto with word)). pose proof (words_bound (le_bytes 4 dst) ltac:(auto with word)).
    pose proof (words_bound (put_be16 (24 + zlen name)) (put_be16_bytes _)). change (words [0; 17]) with 17. lia.
Qed.

(** ** Witnesses *)

Definition sample_chain : chain := [(0x1001, [0x45; 1; 2]); (0x2000, [3; 4; 5; 6]); (0x2005, [0xFF])].

Lemma sample_chain_ok : chain_ok sample_chain.
Proof. repeat (apply Forall_cons_2; [split; [word_list|done]|]); apply Forall_nil_2. Qed.

Lemma chksum_is_rfc1071_witness :
  inet_chksum 3 [0x45; 1; 2] = lwip_htons (rfc1071 [0x45; 1; 2]) ∧
  ip_chksum_pseudo sample_chain 6 8 0x0100000A 0x0200000A =
    lwip_htons (rfc1071 (pseudo 0x0100000A 0x0200000A 6 8 ++ [0x45; 1; 2; 3; 4; 5; 6; 0xFF])).
Proof.
  destruct (chksum_is_rfc1071 3 [0x45; 1; 2] sample_chain 6 8 5 0x0100000A 0x0200000A) as (H1 & _ & H3 & _).
  - word_list.
  - by vm_compute.
  - exact sample_chain_ok.
  - by vm_compute.
  - by vm_compute.
  - by vm_compute.
  - by vm_compute.
  - by vm_compute.
  - split; [exact H1|exact H3].
Defined.

(** Chains of bytes are recognised by computation. *)
Definition chain_check (p : chain) : bool :=
  forallb (λ q, forallb (λ x, (0 <=? x) && (x <? 256)) q.2 && (zlen q.2 <? 65536)) p.

Lemma chain_check_ok p : chain_check p = true → chain_ok p.
Proof.
  unfold chain_check. rewrite forallb_forall. intros H. apply Forall_forall. intros q Hq%list_elem_of_In.
  specialize (H q Hq). apply andb_true_iff in H as [H1 H2]. split; [|by apply Z.ltb_lt].
  apply Forall_forall. intros x Hx%list_elem_of_In. rewrite forallb_forall in H1. specialize (H1 x Hx).
  rewrite andb_true_iff, Z.leb_le, Z.ltb_lt in H1. by unfold is_u.
Qed.
