(* ===== verification/Ip4.v ===== *)
(** * lwip/core/ipv4: addresses, the IP header, and the way out

    The parts of ip4.c and ip4_frag.c that send: choosing the interface, writing the
    header with the checksum taken along the way, and cutting a datagram that is longer
    than the interface's MTU. There is one interface, the tunnel's. Packets are chains in
    memory, as in [Chksum]; what is handed to [netif->output] is listed in order. Memory is
    the caller's: [ram] is where the heap puts the next buffers, if anywhere. *)
From S2P Require Import Prelude IpProbe Pbuf Netif Chksum.

(** ** Addresses, in network order *)

Definition lwip_htonl (x : Z) : Z :=
  ((x .& 0xFF) .<< 24) .| ((x .& 0xFF00) .<< 8) .| ((x .& 0xFF0000) .>> 8) .| ((x .& 0xFF000000) .>> 24).

Definition IPADDR_ANY : Z := 0.
Definition IPADDR_BROADCAST : Z := 0xFFFFFFFF.
Definition ip4_addr_isany_val (a : Z) : bool := a =? IPADDR_ANY.
Definition ip4_addr_isloopback (a : Z) : bool := (a .& lwip_htonl 0xFF000000) =? lwip_htonl (127 .<< 24).
Definition ip4_addr_ismulticast (a : Z) : bool := (a .& lwip_htonl 0xF0000000) =? lwip_htonl 0xE0000000.
Definition ip4_addr_net_eq (a b mask : Z) : bool := (a .& mask) =? (b .& mask).

Definition NETIF_FLAG_BROADCAST : Z := 2.
Definition netif_is_up (n : lwip_netif) : bool := negb ((n.(n_flags) .& NETIF_FLAG_UP) =? 0).
Definition netif_is_link_up (n : lwip_netif) : bool := negb ((n.(n_flags) .& NETIF_FLAG_LINK_UP) =? 0).

Definition ip4_addr_isbroadcast_u32 (addr : Z) (n : lwip_netif) : bool :=
  if (u32 (Z.lnot addr) =? IPADDR_ANY) || (addr =? IPADDR_ANY) then true
  else if (n.(n_flags) .& NETIF_FLAG_BROADCAST) =? 0 then false
  else if addr =? n.(n_addr) then false
  else ip4_addr_net_eq addr n.(n_addr) n.(n_mask) &&
       ((addr .& u32 (Z.lnot n.(n_mask))) =? (IPADDR_BROADCAST .& u32 (Z.lnot n.(n_mask)))).

(** ** The header

    The fields of [struct ip_hdr] as the machine loads them. *)
Record ip_hdr := IpHdr {
  _v_hl : Z; _tos : Z; _len : Z; _id : Z; _offset : Z; _ttl : Z; _proto : Z; _chksum : Z; iph_src : Z; iph_dest : Z
}.

#[export] Instance ip_hdr_eta : Eta ip_hdr := λ h,
  IpHdr h.(_v_hl) h.(_tos) h.(_len) h.(_id) h.(_offset) h.(_ttl) h.(_proto) h.(_chksum) h.(iph_src) h.(iph_dest).

Definition IP_HLEN : Z := 20.
Definition IP_MF : Z := 0x2000.
Definition IP_OFFMASK : Z := 0x1FFF.
Definition IP4_MIN_MTU_LENGTH : Z := 68.
Definition IP_PROTO_ICMP : Z := 1.
Definition IP_PROTO_UDP : Z := 17.
Definition IP_PROTO_TCP : Z := 6.

Definition hdr_bytes (h : ip_hdr) : list Z :=
  [h.(_v_hl); h.(_tos)] ++ le_bytes 2 h.(_len) ++ le_bytes 2 h.(_id) ++ le_bytes 2 h.(_offset) ++
  [h.(_ttl); h.(_proto)] ++ le_bytes 2 h.(_chksum) ++ le_bytes 4 h.(iph_src) ++ le_bytes 4 h.(iph_dest).

Definition hdr_of (b : list Z) : ip_hdr :=
  IpHdr b.[0] b.[1] (le16 b.[2] b.[3]) (le16 b.[4] b.[5]) (le16 b.[6] b.[7]) b.[8] b.[9] (le16 b.[10] b.[11])
    (le_val (slice 12 4 b)) (le_val (slice 16 4 b)).

Definition IPH_V (h : ip_hdr) : Z := h.(_v_hl) .>> 4.
Definition IPH_HL_BYTES (h : ip_hdr) : Z := u8 ((h.(_v_hl) .& 0x0F) * 4).
Definition IPH_OFFSET_BYTES (h : ip_hdr) : Z := u16 ((lwip_htons h.(_offset) .& IP_OFFMASK) * 8).

(** ** Counters *)

(** [struct stats_proto]. *)
Record stats_proto := Stats {
  st_xmit : Z; st_recv : Z; st_fw : Z; st_drop : Z; st_chkerr : Z; st_lenerr : Z; st_memerr : Z; st_rterr : Z; st_proterr : Z; st_opterr : Z;
  st_err : Z; st_cachehit : Z
}.

#[export] Instance stats_proto_eta : Eta stats_proto := λ s,
  Stats s.(st_xmit) s.(st_recv) s.(st_fw) s.(st_drop) s.(st_chkerr) s.(st_lenerr) s.(st_memerr) s.(st_rterr) s.(st_proterr) s.(st_opterr)
    s.(st_err) s.(st_cachehit).

Definition STATS_INC (n : Z) : Z := u16 (n + 1).
Definition proto_zero : stats_proto := Stats 0 0 0 0 0 0 0 0 0 0 0 0.

(** The static state of the sending side: [ip_id] and the two sets of counters. *)
Record ip_out := IpOut { ip_id : Z; ip_stats : stats_proto; frag_stats : stats_proto }.

#[export] Instance ip_out_eta : Eta ip_out := λ o, IpOut o.(ip_id) o.(ip_stats) o.(frag_stats).

(** ** The route *)

(** Whether the one interface takes packets for [dest]: it is on its network or its
    gateway, or it is the default interface. *)
Definition ip4_route (dest : Z) (n : lwip_netif) : bool :=
  if netif_is_up n && netif_is_link_up n && negb (ip4_addr_isany_val n.(n_addr)) &&
     (ip4_addr_net_eq dest n.(n_addr) n.(n_mask) ||
      ((n.(n_flags) .& NETIF_FLAG_BROADCAST) =? 0) && (dest =? n.(n_gw)))
  then true
  else negb (negb n.(n_default) || negb (netif_is_up n) || negb (netif_is_link_up n) ||
             ip4_addr_isany_val n.(n_addr) || ip4_addr_isloopback dest).

(** ** Cutting a datagram *)

Definition MEMP_NUM_FRAG_PBUF : Z := 15.

Definition chain_len (p : chain) : Z := zlen (payload p).

(** References to the next [left] bytes of the datagram, from [poff] in its link; [pcrs] is
    how many references the pool still has. [Err] is an empty pool. Returned are the
    references and where to go on. *)
Fixpoint mirror (p : chain) (poff left pcrs : Z) : res (chain * chain * Z) :=
  match p with
  | [] => Fault
  | q :: next =>
    let plen := u16 (zlen q.2 - poff) in
    let newpbuflen := Z.min left plen in
    if newpbuflen =? 0 then mirror next 0 left pcrs
    else if pcrs =? 0 then Err
    else
      let newpbuf := (q.1 + poff, ztake newpbuflen (zdrop poff q.2)) in
      let left := u16 (left - newpbuflen) in
      if left =? 0 then Ok ([newpbuf], p, u16 (poff + newpbuflen))
      else '(ps, p, poff) ← mirror next 0 left (pcrs - 1); Ok (newpbuf :: ps, p, poff)
  end.

(** The header of one fragment, at the address [a]. *)
Definition frag_hdr (h : ip_hdr) (mtu mf_set ofo left fragsize a : Z) : ip_hdr :=
  let last := left <=? mtu - IP_HLEN in
  let tmp := IP_OFFMASK .& ofo in
  let tmp := if negb last || negb (mf_set =? 0) then tmp .| IP_MF else tmp in
  let h := h <| _offset := lwip_htons tmp |> <| _len := lwip_htons (u16 (fragsize + IP_HLEN)) |> <| _chksum := 0 |> in
  h <| _chksum := inet_chksum a (hdr_bytes h) |>.

(** The packets sent, and what is returned; a fragment's references are given back to the
    pool before the next one, for [netif->output] keeps none. *)
Fixpoint frag_loop (fuel : nat) (ram : list (option Z)) (h : ip_hdr) (mtu nfb mf_set : Z) (p : chain) (poff left ofo : Z)
    : res (list chain * err_t) :=
  if left =? 0 then Ok ([], ERR_OK)
  else
    match fuel with
    | O => Fault
    | S fuel =>
      let fragsize := Z.min left (u16 (nfb * 8)) in
      match ram with
      | Some a :: ram =>
        match mirror p poff fragsize MEMP_NUM_FRAG_PBUF with
        | Ok (ps, p, poff) =>
          '(pkts, e) ← frag_loop fuel ram h mtu nfb mf_set p poff (u16 (left - fragsize)) (u16 (ofo + nfb));
          Ok (((a, hdr_bytes (frag_hdr h mtu mf_set ofo left fragsize a)) :: ps) :: pkts, e)
        | Err => Ok ([], ERR_MEM)
        | Fault => Fault
        end
      | _ => Ok ([], ERR_MEM)
      end
    end.

Definition first_bytes (p : chain) : list Z := match p with q :: _ => q.2 | [] => [] end.

Definition ip4_frag (ram : list (option Z)) (p : chain) (mtu : Z) : res (list chain * err_t) :=
  let h := hdr_of (first_bytes p) in
  let nfb := u16 ((mtu - IP_HLEN) ÷ 8) in
  if negb (IPH_HL_BYTES h =? IP_HLEN) then Ok ([], ERR_VAL)
  else if zlen (first_bytes p) <? IP_HLEN then Ok ([], ERR_VAL)
  else
    let tmp := lwip_htons h.(_offset) in
    let ofo := tmp .& IP_OFFMASK in
    let mf_set := tmp .& IP_MF in
    let left := u16 (chain_len p - IP_HLEN) in
    frag_loop (Z.to_nat left) ram h mtu nfb mf_set p IP_HLEN left ofo.

(** ** Sending *)

(** [pbuf_add_header] on a buffer with [room] bytes in front of its payload: the chain with
    its first link grown by [n] bytes, which the caller writes. *)
Definition pbuf_add_header (p : chain) (room n : Z) (new : list Z) : option chain :=
  match p with
  | q :: next =>
    if (u16 (n + chain_len p) <? n) || (room <? n) then None
    else Some ((q.1 - n, new ++ q.2) :: next)
  | [] => None
  end.

(** The sum taken while the header is written, folded and complemented. *)
Definition inline_chksum (proto ttl dest tos v_hl len id src : Z) : Z :=
  let s := 0 + lwip_htons (proto .| (ttl .<< 8)) in
  let s := u32 (s + (dest .& 0xFFFF)) in
  let s := u32 (s + (dest .>> 16)) in
  let s := u32 (s + lwip_htons (tos .| (v_hl .<< 8))) in
  let s := u32 (s + len) in
  let s := u32 (s + id) in
  let s := u32 (s + (src .& 0xFFFF)) in
  let s := u32 (s + (src .>> 16)) in
  let s := u32 ((s .>> 16) + (s .& 0xFFFF)) in
  let s := u32 ((s .>> 16) + s) in
  u16 (Z.lnot s).

(** The end of [ip4_output_if_src], with the packet finished; [out] is what
    [netif->output] returns. *)
Definition ip4_send (ram : list (option Z)) (p : chain) (n : lwip_netif) (out : err_t) (o : ip_out)
    : res (ip_out * list chain * err_t) :=
  let o := o <| ip_stats ::= λ s, s <| st_xmit ::= STATS_INC |> |> in
  if negb (n.(n_mtu) =? 0) && (chain_len p >? n.(n_mtu)) then
    '(pkts, e) ← ip4_frag ram p n.(n_mtu);
    Ok (o <| frag_stats ::= λ s, s <| st_xmit ::= λ x, u16 (x + zlen pkts) |> |>, pkts, e)
  else Ok (o, [p], out).

(** A packet without a header; [None] for [src] is a null pointer. *)
Definition ip4_output_if_src (ram : list (option Z)) (room : Z) (p : chain) (src : option Z) (dest ttl tos proto : Z)
    (n : lwip_netif) (out : err_t) (o : ip_out) : res (ip_out * list chain * err_t) :=
  match pbuf_add_header p room IP_HLEN (replicate 20 0) with
  | None => Ok (o <| ip_stats ::= λ s, s <| st_err ::= STATS_INC |> |>, [], ERR_BUF)
  | Some p =>
    let v_hl := u8 ((4 .<< 4) .| (IP_HLEN ÷ 4)) in
    let tot_len := chain_len p in
    let small := (proto =? IP_PROTO_TCP) && (tot_len <=? IP4_MIN_MTU_LENGTH) in
    let id := if small then lwip_htons 0 else lwip_htons o.(ip_id) in
    let o := if small then o else o <| ip_id ::= λ i, u16 (i + 1) |> in
    let src := default IPADDR_ANY src in
    let len := lwip_htons tot_len in
    let chksum := inline_chksum proto ttl dest tos v_hl len id src in
    let h := IpHdr v_hl tos len id 0 ttl proto chksum src dest in
    let p := match p with q :: next => (q.1, blit 0 (hdr_bytes h) q.2) :: next | [] => [] end in
    ip4_send ram p n out o
  end.

(** A packet that carries its header, the destination a null pointer. *)
Definition ip4_output_hdrincl (ram : list (option Z)) (p : chain) (n : lwip_netif) (out : err_t) (o : ip_out)
    : res (ip_out * list chain * err_t) :=
  if zlen (first_bytes p) <? IP_HLEN then Ok (o <| ip_stats ::= λ s, s <| st_err ::= STATS_INC |> |>, [], ERR_BUF)
  else ip4_send ram p n out o.

Definition ip4_output_if (ram : list (option Z)) (room : Z) (p : chain) (src : option Z) (dest ttl tos proto : Z)
    (n : lwip_netif) (out : err_t) (o : ip_out) : res (ip_out * list chain * err_t) :=
  let src_used := if ip4_addr_isany_val (default IPADDR_ANY src) then Some n.(n_addr) else src in
  ip4_output_if_src ram room p src_used dest ttl tos proto n out o.

Definition ip4_output (ram : list (option Z)) (room : Z) (p : chain) (src : option Z) (dest ttl tos proto : Z)
    (n : lwip_netif) (out : err_t) (o : ip_out) : res (ip_out * list chain * err_t) :=
  if ip4_route dest n then ip4_output_if ram room p src dest ttl tos proto n out o
  else Ok (o <| ip_stats ::= λ s, s <| st_rterr ::= STATS_INC |> <| st_rterr ::= STATS_INC |> |>, [], ERR_RTE).

(** ** Headers in memory *)

Record hdr_ok (h : ip_hdr) : Prop := {
  ok_v_hl : is_byte h.(_v_hl); ok_tos : is_byte h.(_tos); ok_len : is_u 16 h.(_len); ok_id : is_u 16 h.(_id);
  ok_offset : is_u 16 h.(_offset); ok_ttl : is_byte h.(_ttl); ok_proto : is_byte h.(_proto);
  ok_chksum : is_u 16 h.(_chksum); ok_src : is_u 32 h.(iph_src); ok_dest : is_u 32 h.(iph_dest)
}.

Lemma length_hdr_bytes h : length (hdr_bytes h) = 20%nat.
Proof. done. Qed.

Lemma hdr_bytes_bytes h : hdr_ok h → is_bytes (hdr_bytes h).
Proof. intros []. unfold hdr_bytes. repeat apply is_bytes_app; auto with word; word_list. Qed.
#[export] Hint Resolve hdr_bytes_bytes : word.

Lemma le16_bytes v : is_u 16 v → le16 (u8 v) (u8 (v .>> 8)) = v.
Proof.
  intros Hv. rewrite le16_value by auto with word. rewrite !u8_mod, Z.shiftr_div_pow2 by lia.
  unfold is_u in Hv. change (2 ^ 8) with 256. Z.div_mod_to_equations. lia.
Qed.

Lemma hdr_of_bytes h rest : hdr_ok h → hdr_of (hdr_bytes h ++ rest) = h.
Proof.
  intros []. assert (∀ i, (i < 20)%nat → (hdr_bytes h ++ rest).[i] = (hdr_bytes h).[i]) as Hg by (intros; by apply get_app_l).
  unfold hdr_of. rewrite !Hg by lia. unfold hdr_bytes at 1 2 3 4 5 6 7 8 9 10 11 12, get.
  cbn [le_bytes app lookup list_lookup default option_map from_option id]. rewrite !le16_bytes by done.
  assert (slice 12 4 (hdr_bytes h ++ rest) = le_bytes 4 h.(iph_src)) as -> by done.
  assert (slice 16 4 (hdr_bytes h ++ rest) = le_bytes 4 h.(iph_dest)) as -> by done.
  rewrite !le_val_le_bytes. change (2 ^ (8 * Z.of_nat 4)) with (2 ^ 32). rewrite !Z.mod_small by done. by destruct h.
Qed.

Lemma lwords_le16 v l : is_u 16 v → lwords (le_bytes 2 v ++ l) = v + lwords l.
Proof.
  intros Hv. cbn [le_bytes app lwords]. rewrite !u8_mod, Z.shiftr_div_pow2 by lia. unfold is_u in Hv.
  change (2 ^ 8) with 256. Z.div_mod_to_equations. lia.
Qed.

Lemma lwords_le32 v l : is_u 32 v → lwords (le_bytes 4 v ++ l) = lwords (le_bytes 4 v) + lwords l.
Proof. intros Hv. cbn [le_bytes app lwords]. lia. Qed.

(** The sum of a header, word by word. *)
Lemma lwords_hdr h : hdr_ok h → lwords (hdr_bytes h) =
  h.(_v_hl) + 256 * h.(_tos) + h.(_len) + h.(_id) + h.(_offset) + (h.(_ttl) + 256 * h.(_proto)) + h.(_chksum) +
  lwords (le_bytes 4 h.(iph_src)) + lwords (le_bytes 4 h.(iph_dest)).
Proof.
  intros []. unfold hdr_bytes. change (lwords ([?a; ?b] ++ ?l)) with (a + 256 * b + lwords l).
  rewrite !lwords_le16 by done. change (lwords ([?a; ?b] ++ ?l)) with (a + 256 * b + lwords l).
  rewrite lwords_le16, lwords_le32 by done. lia.
Qed.

Lemma hdr_chksum_bytes h v :
  hdr_bytes (h <| _chksum := v |>) = take 10 (hdr_bytes h) ++ le_bytes 2 v ++ drop 12 (hdr_bytes h).
Proof. reflexivity. Qed.

(** A header with the sum of the others in its checksum field verifies. *)
Lemma hdr_chksum_verifies a h : hdr_ok h →
  let h' := h <| _chksum := inet_chksum a (hdr_bytes (h <| _chksum := 0 |>)) |> in
  hdr_ok h' ∧ verifies (hdr_bytes h').
Proof.
  intros Hh. pose proof Hh as []. assert (hdr_ok (h <| _chksum := 0 |>)) as H0 by by destruct h.
  set (b := hdr_bytes (h <| _chksum := 0 |>)) in *.
  assert (is_bytes b) as Hb by (unfold b; auto with word).
  cbv zeta. rewrite (inet_chksum_spec a b) by done. set (v := lwip_htons (rfc1071 b)).
  assert (is_u 16 v) as Hu by by apply htons_u16, rfc1071_u16.
  split; [by clearbody v; destruct h|]. rewrite hdr_chksum_bytes.
  pose proof (stored_verifies (take 10 b) (drop 12 b) ltac:(auto with word) ltac:(auto with word) ltac:(done)) as Hs.
  assert (take 10 b ++ [0; 0] ++ drop 12 b = b) as E by reflexivity.
  rewrite E in Hs. exact Hs.
Qed.

(** The sum the sender takes on the way is the one over the finished header. *)
Lemma inline_chksum_spec a h : hdr_ok h → h.(_offset) = 0 → h.(_chksum) = 0 →
  inline_chksum h.(_proto) h.(_ttl) h.(iph_dest) h.(_tos) h.(_v_hl) h.(_len) h.(_id) h.(iph_src) =
  inet_chksum a (hdr_bytes h).
Proof.
  intros Hh Ho Hc. pose proof Hh as []. rewrite inet_chksum_spec by (done || auto with word).
  assert (∀ x y, is_byte x → is_byte y → lwip_htons (x .| (y .<< 8)) = 256 * x + y) as Hsw.
  { intros x y Hx Hy. change lwip_htons with SWAP_BYTES_IN_WORD. rewrite lor_add_shift by (done || lia).
    unfold is_u in Hx, Hy. rewrite swap_value by (unfold is_u; lia). Z.div_mod_to_equations. lia. }
  assert (∀ x, is_u 32 x → (x .& 0xFFFF) + (x .>> 16) = lwords (le_bytes 4 x) ∧
    0 <= x .& 0xFFFF <= 65535 ∧ 0 <= x .>> 16 <= 65535) as Ha.
  { intros x Hx. destruct (addr_words x Hx) as (E & H1 & H2). unfold is_u in *. change (2 ^ 16) with 65536 in *.
    assert (x .>> 16 <= 65535) by (rewrite Z.shiftr_div_pow2 by lia; Z.div_mod_to_equations; lia).
    assert (0 <= x .>> 16) by (apply Z.shiftr_nonneg; lia).
    rewrite (land_u16 (x .>> 16)) in E by (unfold is_u; lia). lia. }
  unfold inline_chksum. rewrite !Hsw by done.
  destruct (Ha _ ok_src0) as (Es & ? & ?), (Ha _ ok_dest0) as (Ed & ? & ?).
  pose proof (lwords_hdr h Hh) as El. rewrite Ho, Hc in El. unfold is_u in ok_len0, ok_id0, ok_v_hl0, ok_tos0, ok_ttl0, ok_proto0.
  change (2 ^ 16) with 65536 in *. change (2 ^ 8) with 256 in *. u32s.
  match goal with |- context [?s .>> 16 + (?s .& 0xFFFF)] => assert (s = lwords (hdr_bytes h)) as -> by lia end.
  pose proof (lwords_nonneg (hdr_bytes h) ltac:(auto with word)).
  assert (lwords (hdr_bytes h) <= 9 * 65535) as Hb by lia. clear El Es Ed.
  set (s := lwords (hdr_bytes h)) in *. rewrite land_16, !Z.shiftr_div_pow2 by lia. change (2 ^ 16) with 65536.
  rewrite (u32_small (s / 65536 + s mod 65536)) by (unfold is_u; Z.div_mod_to_equations; lia).
  set (t := s / 65536 + s mod 65536). assert (0 <= t <= 65544) as Ht by (unfold t; Z.div_mod_to_equations; lia).
  rewrite (u32_small (t / 65536 + t)) by (unfold is_u; Z.div_mod_to_equations; lia).
  assert (u16 (Z.lnot (t / 65536 + t)) = u16 (Z.lnot (FOLD_U32T t))) as ->.
  { unfold FOLD_U32T. rewrite land_16, Z.shiftr_div_pow2 by lia. change (2 ^ 16) with 65536.
    rewrite u32_small by (unfold is_u; Z.div_mod_to_equations; lia). rewrite !u16_mod. change (2 ^ 16) with 65536.
    unfold Z.lnot, Z.pred. Z.div_mod_to_equations. lia. }
  assert (t ≃ s) as Hts.
  { split_and!; [lia|lia|unfold t; Z.div_mod_to_equations; lia|]. exists (- (s / 65536)). unfold t. Z.div_mod_to_equations. lia. }
  destruct (fold_once t s Hts) as [Hf Hu]; [lia|]. apply complement_spec; [auto with word|done|done].
Qed.

(** ** The references of a fragment *)

Lemma chain_len_cons q p : chain_len (q :: p) = zlen q.2 + chain_len p.
Proof. unfold chain_len. by rewrite payload_cons, zlen_app. Qed.

Lemma zdrop_app_le {A} n (l k : list A) : 0 <= n <= zlen l → zdrop n (l ++ k) = zdrop n l ++ k.
Proof. intros Hn. unfold zdrop, zlen in *. by rewrite drop_app_le by lia. Qed.

Lemma zdrop_app_ge {A} n (l k : list A) : zlen l <= n → zdrop n (l ++ k) = zdrop (n - zlen l) k.
Proof. intros Hn. unfold zdrop, zlen in *. rewrite drop_app_ge by lia. f_equal. lia. Qed.

(** They hold the next [left] bytes, and what is left of the chain holds those behind them. *)
Lemma mirror_spec p poff left pcrs : chain_ok p → 0 <= poff <= zlen (first_bytes p) → 0 < left < 65536 →
  left <= chain_len p - poff → zlen p <= pcrs →
  ∃ ps p' poff', mirror p poff left pcrs = Ok (ps, p', poff') ∧
    payload ps = ztake left (zdrop poff (payload p)) ∧ zdrop poff' (payload p') = zdrop (poff + left) (payload p) ∧
    0 <= poff' <= zlen (first_bytes p') ∧ chain_ok p' ∧ zlen p' <= zlen p ∧
    chain_len p' - poff' = chain_len p - poff - left ∧ chain_ok ps.
Proof.
  intros Hp. revert poff left pcrs. induction Hp as [|q p [Hq Hz] Hp IH]; intros poff left pcrs Ho Hl Hlen Hpc.
  { cbn in Hlen, Ho. change (chain_len []) with 0 in Hlen. lia. }
  rewrite chain_len_cons in Hlen. rewrite zlen_cons in Hpc. cbn [first_bytes] in Ho. pose proof (zlen_nonneg p).
  assert (0 <= chain_len p) as Hcp by apply zlen_nonneg.
  cbn [mirror]. rewrite u16_small by (unfold is_u; lia). rewrite payload_cons.
  set (n := Z.min left (zlen q.2 - poff)).
  destruct (Z.eqb_spec n 0) as [Hn|Hn].
  { assert (poff = zlen q.2) as -> by lia.
    destruct (IH 0 left pcrs) as (ps & p' & poff' & Hm & H1 & H2 & H3 & H4 & H5 & H6 & H7).
    - split; [lia|apply zlen_nonneg]. - done. - lia. - lia.
    - exists ps, p', poff'. split; [done|]. rewrite (zdrop_app_ge (zlen q.2)), Z.sub_diag by lia. split; [done|].
      rewrite zdrop_app_ge by lia. replace (zlen q.2 + left - zlen q.2) with (0 + left) by lia. split; [done|].
      rewrite zlen_cons, chain_len_cons. split_and!; try done; lia. }
  rewrite (proj2 (Z.eqb_neq pcrs 0)) by lia.
  rewrite (u16_small (left - n)) by (unfold is_u; lia).
  rewrite (zdrop_app_le poff) by lia.
  assert (zlen (zdrop poff q.2) = zlen q.2 - poff) as Hzd by (apply zlen_zdrop; lia).
  destruct (Z.eqb_spec (left - n) 0) as [Hln|Hln].
  - exists [(q.1 + poff, ztake n (zdrop poff q.2))], (q :: p), (poff + n). rewrite u16_small by (unfold is_u; lia).
    split; [done|]. assert (n = left) as En by lia. rewrite En, ztake_app_le by lia. split_and!.
    + unfold payload. cbn. by rewrite app_nil_r.
    + by rewrite payload_cons.
    + lia.
    + cbn [first_bytes]. lia.
    + by constructor.
    + done.
    + rewrite chain_len_cons. lia.
    + constructor; [|constructor]. split; [by apply is_bytes_take, is_bytes_drop|]. cbn. rewrite zlen_ztake by lia. lia.
  - assert (n = zlen q.2 - poff) as En by lia.
    destruct (IH 0 (left - n) (pcrs - 1)) as (ps & p' & poff' & Hm & H1 & H2 & H3 & H4 & H5 & H6 & H7).
    + split; [lia|apply zlen_nonneg]. + lia. + lia. + lia.
    + rewrite Hm. cbn [mbind res_bind]. do 3 eexists. split; [done|]. rewrite payload_cons, H1. cbn [snd].
      rewrite ztake_app_ge by lia. rewrite Hzd, <- En. rewrite (ztake_all (zdrop poff q.2)) by lia. change (zdrop 0 (payload p)) with (payload p).
      split; [done|]. rewrite H2, zdrop_app_ge by lia. split; [f_equal; lia|]. rewrite zlen_cons, chain_len_cons.
      split_and!; try done; try lia. constructor; [|done]. split; [by apply is_bytes_drop|]. cbn. lia.
Qed.

(** ** The packet that is sent *)

(** A packet ready to go: [h] in front of [data], in the first link of the chain. *)
Record packet (h : ip_hdr) (data : list Z) (p : chain) : Prop := {
  pk_hdr : hdr_ok h; pk_plain : IPH_HL_BYTES h = IP_HLEN; pk_whole : h.(_offset) = 0;
  pk_version : IPH_V h = 4; pk_len : lwip_htons h.(_len) = IP_HLEN + zlen data; pk_sum : verifies (hdr_bytes h);
  pk_chain : chain_ok p; pk_payload : payload p = hdr_bytes h ++ data; pk_first : IP_HLEN <= zlen (first_bytes p)
}.

Lemma with_header p room : chain_ok p → IP_HLEN <= room → p ≠ [] → chain_len p <= 65515 →
  ∃ p', pbuf_add_header p room IP_HLEN (replicate 20 0) = Some p' ∧ chain_len p' = IP_HLEN + chain_len p ∧
    ∀ h, hdr_ok h → let q := match p' with q :: next => (q.1, blit 0 (hdr_bytes h) q.2) :: next | [] => [] end in
    payload q = hdr_bytes h ++ payload p ∧ chain_ok q ∧ IP_HLEN <= zlen (first_bytes q) ∧ zlen q = zlen p.
Proof.
  intros Hp Hr Hne Hl. destruct Hp as [|[a b] p [Hb Hz] Hp]; [done|]. cbn [fst snd] in *. rewrite chain_len_cons in Hl. cbn [snd] in Hl.
  assert (0 <= chain_len p) by apply zlen_nonneg. pose proof (zlen_nonneg b).
  eexists. unfold pbuf_add_header. rewrite chain_len_cons. cbn [snd fst].
  rewrite u16_small by (unfold is_u, IP_HLEN; lia). rewrite (proj2 (Z.ltb_ge (IP_HLEN + _) _)) by lia. rewrite (proj2 (Z.ltb_ge room _)) by done. cbn [orb].
  split; [reflexivity|]. split; [rewrite !chain_len_cons; cbn [snd]; rewrite zlen_app; change (zlen (replicate 20 0)) with IP_HLEN; lia|].
  intros h Hh. cbv zeta. cbn [fst snd].
  assert (blit 0 (hdr_bytes h) (replicate 20 0 ++ b) = hdr_bytes h ++ b) as -> by reflexivity.
  rewrite !payload_cons. cbn [snd first_bytes]. rewrite !zlen_cons, zlen_app. change (zlen (hdr_bytes h)) with IP_HLEN.
  split; [by rewrite app_assoc|]. split; [|split; [lia|done]]. constructor; [|done]. cbn [snd].
  rewrite zlen_app. change (zlen (hdr_bytes h)) with 20. split; [apply is_bytes_app; auto with word|lia].
Qed.

(** The identifier a datagram gets, and whether it takes one from the counter. *)
Definition small_segment (proto len : Z) : bool := (proto =? IP_PROTO_TCP) && (IP_HLEN + len <=? IP4_MIN_MTU_LENGTH).

Lemma output_packet ram room p src dest ttl tos proto n out o : chain_ok p → IP_HLEN <= room → p ≠ [] →
  chain_len p <= 65515 → is_u 32 src → is_u 32 dest → is_byte ttl → is_byte tos → is_byte proto → is_u 16 o.(ip_id) →
  src ≠ IPADDR_ANY →
  ∃ h p' o', ip4_output_if ram room p (Some src) dest ttl tos proto n out o = ip4_send ram p' n out o' ∧
    packet h (payload p) p' ∧ zlen p' = zlen p ∧
    h.(iph_src) = src ∧ h.(iph_dest) = dest ∧ h.(_proto) = proto ∧ h.(_ttl) = ttl ∧ h.(_tos) = tos ∧
    h.(_id) = lwip_htons (if small_segment proto (chain_len p) then 0 else o.(ip_id)) ∧
    o' = if small_segment proto (chain_len p) then o else o <| ip_id ::= λ i, u16 (i + 1) |>.
Proof.
  intros Hp Hr Hne Hl Hs Hd Htt Hto Hpr Hid Hany. unfold ip4_output_if. unfold ip4_addr_isany_val at 1. cbn [default option_map].
  change (default IPADDR_ANY (Some src)) with src. rewrite (proj2 (Z.eqb_neq _ _)) by done.
  unfold ip4_output_if_src. destruct (with_header p room Hp Hr Hne Hl) as (p' & -> & Hlen & Hq). rewrite Hlen.
  change (default IPADDR_ANY (Some src)) with src. fold (small_segment proto (chain_len p)).
  change (u8 ((4 .<< 4) .| (IP_HLEN ÷ 4))) with 69. set (sm := small_segment proto (chain_len p)).
  set (id := if sm then lwip_htons 0 else lwip_htons (ip_id o)). set (len := lwip_htons (IP_HLEN + chain_len p)).
  assert (0 <= chain_len p) by apply zlen_nonneg.
  assert (is_u 16 (IP_HLEN + chain_len p)) as Hul by (unfold is_u, IP_HLEN; lia).
  assert (is_u 16 id) as Hidu by (unfold id; destruct sm; [done|by apply htons_u16]).
  assert (is_u 16 len) as Hlu by by apply htons_u16.
  set (h0 := IpHdr 69 tos len id 0 ttl proto 0 src dest). assert (hdr_ok h0) as H0 by by split.
  change (inline_chksum proto ttl dest tos 69 len id src) with
    (inline_chksum h0.(_proto) h0.(_ttl) h0.(iph_dest) h0.(_tos) h0.(_v_hl) h0.(_len) h0.(_id) h0.(iph_src)).
  rewrite (inline_chksum_spec 0 h0) by done. destruct (hdr_chksum_verifies 0 h0 H0) as [H1 H2].
  change (hdr_bytes (h0 <| _chksum := 0 |>)) with (hdr_bytes h0) in H1, H2.
  change (IpHdr 69 tos len id 0 ttl proto ?c src dest) with (h0 <| _chksum := c |>).
  set (h := h0 <| _chksum := _ |>) in *. destruct (Hq h H1) as (Q1 & Q2 & Q3 & Q4). set (q := match p' with [] => [] | _ => _ end) in *.
  exists h, q, (if sm then o else o <| ip_id ::= λ i, u16 (i + 1) |>). split; [done|]. split.
  - split; try done. unfold h, h0. cbn. unfold len. by rewrite htons_twice.
  - split_and!; try done. unfold h, id. cbn. by destruct sm.
Qed.
