(* ===== verification/IpReass.v ===== *)
(** * lwip/core/ipv4/ip4_frag.c: reassembly

    The queue of datagrams that arrive in pieces. A fragment in the queue is the chain it
    came in and the range of the datagram it covers; the code keeps that range, and the
    pointer to the next fragment, in the place of the fragment's header, which nothing reads
    again: the header of the datagram is a copy of its own, written back over the first
    fragment. What the queue gives up is an event: the first fragment of an abandoned
    datagram goes into an ICMP message. *)
From Stdlib Require Import Sorted.
From stdpp Require Import sorting.
From S2P Require Import Prelude IpProbe Pbuf Netif Chksum Ip4.

Definition IP_REASS_MAXAGE : Z := 15.
Definition IP_REASS_MAX_PBUFS : Z := 10.
Definition MEMP_NUM_REASSDATA : nat := 5.

(** [struct ip_reass_helper], with the chain it lies in. *)
Record frag := Frag { fr_start : Z; fr_end : Z; fr_chain : chain }.

(** [struct ip_reassdata]; of its flags, [IP_REASS_FLAG_LASTFRAG] is the only one. *)
Record reassdata := Reass { rd_iphdr : ip_hdr; rd_p : list frag; rd_len : Z; rd_last : bool; rd_timer : Z }.

#[export] Instance reassdata_eta : Eta reassdata := λ r,
  Reass r.(rd_iphdr) r.(rd_p) r.(rd_len) r.(rd_last) r.(rd_timer).

(** The file's static variables and counters. *)
Record reass := Queue { reassdatagrams : list reassdata; ip_reass_pbufcount : Z; rs_stats : stats_proto }.

#[export] Instance reass_eta : Eta reass := λ q, Queue q.(reassdatagrams) q.(ip_reass_pbufcount) q.(rs_stats).

Definition reass_init : reass := Queue [] 0 proto_zero.

(** A message [icmp_time_exceeded] is asked to send about this packet. *)
Inductive ip_event := TimeExceeded (p : chain).

Definition chain_clen (p : chain) : Z := zlen p.

Definition IP_ADDRESSES_AND_ID_MATCH (a b : ip_hdr) : bool :=
  (a.(iph_src) =? b.(iph_src)) && (a.(iph_dest) =? b.(iph_dest)) && (a.(_id) =? b.(_id)).

(** The header written over the first twenty bytes of the payload. *)
Definition set_hdr (h : ip_hdr) (p : chain) : chain :=
  match p with q :: next => (q.1, blit 0 (hdr_bytes h) q.2) :: next | [] => [] end.

Definition pbuf_remove_header (n : Z) (p : chain) : chain :=
  match p with
  | q :: next => if zlen q.2 <? n then p else (q.1 + n, zdrop n q.2) :: next
  | [] => []
  end.

Definition frags_clen (l : list frag) : Z := foldr (λ f n, chain_clen f.(fr_chain) + n) 0 l.

(** Freeing a datagram, which leaves the list: the number of buffers freed, and the
    message about its first fragment if that had come. *)
Definition ip_reass_free_complete_datagram (r : reassdata) : Z * list ip_event :=
  (frags_clen r.(rd_p),
   match r.(rd_p) with
   | f :: _ => if f.(fr_start) =? 0 then [TimeExceeded (set_hdr r.(rd_iphdr) f.(fr_chain))] else []
   | [] => []
   end).

Fixpoint reass_tmr_loop (l : list reassdata) : list reassdata * Z * list ip_event :=
  match l with
  | [] => ([], 0, [])
  | r :: l =>
    let '(l, freed, evs) := reass_tmr_loop l in
    if r.(rd_timer) >? 0 then (r <| rd_timer ::= λ t, t - 1 |> :: l, freed, evs)
    else let '(n, e) := ip_reass_free_complete_datagram r in (l, n + freed, e ++ evs)
  end.

Definition ip_reass_tmr (q : reass) : reass * list ip_event :=
  let '(l, freed, evs) := reass_tmr_loop q.(reassdatagrams) in
  (q <| reassdatagrams := l |> <| ip_reass_pbufcount ::= λ n, u16 (n - freed) |>, evs).

(** The datagram [fraghdr] does not belong to that has been there longest: the last of
    those with the least time left. The number of such datagrams, and its index. *)
Fixpoint find_oldest (h : ip_hdr) (l : list reassdata) (i : nat) (others : Z) (oldest : option (nat * Z))
    : Z * option (nat * Z) :=
  match l with
  | [] => (others, oldest)
  | r :: l =>
    if IP_ADDRESSES_AND_ID_MATCH r.(rd_iphdr) h then find_oldest h l (S i) others oldest
    else
      let oldest := match oldest with
                    | None => Some (i, r.(rd_timer))
                    | Some (j, t) => if r.(rd_timer) <=? t then Some (i, r.(rd_timer)) else Some (j, t)
                    end in
      find_oldest h l (S i) (others + 1) oldest
  end.

(** Each round frees one datagram. *)
Fixpoint remove_oldest_loop (fuel : nat) (h : ip_hdr) (needed : Z) (q : reass) (freed : Z) (evs : list ip_event)
    : reass * Z * list ip_event :=
  match fuel with
  | O => (q, freed, evs)
  | S fuel =>
    let '(others, oldest) := find_oldest h q.(reassdatagrams) 0 0 None in
    let '(q, freed, evs) :=
      match oldest with
      | Some (i, _) =>
        match q.(reassdatagrams) !! i with
        | Some r =>
          let '(n, e) := ip_reass_free_complete_datagram r in
          (q <| reassdatagrams ::= delete i |> <| ip_reass_pbufcount ::= λ c, u16 (c - u16 n) |>, freed + u16 n, evs ++ e)
        | None => (q, freed, evs)
        end
      | None => (q, freed, evs)
      end in
    if (freed <? needed) && (others >? 1) then remove_oldest_loop fuel h needed q freed evs
    else (q, freed, evs)
  end.

Definition ip_reass_remove_oldest_datagram (h : ip_hdr) (needed : Z) (q : reass) : reass * Z * list ip_event :=
  remove_oldest_loop (S (length q.(reassdatagrams))) h needed q 0 [].

Definition frag_inc (f : stats_proto → stats_proto) (q : reass) : reass := q <| rs_stats ::= f |>.

(** The entry goes to the front of the list. *)
Definition ip_reass_enqueue_new_datagram (h : ip_hdr) (clen : Z) (q : reass) : reass * bool * list ip_event :=
  let new := Reass h [] 0 false IP_REASS_MAXAGE in
  if (length q.(reassdatagrams) <? MEMP_NUM_REASSDATA)%nat then (q <| reassdatagrams ::= cons new |>, true, [])
  else
    let '(q, freed, evs) := ip_reass_remove_oldest_datagram h clen q in
    if (freed >=? clen) && (length q.(reassdatagrams) <? MEMP_NUM_REASSDATA)%nat
    then (q <| reassdatagrams ::= cons new |>, true, evs)
    else (frag_inc (λ s, s <| st_memerr ::= STATS_INC |>) q, false, evs).

(** The walk along the fragments: the new list, whether there is no hole so far, and the
    fragments behind the new one. [None] is an overlap. *)
Fixpoint frag_insert (new : frag) (prev : option frag) (q : list frag) (valid : bool)
    : option (list frag * bool * list frag) :=
  match q with
  | [] =>
    let valid := match prev with Some iprh_prev => valid && (iprh_prev.(fr_end) =? new.(fr_start)) | None => valid end in
    Some ([new], valid, [])
  | t :: next =>
    if new.(fr_start) <? t.(fr_start) then
      match prev with
      | Some iprh_prev =>
        if (new.(fr_start) <? iprh_prev.(fr_end)) || (new.(fr_end) >? t.(fr_start)) then None
        else Some (new :: q, valid && (iprh_prev.(fr_end) =? new.(fr_start)), q)
      | None => if new.(fr_end) >? t.(fr_start) then None else Some (new :: q, valid, q)
      end
    else if new.(fr_start) =? t.(fr_start) then None
    else if new.(fr_start) <? t.(fr_end) then None
    else
      let valid := match prev with Some iprh_prev => valid && (iprh_prev.(fr_end) =? t.(fr_start)) | None => valid end in
      match frag_insert new (Some t) next valid with
      | Some (l, valid, after) => Some (t :: l, valid, after)
      | None => None
      end
  end.

Fixpoint no_holes (prev : frag) (l : list frag) : bool :=
  match l with
  | [] => true
  | f :: l => (prev.(fr_end) =? f.(fr_start)) && no_holes f l
  end.

Inductive validity := FINISHED | QUEUED | DROPPED.

#[export] Instance validity_eq_dec : EqDecision validity.
Proof. solve_decision. Defined.

(** The new list of fragments, unchanged when the new one is dropped. *)
Definition ip_reass_chain_frag_into_datagram_and_validate (r : reassdata) (new_p : chain) (is_last : bool)
    : list frag * validity :=
  let fraghdr := hdr_of (first_bytes new_p) in
  let len := lwip_htons fraghdr.(_len) in
  let hlen := IPH_HL_BYTES fraghdr in
  if hlen >? len then (r.(rd_p), DROPPED)
  else
    let len := u16 (len - hlen) in
    let offset := IPH_OFFSET_BYTES fraghdr in
    let iprh := Frag offset (u16 (offset + len)) new_p in
    if iprh.(fr_end) <? offset then (r.(rd_p), DROPPED)
    else
      match frag_insert iprh None r.(rd_p) true with
      | None => (r.(rd_p), DROPPED)
      | Some (l, valid, after) =>
        if is_last || r.(rd_last) then
          let valid := valid && match l with f :: _ => f.(fr_start) =? 0 | [] => false end && no_holes iprh after in
          (l, if valid then FINISHED else QUEUED)
        else (l, QUEUED)
      end.

(** The fragments put together under the datagram's header, at the first one's address. *)
Definition assemble (r : reassdata) (l : list frag) : chain :=
  match l with
  | f :: l =>
    let len := u16 (r.(rd_len) + IP_HLEN) in
    let h := r.(rd_iphdr) <| _len := lwip_htons len |> <| _offset := 0 |> <| _chksum := 0 |> in
    let a := match f.(fr_chain) with q :: _ => q.1 | [] => 0 end in
    let h := h <| _chksum := inet_chksum a (hdr_bytes h) |> in
    set_hdr h f.(fr_chain) ++ concat ((λ f, pbuf_remove_header IP_HLEN f.(fr_chain)) <$> l)
  | [] => []
  end.

Definition reass_drop (q : reass) : reass := frag_inc (λ s, s <| st_drop ::= STATS_INC |>) q.

(** The entry [i] of the list has been found or made. *)
Definition reass_into (p : chain) (i : nat) (r : reassdata) (clen : Z) (q : reass) : reass * option chain :=
  let fraghdr := hdr_of (first_bytes p) in
  let offset := IPH_OFFSET_BYTES fraghdr in
  let len := u16 (lwip_htons fraghdr.(_len) - IPH_HL_BYTES fraghdr) in
  let is_last := (fraghdr.(_offset) .& lwip_htons IP_MF) =? 0 in
  let datagram_len := u16 (offset + len) in
  let nullreturn_ipr :=
    match r.(rd_p) with
    | [] => reass_drop (q <| reassdatagrams ::= delete i |>)
    | _ => reass_drop (q <| reassdatagrams ::= <[i := r]> |>)
    end in
  if is_last && ((datagram_len <? offset) || (datagram_len >? 0xFFFF - IP_HLEN)) then (nullreturn_ipr, None)
  else
    match ip_reass_chain_frag_into_datagram_and_validate r p is_last with
    | (_, DROPPED) => (nullreturn_ipr, None)
    | (l, v) =>
      let q := q <| ip_reass_pbufcount ::= λ n, u16 (n + clen) |> in
      let r := if is_last then r <| rd_len := datagram_len |> <| rd_last := true |> else r in
      match v with
      | FINISHED =>
        let d := assemble r l in
        (q <| reassdatagrams ::= delete i |> <| ip_reass_pbufcount ::= λ n, u16 (n - chain_clen d) |>, Some d)
      | _ => (q <| reassdatagrams ::= <[i := r <| rd_p := l |>]> |>, None)
      end
    end.

Fixpoint find_datagram (h : ip_hdr) (l : list reassdata) (i : nat) : option (nat * reassdata) :=
  match l with
  | [] => None
  | r :: l => if IP_ADDRESSES_AND_ID_MATCH r.(rd_iphdr) h then Some (i, r) else find_datagram h l (S i)
  end.

(** The datagram, when this fragment completes it; otherwise the fragment is kept or freed. *)
Definition ip4_reass (p : chain) (q : reass) : reass * option chain * list ip_event :=
  let q := frag_inc (λ s, s <| st_recv ::= STATS_INC |>) q in
  let fraghdr := hdr_of (first_bytes p) in
  if negb (IPH_HL_BYTES fraghdr =? IP_HLEN) then (reass_drop (frag_inc (λ s, s <| st_err ::= STATS_INC |>) q), None, [])
  else if IPH_HL_BYTES fraghdr >? lwip_htons fraghdr.(_len) then (reass_drop q, None, [])
  else
    let clen := chain_clen p in
    let '(q, room, evs) :=
      if q.(ip_reass_pbufcount) + clen >? IP_REASS_MAX_PBUFS then
        let '(q, freed, evs) := ip_reass_remove_oldest_datagram fraghdr clen q in
        (q, negb (freed =? 0) && (q.(ip_reass_pbufcount) + clen <=? IP_REASS_MAX_PBUFS), evs)
      else (q, true, []) in
    if negb room then (reass_drop (frag_inc (λ s, s <| st_memerr ::= STATS_INC |>) q), None, evs)
    else
      match find_datagram fraghdr q.(reassdatagrams) 0 with
      | Some (i, r) =>
        let q := frag_inc (λ s, s <| st_cachehit ::= STATS_INC |>) q in
        let first := (lwip_htons fraghdr.(_offset) .& IP_OFFMASK =? 0) &&
                     negb (lwip_htons r.(rd_iphdr).(_offset) .& IP_OFFMASK =? 0) in
        let r := if first then r <| rd_iphdr := fraghdr |> else r in
        let '(q, d) := reass_into p i r clen q in (q, d, evs)
      | None =>
        let '(q, ok, evs') := ip_reass_enqueue_new_datagram fraghdr clen q in
        if ok then
          let '(q, d) := reass_into p 0 (Reass fraghdr [] 0 false IP_REASS_MAXAGE) clen q in (q, d, evs ++ evs')
        else (reass_drop q, None, evs ++ evs')
      end.

(** ** The walk *)

Definition contig (l : list frag) : bool := match l with [] => true | f :: l => no_holes f l end.

Definition link_to (prev : option frag) (f : frag) : bool :=
  match prev with Some p => p.(fr_end) =? f.(fr_start) | None => true end.

Definition from (prev : option frag) (l : list frag) : bool :=
  match l with [] => true | f :: l => link_to prev f && no_holes f l end.

Lemma from_none l : from None l = contig l.
Proof. by destruct l. Qed.

Lemma no_holes_app f l g r : no_holes f (l ++ g :: r) = no_holes f (l ++ [g]) && no_holes g r.
Proof.
  revert f. induction l as [|h l IH]; intros f; cbn; [by rewrite andb_true_r|]. by rewrite IH, andb_assoc.
Qed.

Lemma contig_app l g r : contig (l ++ g :: r) = contig (l ++ [g]) && no_holes g r.
Proof. destruct l as [|f l]; cbn; [done|]. apply no_holes_app. Qed.

(** Between fragments that lie before it and fragments that lie after it. *)
Definition before (t f : frag) : Prop := t.(fr_start) < f.(fr_start) ∧ t.(fr_end) <= f.(fr_start).

Lemma frag_insert_between f prev l r valid : Forall (λ t, before t f) l → Forall (λ t, before f t) r →
  (∀ p, prev = Some p → before p f) →
  frag_insert f prev (l ++ r) valid = Some (l ++ f :: r, valid && from prev (l ++ [f]), r).
Proof.
  revert prev valid. induction l as [|t l IH]; intros prev valid Hl Hr Hp.
  - cbn [app from no_holes]. rewrite andb_true_r. destruct r as [|g r]; cbn [frag_insert].
    { destruct prev; cbn [link_to]; by rewrite ?andb_true_r. }
    inversion_clear Hr as [|?? [Hs He] _]. rewrite (proj2 (Z.ltb_lt _ _)) by done.
    rewrite Z.gtb_ltb, (proj2 (Z.ltb_ge _ _)) by done.
    destruct prev as [p|]; cbn [link_to]; [|by rewrite andb_true_r].
    destruct (Hp p eq_refl) as [_ Hpe]. by rewrite (proj2 (Z.ltb_ge _ _)).
  - inversion_clear Hl as [|?? [Hs He] Hl']. cbn [app frag_insert].
    rewrite (proj2 (Z.ltb_ge _ _)), (proj2 (Z.eqb_neq _ _)), (proj2 (Z.ltb_ge _ _)) by lia.
    rewrite IH by (done || by intros ? [= <-]). do 3 f_equal.
    cbn [from]. unfold from. destruct (l ++ [f]) as [|g k] eqn:E; [by destruct l|]. cbn [no_holes link_to].
    destruct prev; cbn [link_to]; by rewrite ?andb_true_r, <- ?andb_assoc.
Qed.

(** Whatever the walk accepts keeps the fragments in order and apart. *)
Definition range (f : frag) : Prop := 0 <= f.(fr_start) <= f.(fr_end) ∧ f.(fr_chain) ≠ [].

Lemma frag_insert_sorted f prev l valid l' v r : range f → Forall range l → StronglySorted before l →
  (∀ p, prev = Some p → before p f) →
  frag_insert f prev l valid = Some (l', v, r) → StronglySorted before l' ∧ l' ≡ₚ f :: l.
Proof.
  intros Hf. revert prev valid l' v r. induction l as [|t l IH]; intros prev valid l' v r Hl Hs Hp; cbn [frag_insert].
  { intros [= <- _ _]. split; [|done]. repeat constructor. }
  inversion_clear Hl as [|?? Ht Hl']. inversion_clear Hs as [|?? Hs' Hall].
  assert (∀ x : frag, before f t → before t x → before f x) as Htrans by (unfold before; intros; destruct Ht as [[] _]; lia).
  destruct (Z.ltb_spec f.(fr_start) t.(fr_start)) as [H1|H1].
  - assert (fr_end f <= fr_start t → StronglySorted before (f :: t :: l)) as Hok.
    { intros He. constructor; [by constructor|]. constructor; [done|].
      eapply Forall_impl; [exact Hall|]. intros x Hx. by apply Htrans. }
    destruct prev as [p|].
    + destruct (_ || _) eqn:E; [done|]. apply orb_false_iff in E as [_ E]. rewrite Z.gtb_ltb in E. apply Z.ltb_ge in E.
      intros [= <- _ _]. by split; [apply Hok|].
    + rewrite Z.gtb_ltb. destruct (Z.ltb_spec t.(fr_start) f.(fr_end)); [done|]. intros [= <- _ _]. by split; [apply Hok|].
  - destruct (Z.eqb_spec f.(fr_start) t.(fr_start)); [done|].
    destruct (Z.ltb_spec f.(fr_start) t.(fr_end)); [done|].
    assert (before t f) as Htf by (split; lia).
    destruct (frag_insert f (Some t) l _) as [[[l1 v1] r1]|] eqn:E; [|done]. intros [= <- _ _].
    assert (∀ p, Some t = Some p → before p f) as Hp' by (intros p Hx; by injection Hx as <-).
    destruct (IH _ _ _ _ _ Hl' Hs' Hp' E) as [Hs1 Hp1].
    split; [|rewrite Hp1; apply Permutation_swap]. constructor; [done|]. rewrite Hp1. by constructor.
Qed.

(** ** The queue's invariant *)

Definition key (r : reassdata) : Z * Z * Z := (r.(rd_iphdr).(iph_src), r.(rd_iphdr).(iph_dest), r.(rd_iphdr).(_id)).
Definition queued (l : list reassdata) : Z := foldr (λ r n, frags_clen r.(rd_p) + n) 0 l.

Record entry_ok (r : reassdata) : Prop := {
  eo_range : Forall range r.(rd_p); eo_sorted : StronglySorted before r.(rd_p);
  eo_timer : 0 <= r.(rd_timer) <= IP_REASS_MAXAGE
}.

(** At most five datagrams, no two of them the same; each one's fragments in order and
    apart; ten buffers at most, and the counter is their number. *)
Record queue_ok (q : reass) : Prop := {
  qo_few : (length q.(reassdatagrams) <= MEMP_NUM_REASSDATA)%nat;
  qo_entries : Forall entry_ok q.(reassdatagrams);
  qo_keys : NoDup (key <$> q.(reassdatagrams));
  qo_count : q.(ip_reass_pbufcount) = queued q.(reassdatagrams);
  qo_bound : q.(ip_reass_pbufcount) <= IP_REASS_MAX_PBUFS
}.

Definition reass_wf (q : reass) : Prop := queue_ok q ∧ Forall (λ r, r.(rd_p) ≠ []) q.(reassdatagrams).

Lemma frags_clen_cons f l : frags_clen (f :: l) = chain_clen f.(fr_chain) + frags_clen l.
Proof. done. Qed.
Lemma queued_cons r l : queued (r :: l) = frags_clen r.(rd_p) + queued l.
Proof. done. Qed.

Lemma frags_clen_nonneg l : 0 <= frags_clen l.
Proof. induction l as [|f l IH]; [done|]. rewrite frags_clen_cons. pose proof (zlen_nonneg f.(fr_chain)). unfold chain_clen. lia. Qed.

Lemma frags_clen_perm l k : l ≡ₚ k → frags_clen l = frags_clen k.
Proof. induction 1; rewrite ?frags_clen_cons; lia. Qed.

Lemma frags_clen_app l k : frags_clen (l ++ k) = frags_clen l + frags_clen k.
Proof. induction l; cbn [app]; [done|]. rewrite !frags_clen_cons. lia. Qed.

Lemma queued_nonneg l : 0 <= queued l.
Proof. induction l as [|r l IH]; [done|]. rewrite queued_cons. pose proof (frags_clen_nonneg r.(rd_p)). lia. Qed.

Lemma queued_app l k : queued (l ++ k) = queued l + queued k.
Proof. induction l; cbn [app]; [done|]. rewrite !queued_cons. lia. Qed.

Lemma queued_delete l i r : l !! i = Some r → queued (delete i l) = queued l - frags_clen r.(rd_p).
Proof.
  intros Hi. rewrite <- (take_drop_middle l i r Hi) at 2. rewrite delete_take_drop, !queued_app, queued_cons. lia.
Qed.

Lemma queued_insert l i r r' : l !! i = Some r →
  queued (<[i := r']> l) = queued l - frags_clen r.(rd_p) + frags_clen r'.(rd_p).
Proof.
  intros Hi. rewrite <- (take_drop_middle l i r Hi) at 2.
  rewrite insert_take_drop by by eapply lookup_lt_Some. rewrite !queued_app, !queued_cons. lia.
Qed.

Lemma queued_lookup l i r : l !! i = Some r → frags_clen r.(rd_p) <= queued l.
Proof. intros Hi. pose proof (queued_delete l i r Hi). pose proof (queued_nonneg (delete i l)). lia. Qed.

Lemma delete_sub {A} (P : A → Prop) i (l : list A) : Forall P l → Forall P (delete i l).
Proof. intros Hl. rewrite delete_take_drop. apply Forall_app. split; [by apply Forall_take|by apply Forall_drop]. Qed.

Lemma delete_keys i l : NoDup (key <$> l) → NoDup (key <$> delete i l).
Proof.
  intros Hl. eapply sublist_NoDup; [exact Hl|]. rewrite list_fmap_delete. apply sublist_delete.
Qed.

(** Counter and list together. *)
Lemma queue_delete q i r : queue_ok q → q.(reassdatagrams) !! i = Some r →
  queue_ok (q <| reassdatagrams ::= delete i |> <| ip_reass_pbufcount ::= λ c, u16 (c - u16 (frags_clen r.(rd_p))) |>) ∧
  u16 (q.(ip_reass_pbufcount) - u16 (frags_clen r.(rd_p))) <= q.(ip_reass_pbufcount).
Proof.
  intros [Hf He Hk Hc Hb] Hi. pose proof (queued_lookup _ _ _ Hi). pose proof (frags_clen_nonneg r.(rd_p)).
  unfold IP_REASS_MAX_PBUFS in *. rewrite (u16_small (frags_clen _)) by (unfold is_u; lia).
  rewrite u16_small by (unfold is_u; lia). split; [|lia].
  change (queue_ok (Queue (delete i q.(reassdatagrams)) (u16 (q.(ip_reass_pbufcount) - frags_clen r.(rd_p))) q.(rs_stats))).
  rewrite u16_small by (unfold is_u; lia). split; cbn [reassdatagrams ip_reass_pbufcount].
  - etransitivity; [|exact Hf]. apply sublist_length, sublist_delete.
  - by apply delete_sub.
  - by apply delete_keys.
  - rewrite (queued_delete _ _ _ Hi). lia.
  - unfold IP_REASS_MAX_PBUFS. lia.
Qed.

Lemma frag_inc_ok f q : queue_ok q → queue_ok (frag_inc f q).
Proof. by intros []. Qed.

Lemma frag_inc_wf f q : reass_wf q → reass_wf (frag_inc f q).
Proof. intros [[] ?]. by split. Qed.

Lemma remove_oldest_wf h needed q : reass_wf q →
  let '(q', freed, _) := ip_reass_remove_oldest_datagram h needed q in
  reass_wf q' ∧ q'.(ip_reass_pbufcount) <= q.(ip_reass_pbufcount).
Proof.
  unfold ip_reass_remove_oldest_datagram. generalize (S (length (reassdatagrams q))), 0, (@nil ip_event).
  intros fuel. revert q. induction fuel as [|fuel IH]; intros q freed evs Hq; cbn [remove_oldest_loop]; [done|].
  destruct (find_oldest h (reassdatagrams q) 0 0 None) as [others oldest].
  assert (∀ q1 freed1 evs1, reass_wf q1 ∧ ip_reass_pbufcount q1 <= ip_reass_pbufcount q →
    let '(q', _, _) := if (freed1 <? needed) && (others >? 1) then remove_oldest_loop fuel h needed q1 freed1 evs1 else (q1, freed1, evs1) in
    reass_wf q' ∧ ip_reass_pbufcount q' <= ip_reass_pbufcount q) as Hgo.
  { intros q1 freed1 evs1 [H1 H2]. destruct (_ && _); [|done]. specialize (IH q1 freed1 evs1 H1).
    destruct (remove_oldest_loop fuel h needed q1 freed1 evs1) as [[q' ?] ?]. split; [tauto|]. destruct IH. lia. }
  destruct oldest as [[i t]|]; [|apply Hgo; done].
  destruct (reassdatagrams q !! i) as [r|] eqn:Ei; [|apply Hgo; done]. cbn [ip_reass_free_complete_datagram].
  apply Hgo. destruct Hq as [Hq Hn]. destruct (queue_delete q i r Hq Ei) as [H1 H2]. split; [split; [done|]|done].
  by apply delete_sub.
Qed.

#[local] Arguments queued : simpl never.
#[local] Arguments frags_clen : simpl never.

Lemma match_key a b h t : IP_ADDRESSES_AND_ID_MATCH a h = true ↔
  key (Reass a b t false 0) = (h.(iph_src), h.(iph_dest), h.(_id)).
Proof.
  unfold IP_ADDRESSES_AND_ID_MATCH, key. cbn. rewrite !andb_true_iff, !Z.eqb_eq. split; [by intros [[-> ->] ->]|].
  by intros [= -> -> ->].
Qed.

Lemma match_spec r h : IP_ADDRESSES_AND_ID_MATCH r.(rd_iphdr) h = true ↔ key r = (h.(iph_src), h.(iph_dest), h.(_id)).
Proof. apply (match_key r.(rd_iphdr) [] h 0). Qed.

Lemma find_datagram_spec h l i :
  match find_datagram h l i with
  | Some (j, r) => (i <= j)%nat ∧ l !! (j - i)%nat = Some r ∧ key r = (h.(iph_src), h.(iph_dest), h.(_id))
  | None => (h.(iph_src), h.(iph_dest), h.(_id)) ∉ key <$> l
  end.
Proof.
  revert i. induction l as [|r l IH]; intros i; cbn [find_datagram]; [by apply not_elem_of_nil|].
  destruct (IP_ADDRESSES_AND_ID_MATCH _ _) eqn:E.
  - apply match_spec in E. rewrite Nat.sub_diag. done.
  - specialize (IH (S i)). destruct (find_datagram h l (S i)) as [[j r']|].
    + destruct IH as (Hj & Hl & Hk). split; [lia|]. split; [|done]. by replace (j - i)%nat with (S (j - S i)) by lia.
    + rewrite fmap_cons. apply not_elem_of_cons. split; [|done]. intros Hk. symmetry in Hk. apply match_spec in Hk. congruence.
Qed.

(** What leaves the list by age is never of the datagram at hand, so a new key stays new. *)
Lemma remove_oldest_keys h needed q k : k ∉ key <$> q.(reassdatagrams) →
  k ∉ key <$> (ip_reass_remove_oldest_datagram h needed q).1.1.(reassdatagrams).
Proof.
  unfold ip_reass_remove_oldest_datagram. generalize (S (length (reassdatagrams q))), 0, (@nil ip_event).
  intros fuel. revert q. induction fuel as [|fuel IH]; intros q freed evs Hq; cbn [remove_oldest_loop]; [done|].
  destruct (find_oldest h (reassdatagrams q) 0 0 None) as [others [[i t]|]].
  2:{ destruct (_ && _); [by apply IH|done]. }
  destruct (reassdatagrams q !! i) as [r|] eqn:Ei; cbn [ip_reass_free_complete_datagram].
  2:{ destruct (_ && _); [by apply IH|done]. }
  assert (k ∉ key <$> delete i q.(reassdatagrams)) as Hd.
  { rewrite list_fmap_delete. intros Hin. by apply Hq, (list_elem_of_delete_inv _ i). }
  destruct (_ && _); [by apply IH|done].
Qed.

Lemma enqueue_wf h clen q : reass_wf q → (h.(iph_src), h.(iph_dest), h.(_id)) ∉ key <$> q.(reassdatagrams) →
  let '(q', ok, _) := ip_reass_enqueue_new_datagram h clen q in
  q'.(ip_reass_pbufcount) <= q.(ip_reass_pbufcount) ∧
  if ok then ∃ q1, reass_wf q1 ∧ q' = q1 <| reassdatagrams ::= cons (Reass h [] 0 false IP_REASS_MAXAGE) |> ∧
               (length q1.(reassdatagrams) < MEMP_NUM_REASSDATA)%nat ∧
               (h.(iph_src), h.(iph_dest), h.(_id)) ∉ key <$> q1.(reassdatagrams)
  else reass_wf q'.
Proof.
  intros Hq Hk. unfold ip_reass_enqueue_new_datagram.
  destruct (Nat.ltb_spec (length (reassdatagrams q)) MEMP_NUM_REASSDATA) as [Hl|Hl].
  { split; [cbn; lia|]. by exists q. }
  pose proof (remove_oldest_wf h clen q Hq) as Hw. pose proof (remove_oldest_keys h clen q _ Hk) as Hk2.
  destruct (ip_reass_remove_oldest_datagram h clen q) as [[q1 freed] evs]. destruct Hw as [Hw Hc]. cbn [fst] in Hk2.
  destruct (freed >=? clen), (Nat.ltb_spec (length (reassdatagrams q1)) MEMP_NUM_REASSDATA); cbn [andb]; (split; [exact Hc|]).
  1: by exists q1. all: by apply frag_inc_wf.
Qed.

(** The entry at [i] replaced by one that holds [c] buffers more. *)
Lemma queue_insert q i r r' n : queue_ok q → q.(reassdatagrams) !! i = Some r → entry_ok r' → key r' = key r →
  n = q.(ip_reass_pbufcount) - frags_clen r.(rd_p) + frags_clen r'.(rd_p) → n <= IP_REASS_MAX_PBUFS →
  queue_ok (Queue (<[i := r']> q.(reassdatagrams)) n q.(rs_stats)).
Proof.
  intros [Hf He Hk Hc Hb] Hi Hr Hkey Hn Hle. split; cbn [reassdatagrams ip_reass_pbufcount].
  - by rewrite length_insert.
  - by apply Forall_insert.
  - rewrite list_fmap_insert, Hkey, list_insert_id; [done|]. by rewrite list_lookup_fmap, Hi.
  - rewrite (queued_insert _ _ _ _ Hi). lia.
  - done.
Qed.

(** Every entry but the one at [i] holds a fragment. *)
Definition others_full (i : nat) (l : list reassdata) : Prop := ∀ j r, l !! j = Some r → j ≠ i → r.(rd_p) ≠ [].

Lemma others_delete i l : others_full i l → Forall (λ r, r.(rd_p) ≠ []) (delete i l).
Proof.
  intros H. apply Forall_lookup_2. intros j r Hj. destruct (Nat.lt_ge_cases j i).
  - rewrite list_lookup_delete_lt in Hj by done. eapply H; [exact Hj|lia].
  - rewrite list_lookup_delete_ge in Hj by done. eapply H; [exact Hj|lia].
Qed.

Lemma others_insert i l r : others_full i l → r.(rd_p) ≠ [] → Forall (λ r, r.(rd_p) ≠ []) (<[i := r]> l).
Proof.
  intros H Hr. apply Forall_lookup_2. intros j r' Hj. destruct (Nat.eq_dec i j) as [<-|Hne].
  - destruct (Nat.lt_ge_cases i (length l)) as [Hl|Hl].
    + rewrite list_lookup_insert_eq in Hj by done. by injection Hj as <-.
    + rewrite list_insert_ge in Hj by done. apply lookup_lt_Some in Hj. lia.
  - rewrite list_lookup_insert_ne in Hj by done. eapply H; [exact Hj|done].
Qed.

Lemma length_set_hdr h p : length (set_hdr h p) = length p.
Proof. by destruct p. Qed.

Lemma length_remove_header n p : length (pbuf_remove_header n p) = length p.
Proof. destruct p as [|q p]; [done|]. cbn. by case_match. Qed.

Lemma assemble_clen r l : chain_clen (assemble r l) = frags_clen l.
Proof.
  destruct l as [|f l]; [done|]. unfold assemble, chain_clen. rewrite frags_clen_cons, zlen_app.
  unfold chain_clen. f_equal; [unfold zlen; by rewrite length_set_hdr|].
  induction l as [|g l IH]; [done|]. rewrite fmap_cons, frags_clen_cons. cbn [concat]. rewrite zlen_app, IH.
  unfold chain_clen, zlen. by rewrite length_remove_header.
Qed.

(** The verdict on a fragment: the list is unchanged, or it is the old one with the fragment in its place. *)
Lemma chain_frag_spec r p last : p ≠ [] → Forall range r.(rd_p) → StronglySorted before r.(rd_p) →
  let '(l, v) := ip_reass_chain_frag_into_datagram_and_validate r p last in
  if decide (v = DROPPED) then l = r.(rd_p)
  else ∃ f, range f ∧ f.(fr_chain) = p ∧ l ≡ₚ f :: r.(rd_p) ∧ StronglySorted before l.
Proof.
  intros Hp Hr Hs. unfold ip_reass_chain_frag_into_datagram_and_validate.
  destruct (_ >? _); [done|]. set (f := Frag _ _ p). destruct (Z.ltb_spec (fr_end f) (IPH_OFFSET_BYTES (hdr_of (first_bytes p)))) as [|Hle]; [done|].
  assert (range f) as Hf.
  { split; [|done]. split; [|done]. pose proof (u16_bound ((lwip_htons (_offset (hdr_of (first_bytes p))) .& IP_OFFMASK) * 8)) as [Hb _].
    exact Hb. }
  destruct (frag_insert f None (rd_p r) true) as [[[l v] after]|] eqn:E; [|done].
  destruct (frag_insert_sorted f None (rd_p r) true l v after Hf Hr Hs ltac:(done) E) as [Hs' Hp'].
  destruct (last || rd_last r); [destruct (_ && _ && _)|]; (rewrite decide_False by done; by exists f).
Qed.

Lemma reass_into_wf p i r r0 q : p ≠ [] → queue_ok q → others_full i q.(reassdatagrams) →
  q.(reassdatagrams) !! i = Some r0 → key r = key r0 → rd_p r = rd_p r0 → rd_timer r = rd_timer r0 →
  q.(ip_reass_pbufcount) + chain_clen p <= IP_REASS_MAX_PBUFS →
  reass_wf (reass_into p i r (chain_clen p) q).1.
Proof.
  intros Hp Hq Ho Hi Hk Hrp Hrt Hroom. pose proof (Forall_lookup_1 _ _ _ _ (qo_entries _ Hq) Hi) as [Hr Hs Ht].
  assert (0 < chain_clen p) as Hpos by (destruct p as [|? k]; [done|unfold chain_clen; rewrite zlen_cons; pose proof (zlen_nonneg k); lia]).
  pose proof (queued_lookup _ _ _ Hi) as Hql. pose proof (frags_clen_nonneg (rd_p r0)). pose proof (qo_count _ Hq) as Hcnt.
  unfold IP_REASS_MAX_PBUFS in Hroom.
  assert (∀ q', reassdatagrams q' = delete i (reassdatagrams q) → ip_reass_pbufcount q' = ip_reass_pbufcount q - frags_clen (rd_p r0) →
    reass_wf q') as Hdel.
  { intros [l n s] Hl Hn. cbn in Hl, Hn. subst l n. split; [|by apply others_delete].
    destruct (queue_delete q i r0 Hq Hi) as [[Hd1 Hd2 Hd3 Hd4 Hd5] _]. split; try done; cbn [reassdatagrams ip_reass_pbufcount].
    - rewrite (queued_delete _ _ _ Hi). lia.
    - unfold IP_REASS_MAX_PBUFS. lia. }
  assert (∀ q' r', reassdatagrams q' = <[i := r']> (reassdatagrams q) → entry_ok r' → key r' = key r0 → rd_p r' ≠ [] →
    ip_reass_pbufcount q' = ip_reass_pbufcount q - frags_clen (rd_p r0) + frags_clen (rd_p r') →
    ip_reass_pbufcount q' <= 10 → reass_wf q') as Hins.
  { intros [l n s] r' Hl Hr' Hk' Hne Hn Hb. cbn in Hl, Hn, Hb. subst l. split; [|by apply others_insert].
    pose proof (queue_insert q i r0 r' n Hq Hi Hr' Hk' Hn Hb) as []. by split. }
  assert (entry_ok r) as Hrok by (split; [by rewrite Hrp..|by rewrite Hrt]).
  unfold reass_into. set (nullreturn_ipr := match rd_p r with [] => _ | _ => _ end).
  assert (reass_wf nullreturn_ipr) as Hnull.
  { unfold nullreturn_ipr. destruct (rd_p r) as [|f l] eqn:E.
    - apply Hdel; [done|]. rewrite <- Hrp. change (frags_clen []) with 0. cbn. lia.
    - eapply Hins; [done|exact Hrok|done|by rewrite E|rewrite <- Hrp, E; cbn; lia|cbn; lia]. }
  clearbody nullreturn_ipr. destruct (_ && _); [done|].
  pose proof (chain_frag_spec r p ((_offset (hdr_of (first_bytes p)) .& lwip_htons IP_MF) =? 0) Hp
    ltac:(by rewrite Hrp) ltac:(by rewrite Hrp)) as Hv.
  set (last := _ =? 0) in *. clearbody last.
  destruct (ip_reass_chain_frag_into_datagram_and_validate r p last) as [l v].
  destruct (decide (v = DROPPED)) as [->|Hne]; [done|]. destruct Hv as (f & Hf & Hfp & Hperm & Hsort).
  assert (frags_clen l = frags_clen (rd_p r0) + chain_clen p) as Hlen.
  { rewrite (frags_clen_perm _ _ Hperm), frags_clen_cons, Hfp, Hrp. lia. }
  assert (l ≠ []) as Hl by (intros ->; by apply Permutation_nil_cons in Hperm).
  assert (Forall range l) as Hrl by (rewrite Hperm; constructor; [done|by rewrite Hrp]).
  set (r1 := if last then _ else r).
  assert (entry_ok (r1 <| rd_p := l |>)) as Hr1 by (unfold r1; destruct last; split; try done; cbn; by rewrite Hrt).
  assert (key (r1 <| rd_p := l |>) = key r0) as Hk1 by (unfold r1; by destruct last).
  assert (u16 (ip_reass_pbufcount q + chain_clen p) = ip_reass_pbufcount q + chain_clen p) as Hu by (apply u16_small; unfold is_u; lia).
  destruct v; [|eapply Hins; [done|exact Hr1|done|done|cbn; rewrite Hu; cbn; lia|cbn; lia]|done].
  apply Hdel; [done|]. cbn. rewrite Hu, assemble_clen, Hlen. rewrite u16_small; unfold is_u; lia.
Qed.

Lemma full_others i l : Forall (λ r, r.(rd_p) ≠ []) l → others_full i l.
Proof. intros Hl j r Hj _. by eapply (Forall_lookup_1 (λ r, r.(rd_p) ≠ [])). Qed.

Lemma ip4_reass_wf p q : p ≠ [] → reass_wf q → reass_wf (ip4_reass p q).1.1.
Proof.
  intros Hp Hq. unfold ip4_reass. set (q1 := frag_inc _ q).
  assert (reass_wf q1) as Hq1 by by apply frag_inc_wf. clearbody q1. clear Hq q.
  set (h := hdr_of (first_bytes p)).
  destruct (negb _); [by repeat apply frag_inc_wf|]. destruct (_ >? _); [by repeat apply frag_inc_wf|]. cbv zeta.
  assert (∀ q2 room evs, reass_wf q2 → (room = true → q2.(ip_reass_pbufcount) + chain_clen p <= IP_REASS_MAX_PBUFS) →
    reass_wf (if negb room then (reass_drop (frag_inc (λ s, s <| st_memerr ::= STATS_INC |>) q2), None, evs)
      else match find_datagram h q2.(reassdatagrams) 0 with
      | Some (i, r) =>
        let q := frag_inc (λ s, s <| st_cachehit ::= STATS_INC |>) q2 in
        let first := (lwip_htons h.(_offset) .& IP_OFFMASK =? 0) &&
                     negb (lwip_htons r.(rd_iphdr).(_offset) .& IP_OFFMASK =? 0) in
        let r := if first then r <| rd_iphdr := h |> else r in
        let '(q, d) := reass_into p i r (chain_clen p) q in (q, d, evs)
      | None =>
        let '(q, ok, evs') := ip_reass_enqueue_new_datagram h (chain_clen p) q2 in
        if ok then
          let '(q, d) := reass_into p 0 (Reass h [] 0 false IP_REASS_MAXAGE) (chain_clen p) q in (q, d, evs ++ evs')
        else (reass_drop q, None, evs ++ evs')
      end : reass * option chain * list ip_event).1.1) as Hgo.
  { intros q2 room evs Hq2 Hroom. destruct room; cbn [negb]; [|by repeat apply frag_inc_wf]. specialize (Hroom eq_refl).
    pose proof (find_datagram_spec h (reassdatagrams q2) 0) as Hf.
    destruct (find_datagram h (reassdatagrams q2) 0) as [[i r]|].
    - destruct Hf as (_ & Hi & Hk). rewrite Nat.sub_0_r in Hi. set (q3 := frag_inc _ q2). cbv zeta.
      assert (reass_wf q3) as [Hq3 Hfull] by by apply frag_inc_wf.
      assert (reassdatagrams q3 !! i = Some r) as Hi3 by done.
      set (r' := if _ && _ then r <| rd_iphdr := h |> else r).
      assert (key r' = key r ∧ rd_p r' = rd_p r ∧ rd_timer r' = rd_timer r) as (H1 & H2 & H3).
      { unfold r'. destruct (_ && _); [|done]. split; [|done]. rewrite Hk. done. }
      pose proof (reass_into_wf p i r' r q3 Hp Hq3 (full_others i _ Hfull) Hi3 H1 H2 H3 Hroom) as Hw.
      by destruct (reass_into p i r' (chain_clen p) q3).
    - pose proof (enqueue_wf h (chain_clen p) q2 Hq2 Hf) as He.
      destruct (ip_reass_enqueue_new_datagram h (chain_clen p) q2) as [[q3 ok] evs']. destruct He as [Hc He].
      destruct ok; [|by apply frag_inc_wf]. destruct He as (q4 & [[H1 H2 H3 H4 H5] Hfull] & -> & Hl & Hk).
      set (r := Reass h [] 0 false IP_REASS_MAXAGE). set (q5 := q4 <| reassdatagrams ::= cons r |>) in *.
      assert (queue_ok q5) as Hq5.
      { split.
        - cbn. unfold MEMP_NUM_REASSDATA in *. lia.
        - constructor; [|done]. split; [constructor|constructor|]. cbn. unfold IP_REASS_MAXAGE. lia.
        - cbn. by constructor.
        - cbn. rewrite queued_cons, H4. done.
        - done. }
      assert (others_full 0 (reassdatagrams q5)) as Ho.
      { intros [|j] r' Hj Hne; [done|]. exact (Forall_lookup_1 _ _ j r' Hfull Hj). }
      pose proof (reass_into_wf p 0 r r q5 Hp Hq5 Ho eq_refl eq_refl eq_refl eq_refl) as Hw.
      destruct (reass_into p 0 r (chain_clen p) q5). apply Hw. change (ip_reass_pbufcount q5 <= ip_reass_pbufcount q2) in Hc. lia. }
  destruct (Z.gtb_spec (ip_reass_pbufcount q1 + chain_clen p) IP_REASS_MAX_PBUFS) as [Hg|Hg]; [|by apply Hgo].
  pose proof (remove_oldest_wf h (chain_clen p) q1 Hq1) as Hw.
  destruct (ip_reass_remove_oldest_datagram h (chain_clen p) q1) as [[q2 freed] evs]. destruct Hw as [Hw _].
  apply Hgo; [done|]. intros E. apply andb_true_iff in E as [_ E]. by apply Z.leb_le in E.
Qed.

Lemma tmr_loop_spec l : Forall entry_ok l → Forall (λ r, r.(rd_p) ≠ []) l → NoDup (key <$> l) →
  let '(l', freed, _) := reass_tmr_loop l in
  Forall entry_ok l' ∧ Forall (λ r, r.(rd_p) ≠ []) l' ∧ NoDup (key <$> l') ∧ (∀ k, k ∈ key <$> l' → k ∈ key <$> l) ∧
  (length l' <= length l)%nat ∧ queued l' + freed = queued l ∧ 0 <= freed.
Proof.
  induction l as [|r l IH]; intros He Hn Hk; cbn [reass_tmr_loop].
  { split_and!; try done. }
  inversion_clear He as [|?? Hr He']. inversion_clear Hn as [|?? Hr2 Hn']. rewrite fmap_cons in Hk.
  apply NoDup_cons in Hk as [Hk1 Hk2]. specialize (IH He' Hn' Hk2). destruct (reass_tmr_loop l) as [[l' freed] evs].
  destruct IH as (H1 & H2 & H3 & H4 & H5 & H6 & H7). rewrite Z.gtb_ltb, queued_cons.
  destruct (Z.ltb_spec 0 (rd_timer r)).
  - set (r' := r <| rd_timer ::= λ t, t - 1 |>).
    assert (key r' = key r) as Hkr by done. split_and!.
    + constructor; [|done]. destruct Hr. split; try done. cbn. lia.
    + by constructor.
    + rewrite fmap_cons, Hkr. constructor; [|done]. intros Hin. by apply Hk1, H4.
    + intros k. rewrite !fmap_cons, Hkr, !elem_of_cons. intros [-> |Hin]; [by left|right; by apply H4].
    + cbn. lia.
    + rewrite queued_cons. change (rd_p r') with (rd_p r). lia.
    + done.
  - cbn [ip_reass_free_complete_datagram]. pose proof (frags_clen_nonneg (rd_p r)). split_and!; try done.
    + intros k Hin. rewrite fmap_cons. apply elem_of_cons. right. by apply H4.
    + cbn. lia.
    + lia.
    + lia.
Qed.

Lemma ip_reass_tmr_wf q : reass_wf q → reass_wf (ip_reass_tmr q).1.
Proof.
  intros [[Hf He Hk Hc Hb] Hn]. unfold ip_reass_tmr. pose proof (tmr_loop_spec _ He Hn Hk) as Hl.
  destruct (reass_tmr_loop (reassdatagrams q)) as [[l freed] evs]. destruct Hl as (H1 & H2 & H3 & H4 & H5 & H6 & H7).
  pose proof (queued_nonneg l). unfold IP_REASS_MAX_PBUFS in Hb. cbn [fst].
  change (reass_wf (Queue l (u16 (ip_reass_pbufcount q - freed)) q.(rs_stats))).
  rewrite u16_small by (unfold is_u; lia). split; [|done]. split; cbn [reassdatagrams ip_reass_pbufcount]; try done.
  - lia.
  - lia.
  - unfold IP_REASS_MAX_PBUFS. lia.
Qed.

(** ** A datagram in pieces *)

Definition frag_start (p : chain) : Z := IPH_OFFSET_BYTES (hdr_of (first_bytes p)).
Definition frag_end (p : chain) : Z := frag_start p + (lwip_htons (hdr_of (first_bytes p)).(_len) - IP_HLEN).
Definition frag_of (p : chain) : frag := Frag (frag_start p) (frag_end p) p.
Definition more_fragments (p : chain) : bool := negb ((hdr_of (first_bytes p)).(_offset) .& lwip_htons IP_MF =? 0).
Definition frag_key (p : chain) : Z * Z * Z :=
  let h := hdr_of (first_bytes p) in (h.(iph_src), h.(iph_dest), h.(_id)).

(** One fragment of the datagram [k]: a plain header in its first link, and some data. *)
Record fragment_ok (k : Z * Z * Z) (p : chain) : Prop := {
  fo_bytes : chain_ok p;
  fo_first : IP_HLEN <= zlen (first_bytes p);
  fo_hlen : IPH_HL_BYTES (hdr_of (first_bytes p)) = IP_HLEN;
  fo_key : frag_key p = k;
  fo_data : frag_start p < frag_end p;
  fo_end : frag_end p <= 0xFFFF - IP_HLEN
}.

Fixpoint consecutive (s : Z) (ps : list chain) : Prop :=
  match ps with [] => True | p :: ps => frag_start p = s ∧ consecutive (frag_end p) ps end.

(** The fragments in order; only the last says that none follows. *)
Record pieces (k : Z * Z * Z) (ps : list chain) (z : chain) : Prop := {
  pc_ok : Forall (fragment_ok k) (ps ++ [z]);
  pc_cons : consecutive 0 (ps ++ [z]);
  pc_more : Forall (λ p, more_fragments p = true) ps;
  pc_last : more_fragments z = false
}.

Lemma consecutive_app s l p r : consecutive s (l ++ p :: r) → Forall (λ x, frag_start x < frag_end x) (l ++ p :: r) →
  s <= frag_start p ∧ Forall (λ t, before (frag_of t) (frag_of p)) l ∧ consecutive (frag_end p) r.
Proof.
  revert s. induction l as [|t l IH]; intros s Hc Hf; cbn [app] in *.
  - destruct Hc as [<- Hc]. split; [lia|]. by split.
  - destruct Hc as [<- Hc]. inversion_clear Hf as [|?? Ht Hf']. destruct (IH _ Hc Hf') as (H1 & H2 & H3).
    split; [lia|]. split; [|done]. constructor; [|done]. unfold before. cbn. lia.
Qed.

Lemma consecutive_after s p r : consecutive s (p :: r) → Forall (λ x, frag_start x < frag_end x) (p :: r) →
  Forall (λ t, before (frag_of p) (frag_of t)) r.
Proof.
  intros [_ Hc] Hf. inversion_clear Hf as [|?? Hp Hr]. pose proof (Z.le_refl (frag_end p)) as Hle.
  revert Hle Hc. generalize (frag_end p) at 2 3. induction Hr as [|t r Ht Hr IH]; intros e Hle Hc; constructor.
  - destruct Hc as [<- _]. unfold before. cbn. lia.
  - destruct Hc as [<- Hc]. eapply IH; [|exact Hc]. lia.
Qed.

Lemma payload_removed_n n p : 0 <= n <= zlen (first_bytes p) → payload (pbuf_remove_header n p) = zdrop n (payload p).
Proof.
  intros Hf. destruct p as [|[a b] p]; [symmetry; apply drop_nil|]. cbn [first_bytes snd] in Hf. cbn [pbuf_remove_header fst snd].
  rewrite (proj2 (Z.ltb_ge _ _)) by lia. rewrite !payload_cons. cbn [fst snd]. by rewrite zdrop_app_le.
Qed.

Lemma payload_removed p : IP_HLEN <= zlen (first_bytes p) → payload (pbuf_remove_header IP_HLEN p) = zdrop IP_HLEN (payload p).
Proof. intros Hf. apply payload_removed_n. unfold IP_HLEN in *. lia. Qed.

Section Arrival.
Context (k : Z * Z * Z) (ps : list chain) (z : chain) (Hpc : pieces k ps z).
#[local] Abbreviation all := (ps ++ [z]).

Lemma all_data : Forall (λ x, frag_start x < frag_end x) all.
Proof. eapply Forall_impl; [exact (pc_ok _ _ _ Hpc)|]. by intros x []. Qed.

Lemma all_nodup : NoDup all.
Proof.
  pose proof (pc_cons _ _ _ Hpc) as Hc. pose proof all_data as Hf. revert Hc Hf. generalize 0, all.
  intros s l. revert s. induction l as [|p l IH]; intros s Hc Hf; constructor.
  - intros Hin. pose proof (consecutive_after s p l Hc Hf) as Ha. rewrite Forall_forall in Ha.
    destruct (Ha p Hin). lia.
  - destruct Hc as [_ Hc]. inversion_clear Hf. by eapply IH.
Qed.

(** The fragments that have arrived, in their order. *)
Definition arrived (A : list chain) (l : list chain) : list chain := filter (λ p, p ∈ A) l.

Lemma arrived_split A p L R : all = L ++ p :: R → p ∉ A →
  arrived A all = arrived A L ++ arrived A R ∧ arrived (p :: A) all = arrived A L ++ p :: arrived A R.
Proof.
  intros E Hp. pose proof all_nodup as Hnd. rewrite E in Hnd |- *. apply NoDup_app in Hnd as (_ & HL & HR).
  apply NoDup_cons in HR as [HR _].
  assert (∀ l, p ∉ l → arrived (p :: A) l = arrived A l) as Hsame.
  { intros l Hl. unfold arrived. induction l as [|x l IH]; [done|]. apply not_elem_of_cons in Hl as [Hx Hl].
    rewrite !filter_cons, IH by done. destruct (decide (x ∈ A)) as [Hxa|Hxa].
    - by rewrite decide_True by by apply elem_of_cons; right.
    - rewrite decide_False; [done|]. rewrite elem_of_cons. intros [->|]; done. }
  unfold arrived in *. rewrite !filter_app, !filter_cons. rewrite (decide_False (P := p ∈ A)) by done.
  rewrite decide_True by (apply elem_of_cons; by left).
  rewrite !Hsame; [done|done|]. intros Hin. by apply (HL p Hin), elem_of_cons; left.
Qed.

(** A part of the datagram that begins it and has no hole is a beginning of it. *)
Lemma contig_prefix A s l : consecutive s l → Forall (λ x, frag_start x < frag_end x) l →
  contig (frag_of <$> arrived A l) = true →
  match arrived A l with p :: _ => frag_start p = s | [] => True end →
  ∃ rest, l = arrived A l ++ rest.
Proof.
  revert s. induction l as [|p l IH]; intros s Hc Hf Hg Hh; [by exists []|].
  unfold arrived in *. rewrite filter_cons in *. destruct (decide (p ∈ A)) as [Hp|Hp].
  - destruct Hc as [_ Hc]. inversion_clear Hf as [|?? Hpd Hf']. cbn [app].
    rewrite fmap_cons in Hg. cbn [contig] in Hg.
    destruct (IH (frag_end p) Hc Hf') as [rest Hrest].
    + destruct (frag_of <$> _) as [|g gs] eqn:E; [done|]. cbn [no_holes] in Hg. by apply andb_true_iff in Hg as [_ Hg].
    + destruct (filter _ l) as [|g gs]; [done|]. rewrite fmap_cons in Hg. cbn [no_holes] in Hg.
      apply andb_true_iff in Hg as [Hg _]. by apply Z.eqb_eq in Hg.
    + exists rest. by rewrite <- Hrest.
  - destruct (filter (λ p, p ∈ A) l) as [|g gs] eqn:E; [by exists (p :: l)|].
    assert (g ∈ l) as Hg'. { assert (g ∈ filter (λ p, p ∈ A) l) as Hin by (rewrite E; by left). by apply list_elem_of_filter in Hin as [_ ?]. }
    pose proof (consecutive_after s p l Hc Hf) as Ha. rewrite Forall_forall in Ha. destruct (Ha g Hg') as [H1 _].
    destruct Hc as [<- _]. cbn in H1. lia.
Qed.

Lemma contig_all s l : consecutive s l → contig (frag_of <$> l) = true.
Proof.
  revert s. induction l as [|p l IH]; intros s Hc; [done|]. destruct Hc as [_ Hc]. rewrite fmap_cons. cbn [contig].
  destruct l as [|g l]; [done|]. rewrite fmap_cons. cbn [no_holes]. apply andb_true_iff. split.
  - apply Z.eqb_eq. destruct Hc as [Hc _]. by symmetry.
  - specialize (IH _ Hc). by rewrite fmap_cons in IH.
Qed.

(** All is there exactly when the walk finds it so. *)
Lemma complete_iff A : z ∈ A →
  contig (frag_of <$> arrived A all) && match arrived A all with p :: _ => frag_start p =? 0 | [] => false end =
  bool_decide (arrived A all = all).
Proof.
  intros Hz. case_bool_decide as Heq.
  - rewrite Heq, (contig_all 0) by apply Hpc. destruct all as [|p l] eqn:E; [by destruct ps|].
    pose proof (pc_cons _ _ _ Hpc) as Hc. rewrite E in Hc. destruct Hc as [-> _]. done.
  - apply andb_false_iff. destruct (contig _) eqn:Ec; [right|by left].
    destruct (arrived A all) as [|p l] eqn:E; [done|]. apply Z.eqb_neq. intros Hp. apply Heq. rewrite <- E in *.
    destruct (contig_prefix A 0 all) as [rest Hrest]; [apply Hpc|apply all_data|done|by rewrite E|].
    assert (z ∈ arrived A all) as Hza by (apply list_elem_of_filter; split; [done|]; apply elem_of_app; right; by left).
    pose proof all_nodup as Hnd.
    destruct rest as [|x rest _] using rev_ind; [by rewrite app_nil_r in Hrest|].
    rewrite app_assoc in Hrest. apply app_inj_tail in Hrest as [Hl <-].
    exfalso. rewrite Hl in Hnd. rewrite <- app_assoc in Hnd. apply NoDup_app in Hnd as (_ & Hd & _).
    apply (Hd z Hza), elem_of_app. right. by left.
Qed.

(** The first of them. *)
Definition first_of : chain := hd z ps.

Lemma first_in : first_of ∈ all.
Proof. unfold first_of. destruct ps; cbn; by left. Qed.

Lemma first_start : frag_start first_of = 0.
Proof. pose proof (pc_cons _ _ _ Hpc) as Hc. unfold first_of. by destruct ps; destruct Hc as [Hc _]. Qed.

Lemma in_ok p : p ∈ all → fragment_ok k p.
Proof. intros Hp. pose proof (pc_ok _ _ _ Hpc) as Hf. rewrite Forall_forall in Hf. by apply Hf. Qed.

Lemma start_units p : frag_start p = 8 * (lwip_htons (hdr_of (first_bytes p)).(_offset) .& IP_OFFMASK).
Proof.
  unfold frag_start, IPH_OFFSET_BYTES. set (x := _ .& IP_OFFMASK).
  assert (0 <= x < 2 ^ 13) as Hx.
  { unfold x, IP_OFFMASK. change 0x1FFF with (Z.ones 13). rewrite Z.land_ones by lia. apply Z.mod_pos_bound. lia. }
  rewrite u16_small by (unfold is_u; lia). lia.
Qed.

Lemma is_first p : p ∈ all → frag_start p = 0 ↔ p = first_of.
Proof.
  intros Hp. split; [|intros ->; apply first_start]. intros H0.
  assert (∃ rest, all = first_of :: rest) as [rest E] by (unfold first_of; destruct ps; by eexists).
  rewrite E in Hp. apply elem_of_cons in Hp as [?|Hp]; [done|]. pose proof (pc_cons _ _ _ Hpc) as Hc. pose proof all_data as Hf.
  rewrite E in Hc, Hf. pose proof (consecutive_after _ _ _ Hc Hf) as Ha. rewrite Forall_forall in Ha.
  destruct (Ha p Hp) as [H1 _]. cbn in H1. rewrite first_start in H1. lia.
Qed.

Lemma is_last_piece p : p ∈ all → more_fragments p = false ↔ p = z.
Proof.
  intros Hp. split; [|intros ->; apply Hpc]. intros Hm. apply elem_of_app in Hp as [Hp|Hp].
  - pose proof (pc_more _ _ _ Hpc) as Hf. rewrite Forall_forall in Hf. rewrite Hf in Hm by done. done.
  - by apply list_elem_of_singleton in Hp.
Qed.

Lemma start_nonneg p : 0 <= frag_start p.
Proof. unfold frag_start, IPH_OFFSET_BYTES. apply u16_bound. Qed.

(** What the code makes of a fragment's header. *)
Lemma fragment_fields k' p : fragment_ok k' p → let h := hdr_of (first_bytes p) in
  (IPH_HL_BYTES h >? lwip_htons h.(_len)) = false ∧
  u16 (lwip_htons h.(_len) - IPH_HL_BYTES h) = frag_end p - frag_start p ∧
  u16 (frag_start p + u16 (lwip_htons h.(_len) - IPH_HL_BYTES h)) = frag_end p ∧ frag_start p < frag_end p <= 65515.
Proof.
  intros [_ _ Hh _ Hd He]. pose proof (start_nonneg p).
  unfold frag_end in *. unfold IP_HLEN in *. rewrite Hh.
  assert (u16 (lwip_htons (_len (hdr_of (first_bytes p))) - 20) = lwip_htons (_len (hdr_of (first_bytes p))) - 20) as E
    by (apply u16_small; unfold is_u; lia).
  rewrite E. split_and!; [rewrite Z.gtb_ltb; apply Z.ltb_ge; lia|lia|apply u16_small; unfold is_u; lia|lia|lia].
Qed.

Lemma frag_fields p : p ∈ all → let h := hdr_of (first_bytes p) in
  (IPH_HL_BYTES h >? lwip_htons h.(_len)) = false ∧
  u16 (lwip_htons h.(_len) - IPH_HL_BYTES h) = frag_end p - frag_start p ∧
  u16 (frag_start p + u16 (lwip_htons h.(_len) - IPH_HL_BYTES h)) = frag_end p ∧ frag_start p < frag_end p <= 65515.
Proof. intros Hp. exact (fragment_fields k p (in_ok p Hp)). Qed.

Lemma andb_swap a b c : a && b && c = a && c && b.
Proof. by destruct a, b, c. Qed.

Lemma into_step A p r r0 rest n st : p ∈ all → p ∉ A → r.(rd_p) = frag_of <$> arrived A all →
  r.(rd_last) = bool_decide (z ∈ A) → 0 <= n → n + chain_clen p <= IP_REASS_MAX_PBUFS → frags_clen r.(rd_p) <= n →
  let r1 := if decide (p = z) then r <| rd_len := frag_end z |> <| rd_last := true |> else r in
  reass_into p 0 r (chain_clen p) (Queue (r0 :: rest) n st) =
  if decide (arrived (p :: A) all = all)
  then (Queue rest (n - frags_clen r.(rd_p)) st, Some (assemble r1 (frag_of <$> all)))
  else (Queue (r1 <| rd_p := frag_of <$> arrived (p :: A) all |> :: rest) (n + chain_clen p) st, None).
Proof.
  intros Hp HpA Hr Hlast Hn Hroom Hle r1. unfold IP_REASS_MAX_PBUFS in Hroom. pose proof (zlen_nonneg p) as Hpl. unfold chain_clen in *.
  destruct (frag_fields p Hp) as (F1 & F2 & F3 & F4).
  unfold reass_into. fold (frag_start p). rewrite F3.
  set (nullreturn_ipr := match rd_p r with [] => _ | _ => _ end). clearbody nullreturn_ipr.
  assert (((hdr_of (first_bytes p)).(_offset) .& lwip_htons IP_MF =? 0) = bool_decide (p = z)) as Hl.
  { pose proof (is_last_piece p Hp) as Hz. unfold more_fragments in Hz. rewrite negb_false_iff in Hz.
    destruct (bool_decide_reflect (p = z)); [by apply Hz|]. apply not_true_iff_false. by rewrite Hz. }
  rewrite Hl. rewrite (proj2 (Z.ltb_ge (frag_end p) _)), Z.gtb_ltb, (proj2 (Z.ltb_ge (0xFFFF - IP_HLEN) _)) by (unfold IP_HLEN; lia).
  cbn [orb]. rewrite andb_false_r. unfold ip_reass_chain_frag_into_datagram_and_validate. rewrite F1. fold (frag_start p). rewrite F3.
  rewrite (proj2 (Z.ltb_ge (fr_end _) _)) by (cbn; lia). fold (frag_of p).
  apply list_elem_of_split in Hp as (L & R & E). destruct (arrived_split A p L R E HpA) as [EA EpA].
  pose proof (pc_cons _ _ _ Hpc) as Hc. pose proof all_data as Hf. rewrite E in Hc, Hf.
  destruct (consecutive_app 0 L p R Hc Hf) as (_ & HL & _).
  assert (∃ s, consecutive s (p :: R)) as [s Hs].
  { clear -Hc. revert Hc. generalize 0. induction L as [|t L IH]; intros s Hc; [by exists s|]. destruct Hc as [_ Hc]. by eapply IH. }
  apply Forall_app in Hf as [_ Hf]. pose proof (consecutive_after s p R Hs Hf) as HR.
  assert (∀ (P : frag → Prop) l, Forall (λ t, P (frag_of t)) l → Forall P (frag_of <$> arrived A l)) as Hsub.
  { intros P l Hl0. apply Forall_fmap. apply Forall_forall. intros x Hx. apply list_elem_of_filter in Hx as [_ Hx].
    rewrite Forall_forall in Hl0. by apply Hl0. }
  rewrite Hr, EA, fmap_app, frag_insert_between; [|by apply Hsub|by apply Hsub|done].
  rewrite andb_true_l, from_none. rewrite Hlast.
  assert (bool_decide (p = z) || bool_decide (z ∈ A) = bool_decide (z ∈ p :: A)) as Hz.
  { rewrite <- bool_decide_or. apply bool_decide_ext. rewrite elem_of_cons. naive_solver. }
  rewrite Hz. clear Hz.
  assert (contig ((frag_of <$> arrived A L) ++ [frag_of p]) &&
    match (frag_of <$> arrived A L) ++ frag_of p :: (frag_of <$> arrived A R) with f :: _ => fr_start f =? 0 | [] => false end &&
    no_holes (frag_of p) (frag_of <$> arrived A R) =
    contig (frag_of <$> arrived (p :: A) all) && match arrived (p :: A) all with p :: _ => frag_start p =? 0 | [] => false end) as Hv.
  { rewrite EpA, fmap_app, fmap_cons, (contig_app _ _ (frag_of <$> arrived A R)).
    destruct (arrived A L); apply andb_swap. }
  rewrite Hv. clear Hv. rewrite <- (fmap_cons frag_of p), <- fmap_app, <- EpA.
  change (ip_reass_pbufcount (Queue (r0 :: rest) n st)) with n. cbn [bool_decide].
  assert (u16 (n + zlen p) = n + zlen p) as Hu by (apply u16_small; unfold is_u; lia).
  assert ((if bool_decide (p = z) then r <| rd_len := frag_end p |> <| rd_last := true |> else r) = r1) as Hr1.
  { unfold r1. destruct (decide (p = z)) as [Ezp|Hne]; [by rewrite bool_decide_eq_true_2, Ezp|by rewrite bool_decide_eq_false_2]. }
  rewrite Hr1. clear Hr1. destruct (bool_decide (z ∈ p :: A)) eqn:Ez.
  - apply bool_decide_eq_true in Ez. rewrite (complete_iff _ Ez).
    destruct (bool_decide_reflect (arrived (p :: A) all = all)) as [Hall|Hall].
    + rewrite decide_True by done. rewrite Hall. unfold chain_clen. fold (chain_clen (assemble r1 (frag_of <$> all))).
      rewrite assemble_clen, <- Hall, EpA, fmap_app, fmap_cons, frags_clen_app, frags_clen_cons.
      rewrite frags_clen_app. rewrite Hr, EA, fmap_app, frags_clen_app in Hle.
      pose proof (frags_clen_nonneg (frag_of <$> arrived A L)). pose proof (frags_clen_nonneg (frag_of <$> arrived A R)).
      unfold modify. cbn. rewrite Hu. unfold chain_clen. rewrite u16_small by (unfold is_u; lia). do 2 f_equal. lia.
    + rewrite decide_False by done. unfold modify. cbn. by rewrite Hu.
  - apply bool_decide_eq_false in Ez. rewrite decide_False.
    + unfold modify. cbn. by rewrite Hu.
    + intros Hall. apply Ez. assert (z ∈ arrived (p :: A) all) as Hin by (rewrite Hall; apply elem_of_app; right; by left).
      by apply list_elem_of_filter in Hin as [? _].
Qed.

(** The queue [q], come from [q0] by the fragments [A]: one entry more, with the header of
    the first fragment once that is there. *)
Definition entry_of (A : list chain) (r : reassdata) : Prop :=
  key r = k ∧ r.(rd_p) = frag_of <$> arrived A all ∧ r.(rd_last) = bool_decide (z ∈ A) ∧
  (z ∈ A → r.(rd_len) = frag_end z) ∧
  (first_of ∈ A → r.(rd_iphdr) = hdr_of (first_bytes first_of)) ∧
  (first_of ∉ A → (lwip_htons r.(rd_iphdr).(_offset) .& IP_OFFMASK) ≠ 0).

Definition holding (q0 : reass) (A : list chain) (q : reass) : Prop :=
  match A with
  | [] => q.(reassdatagrams) = q0.(reassdatagrams) ∧ q.(ip_reass_pbufcount) = q0.(ip_reass_pbufcount)
  | _ => ∃ r, q.(reassdatagrams) = r :: q0.(reassdatagrams) ∧ entry_of A r ∧
              q.(ip_reass_pbufcount) = q0.(ip_reass_pbufcount) + frags_clen r.(rd_p)
  end.

(** The queue has room for the whole datagram, and nothing of it yet. *)
Definition room_for (q0 : reass) : Prop :=
  0 <= q0.(ip_reass_pbufcount) ∧ (length q0.(reassdatagrams) < MEMP_NUM_REASSDATA)%nat ∧
  (k ∉ key <$> q0.(reassdatagrams)) ∧ q0.(ip_reass_pbufcount) + frags_clen (frag_of <$> all) <= IP_REASS_MAX_PBUFS.

(** The datagram: the data of the fragments behind the first one's header, which says the
    new length, no offset and the sum over itself, and lies in the first link. *)
Definition reassembled (d : chain) : Prop :=
  chain_ok d ∧ IP_HLEN <= zlen (first_bytes d) ∧ ∃ a, payload d = hdr_bytes (
    let h := hdr_of (first_bytes first_of) <| _len := lwip_htons (frag_end z + IP_HLEN) |> <| _offset := 0 |> in
    h <| _chksum := inet_chksum a (hdr_bytes (h <| _chksum := 0 |>)) |>) ++
    concat ((λ p, zdrop IP_HLEN (payload p)) <$> all).

Lemma arrived_clen A p : p ∈ all → p ∉ A →
  frags_clen (frag_of <$> arrived A all) + chain_clen p <= frags_clen (frag_of <$> all).
Proof.
  intros Hp HA. apply list_elem_of_split in Hp as (L & R & E). destruct (arrived_split A p L R E HA) as [_ EpA].
  assert (frags_clen (frag_of <$> arrived A all) + chain_clen p = frags_clen (frag_of <$> arrived (p :: A) all)) as ->.
  { destruct (arrived_split A p L R E HA) as [-> ->]. rewrite !fmap_app, fmap_cons, !frags_clen_app, frags_clen_cons. cbn. lia. }
  unfold arrived. generalize all as l. intros l. induction l as [|x l IH]; [done|]. rewrite filter_cons, fmap_cons, frags_clen_cons.
  pose proof (zlen_nonneg (fr_chain (frag_of x))). destruct (decide _); rewrite ?fmap_cons, ?frags_clen_cons; unfold chain_clen in *; lia.
Qed.

Lemma payload_set_hdr h p : fragment_ok k p → payload (set_hdr h p) = hdr_bytes h ++ zdrop IP_HLEN (payload p).
Proof.
  intros [_ Hf _ _ _ _]. destruct p as [|[a b] p]; [done|]. cbn [first_bytes snd] in Hf. cbn [set_hdr fst snd].
  rewrite !payload_cons. cbn [fst snd]. unfold blit. rewrite length_hdr_bytes. unfold zdrop, zlen, IP_HLEN in *.
  change (Z.to_nat 20) with 20%nat. rewrite drop_app_le by lia. by rewrite <- app_assoc.
Qed.

Lemma first_set_hdr h p l : fragment_ok k p → IP_HLEN <= zlen (first_bytes (set_hdr h p ++ l)).
Proof.
  intros [_ Hf _ _ _ _]. destruct p as [|[a b] p]; [done|]. cbn [first_bytes snd] in Hf. cbn [set_hdr app first_bytes fst snd].
  unfold blit, IP_HLEN. cbn [take]. rewrite app_nil_l, zlen_app. change (zlen (hdr_bytes h)) with 20.
  pose proof (zlen_nonneg (drop (0 + length (hdr_bytes h)) b)). lia.
Qed.

Lemma hdr_bytes_is h : is_byte h.(_v_hl) → is_byte h.(_tos) → is_byte h.(_ttl) → is_byte h.(_proto) → is_bytes (hdr_bytes h).
Proof.
  intros. unfold hdr_bytes. repeat apply is_bytes_app; try apply le_bytes_bytes; word_list.
Qed.

Lemma chain_set_hdr h p : fragment_ok k p → is_bytes (hdr_bytes h) → chain_ok (set_hdr h p).
Proof.
  intros [Hp Hf _ _ _ _] Hh. destruct Hp as [|[a b] p [Hb Hz] Hp]; [done|]. cbn [first_bytes snd fst] in *. cbn [set_hdr fst snd].
  constructor; [|done]. cbn [snd]. pose proof (length_hdr_bytes h) as Hl. unfold IP_HLEN, zlen in *. split.
  - by apply blit_bytes.
  - rewrite length_blit by lia. done.
Qed.

Lemma chain_removed n p : chain_ok p → chain_ok (pbuf_remove_header n p).
Proof.
  destruct 1 as [|[a b] p [Hb Hz] Hp]; [constructor|]. cbn [pbuf_remove_header fst snd]. destruct (_ <? _); [by constructor|].
  constructor; [|done]. cbn [fst snd] in *. split; [by apply Forall_drop|]. unfold zlen, zdrop in *. rewrite length_drop. lia.
Qed.

Lemma assemble_payload r : r.(rd_iphdr) = hdr_of (first_bytes first_of) → r.(rd_len) = frag_end z →
  reassembled (assemble r (frag_of <$> all)).
Proof.
  intros Hh Hl. assert (∃ rest, all = first_of :: rest) as [rest E] by (unfold first_of; destruct ps; by eexists).
  pose proof (pc_ok _ _ _ Hpc) as Hok. unfold reassembled. rewrite E in Hok |- *. inversion_clear Hok as [|?? Hf Hr].
  rewrite fmap_cons. unfold assemble. rewrite Hh, Hl. cbn [fr_chain frag_of].
  set (a := match first_of with [] => 0 | q :: _ => q.1 end). split.
  { apply Forall_app. split.
    - apply chain_set_hdr; [done|]. assert (is_bytes (first_bytes first_of)) as Hfb.
      { destruct (fo_bytes _ _ Hf) as [|q p [Hq _] _]; [constructor|done]. }
      apply hdr_bytes_is; [exact (is_u_get 8 _ 0 ltac:(lia) Hfb)|exact (is_u_get 8 _ 1 ltac:(lia) Hfb)|
        exact (is_u_get 8 _ 8 ltac:(lia) Hfb)|exact (is_u_get 8 _ 9 ltac:(lia) Hfb)].
    - clear -Hr. induction Hr as [|p l Hp _ IH]; [constructor|]. rewrite !fmap_cons. apply Forall_app. split; [|done].
      by apply chain_removed, Hp. }
  split; [by apply first_set_hdr|]. exists a.
  destruct (frag_fields z) as (_ & _ & _ & Hz); [apply elem_of_app; right; by left|]. pose proof (start_nonneg z).
  rewrite u16_small by (unfold is_u, IP_HLEN; lia).
  unfold payload at 1. rewrite fmap_app, concat_app. fold (payload (set_hdr
    (hdr_of (first_bytes first_of) <| _len := lwip_htons (frag_end z + IP_HLEN) |> <| _offset := 0 |> <| _chksum := 0 |>
      <| _chksum := inet_chksum a (hdr_bytes (hdr_of (first_bytes first_of) <| _len := lwip_htons (frag_end z + IP_HLEN) |>
         <| _offset := 0 |> <| _chksum := 0 |>)) |>) first_of)).
  rewrite payload_set_hdr, fmap_cons by done. cbn [concat]. rewrite <- app_assoc. f_equal. f_equal.
  rewrite <- list_fmap_compose. clear E. induction Hr as [|p l Hp Hl' IH]; [done|]. rewrite !fmap_cons. cbn [concat].
  rewrite fmap_app, concat_app, IH. f_equal. by rewrite <- payload_removed by apply Hp.
Qed.

Lemma units_zero p : p ∈ all → (lwip_htons (hdr_of (first_bytes p)).(_offset) .& IP_OFFMASK) = 0 ↔ p = first_of.
Proof. intros Hp. rewrite <- (is_first p Hp), start_units. lia. Qed.

Lemma key_match p h : fragment_ok k p → ((h.(iph_src), h.(iph_dest), h.(_id)) = k) →
  IP_ADDRESSES_AND_ID_MATCH h (hdr_of (first_bytes p)) = true.
Proof.
  intros [_ _ _ Hk _ _] E. unfold IP_ADDRESSES_AND_ID_MATCH. unfold frag_key in Hk. rewrite <- Hk in E.
  injection E as -> -> ->. by rewrite !Z.eqb_refl.
Qed.

(** The entry just before [p] joins [A], its header already brought up to date. *)
Definition about_to (p : chain) (A : list chain) (r : reassdata) : Prop :=
  key r = k ∧ rd_p r = frag_of <$> arrived A all ∧ rd_last r = bool_decide (z ∈ A) ∧ (z ∈ A → rd_len r = frag_end z) ∧
  (first_of ∈ p :: A → rd_iphdr r = hdr_of (first_bytes first_of)) ∧
  (first_of ∉ p :: A → (lwip_htons r.(rd_iphdr).(_offset) .& IP_OFFMASK) ≠ 0).

Lemma arrived_nil : arrived [] all = [].
Proof.
  unfold arrived. generalize all. intros l. induction l; [done|]. by rewrite filter_cons_False by apply not_elem_of_nil.
Qed.

Lemma about_new p : p ∈ all → about_to p [] (Reass (hdr_of (first_bytes p)) [] 0 false IP_REASS_MAXAGE).
Proof.
  intros Hp. unfold about_to. cbn. rewrite arrived_nil. split_and!; try done.
  - apply (fo_key _ _ (in_ok p Hp)).
  - intros Hz. by apply elem_of_nil in Hz.
  - rewrite elem_of_cons. intros [->|Hx]; [done|by apply elem_of_nil in Hx].
  - rewrite elem_of_cons. intros Hn Hz. apply Hn. left. symmetry. by apply units_zero.
Qed.

Lemma about_old p A r : p ∈ all → entry_of A r →
  let h := hdr_of (first_bytes p) in
  about_to p A (if (lwip_htons h.(_offset) .& IP_OFFMASK =? 0) && negb (lwip_htons r.(rd_iphdr).(_offset) .& IP_OFFMASK =? 0)
                then r <| rd_iphdr := h |> else r).
Proof.
  intros Hp (H1 & H2 & H3 & H4 & H5 & H6) h. set (first := (_ =? 0) && negb _).
  assert (first = true ↔ p = first_of ∧ first_of ∉ A) as Hfirst.
  { unfold first. rewrite andb_true_iff, negb_true_iff, Z.eqb_eq, Z.eqb_neq. unfold h. rewrite units_zero by done.
    split; intros [E E2]; (split; [done|]); [|by apply H6]. intros Hin. apply E2. rewrite H5 by done. by apply units_zero; [apply first_in|]. }
  destruct first.
  - destruct Hfirst as [Hfirst _]. destruct (Hfirst eq_refl) as [E E2]. unfold about_to. rewrite elem_of_cons.
    split_and!; try done; [|intros _; cbn; unfold h; by rewrite E|intros Hn; exfalso; apply Hn; by left].
    apply (fo_key _ _ (in_ok p Hp)).
  - unfold about_to. rewrite elem_of_cons. split_and!; try done.
    + intros Hor. apply H5. destruct Hor as [E|]; [|done]. destruct (decide (first_of ∈ A)); [done|].
      destruct Hfirst as [_ Hfirst]. by specialize (Hfirst (conj (eq_sym E) n)).
    + intros Hn. apply H6. tauto.
Qed.

(** One more fragment: it completes the datagram or joins the others. *)
Lemma into_entry A p r r0 l0 n st c0 q0 : p ∈ all → p ∉ A → about_to p A r →
  n = c0 + frags_clen r.(rd_p) → 0 <= c0 → c0 + frags_clen (frag_of <$> all) <= IP_REASS_MAX_PBUFS →
  reassdatagrams q0 = l0 → ip_reass_pbufcount q0 = c0 →
  let '(q', d) := reass_into p 0 r (chain_clen p) (Queue (r0 :: l0) n st) in
  if decide (arrived (p :: A) all = all)
  then (∃ d', d = Some d' ∧ reassembled d') ∧ q'.(reassdatagrams) = l0 ∧ q'.(ip_reass_pbufcount) = c0
  else d = None ∧ holding q0 (p :: A) q'.
Proof.
  intros Hp HpA (Hk & Hrp & Hlast & Hlen & Hh & Ho) -> Hc0 Hroom Hl0 Hq0. pose proof (arrived_clen A p Hp HpA) as Hcl.
  rewrite Hrp in *. pose proof (frags_clen_nonneg (frag_of <$> arrived A all)).
  pose proof (into_step A p r r0 l0 (c0 + frags_clen (frag_of <$> arrived A all)) st Hp HpA Hrp Hlast) as Hstep.
  rewrite Hrp in Hstep. rewrite Hstep by lia. clear Hstep. set (r1 := if decide (p = z) then _ else r).
  assert (rd_iphdr r1 = rd_iphdr r ∧ key r1 = key r ∧ rd_last r1 = bool_decide (z ∈ p :: A) ∧ (z ∈ p :: A → rd_len r1 = frag_end z)) as (R1 & R2 & R3 & R4).
  { unfold r1. destruct (decide (p = z)) as [E|E].
    - split_and!; try done. cbn. symmetry. apply bool_decide_eq_true_2. rewrite E. by left.
    - split_and!; try done.
      + rewrite Hlast. apply bool_decide_ext. rewrite elem_of_cons. naive_solver.
      + rewrite elem_of_cons. intros [E'|]; [by rewrite E' in E|by apply Hlen]. }
  destruct (decide (arrived (p :: A) all = all)) as [Hall|Hall].
  - split; [|split; [done|cbn; lia]]. eexists. split; [done|].
    assert (∀ x, x ∈ all → x ∈ p :: A) as Hin by (intros x Hx; rewrite <- Hall in Hx; by apply list_elem_of_filter in Hx as [? _]).
    apply assemble_payload; [rewrite R1; apply Hh, Hin, first_in|apply R4, Hin, elem_of_app; right; by left].
  - split; [done|]. cbn [holding]. eexists. split; [by rewrite Hl0|]. split.
    + split_and!; try done.
      * by rewrite <- Hk, <- R2.
      * intros Hx. by rewrite <- Hh, <- R1.
      * intros Hx. cbn. rewrite R1. by apply Ho.
    + cbn. rewrite Hq0. destruct (list_elem_of_split _ _ Hp) as (L & R & E). destruct (arrived_split A p L R E HpA) as [-> ->].
      rewrite !fmap_app, fmap_cons, !frags_clen_app, frags_clen_cons. cbn. lia.
Qed.

Lemma reass_step q0 A p q : room_for q0 → holding q0 A q → p ∈ all → p ∉ A →
  let '(q', d, evs) := ip4_reass p q in evs = [] ∧
  if decide (arrived (p :: A) all = all)
  then (∃ d', d = Some d' ∧ reassembled d') ∧ q'.(reassdatagrams) = q0.(reassdatagrams) ∧ q'.(ip_reass_pbufcount) = q0.(ip_reass_pbufcount)
  else d = None ∧ holding q0 (p :: A) q'.
Proof.
  intros (Hc0 & Hlen & Hk & Hroom) Hq Hp HpA. pose proof (in_ok p Hp) as Hok. destruct (frag_fields p Hp) as (F1 & _).
  pose proof (arrived_clen A p Hp HpA) as Hcl. pose proof (frags_clen_nonneg (frag_of <$> arrived A all)) as Hnn.
  assert (ip_reass_pbufcount q + chain_clen p <= IP_REASS_MAX_PBUFS) as Hroomp.
  { destruct A as [|a A]; [destruct Hq as [_ ->]; lia|]. destruct Hq as (r & _ & (_ & Hrp & _) & ->). rewrite Hrp. lia. }
  unfold ip4_reass. rewrite F1, (fo_hlen _ _ Hok), Z.eqb_refl. cbn [negb].
  set (q1 := frag_inc _ q). change (ip_reass_pbufcount q1) with (ip_reass_pbufcount q).
  rewrite Z.gtb_ltb, (proj2 (Z.ltb_ge IP_REASS_MAX_PBUFS _)) by done. cbn [negb].
  change (reassdatagrams q1) with (reassdatagrams q).
  set (h := hdr_of (first_bytes p)) in *.
  assert ((h.(iph_src), h.(iph_dest), h.(_id)) = k) as Hkey by apply (fo_key _ _ Hok).
  destruct A as [|a A].
  - destruct Hq as [Hq1 Hq2]. pose proof (find_datagram_spec h (reassdatagrams q) 0) as Hf.
    destruct (find_datagram h (reassdatagrams q) 0) as [[i r]|].
    { destruct Hf as (_ & Hi & Hr). exfalso. apply Hk. rewrite <- Hkey, <- Hr, <- Hq1. apply list_elem_of_fmap_2.
      by eapply list_elem_of_lookup_2. }
    unfold ip_reass_enqueue_new_datagram. change (reassdatagrams q1) with (reassdatagrams q). rewrite Hq1.
    rewrite (proj2 (Nat.ltb_lt _ _)) by done.
    set (r := Reass h [] 0 false IP_REASS_MAXAGE).
    pose proof (into_entry [] p r r (reassdatagrams q0) (ip_reass_pbufcount q) (rs_stats q1) (ip_reass_pbufcount q0) q0 Hp HpA) as Hs.
    change (q1 <| reassdatagrams ::= cons r |>) with (Queue (r :: reassdatagrams q) (ip_reass_pbufcount q) (rs_stats q1)).
    rewrite Hq1. destruct (reass_into p 0 r (chain_clen p) _) as [q' d]. split; [done|].
    apply Hs; try done; [by apply about_new|]. change (frags_clen (rd_p r)) with 0. lia.
  - destruct Hq as (r & Hq1 & Hr & Hq2). pose proof Hr as (H1 & H2 & H3 & H4 & H5 & H6).
    rewrite Hq1. cbn [find_datagram]. assert (IP_ADDRESSES_AND_ID_MATCH (rd_iphdr r) h = true) as -> by by apply key_match.
    set (q2 := frag_inc _ q1). fold h. set (first := (_ =? 0) && negb _).
    set (r' := if first then r <| rd_iphdr := h |> else r).
    pose proof (into_entry (a :: A) p r' r (reassdatagrams q0) (ip_reass_pbufcount q) (rs_stats q2) (ip_reass_pbufcount q0) q0 Hp HpA) as Hs.
    assert (q2 = Queue (r :: reassdatagrams q0) (ip_reass_pbufcount q) (rs_stats q2)) as Eq2 by (rewrite <- Hq1; by destruct q).
    rewrite Eq2. destruct (reass_into p 0 r' (chain_clen p) _) as [q' d]. split; [done|].
    apply Hs; try done.
    + by apply (about_old p).
    + rewrite Hq2. unfold r'. by destruct first.
Qed.

End Arrival.

(** A fragment that is not the first, of a datagram the queue knows nothing of, stays there
    as a datagram of its own. *)
Lemma reass_alone k p q : fragment_ok k p → 0 < frag_start p →
  0 <= q.(ip_reass_pbufcount) → (length q.(reassdatagrams) < MEMP_NUM_REASSDATA)%nat → (k ∉ key <$> q.(reassdatagrams)) →
  q.(ip_reass_pbufcount) + chain_clen p <= IP_REASS_MAX_PBUFS →
  ∃ q' r, ip4_reass p q = (q', None, []) ∧ q'.(reassdatagrams) = r :: q.(reassdatagrams) ∧ key r = k ∧ r.(rd_p) = [frag_of p].
Proof.
  intros Hok Hs Hc Hlen Hk Hroom. destruct (fragment_fields k p Hok) as (F1 & F2 & F3 & F4).
  unfold ip4_reass. rewrite F1, (fo_hlen _ _ Hok), Z.eqb_refl. cbn [negb].
  set (q1 := frag_inc _ q). change (ip_reass_pbufcount q1) with (ip_reass_pbufcount q).
  rewrite Z.gtb_ltb, (proj2 (Z.ltb_ge IP_REASS_MAX_PBUFS _)) by done. cbn [negb].
  change (reassdatagrams q1) with (reassdatagrams q). pose proof (find_datagram_spec (hdr_of (first_bytes p)) (reassdatagrams q) 0) as Hf.
  destruct (find_datagram _ _ 0) as [[i r]|].
  { destruct Hf as (_ & Hi & Hr). exfalso. apply Hk. rewrite <- (fo_key _ _ Hok). unfold frag_key. rewrite <- Hr.
    apply list_elem_of_fmap_2. by eapply list_elem_of_lookup_2. }
  unfold ip_reass_enqueue_new_datagram. change (reassdatagrams q1) with (reassdatagrams q). rewrite (proj2 (Nat.ltb_lt _ _)) by done.
  unfold reass_into. fold (frag_start p). rewrite F3.
  rewrite (proj2 (Z.ltb_ge (frag_end p) _)), Z.gtb_ltb, (proj2 (Z.ltb_ge (0xFFFF - IP_HLEN) _)) by (unfold IP_HLEN; lia).
  cbn [orb]. rewrite andb_false_r. unfold ip_reass_chain_frag_into_datagram_and_validate. rewrite F1. fold (frag_start p). rewrite F3.
  rewrite (proj2 (Z.ltb_ge (fr_end _) _)) by (cbn; lia). fold (frag_of p). cbn [rd_p rd_last frag_insert fr_start frag_of andb].
  rewrite (proj2 (Z.eqb_neq (frag_start p) 0)) by lia. cbn [andb orb]. pose proof (fo_key _ _ Hok) as Hkey.
  destruct (_ =? 0); cbn [orb]; (do 2 eexists; split; [reflexivity|]; split; [reflexivity|]; by split).
Qed.

(** Fragments in the order of their arrival: what each brings. *)
Fixpoint reass_all (arrival : list chain) (q : reass) : reass * list (option chain) * list ip_event :=
  match arrival with
  | [] => (q, [], [])
  | p :: arrival =>
    let '(q, d, evs) := ip4_reass p q in
    let '(q, ds, evs') := reass_all arrival q in
    (q, d :: ds, evs ++ evs')
  end.

Lemma reass_rest k ps z (Hpc : pieces k ps z) q0 : room_for k ps z q0 → ∀ arrival A q,
  holding k ps z q0 A q → arrival ≠ [] → arrival ++ A ≡ₚ ps ++ [z] →
  ∃ q' d n, reass_all arrival q = (q', replicate n None ++ [Some d], []) ∧ length arrival = S n ∧
    reassembled ps z d ∧ q'.(reassdatagrams) = q0.(reassdatagrams) ∧ q'.(ip_reass_pbufcount) = q0.(ip_reass_pbufcount).
Proof.
  intros Hroom. induction arrival as [|p arrival IH]; intros A q Hq Hne Hperm; [done|].
  assert (p ∈ ps ++ [z]) as Hp by (rewrite <- Hperm; by left).
  assert (p ∉ A) as HpA.
  { pose proof (all_nodup k ps z Hpc) as Hnd. rewrite <- Hperm in Hnd. cbn [app] in Hnd. apply NoDup_cons in Hnd as [Hn _].
    rewrite elem_of_app in Hn. tauto. }
  pose proof (reass_step k ps z Hpc q0 A p q Hroom Hq Hp HpA) as Hs. cbn [reass_all].
  destruct (ip4_reass p q) as [[q1 d] evs]. destruct Hs as [-> Hs].
  assert (arrival ++ p :: A ≡ₚ ps ++ [z]) as Hperm1 by (rewrite <- Hperm; symmetry; apply Permutation_middle).
  destruct arrival as [|p2 arrival].
  - rewrite decide_True in Hs.
    + destruct Hs as ((d' & -> & Hd) & H1 & H2). exists q1, d', 0%nat. done.
    + unfold arrived. cbn [app] in Hperm1. assert (∀ x, x ∈ ps ++ [z] → x ∈ p :: A) as Hin by (intros x; by rewrite Hperm1).
      revert Hin. generalize (ps ++ [z]). intros l. induction l as [|x l IHl]; intros Hin; [done|].
      rewrite filter_cons_True by (apply Hin; by left). f_equal. apply IHl. intros y Hy. apply Hin. by right.
  - rewrite decide_False in Hs.
    + destruct Hs as [-> Hs]. destruct (IH (p :: A) q1 Hs ltac:(done) Hperm1) as (q' & d' & n & -> & Hn & Hd & H1 & H2).
      exists q', d', (S n). split; [done|]. split; [cbn [length] in *; lia|]. done.
    + intros Hall. pose proof (all_nodup k ps z Hpc) as Hnd. rewrite <- Hperm1 in Hnd. cbn [app] in Hnd.
      assert (p2 ∈ arrived (p :: A) (ps ++ [z])) as Hin by (rewrite Hall, <- Hperm1; by left).
      apply list_elem_of_filter in Hin as [Hin _]. apply NoDup_cons in Hnd as [Hn _]. apply Hn, elem_of_app. by right.
Qed.

(** A datagram is put together from its fragments in whatever order they arrive: all but
    the last to come are kept, the last one gives the datagram, under the first fragment's
    header with the length, offset and checksum of the whole, and the queue is as it was. *)
Lemma reass_in_any_order (k : Z * Z * Z) (ps : list chain) (z : chain) (q : reass) (arrival : list chain) :
  pieces k ps z → room_for k ps z q → arrival ≡ₚ ps ++ [z] →
  ∃ q' d, reass_all arrival q = (q', replicate (length ps) None ++ [Some d], []) ∧ reassembled ps z d ∧
    q'.(reassdatagrams) = q.(reassdatagrams) ∧ q'.(ip_reass_pbufcount) = q.(ip_reass_pbufcount).
Proof.
  intros Hpc Hroom Hperm. destruct (reass_rest k ps z Hpc q Hroom arrival [] q) as (q' & d & n & Hr & Hn & Hd & H1 & H2).
  - done.
  - intros ->. apply Permutation_nil in Hperm. by destruct ps.
  - by rewrite app_nil_r.
  - exists q', d. rewrite Hperm, length_app in Hn. cbn in Hn. replace (length ps) with n by lia. done.
Qed.

(** Queues that the code can come to. *)
Inductive reachable : reass → Prop :=
| reach_init : reachable reass_init
| reach_reass p q : reachable q → p ≠ [] → reachable (ip4_reass p q).1.1
| reach_tmr q : reachable q → reachable (ip_reass_tmr q).1.

(** ** Properties *)

(** C26: whatever fragments arrive, forged, overlapping, repeated or endless, and whenever
    the timer runs, the queue stays well formed: at most five datagrams, no two the same,
    each with its fragments in order and apart, together at most ten buffers of the pool's
    twenty-four, which is what the counter says. *)
Theorem reass_bounded (q : reass) : reachable q → reass_wf q.
Proof.
  induction 1 as [|p q _ IH Hp|q _ IH]; [|by apply ip4_reass_wf|by apply ip_reass_tmr_wf].
  split; [|constructor]. split; cbn; [lia|constructor|constructor|done|done].
Qed.

(** ** Witnesses *)

(** The first eight bytes of a datagram, more to follow. *)
Definition toy_fragment : chain :=
  [(0x4000, [69; 0; 0; 28; 0; 7; 32; 0; 64; 17; 0; 0; 10; 0; 0; 2; 10; 0; 0; 3; 1; 2; 3; 4; 5; 6; 7; 8])].

Lemma reass_bounded_witness :
  reass_wf (ip4_reass toy_fragment reass_init).1.1 ∧ ip_reass_pbufcount (ip4_reass toy_fragment reass_init).1.1 = 1.
Proof.
  split; [|by vm_compute]. apply reass_bounded. apply reach_reass; [apply reach_init|discriminate].
Defined.
