(* ===== verification/IpFrag.v ===== *)
(** * lwip/core/ipv4/ip4_frag.c: both ways

    What [ip4_frag] cuts, [ip4_reass] puts together, with the exception that the tunnel's
    MTU makes possible: 1380 bytes of room are not a multiple of eight, the fragments carry
    1376, and the test for the last one compares with 1380. *)
From S2P Require Import Prelude IpProbe Pbuf Netif Chksum Ip4 IpReass.

(** ** The offset field *)

Lemma land_pow2 x n : 0 <= n → (x .& 2 ^ n) = if Z.testbit x n then 2 ^ n else 0.
Proof.
  intros Hn. apply Z.bits_inj'. intros i Hi. rewrite Z.land_spec, Z.pow2_bits_eqb by done.
  destruct (Z.eqb_spec n i) as [<-|Hne].
  - destruct (Z.testbit x n); by rewrite ?Z.bits_0, ?Z.pow2_bits_true by done.
  - rewrite andb_false_r. destruct (Z.testbit x n); by rewrite ?Z.bits_0, ?Z.pow2_bits_false by done.
Qed.

Lemma htons_mf tmp : (lwip_htons tmp .& lwip_htons IP_MF =? 0) = negb (Z.testbit tmp 13).
Proof.
  change (lwip_htons IP_MF) with (2 ^ 5). rewrite land_pow2 by lia. unfold lwip_htons.
  rewrite Z.lor_spec, Z.shiftl_spec, Z.shiftr_spec by lia. rewrite (Z.testbit_neg_r _ (5 - 8)) by lia.
  cbn [orb]. rewrite Z.land_spec. change (Z.testbit 0xFF00 (5 + 8)) with true. rewrite andb_true_r.
  change (5 + 8) with 13. by destruct (Z.testbit tmp 13).
Qed.

Lemma offset_value ofo (mf : bool) : 0 <= ofo < 8192 →
  let tmp := if mf then (IP_OFFMASK .& ofo) .| IP_MF else IP_OFFMASK .& ofo in
  is_u 16 tmp ∧ (tmp .& IP_OFFMASK) = ofo ∧ Z.testbit tmp 13 = mf.
Proof.
  intros Ho. assert ((IP_OFFMASK .& ofo) = ofo) as E.
  { rewrite Z.land_comm. change IP_OFFMASK with (Z.ones 13). rewrite Z.land_ones by lia. by apply Z.mod_small. }
  rewrite E. assert (Z.testbit ofo 13 = false) as Ht by (apply (is_u_testbit 13); [done|lia]).
  destruct mf; cbn zeta.
  - change IP_MF with (1 .<< 13). rewrite Z.lor_spec, Ht. change (Z.testbit (1 .<< 13) 13) with true.
    split; [|split; [|done]].
    + apply is_u_lor; [lia|unfold is_u; lia|done].
    + rewrite Z.land_lor_distr_l, (Z.land_comm ofo), E. change ((1 .<< 13) .& IP_OFFMASK) with 0. apply Z.lor_0_r.
  - rewrite Ht, Z.land_comm, E. split; [unfold is_u; lia|done].
Qed.

(** ** One fragment *)

Lemma frag_hdr_spec h mtu ofo left fragsize a : hdr_ok h → 0 <= ofo < 8192 → 0 < fragsize <= 65515 →
  let hf := frag_hdr h mtu 0 ofo left fragsize a in
  hdr_ok hf ∧ verifies (hdr_bytes hf) ∧ hf.(_v_hl) = h.(_v_hl) ∧ hf.(iph_src) = h.(iph_src) ∧
  hf.(iph_dest) = h.(iph_dest) ∧ hf.(_id) = h.(_id) ∧ lwip_htons hf.(_len) = fragsize + IP_HLEN ∧
  IPH_OFFSET_BYTES hf = 8 * ofo ∧ (hf.(_offset) .& lwip_htons IP_MF =? 0) = (left <=? mtu - IP_HLEN).
Proof.
  intros Hh Ho Hf. unfold frag_hdr. change (negb (0 =? 0)) with false. rewrite orb_false_r.
  destruct (offset_value ofo (negb (left <=? mtu - IP_HLEN)) Ho) as (Hu & Hm & Ht). cbn zeta in Hu, Hm, Ht.
  set (tmp := if negb (left <=? mtu - IP_HLEN) then _ else _) in *. clearbody tmp.
  rewrite (u16_small (fragsize + IP_HLEN)) by (unfold is_u, IP_HLEN; lia).
  set (h0 := h <| _offset := lwip_htons tmp |> <| _len := lwip_htons (fragsize + IP_HLEN) |>).
  assert (is_u 16 (fragsize + IP_HLEN)) as Hl by (unfold is_u, IP_HLEN; lia).
  assert (hdr_ok h0) as H0.
  { pose proof (htons_u16 _ Hu). pose proof (htons_u16 _ Hl). destruct Hh. by split. }
  destruct (hdr_chksum_verifies a h0 H0) as [Hok Hv]. cbv zeta. fold h0.
  set (hf := h0 <| _chksum := 0 |> <| _chksum := _ |>).
  change (h0 <| _chksum := _ |>) with hf in Hok, Hv.
  split_and!; try done.
  - cbn. by rewrite htons_twice.
  - unfold IPH_OFFSET_BYTES. cbn. rewrite htons_twice, Hm by done. rewrite u16_small by (unfold is_u; lia). lia.
  - cbn. rewrite htons_mf, Ht. apply negb_involutive.
Qed.

Lemma frag_piece k h mtu ofo left fragsize a ps data : hdr_ok h → IPH_HL_BYTES h = IP_HLEN →
  (h.(iph_src), h.(iph_dest), h.(_id)) = k → 0 <= ofo → 0 < fragsize → 8 * ofo + fragsize <= 65515 →
  chain_ok ps → payload ps = data → zlen data = fragsize →
  let p := (a, hdr_bytes (frag_hdr h mtu 0 ofo left fragsize a)) :: ps in
  fragment_ok k p ∧ frag_start p = 8 * ofo ∧ frag_end p = 8 * ofo + fragsize ∧
  more_fragments p = negb (left <=? mtu - IP_HLEN) ∧ zdrop IP_HLEN (payload p) = data.
Proof.
  intros Hh Hl Hk Ho Hf He Hps Hd Hz p.
  destruct (frag_hdr_spec h mtu ofo left fragsize a Hh) as (Hok & Hv & F1 & F2 & F3 & F4 & F5 & F6 & F7); [lia..|].
  set (hf := frag_hdr _ _ _ _ _ _ _) in *.
  assert (hdr_of (first_bytes p) = hf) as Ehdr.
  { cbn [first_bytes p snd]. rewrite <- (app_nil_r (hdr_bytes hf)). by apply hdr_of_bytes. }
  assert (frag_start p = 8 * ofo) as Es by (unfold frag_start; by rewrite Ehdr).
  assert (frag_end p = 8 * ofo + fragsize) as Ee by (unfold frag_end; rewrite Es, Ehdr, F5; lia).
  split; [|split_and!; try done].
  - split; rewrite ?Ehdr, ?Ee, ?Es; unfold IP_HLEN in *.
    + constructor; [|done]. split; [by apply hdr_bytes_bytes|done].
    + done.
    + unfold IPH_HL_BYTES. by rewrite F1.
    + unfold frag_key. by rewrite Ehdr, F2, F3, F4.
    + lia.
    + lia.
  - unfold more_fragments. by rewrite Ehdr, F7.
Qed.

(** ** All of them *)

Section Cutting.
Context (mtu nfb : Z) (Hnfb : 0 < nfb) (Hmtu : 8 * nfb <= mtu - IP_HLEN < 8 * nfb + 8).

(** The bytes that are sent behind a fragment which already claims to be the last: those
    that are too many for a fragment of whole units, but not for the MTU. *)
Definition tail_of (left : Z) : Z :=
  if (left <=? 8 * nfb) || (mtu - IP_HLEN - 8 * nfb <? left mod (8 * nfb)) then 0 else left mod (8 * nfb).

Lemma tail_small left : left <= 8 * nfb → tail_of left = 0.
Proof. intros Hl. unfold tail_of. by rewrite (proj2 (Z.leb_le _ _)). Qed.

Lemma tail_early left : 8 * nfb < left <= mtu - IP_HLEN → tail_of left = left - 8 * nfb.
Proof.
  intros Hl. unfold tail_of. rewrite (proj2 (Z.leb_gt left _)) by lia.
  assert (left mod (8 * nfb) = left - 8 * nfb) as ->.
  { replace left with (left - 8 * nfb + 1 * (8 * nfb)) at 1 by lia. rewrite Z.mod_add by lia. apply Z.mod_small. lia. }
  by rewrite (proj2 (Z.ltb_ge _ _)) by lia.
Qed.

Lemma tail_next left : mtu - IP_HLEN < left → tail_of (left - 8 * nfb) = tail_of left.
Proof.
  intros Hl. unfold tail_of.
  assert ((left - 8 * nfb) mod (8 * nfb) = left mod (8 * nfb)) as Em.
  { replace (left - 8 * nfb) with (left + (-1) * (8 * nfb)) by lia. apply Z.mod_add. lia. }
  rewrite Em, (proj2 (Z.leb_gt left _)) by lia. cbn [orb].
  destruct (Z.leb_spec (left - 8 * nfb) (8 * nfb)) as [H|H]; [|done]. cbn [orb].
  destruct (Z.ltb_spec (mtu - IP_HLEN - 8 * nfb) (left mod (8 * nfb))) as [|Hg]; [done|].
  destruct (Z.eq_dec (left - 8 * nfb) (8 * nfb)) as [E|E].
  - rewrite <- Em, E, Z.mod_same by lia. done.
  - rewrite Z.mod_small in Em by lia. lia.
Qed.

Context (h : ip_hdr) (Hh : hdr_ok h) (Hhl : IPH_HL_BYTES h = IP_HLEN).
Context (k : Z * Z * Z) (Hk : (h.(iph_src), h.(iph_dest), h.(_id)) = k).

(** A packet that leaves: a fragment of [h]'s datagram, with a header of its own that
    verifies and says its length, within the MTU. *)
Definition leaves (p : chain) : Prop :=
  fragment_ok k p ∧ verifies (first_bytes p) ∧ zlen (first_bytes p) = IP_HLEN ∧ chain_len p <= mtu ∧
  lwip_htons (hdr_of (first_bytes p)).(_len) = chain_len p ∧
  ∃ l o c, hdr_of (first_bytes p) = h <| _len := l |> <| _offset := o |> <| _chksum := c |>.

Definition data_of (p : chain) : list Z := zdrop IP_HLEN (payload p).

Lemma one_piece a left ofo fragsize p poff : chain_ok p → 0 <= poff <= zlen (first_bytes p) → 0 < fragsize →
  fragsize <= 8 * nfb → fragsize <= chain_len p - poff → zlen p <= MEMP_NUM_FRAG_PBUF → 0 <= ofo → 8 * ofo + fragsize <= 65515 →
  ∃ ps p' poff', mirror p poff fragsize MEMP_NUM_FRAG_PBUF = Ok (ps, p', poff') ∧
    (let q := (a, hdr_bytes (frag_hdr h mtu 0 ofo left fragsize a)) :: ps in
     leaves q ∧ frag_start q = 8 * ofo ∧ frag_end q = 8 * ofo + fragsize ∧ more_fragments q = negb (left <=? mtu - IP_HLEN) ∧
     data_of q = ztake fragsize (zdrop poff (payload p))) ∧
    zdrop poff' (payload p') = zdrop fragsize (zdrop poff (payload p)) ∧ 0 <= poff' <= zlen (first_bytes p') ∧ chain_ok p' ∧
    zlen p' <= MEMP_NUM_FRAG_PBUF ∧ chain_len p' - poff' = chain_len p - poff - fragsize.
Proof.
  intros Hp Ho Hf Hs Hle Hz Hofo He.
  destruct (mirror_spec p poff fragsize MEMP_NUM_FRAG_PBUF Hp Ho) as (ps & p' & poff' & Hm & H1 & H2 & H3 & H4 & H5 & H6 & H7); [lia..|].
  exists ps, p', poff'. split; [done|].
  assert (zlen (ztake fragsize (zdrop poff (payload p))) = fragsize) as Hzt.
  { apply zlen_ztake. rewrite zlen_zdrop; unfold chain_len in *; lia. }
  destruct (frag_piece k h mtu ofo left fragsize a ps _ Hh Hhl Hk Hofo Hf He H7 H1 Hzt) as (F1 & F2 & F3 & F4 & F5).
  destruct (frag_hdr_spec h mtu ofo left fragsize a Hh) as (G1 & G2 & _ & _ & _ & _ & G3 & _ & _); [lia..|].
  set (hf := frag_hdr _ _ _ _ _ _ _) in *. set (q := (a, hdr_bytes hf) :: ps) in *.
  assert (hdr_of (first_bytes q) = hf) as Eq.
  { cbn [first_bytes q snd]. rewrite <- (app_nil_r (hdr_bytes hf)). by apply hdr_of_bytes. }
  assert (chain_len q = IP_HLEN + fragsize) as El by (unfold q; rewrite chain_len_cons; unfold chain_len; rewrite H1, Hzt; done).
  split.
  - split_and!; try done. split_and!; try done.
    + rewrite El. lia.
    + rewrite Eq, El, G3. lia.
    + rewrite Eq. unfold hf, frag_hdr. do 3 eexists. reflexivity.
  - split_and!; try done; try lia.
    rewrite H2. unfold zdrop. rewrite drop_drop. f_equal. lia.
Qed.

Lemma frag_loop_last fuel a ram p poff left ofo : chain_ok p → 0 <= poff <= zlen (first_bytes p) → 0 < left <= 8 * nfb →
  chain_len p - poff = left → zlen p <= MEMP_NUM_FRAG_PBUF → 8 * nfb < 65536 → 0 <= ofo → 8 * ofo + left <= 65515 →
  ∃ z, frag_loop (S fuel) (Some a :: ram) h mtu nfb 0 p poff left ofo = Ok ([z], ERR_OK) ∧
    leaves z ∧ frag_start z = 8 * ofo ∧ frag_end z = 8 * ofo + left ∧ more_fragments z = false ∧ data_of z = zdrop poff (payload p).
Proof.
  intros Hp Ho Hl Hcl Hz Hn Hofo He. cbn [frag_loop]. rewrite (proj2 (Z.eqb_neq left 0)) by lia.
  rewrite (u16_small (nfb * 8)) by (unfold is_u; lia). rewrite Z.min_l by lia.
  destruct (one_piece a left ofo left p poff Hp Ho) as (ps & p' & poff' & -> & (H1 & H2 & H3 & H4 & H5) & _); [lia..|].
  rewrite Z.sub_diag. change (u16 0) with 0. destruct fuel; cbn [frag_loop mbind res_bind]; rewrite Z.eqb_refl; cbn [mbind res_bind].
  all: eexists; split; [done|]; split_and!; try done; [rewrite H4, (proj2 (Z.leb_le _ _)) by lia; done|].
  all: rewrite H5; apply ztake_all; rewrite zlen_zdrop; [unfold chain_len in Hcl; lia|].
  all: split; [lia|]; unfold chain_len in Hcl; lia.
Qed.

Lemma frag_loop_spec fuel ram p poff left ofo addrs : chain_ok p → 0 <= poff <= zlen (first_bytes p) → 0 < left →
  chain_len p - poff = left → zlen p <= MEMP_NUM_FRAG_PBUF → 8 * nfb < 65536 → 0 <= ofo → 8 * ofo + left <= 65515 →
  left <= Z.of_nat fuel → ram = Some <$> addrs → left <= 8 * nfb * zlen addrs →
  ∃ ps z rest, frag_loop fuel ram h mtu nfb 0 p poff left ofo = Ok (ps ++ z :: rest, ERR_OK) ∧
    Forall leaves (ps ++ z :: rest) ∧ consecutive (8 * ofo) (ps ++ z :: rest) ∧
    Forall (λ q, more_fragments q = true) ps ∧ more_fragments z = false ∧
    frag_end z = 8 * ofo + left - tail_of left ∧ concat (data_of <$> ps ++ z :: rest) = zdrop poff (payload p) ∧
    zlen (concat (data_of <$> rest)) = tail_of left ∧ (tail_of left = 0 → rest = []).
Proof.
  intros Hp Ho Hl Hcl Hz Hn. revert ram p poff left ofo addrs Hp Ho Hl Hcl Hz.
  induction fuel as [|fuel IH]; intros ram p poff left ofo addrs Hp Ho Hl Hcl Hz Hofo He Hfuel Hram Haddrs; [lia|].
  destruct addrs as [|a addrs]; [change (zlen []) with 0 in Haddrs; lia|]. subst ram. rewrite fmap_cons, zlen_cons in *.
  destruct (Z.le_gt_cases left (8 * nfb)) as [Hs|Hs].
  { destruct (frag_loop_last fuel a (Some <$> addrs) p poff left ofo Hp Ho) as (z & Hz' & H1 & H2 & H3 & H4 & H5); [lia..|].
    exists [], z, []. rewrite (tail_small left) by done. cbn [app fmap list_fmap concat]. rewrite app_nil_r.
    split_and!; try done; [by constructor|lia]. }
  cbn [frag_loop]. rewrite (proj2 (Z.eqb_neq left 0)) by lia.
  rewrite (u16_small (nfb * 8)) by (unfold is_u; lia). rewrite Z.min_r by lia.
  destruct (one_piece a left ofo (nfb * 8) p poff Hp Ho) as (ps & p' & poff' & -> & (H1 & H2 & H3 & H4 & H5) & H6 & H7 & H8 & H9 & H10); [lia..|].
  set (q := (a, _) :: ps) in *. rewrite !u16_small by (unfold is_u; lia).
  assert (chain_len p' - poff' = left - nfb * 8) as Hcl' by lia.
  assert (ztake (nfb * 8) (zdrop poff (payload p)) ++ zdrop (nfb * 8) (zdrop poff (payload p)) = zdrop poff (payload p)) as Esplit
    by (unfold ztake, zdrop; apply take_drop).
  destruct (Z.le_gt_cases left (mtu - IP_HLEN)) as [He2|He2].
  - destruct addrs as [|a2 addrs]; [change (zlen []) with 0 in Haddrs; lia|]. rewrite fmap_cons.
    destruct fuel as [|fuel]; [lia|].
    destruct (frag_loop_last fuel a2 (Some <$> addrs) p' poff' (left - nfb * 8) (ofo + nfb) H8 H7) as (y & -> & Y1 & Y2 & Y3 & Y4 & Y5); [lia..|].
    cbn [mbind res_bind]. exists [], q, [y]. rewrite tail_early by lia. cbn [app fmap list_fmap concat]. rewrite !app_nil_r.
    split_and!; try done.
    + constructor; [done|]. by constructor.
    + cbn [consecutive]. split; [done|]. split; [lia|done].
    + by rewrite H4, (proj2 (Z.leb_le _ _)) by lia.
    + lia.
    + by rewrite H5, Y5, H6.
    + rewrite Y5, H6, zlen_zdrop; rewrite zlen_zdrop; unfold chain_len in Hcl; lia.
    + lia.
  - destruct (IH (Some <$> addrs) p' poff' (left - nfb * 8) (ofo + nfb) addrs H8 H7) as (qs & z & rest & -> & Q1 & Q2 & Q3 & Q4 & Q5 & Q6 & Q7 & Q8); [lia..|done|lia|].
    replace (left - nfb * 8) with (left - 8 * nfb) in * by lia. rewrite tail_next in * by lia.
    cbn [mbind res_bind]. exists (q :: qs), z, rest. cbn [app]. split_and!; try done.
    + by constructor.
    + cbn [consecutive]. split; [done|]. rewrite H3. by replace (8 * ofo + nfb * 8) with (8 * (ofo + nfb)) by lia.
    + constructor; [|done]. by rewrite H4, (proj2 (Z.leb_gt _ _)) by lia.
    + rewrite Q5. lia.
    + rewrite fmap_cons. cbn [concat]. by rewrite Q6, H5, H6.
Qed.

End Cutting.

(** ** There and back *)

(** The header is in the first twenty bytes, wherever the first link ends. *)
Lemma hdr_of_app b c : (20 <= length b)%nat → hdr_of (b ++ c) = hdr_of b.
Proof.
  intros Hb. unfold hdr_of. rewrite !get_app_l by lia. unfold slice.
  rewrite !drop_app_le, !take_app_le by (rewrite ?length_drop; lia). done.
Qed.

Lemma hdr_first p : IP_HLEN <= zlen (first_bytes p) → hdr_of (first_bytes p) = hdr_of (payload p).
Proof.
  destruct p as [|q p]; [done|]. unfold IP_HLEN, zlen. cbn [first_bytes]. intros Hz. rewrite payload_cons, hdr_of_app; [done|lia].
Qed.

(** The packet as it is received: the same bytes, in a chain of the receiver's whose first
    link holds the header. *)
Definition same_packet (s r : chain) : Prop := payload r = payload s ∧ chain_ok r ∧ IP_HLEN <= zlen (first_bytes r).

Lemma same_hdr s r : IP_HLEN <= zlen (first_bytes s) → same_packet s r → hdr_of (first_bytes r) = hdr_of (first_bytes s).
Proof. intros Hs (E & _ & Hr). by rewrite !hdr_first, E. Qed.

Lemma same_fragment k s r : fragment_ok k s → same_packet s r →
  fragment_ok k r ∧ frag_start r = frag_start s ∧ frag_end r = frag_end s ∧ more_fragments r = more_fragments s ∧ data_of r = data_of s.
Proof.
  intros Hs Hr. pose proof (same_hdr s r (fo_first _ _ Hs) Hr) as E. destruct Hs as [H1 H2 H3 H4 H5 H6], Hr as (Hp & Hc & Hf).
  unfold frag_end, frag_start, frag_key, more_fragments, data_of in *. rewrite E, Hp. split; [|done].
  split; unfold frag_end, frag_start, frag_key in *; rewrite ?E; done.
Qed.

Lemma same_pieces k ps z rs : Forall (fragment_ok k) (ps ++ [z]) → consecutive 0 (ps ++ [z]) →
  Forall (λ p, more_fragments p = true) ps → more_fragments z = false → Forall2 same_packet (ps ++ [z]) rs →
  ∃ rs' rz, rs = rs' ++ [rz] ∧ pieces k rs' rz ∧ frag_end rz = frag_end z ∧ data_of <$> rs = data_of <$> ps ++ [z] ∧
    hdr_of (first_bytes (first_of rs' rz)) = hdr_of (first_bytes (first_of ps z)).
Proof.
  intros Hok Hc Hm Hl Hs. apply Forall2_app_inv_l in Hs as (rs' & l & Hs1 & Hs2 & ->).
  apply Forall2_cons_inv_l in Hs2 as (rz & l' & Hz & Hl' & ->). apply Forall2_nil_inv_l in Hl' as ->.
  exists rs', rz. split; [done|]. pose proof (same_fragment k z rz) as Fz. apply Forall_app in Hok as [Hok Hokz].
  rewrite Forall_singleton in Hokz. destruct (Fz Hokz Hz) as (Z1 & Z2 & Z3 & Z4 & Z5). clear Fz.
  split; [|split; [done|split]].
  - split.
    + apply Forall_app. split; [|by constructor]. clear -Hok Hs1. induction Hs1 as [|s r ss rs Hsr _ IH]; constructor.
      * inversion_clear Hok. by apply (same_fragment k s).
      * inversion_clear Hok. by apply IH.
    + revert Hc. generalize 0. clear -Hok Hs1 Z1 Z2 Z3. induction Hs1 as [|s r ss rs Hsr _ IH]; intros e; cbn [app consecutive].
      * by rewrite Z2.
      * inversion_clear Hok as [|?? Hs Hok']. destruct (same_fragment k s r Hs Hsr) as (_ & -> & -> & _). intros [-> Hc]. split; [done|]. by apply IH.
    + clear -Hok Hs1 Hm. induction Hs1 as [|s r ss rs Hsr _ IH]; constructor.
      * inversion_clear Hok as [|?? Hs Hok']. inversion_clear Hm as [|?? Hms Hm']. by destruct (same_fragment k s r Hs Hsr) as (_ & _ & _ & -> & _).
      * inversion_clear Hok. inversion_clear Hm. by apply IH.
    + by rewrite Z4.
  - rewrite !fmap_app. cbn [fmap list_fmap]. rewrite Z5. f_equal. clear -Hok Hs1.
    induction Hs1 as [|s r ss rs Hsr _ IH]; [done|]. inversion_clear Hok as [|?? Hs Hok'].
    rewrite !fmap_cons, IH by done. f_equal. by apply (same_fragment k s r).
  - unfold first_of. destruct Hs1 as [|s r ss rs Hsr _]; cbn [hd].
    + apply same_hdr; [apply Hokz|done].
    + inversion_clear Hok as [|?? Hs _]. apply same_hdr; [apply Hs|done].
Qed.

Definition NFB : Z := 172.

(** The datagram the receiver gets when [cut] bytes of the data come. *)
Definition cut_hdr (a : Z) (h : ip_hdr) (cut : Z) : ip_hdr :=
  let h := h <| _len := lwip_htons (cut + IP_HLEN) |> <| _offset := 0 |> in
  h <| _chksum := inet_chksum a (hdr_bytes (h <| _chksum := 0 |>)) |>.

Lemma ip4_frag_spec addrs p h data : hdr_ok h → IPH_HL_BYTES h = IP_HLEN → h.(_offset) = 0 →
  chain_ok p → payload p = hdr_bytes h ++ data → IP_HLEN <= zlen (first_bytes p) → zlen p <= MEMP_NUM_FRAG_PBUF →
  0 < zlen data <= 65515 → zlen data <= 8 * NFB * zlen addrs →
  ∃ ps z rest, ip4_frag (Some <$> addrs) p TUNNEL_MTU = Ok (ps ++ z :: rest, ERR_OK) ∧
    let k := (h.(iph_src), h.(iph_dest), h.(_id)) in
    Forall (leaves TUNNEL_MTU h k) (ps ++ z :: rest) ∧ consecutive 0 (ps ++ z :: rest) ∧
    Forall (λ q, more_fragments q = true) ps ∧ more_fragments z = false ∧
    frag_end z = zlen data - tail_of TUNNEL_MTU NFB (zlen data) ∧ concat (data_of <$> ps ++ z :: rest) = data ∧
    zlen (concat (data_of <$> rest)) = tail_of TUNNEL_MTU NFB (zlen data) ∧
    (tail_of TUNNEL_MTU NFB (zlen data) = 0 → rest = []).
Proof.
  intros Hh Hhl Hoff Hp Hpay Hfirst Hlinks Hdata Haddrs.
  assert (chain_len p = IP_HLEN + zlen data) as Hlen by (unfold chain_len; rewrite Hpay, zlen_app; done).
  assert (hdr_of (first_bytes p) = h) as Eh by (rewrite hdr_first by done; rewrite Hpay; by apply hdr_of_bytes).
  unfold ip4_frag. rewrite Eh, Hhl, Z.eqb_refl. cbn [negb]. rewrite (proj2 (Z.ltb_ge (zlen (first_bytes p)) IP_HLEN)) by done.
  rewrite Hlen, Hoff. replace (IP_HLEN + zlen data - IP_HLEN) with (zlen data) by lia.
  rewrite (u16_small (zlen data)) by (unfold is_u; lia).
  change (lwip_htons 0 .& IP_OFFMASK) with 0. change (lwip_htons 0 .& IP_MF) with 0.
  change (u16 ((TUNNEL_MTU - IP_HLEN) ÷ 8)) with NFB.
  destruct (frag_loop_spec TUNNEL_MTU NFB eq_refl ltac:(by vm_compute) h Hh Hhl _ eq_refl (Z.to_nat (zlen data)) (Some <$> addrs) p IP_HLEN (zlen data) 0 addrs Hp)
    as (ps & z & rest & Hf & H1 & H2 & H3 & H4 & H5 & H6 & H7 & H8); try done; try lia.
  exists ps, z, rest. split; [exact Hf|]. split_and!; try done. by rewrite H6, Hpay, zdrop_app.
Qed.

(** The bytes of a datagram with [n] bytes of data that come in a fragment too many. *)
Definition lost_tail (n : Z) : Z := if (1 <=? n mod 1376) && (n mod 1376 <=? 4) then n mod 1376 else 0.

Lemma tail_lost n : 1376 < n → tail_of TUNNEL_MTU NFB n = lost_tail n.
Proof.
  intros Hn. unfold tail_of, lost_tail. change (8 * NFB) with 1376. change (TUNNEL_MTU - IP_HLEN - 1376) with 4.
  rewrite (proj2 (Z.leb_gt n 1376)) by done. cbn [orb]. pose proof (Z.mod_pos_bound n 1376 ltac:(lia)).
  destruct (Z.ltb_spec 4 (n mod 1376)), (Z.leb_spec 1 (n mod 1376)), (Z.leb_spec (n mod 1376) 4); cbn; lia.
Qed.

Lemma consecutive_prefix e l r : consecutive e (l ++ r) → consecutive e l.
Proof. revert e. induction l as [|x l IH]; intros s; cbn; [done|]. intros [? ?]. eauto. Qed.

(** Fragments with less than a unit of data among them are one at most. *)
Lemma one_late h k s rest : Forall (leaves TUNNEL_MTU h k) rest → consecutive s rest → 0 < s →
  zlen (concat (data_of <$> rest)) <= 4 → (length rest <= 1)%nat ∧ Forall (λ q, 0 < frag_start q) rest.
Proof.
  intros Hl Hc Hs Hz. destruct rest as [|x rest]; [split; [cbn; lia|constructor]|]. destruct Hc as [Hx Hc]. apply Forall_cons in Hl as [Hlx Hl].
  assert (∀ q, leaves TUNNEL_MTU h k q → zlen (data_of q) = frag_end q - frag_start q ∧ 0 < zlen (data_of q)) as Hd.
  { intros q (Hok & _ & _ & _ & Hlen & _). pose proof (fo_data _ _ Hok). unfold frag_end in *. rewrite Hlen in *.
    assert (zlen (data_of q) = chain_len q - IP_HLEN); [|lia]. unfold data_of, chain_len, zdrop, zlen in *.
    rewrite length_drop. unfold IP_HLEN in *. lia. }
  destruct (Hd x Hlx) as [D1 D2]. destruct rest as [|y rest]; [split; [cbn; lia|constructor; [lia|constructor]]|].
  exfalso. destruct Hc as [Hy _]. apply Forall_cons in Hl as [Hly _]. destruct (Hd y Hly) as [_ D3].
  rewrite !fmap_cons in Hz. cbn [concat] in Hz. rewrite !zlen_app in Hz.
  pose proof (zlen_nonneg (concat (data_of <$> rest))). pose proof (start_units x). pose proof (start_units y). lia.
Qed.

(** Cutting and putting together again. *)
Lemma cut_and_joined addrs p h data : hdr_ok h → IPH_HL_BYTES h = IP_HLEN → h.(_offset) = 0 →
  chain_ok p → payload p = hdr_bytes h ++ data → IP_HLEN <= zlen (first_bytes p) → zlen p <= MEMP_NUM_FRAG_PBUF →
  TUNNEL_MTU - IP_HLEN < zlen data <= 65515 → zlen data <= 8 * NFB * zlen addrs →
  let k := (h.(iph_src), h.(iph_dest), h.(_id)) in
  let lost := lost_tail (zlen data) in
  ∃ sent late, ip4_frag (Some <$> addrs) p TUNNEL_MTU = Ok (sent ++ late, ERR_OK) ∧
    Forall (leaves TUNNEL_MTU h k) (sent ++ late) ∧ (lost = 0 → late = []) ∧
    ((length late <= 1)%nat ∧ Forall (λ q, 0 < frag_start q) late) ∧
    ∀ recv, Forall2 same_packet sent recv → ∃ rs rz, recv = rs ++ [rz] ∧ pieces k rs rz ∧ rs ≠ [] ∧
      ∀ arrival q, arrival ≡ₚ recv → room_for k rs rz q →
      ∃ q' d a, reass_all arrival q = (q', replicate (length rs) None ++ [Some d], []) ∧
        payload d = hdr_bytes (cut_hdr a h (zlen data - lost)) ++ ztake (zlen data - lost) data ∧
        chain_ok d ∧ IP_HLEN <= zlen (first_bytes d) ∧
        q'.(reassdatagrams) = q.(reassdatagrams) ∧ q'.(ip_reass_pbufcount) = q.(ip_reass_pbufcount).
Proof.
  intros Hh Hhl Hoff Hp Hpay Hfirst Hlinks Hdata Haddrs k lost. unfold TUNNEL_MTU, IP_HLEN in Hdata.
  destruct (ip4_frag_spec addrs p h data Hh Hhl Hoff Hp Hpay Hfirst Hlinks ltac:(lia) Haddrs)
    as (ps & z & rest & Hf & H1 & H2 & H3 & H4 & H5 & H6 & H7 & H8).
  fold k in H1. rewrite tail_lost in H5, H7, H8 by lia. fold lost in H5, H7, H8.
  exists (ps ++ [z]), rest. rewrite <- app_assoc. split; [done|]. split; [done|]. split; [done|]. split.
  { assert (Forall (λ x, frag_start x < frag_end x) (ps ++ z :: rest)) as Hdat.
    { eapply Forall_impl; [exact H1|]. intros s [Hok _]. apply Hok. }
    destruct (consecutive_app 0 ps z rest H2 Hdat) as (Hs0 & _ & Hc). apply Forall_app in H1 as [_ H1].
    apply Forall_cons in H1 as [_ H1]. apply Forall_app in Hdat as [_ Hdat]. apply Forall_cons in Hdat as [Hz _].
    apply (one_late h k (frag_end z) rest H1 Hc); [lia|]. rewrite H7. unfold lost, lost_tail.
    destruct (_ && _) eqn:E; [|lia]. apply andb_true_iff in E as [_ E]. by apply Z.leb_le in E. }
  intros recv Hrecv.
  change (z :: rest) with ([z] ++ rest) in H1, H2, H6. rewrite app_assoc in H1, H2, H6.
  apply Forall_app in H1 as [H1 _]. apply consecutive_prefix in H2.
  assert (Forall (fragment_ok k) (ps ++ [z])) as Hok by (eapply Forall_impl; [exact H1|by intros s []]).
  destruct (same_pieces k ps z recv Hok H2 H3 H4 Hrecv) as (rs & rz & E & Hpc & Hend & Hdat & Hfst).
  exists rs, rz. split; [done|]. split; [done|]. split.
  { intros ->. apply Forall2_length in Hrecv. rewrite E, length_app in Hrecv. cbn in Hrecv.
    destruct ps; [|by cbn in Hrecv; lia]. cbn [app] in H1, H2. apply Forall_singleton in H1 as (_ & _ & _ & Hmtu & Hzl & _).
    destruct H2 as [Hs0 _]. unfold frag_end in H5. rewrite Hs0, Hzl in H5. unfold TUNNEL_MTU, IP_HLEN, lost, lost_tail in *.
    destruct (_ && _) eqn:El; [|lia]. rewrite andb_true_iff, !Z.leb_le in El. Z.div_mod_to_equations. lia. }
  intros arrival q Hperm Hroom. rewrite E in Hperm.
  destruct (reass_in_any_order k rs rz q arrival Hpc Hroom Hperm) as (q' & d & Hr & (Hdc & Hd & a & Ha) & Hq1 & Hq2).
  exists q', d, a. split; [exact Hr|]. split; [|done].
  rewrite Ha, Hend, H5, Hfst. f_equal.
  - assert (leaves TUNNEL_MTU h k (first_of ps z)) as (_ & _ & _ & _ & _ & l & o & c & ->).
    { rewrite Forall_forall in H1. apply H1. unfold first_of. destruct ps; cbn; by left. }
    reflexivity.
  - rewrite <- E. change (λ p0 : chain, zdrop IP_HLEN (payload p0)) with data_of. rewrite Hdat.
    rewrite fmap_app, concat_app in H6. rewrite <- H7. rewrite <- H6 at 1 2. rewrite zlen_app. symmetry.
    replace (_ + zlen (concat (data_of <$> rest)) - _) with (zlen (concat (data_of <$> ps ++ [z]))) by lia.
    by apply ztake_app.
Qed.

(** ** Properties *)

(** A datagram that [ip4_frag] cuts for the tunnel is put together by [ip4_reass] at
    the other end, whatever order the fragments come in, if the queue has room: under the
    sender's header, with its data. When the data is one to four bytes more than a multiple
    of 1376, the last fragment but one already says that it is the last, and when the
    fragments up to that one come, in any order, before the surplus one, what is put
    together lacks the bytes of the surplus one. *)
Theorem frag_reass (addrs : list Z) (p : chain) (h : ip_hdr) (data : list Z) :
  hdr_ok h → IPH_HL_BYTES h = IP_HLEN → h.(_offset) = 0 →
  chain_ok p → payload p = hdr_bytes h ++ data → IP_HLEN <= zlen (first_bytes p) → zlen p <= MEMP_NUM_FRAG_PBUF →
  TUNNEL_MTU - IP_HLEN < zlen data <= 65515 → zlen data <= 8 * NFB * zlen addrs →
  ∃ sent late, ip4_frag (Some <$> addrs) p TUNNEL_MTU = Ok (sent ++ late, ERR_OK) ∧
    Forall (λ s, chain_len s <= TUNNEL_MTU ∧ verifies (first_bytes s)) (sent ++ late) ∧
    let lost := lost_tail (zlen data) in
    (lost = 0 → late = []) ∧
    ∀ recv, Forall2 same_packet sent recv → ∃ rs rz, recv = rs ++ [rz] ∧
      ∀ arrival q, arrival ≡ₚ recv → room_for (h.(iph_src), h.(iph_dest), h.(_id)) rs rz q →
      ∃ q' d a, reass_all arrival q = (q', replicate (length rs) None ++ [Some d], []) ∧
        payload d = hdr_bytes (cut_hdr a h (zlen data - lost)) ++ ztake (zlen data - lost) data ∧
        q'.(reassdatagrams) = q.(reassdatagrams) ∧ q'.(ip_reass_pbufcount) = q.(ip_reass_pbufcount).
Proof.
  intros Hh Hhl Hoff Hp Hpay Hfirst Hlinks Hdata Haddrs.
  destruct (cut_and_joined addrs p h data Hh Hhl Hoff Hp Hpay Hfirst Hlinks Hdata Haddrs) as (sent & late & Hf & Hl & Hlost & _ & Hall).
  exists sent, late. split; [done|]. split.
  { eapply Forall_impl; [exact Hl|]. by intros s (_ & ? & _ & ? & _). }
  split; [done|]. intros recv Hrecv. destruct (Hall recv Hrecv) as (rs & rz & -> & _ & _ & Hr). exists rs, rz. split; [done|].
  intros arrival q Hperm Hroom. destruct (Hr arrival q Hperm Hroom) as (q' & d & a & ? & ? & _ & _ & ?). by exists q', d, a.
Qed.

(** ** Witnesses *)

Definition toy_hdr : ip_hdr := IpHdr 69 0 (lwip_htons 1401) (lwip_htons 7) 0 255 IP_PROTO_UDP 0 0x0200000A 0x0300000A.
Definition toy_packet : chain := [(0x1001, hdr_bytes toy_hdr); (0x2001, replicate 1381 7)].

Lemma toy_hdr_ok : hdr_ok toy_hdr.
Proof. split; vm_compute; split; congruence. Qed.

Lemma same_packet_refl l : chain_check (concat l) = true → forallb (λ s, IP_HLEN <=? zlen (first_bytes s)) l = true → Forall2 same_packet l l.
Proof.
  intros Hc Hf. apply chain_check_ok in Hc. unfold chain_ok in Hc. induction l as [|s l IH]; [constructor|].
  cbn in Hc, Hf. apply Forall_app in Hc as [H1 H2]. apply andb_true_iff in Hf as [F1 F2]. constructor; [|by apply IH].
  split; [done|]. split; [done|]. by apply Z.leb_le.
Qed.

Lemma frag_reass_witness : ∃ s1 s2 q' d,
  ip4_frag (Some <$> [0x5000; 0x6000]) toy_packet TUNNEL_MTU = Ok ([s1; s2], ERR_OK) ∧
  reass_all [s2; s1] reass_init = (q', [None; Some d], []) ∧ zdrop 20 (payload d) = replicate 1381 7.
Proof.
  destruct (frag_reass [0x5000; 0x6000] toy_packet toy_hdr (replicate 1381 7) toy_hdr_ok) as (sent & late & Hf & _ & Hlate & Hall).
  - by vm_compute.
  - by vm_compute.
  - by apply chain_check_ok; vm_compute.
  - by vm_compute.
  - by vm_compute.
  - by vm_compute.
  - by vm_compute.
  - by vm_compute.
  - rewrite Hlate, app_nil_r in Hf by by vm_compute.
    destruct (ip4_frag (Some <$> [0x5000; 0x6000]) toy_packet TUNNEL_MTU) as [[l e]| |] eqn:E; [|discriminate..].
    injection Hf as -> ->. assert (∃ s1 s2, sent = [s1; s2]) as (s1 & s2 & ->).
    { vm_compute in E. injection E as <-. do 2 eexists. reflexivity. }
    assert (Forall2 same_packet [s1; s2] [s1; s2]) as Hs.
    { vm_compute in E. injection E as <- <-. apply same_packet_refl; by vm_compute. }
    destruct (Hall [s1; s2] Hs) as (rs & rz & Hrs & Hr). change [s1; s2] with ([s1] ++ [s2]) in Hrs.
    apply app_inj_tail in Hrs as [<- <-].
    destruct (Hr [s2; s1] reass_init) as (q' & d & a & Hra & Hd & _).
    + constructor.
    + vm_compute in E. injection E as <- <-. split; [done|]. split; [vm_compute; lia|]. split; [by apply not_elem_of_nil|by vm_compute].
    + exists s1, s2, q', d. split; [done|]. split; [exact Hra|]. rewrite Hd. by vm_compute.
Defined.
