(* ===== verification/Icmp.v ===== *)
(** * lwip/core/ipv4/icmp.c: echo replies and error messages

    The answer to an echo request is made of the request itself, its checksum adjusted for
    the one byte that changes; error messages quote the packet they are about. *)
From S2P Require Import Prelude IpProbe Pbuf Netif Chksum Ip4.

Definition ICMP_ER : Z := 0.
Definition ICMP_DUR : Z := 3.
Definition ICMP_ECHO : Z := 8.
Definition ICMP_TE : Z := 11.
Definition ICMP_DUR_PROTO : Z := 2.
Definition ICMP_TE_FRAG : Z := 1.
Definition ICMP_TTL : Z := 255.
Definition PBUF_LINK_HLEN : Z := 14.

(** The headroom of a [PBUF_RAM] buffer of the layer [PBUF_IP]: 34 bytes, aligned. *)
Definition PBUF_IP_ROOM : Z := 36.

(** The sending side with this file's counters. *)
Record icmp := Icmp { icmp_out : ip_out; icmp_stats : stats_proto }.

#[export] Instance icmp_eta : Eta icmp := λ i, Icmp i.(icmp_out) i.(icmp_stats).

(** The adjusted checksum, as the machine loads it: the type goes from 8 to 0. *)
Definition echo_chksum (c : Z) : Z :=
  if c >? lwip_htons (0xFFFF - (ICMP_ECHO .<< 8)) then u16 (c + lwip_htons (ICMP_ECHO .<< 8) + 1)
  else u16 (c + lwip_htons (ICMP_ECHO .<< 8)).

(** The header of the reply, at the address [a]; [opts] are the options it carries. *)
Definition reply_hdr (a src dest : Z) (h : ip_hdr) (opts : list Z) : ip_hdr :=
  let h := h <| iph_src := src |> <| iph_dest := dest |> <| _ttl := ICMP_TTL |> <| _chksum := 0 |> in
  h <| _chksum := inet_chksum a (hdr_bytes h ++ opts) |>.

(** The reply in the chain [p], whose payload begins with the ICMP header and has the [hlen]
    bytes [hdr] in front of it. *)
Definition echo_reply (hdr : list Z) (p : chain) (src dest : Z) : chain :=
  match p with
  | [] => []
  | q :: next =>
    let hlen := zlen hdr in
    let h := reply_hdr (q.1 - hlen) src dest (hdr_of hdr) (zdrop IP_HLEN hdr) in
    let b := [ICMP_ER; q.2.[1]] ++ le_bytes 2 (echo_chksum (le16 q.2.[2] q.2.[3])) ++ zdrop 4 q.2 in
    (q.1 - hlen, hdr_bytes h ++ zdrop IP_HLEN hdr ++ b) :: next
  end.

(** [hdr] is the header of the packet, [p] what follows it, with [room] bytes in front of
    it; [src] and [dest] are the addresses of the packet. *)
Definition icmp_input (ram : list (option Z)) (room : Z) (hdr : list Z) (p : chain) (src dest : Z) (n : lwip_netif)
    (out : err_t) (i : icmp) : res (icmp * list chain) :=
  let i := i <| icmp_stats ::= λ s, s <| st_recv ::= STATS_INC |> |> in
  let lenerr := Ok (i <| icmp_stats ::= λ s, s <| st_lenerr ::= STATS_INC |> |>, []) in
  let icmperr := Ok (i <| icmp_stats ::= λ s, s <| st_err ::= STATS_INC |> |>, []) in
  let hlen := IPH_HL_BYTES (hdr_of hdr) in
  if hlen <? IP_HLEN then lenerr
  else if zlen (first_bytes p) <? 4 then lenerr
  else
    let type := (first_bytes p).[0] in
    if type =? ICMP_ER then Ok (i, [])
    else if type =? ICMP_ECHO then
      if ip4_addr_ismulticast dest then icmperr
      else if ip4_addr_isbroadcast_u32 dest n then icmperr
      else if chain_len p <? 8 then lenerr
      else if negb (inet_chksum_pbuf p =? 0) then Ok (i <| icmp_stats ::= λ s, s <| st_chkerr ::= STATS_INC |> |>, [])
      else
        let send (ram : list (option Z)) (p : chain) :=
          let i := i <| icmp_stats ::= λ s, s <| st_xmit ::= STATS_INC |> |> in
          '(o, pkts, _) ← ip4_output_hdrincl ram (echo_reply (ztake hlen hdr) p dest src) n out i.(icmp_out);
          Ok (i <| icmp_out := o |>, pkts) in
        if (u16 (hlen + PBUF_LINK_HLEN + chain_len p) <? hlen + PBUF_LINK_HLEN) || (room <? hlen + PBUF_LINK_HLEN) then
          if u16 (chain_len p + hlen) <? chain_len p then icmperr
          else
            match ram with
            | Some a :: ram => send ram [(a + hlen, payload p)]
            | _ => icmperr
            end
        else send ram p
    else Ok (i <| icmp_stats ::= λ s, s <| st_proterr ::= STATS_INC |> <| st_drop ::= STATS_INC |> |>, []).

(** A message about the packet [p], whose payload begins with its IP header. *)
Definition icmp_send_response (ram : list (option Z)) (p : chain) (type code : Z) (n : lwip_netif) (out : err_t) (i : icmp)
    : res (icmp * list chain) :=
  let response_pkt_len := Z.min (IP_HLEN + 8) (chain_len p) in
  match ram with
  | Some a :: ram =>
    let iphdr_src := (hdr_of (first_bytes p)).(iph_src) in
    let rest := ztake response_pkt_len (payload p) in
    if ip4_route iphdr_src n then
      let chksum := inet_chksum a ([type; code; 0; 0] ++ replicate 4 0 ++ rest) in
      let q := [(a, [type; code] ++ le_bytes 2 chksum ++ replicate 4 0 ++ rest)] in
      let i := i <| icmp_stats ::= λ s, s <| st_xmit ::= STATS_INC |> |> in
      '(o, pkts, _) ← ip4_output_if ram PBUF_IP_ROOM q None iphdr_src ICMP_TTL 0 IP_PROTO_ICMP n out i.(icmp_out);
      Ok (i <| icmp_out := o |>, pkts)
    else Ok (i <| icmp_out ::= λ o, o <| ip_stats ::= λ s, s <| st_rterr ::= STATS_INC |> |> |>, [])
  | _ => Ok (i, [])
  end.

Definition icmp_dest_unreach (ram : list (option Z)) (p : chain) (t : Z) := icmp_send_response ram p ICMP_DUR t.
Definition icmp_time_exceeded (ram : list (option Z)) (p : chain) (t : Z) := icmp_send_response ram p ICMP_TE t.

(** ** The adjusted sum *)

(** Taking 8 from one word and giving it to the other, with the carry, keeps the sum. *)
Lemma echo_chksum_spec c : is_u 16 c → is_u 16 (echo_chksum c) ∧
  (echo_chksum c = c + 8 ∨ 65527 < c ∧ echo_chksum c = c + 8 - 65535).
Proof.
  unfold is_u. change (2 ^ 16) with 65536. intros Hc. unfold echo_chksum, ICMP_ECHO.
  change (lwip_htons (0xFFFF - (8 .<< 8))) with 65527. change (lwip_htons (8 .<< 8)) with 8. rewrite Z.gtb_ltb, !u16_mod.
  change (2 ^ 16) with 65536. destruct (Z.ltb_spec 65527 c); Z.div_mod_to_equations; lia.
Qed.

Lemma echo_verifies code c0 c1 rest : is_byte code → is_byte c0 → is_byte c1 → is_bytes rest →
  verifies ([ICMP_ECHO; code; c0; c1] ++ rest) →
  verifies ([ICMP_ER; code] ++ le_bytes 2 (echo_chksum (le16 c0 c1)) ++ rest).
Proof.
  intros H1 H2 H3 H4. assert (is_u 16 (le16 c0 c1)) as Hc.
  { rewrite le16_value by done. unfold is_u in *. lia. }
  destruct (echo_chksum_spec (le16 c0 c1) Hc) as [Hu He]. set (v := echo_chksum (le16 c0 c1)) in *.
  assert (is_bytes (le_bytes 2 v)) as Hv by auto with word.
  rewrite verifies_sum by (cbn [app]; repeat (apply Forall_cons_2; [done|]); done).
  rewrite verifies_sum.
  2:{ apply is_bytes_app; [by repeat apply Forall_cons_2|]. by apply is_bytes_app. }
  change (lwords ([ICMP_ER; code] ++ le_bytes 2 v ++ rest)) with (0 + 256 * code + lwords (le_bytes 2 v ++ rest)).
  rewrite lwords_le16 by done.
  change (lwords ([ICMP_ECHO; code; c0; c1] ++ rest)) with (8 + 256 * code + (c0 + 256 * c1 + lwords rest)).
  rewrite le16_value in He by done. pose proof (lwords_nonneg rest H4). unfold is_u in H1, H2, H3, Hu.
  intros (_ & _ & _ & k & Hk). destruct He as [-> |[? ->]]; (split_and!; [lia|lia|lia|]); [exists k|exists (k - 1)]; lia.
Qed.

(** ** The reply *)

Lemma echo_reply_payload h opts p src dest t code c0 c1 rest : hdr_ok h → 4 <= zlen (first_bytes p) →
  payload p = [t; code; c0; c1] ++ rest →
  ∃ a, payload (echo_reply (hdr_bytes h ++ opts) p src dest) =
    hdr_bytes (reply_hdr a src dest h opts) ++ opts ++ [ICMP_ER; code] ++ le_bytes 2 (echo_chksum (le16 c0 c1)) ++ rest.
Proof.
  intros Hh Hf Hp. destruct p as [|[a b] p]; [done|]. cbn [first_bytes snd] in Hf. rewrite payload_cons in Hp. cbn [snd] in Hp.
  destruct b as [|x0 [|x1 [|x2 [|x3 b]]]]; try (unfold zlen in Hf; cbn in Hf; lia).
  cbn [app] in Hp. injection Hp as -> -> -> -> <-. unfold echo_reply. cbn [fst snd].
  exists (a - zlen (hdr_bytes h ++ opts)). rewrite hdr_of_bytes by done. rewrite (zdrop_app IP_HLEN) by done.
  rewrite payload_cons. cbn [snd]. rewrite <- !app_assoc. reflexivity.
Qed.

(** A header with options, its sum taken over both. *)
Lemma reply_hdr_spec a src dest h opts : hdr_ok h → is_bytes opts → zlen opts <= 40 → is_u 32 src → is_u 32 dest →
  let h' := reply_hdr a src dest h opts in
  hdr_ok h' ∧ verifies (hdr_bytes h' ++ opts).
Proof.
  intros Hh Ho Hz Hs Hd. set (h0 := h <| iph_src := src |> <| iph_dest := dest |> <| _ttl := ICMP_TTL |>).
  assert (hdr_ok h0) as H0 by (destruct Hh; by split). assert (hdr_ok (h0 <| _chksum := 0 |>)) as H00 by (destruct H0; by split).
  set (b := hdr_bytes (h0 <| _chksum := 0 |>)). assert (is_bytes b) as Hb by by apply hdr_bytes_bytes.
  assert (is_bytes (b ++ opts)) as Hbo by by apply is_bytes_app.
  assert (reply_hdr a src dest h opts = h0 <| _chksum := lwip_htons (rfc1071 (b ++ opts)) |>) as ->.
  { unfold reply_hdr. change (h0 <| _chksum := lwip_htons (rfc1071 (b ++ opts)) |>) with
      (h0 <| _chksum := 0 |> <| _chksum := lwip_htons (rfc1071 (b ++ opts)) |>).
    rewrite <- (inet_chksum_spec a (b ++ opts)); [done|done|]. rewrite zlen_app. change (zlen b) with 20. lia. }
  set (v := lwip_htons (rfc1071 (b ++ opts))). assert (is_u 16 v) as Hv by by apply htons_u16, rfc1071_u16.
  cbv zeta. split; [destruct H0; by split|]. change (h0 <| _chksum := v |>) with (h0 <| _chksum := 0 |> <| _chksum := v |>).
  rewrite hdr_chksum_bytes. fold b.
  pose proof (stored_verifies (take 10 b) (drop 12 b ++ opts) ltac:(by apply is_bytes_take)
    ltac:(apply is_bytes_app; [by apply is_bytes_drop|done]) ltac:(done)) as Hst.
  assert (take 10 b ++ [0; 0] ++ drop 12 b ++ opts = b ++ opts) as E by reflexivity.
  rewrite E in Hst. rewrite <- !app_assoc. exact Hst.
Qed.

(** What an answer to an echo request is: [h], [opts] are its header, [src] and [dest] its
    addresses, [code] and [rest] what it carries besides its type and its checksum. *)
Definition answers (h : ip_hdr) (opts : list Z) (src dest code : Z) (rest : list Z) (r : chain) : Prop :=
  ∃ h' c', payload r = hdr_bytes h' ++ opts ++ [ICMP_ER; code] ++ c' ++ rest ∧
    hdr_ok h' ∧ verifies (hdr_bytes h' ++ opts) ∧ verifies ([ICMP_ER; code] ++ c' ++ rest) ∧
    h'.(iph_src) = dest ∧ h'.(iph_dest) = src ∧ h'.(_ttl) = ICMP_TTL ∧ h'.(_proto) = h.(_proto) ∧ h'.(_len) = h.(_len) ∧
    h'.(_v_hl) = h.(_v_hl) ∧ h'.(_id) = h.(_id) ∧ h'.(_offset) = h.(_offset).

Lemma echo_reply_answers h opts q src dest code c0 c1 rest : hdr_ok h → is_bytes opts → zlen opts <= 40 →
  is_u 32 src → is_u 32 dest → 4 <= zlen (first_bytes q) → payload q = [ICMP_ECHO; code; c0; c1] ++ rest →
  is_bytes (payload q) → verifies (payload q) →
  answers h opts src dest code rest (echo_reply (hdr_bytes h ++ opts) q dest src).
Proof.
  intros Hh Ho Hz Hs Hd Hf Hq Hb Hv. destruct (echo_reply_payload h opts q dest src ICMP_ECHO code c0 c1 rest Hh Hf Hq) as [x Hx].
  destruct (reply_hdr_spec x dest src h opts Hh Ho Hz Hd Hs) as [R1 R2]. rewrite Hq in Hb, Hv.
  apply Forall_app in Hb as [Hb4 Hrb]. rewrite !Forall_cons in Hb4. destruct Hb4 as (_ & B1 & B2 & B3 & _).
  do 2 eexists. split; [exact Hx|]. split_and!; try done. by apply echo_verifies.
Qed.

(** A reply that fits leaves as it is. *)
Lemma echo_reply_sent ram h opts q src dest n out o : chain_len q + IP_HLEN + zlen opts <= n.(n_mtu) →
  4 <= zlen (first_bytes q) →
  let r := echo_reply (hdr_bytes h ++ opts) q dest src in
  ip4_output_hdrincl ram r n out o = Ok (o <| ip_stats ::= λ s, s <| st_xmit ::= STATS_INC |> |>, [r], out).
Proof.
  intros Hfit Hf r. destruct q as [|[a b] q]; [done|]. cbn [first_bytes snd] in Hf. rewrite chain_len_cons in Hfit. cbn [snd] in Hfit.
  assert (∀ f, zlen (hdr_bytes f) = 20) as Hb by done. assert (∀ v, zlen (le_bytes 2 v) = 2) as Hl by done.
  pose proof (zlen_nonneg opts). unfold IP_HLEN in Hfit.
  assert (zlen (first_bytes r) = 20 + zlen opts + zlen b) as Hr.
  { unfold r, echo_reply. cbn [first_bytes snd fst]. rewrite (zdrop_app IP_HLEN) by done. rewrite !zlen_app, Hb, Hl, zlen_zdrop by lia.
    change (zlen [ICMP_ER; b.[1]]) with 2. lia. }
  assert (chain_len r = zlen (first_bytes r) + chain_len q) as Hc by (unfold r; apply chain_len_cons).
  unfold ip4_output_hdrincl. rewrite (proj2 (Z.ltb_ge _ _)) by (unfold IP_HLEN; lia).
  unfold ip4_send. rewrite Z.gtb_ltb, (proj2 (Z.ltb_ge (n_mtu n) _)) by lia. by rewrite andb_false_r.
Qed.

(** ** Properties *)

(** C27: an echo request that arrives whole is answered, whether its buffer has room for the
    headers or has to be copied: the reply is one packet with the addresses exchanged, a
    fresh time to live and a header that verifies, options included; behind it the request
    with its type changed, all else the same, and a checksum that verifies although only
    the difference was put in. *)
Theorem echo_answered (ram : list (option Z)) (a room : Z) (h : ip_hdr) (opts : list Z) (p : chain) (src dest : Z) (n : lwip_netif)
    (out : err_t) (i : icmp) (code c0 c1 : Z) (rest : list Z) :
  hdr_ok h → is_bytes opts → IPH_HL_BYTES h = IP_HLEN + zlen opts → zlen opts <= 40 → is_u 32 src → is_u 32 dest →
  chain_ok p → 4 <= zlen (first_bytes p) → payload p = [ICMP_ECHO; code; c0; c1] ++ rest → 4 <= zlen rest →
  inet_chksum_pbuf p = 0 → ip4_addr_ismulticast dest = false → ip4_addr_isbroadcast_u32 dest n = false →
  chain_len p + IP_HLEN + zlen opts <= n.(n_mtu) <= 65535 →
  ∃ i' r, icmp_input (Some a :: ram) room (hdr_bytes h ++ opts) p src dest n out i = Ok (i', [r]) ∧
    answers h opts src dest code rest r.
Proof.
  intros Hh Ho Hhl Hoz Hs Hd Hp Hf Hpay Hr Hck Hm Hb Hfit. pose proof (payload_bytes p Hp) as Hpb.
  pose proof Hck as Hv. rewrite inet_chksum_pbuf_spec in Hv by done. apply chksum_zero in Hv; [|done].
  pose proof (zlen_nonneg opts).
  assert (chain_len p = 4 + zlen rest) as Hlen by (unfold chain_len; rewrite Hpay, zlen_app; done).
  assert ((first_bytes p).[0] = ICMP_ECHO) as Ht.
  { destruct p as [|[x b] p]; [done|]. cbn [first_bytes snd] in *. rewrite payload_cons in Hpay. cbn [snd] in Hpay.
    destruct b as [|y b]; [done|]. by injection Hpay. }
  assert (ztake (IP_HLEN + zlen opts) (hdr_bytes h ++ opts) = hdr_bytes h ++ opts) as Etake.
  { apply ztake_all. rewrite zlen_app. change (zlen (hdr_bytes h)) with IP_HLEN. lia. }
  unfold icmp_input. rewrite hdr_of_bytes by done.
  rewrite Hhl, (proj2 (Z.ltb_ge (IP_HLEN + zlen opts) _)), (proj2 (Z.ltb_ge (zlen (first_bytes p)) 4)) by lia.
  rewrite Ht. change (ICMP_ECHO =? ICMP_ER) with false. rewrite Z.eqb_refl, Hm, Hb, (proj2 (Z.ltb_ge (chain_len p) 8)) by lia.
  rewrite Hck, Etake. cbn [negb Z.eqb].
  destruct (_ || _).
  - rewrite u16_small by (unfold is_u, IP_HLEN in *; lia). rewrite (proj2 (Z.ltb_ge _ (chain_len p))) by (unfold IP_HLEN; lia).
    assert (payload [(a + (IP_HLEN + zlen opts), payload p)] = payload p) as Ec by apply app_nil_r.
    rewrite echo_reply_sent; [|unfold chain_len; rewrite Ec; fold (chain_len p); lia|cbn [first_bytes snd]; unfold chain_len in Hlen; lia].
    do 2 eexists. split; [reflexivity|]. apply (echo_reply_answers _ _ _ _ _ code c0 c1); rewrite ?Ec; try done.
    cbn [first_bytes snd]. unfold chain_len in Hlen. lia.
  - rewrite echo_reply_sent by (done || lia). do 2 eexists. split; [reflexivity|]. by apply (echo_reply_answers _ _ _ _ _ code c0 c1).
Qed.

(** ** Witnesses *)

Definition toy_netif4 : lwip_netif := LwipNetif [97; 119] 1400 5 0x0300000A 0xFFFFFFFF 0 true.
Definition toy_request : chain := [(0x4014, [8; 0; 0xE7; 0xFB; 0; 1; 0; 2; 16]); (0x5001, [1])].
Definition toy_echo_hdr : ip_hdr := IpHdr 69 0 (lwip_htons 30) (lwip_htons 9) 0 64 IP_PROTO_ICMP 0 0x0200000A 0x0300000A.

Lemma echo_answered_witness : ∃ i' r,
  icmp_input [Some 0x7000] 20 (hdr_bytes toy_echo_hdr) toy_request 0x0200000A 0x0300000A toy_netif4 ERR_OK
    (Icmp (IpOut 0 proto_zero proto_zero) proto_zero) = Ok (i', [r]) ∧
  answers toy_echo_hdr [] 0x0200000A 0x0300000A 0 [0; 1; 0; 2; 16; 1] r ∧ take 4 (drop 20 (payload r)) = [0; 0; 0xEF; 0xFB].
Proof.
  destruct (echo_answered [] 0x7000 20 toy_echo_hdr [] toy_request 0x0200000A 0x0300000A toy_netif4 ERR_OK
    (Icmp (IpOut 0 proto_zero proto_zero) proto_zero) 0 0xE7 0xFB [0; 1; 0; 2; 16; 1]) as (i' & r & E & Hr).
  - split; vm_compute; split; congruence.
  - constructor.
  - by vm_compute.
  - by vm_compute.
  - by vm_compute.
  - by vm_compute.
  - apply chain_check_ok. by vm_compute.
  - by vm_compute.
  - by vm_compute.
  - by vm_compute.
  - by vm_compute.
  - by vm_compute.
  - by vm_compute.
  - split; by vm_compute.
  - exists i', r. rewrite app_nil_r in E. split; [exact E|]. split; [exact Hr|]. vm_compute in E. injection E as _ <-. by vm_compute.
Defined.
