(* ===== verification/Ip4Input.v ===== *)
(** * lwip/core/ipv4/ip4.c: the way in

    What becomes of a packet the interface hands to the stack: the checks, reassembly, and
    the call of the layer above. There is one interface, so the walk along the list of the
    others finds nothing. [stale] is the memory behind a first link too short for the
    header, [raw] what the raw sockets say, [heap k] where the heap puts the buffers of the
    [k]-th message this packet causes. TCP and UDP are the layer above: what they are called
    with is the result, with the header they may still look at. *)
From S2P Require Import Prelude IpProbe Pbuf Netif Chksum Ip4 IpReass IpFrag Icmp.

Inductive raw_input_state := RAW_INPUT_NONE | RAW_INPUT_EATEN | RAW_INPUT_DELIVERED.

(** Who has the packet in the end. *)
Inductive ip_verdict :=
| Freed
| Kept
| Eaten
| Up (proto : Z) (hdr : list Z) (p : chain).

(** All static state of the layer. The counters of fragments are one [struct stats_proto]
    in the code; those that sending moves are in [icmp_out], the others in [is_reass]. *)
Record ip_state := IpState { is_icmp : icmp; is_reass : reass }.

#[export] Instance ip_state_eta : Eta ip_state := λ s, IpState s.(is_icmp) s.(is_reass).

Definition ip_inc (f : stats_proto → stats_proto) (s : ip_state) : ip_state :=
  s <| is_icmp ::= λ i, i <| icmp_out ::= λ o, o <| ip_stats ::= f |> |> |>.

Definition ip4_input_accept (dest : Z) (n : lwip_netif) : bool :=
  netif_is_up n && negb (ip4_addr_isany_val n.(n_addr)) &&
  ((dest =? n.(n_addr)) || ip4_addr_isbroadcast_u32 dest n).

(** [pbuf_realloc] on a chain as a list: links that the new length needs whole stay. *)
Fixpoint trim_loop (rem_len : Z) (p : chain) : chain :=
  match p with
  | q :: next => if rem_len >? zlen q.2 then q :: trim_loop (u16 (rem_len - zlen q.2)) next
                 else [(q.1, ztake rem_len q.2)]
  | [] => []
  end.

Definition chain_realloc (p : chain) (new_len : Z) : chain :=
  if new_len >=? chain_len p then p else trim_loop new_len p.

(** The checks, up to "packet not for us": the packet, trimmed, if it passes them. *)
Definition ip4_input_check (stale : list Z) (p : chain) (n : lwip_netif) (s : ip_state) : ip_state * option chain :=
  let s := ip_inc (λ s, s <| st_recv ::= STATS_INC |>) s in
  let iphdr := hdr_of (first_bytes p ++ stale) in
  if negb (IPH_V iphdr =? 4) then (ip_inc (λ s, s <| st_err ::= STATS_INC |> <| st_drop ::= STATS_INC |>) s, None)
  else
    let iphdr_hlen := IPH_HL_BYTES iphdr in
    let iphdr_len := lwip_htons iphdr.(_len) in
    let p := if iphdr_len <? chain_len p then chain_realloc p iphdr_len else p in
    if (iphdr_hlen >? zlen (first_bytes p)) || (iphdr_len >? chain_len p) || (iphdr_hlen <? IP_HLEN)
    then (ip_inc (λ s, s <| st_lenerr ::= STATS_INC |> <| st_drop ::= STATS_INC |>) s, None)
    else
      let a := match p with q :: _ => q.1 | [] => 0 end in
      if negb (inet_chksum a (ztake iphdr_hlen (first_bytes p)) =? 0)
      then (ip_inc (λ s, s <| st_chkerr ::= STATS_INC |> <| st_drop ::= STATS_INC |>) s, None)
      else
        let netif :=
          if ip4_addr_ismulticast iphdr.(iph_dest) then netif_is_up n && negb (ip4_addr_isany_val n.(n_addr))
          else ip4_input_accept iphdr.(iph_dest) n in
        let drop := (ip_inc (λ s, s <| st_drop ::= STATS_INC |>) s, None) in
        if ip4_addr_isbroadcast_u32 iphdr.(iph_src) n || ip4_addr_ismulticast iphdr.(iph_src) then drop
        else if negb netif then drop
        else (s, Some p).

(** The messages about abandoned datagrams. *)
Fixpoint send_events (heap : nat → list (option Z)) (k : nat) (evs : list ip_event) (n : lwip_netif) (out : err_t) (s : ip_state)
    : res (ip_state * list chain * nat) :=
  match evs with
  | [] => Ok (s, [], k)
  | TimeExceeded p :: evs =>
    '(i, pkts) ← icmp_time_exceeded (heap k) p ICMP_TE_FRAG n out s.(is_icmp);
    '(s, pkts', k) ← send_events heap (S k) evs n out (s <| is_icmp := i |>);
    Ok (s, pkts ++ pkts', k)
  end.

(** The layer above: [p] begins with the header, [room] bytes are in front of it; [src] and
    [dest] are the addresses of the packet that came. *)
Definition ip4_input_deliver (heap : nat → list (option Z)) (k : nat) (room : Z) (raw : raw_input_state) (p : chain)
    (iphdr_hlen src dest : Z) (n : lwip_netif) (out : err_t) (s : ip_state) : res (ip_state * list chain * ip_verdict) :=
  let hdr := ztake iphdr_hlen (first_bytes p) in
  let proto := (hdr_of (first_bytes p)).(_proto) in
  match raw with
  | RAW_INPUT_EATEN => Ok (s, [], Eaten)
  | _ =>
    let q := pbuf_remove_header iphdr_hlen p in
    if proto =? IP_PROTO_UDP then Ok (s, [], Up IP_PROTO_UDP hdr q)
    else if proto =? IP_PROTO_TCP then Ok (s, [], Up IP_PROTO_TCP hdr q)
    else if proto =? IP_PROTO_ICMP then
      '(i, pkts) ← icmp_input (heap k) (room + iphdr_hlen) hdr q src dest n out s.(is_icmp);
      Ok (s <| is_icmp := i |>, pkts, Freed)
    else
      match raw with
      | RAW_INPUT_DELIVERED => Ok (s, [], Freed)
      | _ =>
        '(i, pkts) ←
          (if negb (ip4_addr_isbroadcast_u32 dest n) && negb (ip4_addr_ismulticast dest)
           then icmp_dest_unreach (heap k) p ICMP_DUR_PROTO n out s.(is_icmp)
           else Ok (s.(is_icmp), []));
        Ok (ip_inc (λ s, s <| st_proterr ::= STATS_INC |> <| st_drop ::= STATS_INC |>) (s <| is_icmp := i |>), pkts, Freed)
      end
  end.

Definition is_fragment (h : ip_hdr) : bool := negb ((h.(_offset) .& lwip_htons (IP_OFFMASK .| IP_MF)) =? 0).

Definition ip4_input (heap : nat → list (option Z)) (room : Z) (raw : raw_input_state) (stale : list Z) (p : chain)
    (n : lwip_netif) (out : err_t) (s : ip_state) : res (ip_state * list chain * ip_verdict) :=
  match ip4_input_check stale p n s with
  | (s, None) => Ok (s, [], Freed)
  | (s, Some p) =>
    let iphdr := hdr_of (first_bytes p) in
    let up k p s := ip4_input_deliver heap k room raw p (IPH_HL_BYTES iphdr) iphdr.(iph_src) iphdr.(iph_dest) n out s in
    if is_fragment iphdr then
      let '(r, d, evs) := ip4_reass p s.(is_reass) in
      '(s, pkts, k) ← send_events heap 0 evs n out (s <| is_reass := r |>);
      match d with
      | None => Ok (s, pkts, Kept)
      | Some d => '(s, pkts', v) ← up k d s; Ok (s, pkts ++ pkts', v)
      end
    else up 0%nat p s
  end.

(** ** Trimming *)

Lemma trim_loop_spec n p : chain_ok p → 0 <= n < 65536 →
  payload (trim_loop n p) = ztake n (payload p) ∧ first_bytes (trim_loop n p) = ztake n (first_bytes p) ∧
  chain_ok (trim_loop n p) ∧ zlen (trim_loop n p) <= zlen p.
Proof.
  intros Hp. revert n. induction Hp as [|q p [Hq Hz] Hp IH]; intros n Hn; cbn [trim_loop first_bytes].
  { change (payload []) with (@nil Z). unfold ztake. rewrite !take_nil. split_and!; [done|done|constructor|lia]. }
  rewrite !payload_cons, Z.gtb_ltb, !zlen_cons. pose proof (zlen_nonneg q.2). pose proof (zlen_nonneg p).
  destruct (Z.ltb_spec (zlen q.2) n) as [Hlt|Hge].
  - rewrite u16_small by (unfold is_u; lia). destruct (IH (n - zlen q.2) ltac:(lia)) as (H1 & H2 & H3 & H4).
    rewrite payload_cons, H1, ztake_app_ge, zlen_cons by lia. cbn [first_bytes]. rewrite (ztake_all q.2) by lia.
    split_and!; [done|done|by constructor|lia].
  - rewrite payload_cons. cbn [snd first_bytes]. rewrite ztake_app_le by lia. change (payload []) with (@nil Z).
    rewrite app_nil_r, zlen_cons. change (zlen []) with 0. split_and!; [done|done| |lia].
    constructor; [|constructor]. cbn [snd]. split; [by apply is_bytes_take|]. rewrite zlen_ztake by lia. lia.
Qed.

(** Where the packet's own length asks for it. *)
Lemma trimmed_spec n p : chain_ok p → 0 <= n < 65536 →
  let p' := if n <? chain_len p then chain_realloc p n else p in
  payload p' = ztake n (payload p) ∧ (n <= chain_len p → first_bytes p' = ztake n (first_bytes p)) ∧ chain_ok p' ∧ zlen p' <= zlen p.
Proof.
  intros Hp Hn. unfold chain_realloc. rewrite Z.geb_leb. destruct (Z.ltb_spec n (chain_len p)) as [Hl|Hl].
  - rewrite (proj2 (Z.leb_gt _ _)) by done. cbv zeta. destruct (trim_loop_spec n p Hp Hn) as (?&?&?&?). by split_and!.
  - cbv zeta. split_and!; [|intros Hl2|done|done].
    + rewrite ztake_all; [done|]. unfold chain_len in Hl. done.
    + rewrite ztake_all; [done|]. destruct p as [|q p]; cbn [first_bytes]; [change (zlen []) with 0; lia|]. rewrite chain_len_cons in Hl.
      assert (0 <= chain_len p) by apply zlen_nonneg. lia.
Qed.

(** ** The checks *)

(** What a packet [b] has to satisfy to go further, with [p] what is left of it. *)
Record accepted (n : lwip_netif) (b : list Z) (p : chain) : Prop := {
  ac_version : IPH_V (hdr_of b) = 4;
  ac_hlen : IP_HLEN <= IPH_HL_BYTES (hdr_of b) <= zlen (first_bytes p);
  ac_len : lwip_htons (hdr_of b).(_len) <= zlen b;
  ac_chksum : verifies (ztake (IPH_HL_BYTES (hdr_of b)) b);
  ac_up : netif_is_up n = true ∧ n.(n_addr) ≠ IPADDR_ANY;
  ac_dest : (hdr_of b).(iph_dest) = n.(n_addr) ∨ ip4_addr_isbroadcast_u32 (hdr_of b).(iph_dest) n = true ∨
            ip4_addr_ismulticast (hdr_of b).(iph_dest) = true;
  ac_src : ip4_addr_isbroadcast_u32 (hdr_of b).(iph_src) n = false ∧ ip4_addr_ismulticast (hdr_of b).(iph_src) = false;
  ac_trim : payload p = ztake (lwip_htons (hdr_of b).(_len)) b ∧ chain_ok p
}.

Lemma le16_u16 a b : is_byte a → is_byte b → is_u 16 (le16 a b).
Proof. intros Ha Hb. rewrite le16_value by done. unfold is_u in *. lia. Qed.

Lemma len_u16 b : is_bytes b → is_u 16 (lwip_htons (hdr_of b).(_len)).
Proof. intros Hb. apply htons_u16. apply le16_u16; apply is_u_get; (lia || done). Qed.

Lemma hl_u8 h : 0 <= IPH_HL_BYTES h < 256.
Proof. unfold IPH_HL_BYTES. pose proof (u8_bound ((_v_hl h .& 15) * 4)) as Hb. unfold is_u in Hb. lia. Qed.

Lemma netif_for_us dest n :
  (if ip4_addr_ismulticast dest then netif_is_up n && negb (ip4_addr_isany_val n.(n_addr)) else ip4_input_accept dest n) = true ↔
  netif_is_up n = true ∧ n.(n_addr) ≠ IPADDR_ANY ∧
  (dest = n.(n_addr) ∨ ip4_addr_isbroadcast_u32 dest n = true ∨ ip4_addr_ismulticast dest = true) ∧
  (ip4_addr_ismulticast dest = false → dest = n.(n_addr) ∨ ip4_addr_isbroadcast_u32 dest n = true).
Proof.
  unfold ip4_input_accept, ip4_addr_isany_val. destruct (ip4_addr_ismulticast dest).
  - rewrite andb_true_iff, negb_true_iff, Z.eqb_neq. naive_solver.
  - rewrite !andb_true_iff, negb_true_iff, Z.eqb_neq, orb_true_iff, Z.eqb_eq. naive_solver.
Qed.

Lemma hdr_stale p stale : IP_HLEN <= zlen (first_bytes p) → hdr_of (first_bytes p ++ stale) = hdr_of (payload p).
Proof. intros Hf. rewrite <- hdr_first by done. apply hdr_of_app. unfold IP_HLEN, zlen in Hf. lia. Qed.

Lemma first_prefix n p : 0 <= n <= zlen (first_bytes p) → ztake n (first_bytes p) = ztake n (payload p).
Proof. intros Hn. destruct p as [|q p]; [done|]. rewrite payload_cons. by rewrite ztake_app_le. Qed.

Lemma chain_first_ok p : chain_ok p → is_bytes (first_bytes p) ∧ zlen (first_bytes p) < 65536.
Proof. by destruct 1 as [|q p [Hq Hz] _]. Qed.

Lemma header_sum a p n : chain_ok p → 0 <= n <= zlen (first_bytes p) →
  inet_chksum a (ztake n (first_bytes p)) = 0 ↔ verifies (ztake n (payload p)).
Proof.
  intros Hp Hn. destruct (chain_first_ok p Hp) as [Hb Hz]. rewrite inet_chksum_spec.
  - rewrite chksum_zero by by apply is_bytes_take. by rewrite first_prefix.
  - by apply is_bytes_take.
  - rewrite zlen_ztake by done. lia.
Qed.

Definition counted (s : ip_state) : ip_state := ip_inc (λ s, s <| st_recv ::= STATS_INC |>) s.

Lemma check_sound stale p n s s' p' : chain_ok p → is_bytes stale → ip4_input_check stale p n s = (s', Some p') →
  accepted n (payload p) p' ∧ s' = counted s.
Proof.
  intros Hp Hst. unfold ip4_input_check. set (h := hdr_of (first_bytes p ++ stale)).
  destruct (Z.eqb_spec (IPH_V h) 4) as [Hv|]; [|done]. cbn [negb].
  assert (is_u 16 (lwip_htons (_len h))) as Hlen.
  { apply len_u16, is_bytes_app; [by apply chain_first_ok|done]. }
  destruct (trimmed_spec (lwip_htons (_len h)) p Hp Hlen) as (Ht & Hf & Hok & _).
  set (p1 := if lwip_htons (_len h) <? chain_len p then chain_realloc p (lwip_htons (_len h)) else p) in *. clearbody p1.
  destruct (_ || _) eqn:E1; [done|]. rewrite !orb_false_iff, !Z.gtb_ltb, !Z.ltb_ge in E1. destruct E1 as [[E1 E2] E3].
  assert (lwip_htons (_len h) <= chain_len p) as E4.
  { unfold chain_len in E2. rewrite Ht in E2. unfold zlen, ztake in E2. rewrite length_take in E2. unfold chain_len, zlen. lia. }
  pose proof (zlen_nonneg (first_bytes p)). unfold is_u in Hlen. pose proof (hl_u8 h). unfold IP_HLEN in E3.
  assert (IP_HLEN <= zlen (first_bytes p)) as E5.
  { rewrite (Hf E4) in E1. unfold zlen, ztake in E1. rewrite length_take in E1. unfold IP_HLEN, zlen in *. lia. }
  pose proof (hdr_stale p stale E5) as Eh. fold h in Eh. clearbody h. subst h.
  destruct (inet_chksum _ _ =? 0) eqn:E6; [|done]. apply Z.eqb_eq, header_sum in E6; [|done|lia]. cbn [negb].
  destruct (_ || _) eqn:E7; [done|]. apply orb_false_iff in E7.
  match goal with |- (if negb ?x then _ else _) = _ → _ => destruct x eqn:E8; [|done] end. apply netif_for_us in E8 as (U1 & U2 & U3 & _).
  cbn [negb]. intros [= <- <-]. split; [|done]. split; try done.
  rewrite Ht in E6. unfold ztake in E6 |- *. rewrite take_take in E6. rewrite Nat.min_l in E6; [done|].
  unfold chain_len in *. rewrite Ht in E2. rewrite (Hf E4) in E1. unfold zlen, ztake in *. rewrite length_take in E1. lia.
Qed.

(** For a unicast packet, the other way round. *)
Lemma check_complete stale p n : chain_ok p → let b := payload p in let h := hdr_of b in
  IPH_V h = 4 → IP_HLEN <= IPH_HL_BYTES h <= zlen (first_bytes p) → IPH_HL_BYTES h <= lwip_htons h.(_len) <= zlen b →
  verifies (ztake (IPH_HL_BYTES h) b) → netif_is_up n = true → n.(n_addr) ≠ IPADDR_ANY → h.(iph_dest) = n.(n_addr) →
  ip4_addr_ismulticast h.(iph_dest) = false →
  ip4_addr_isbroadcast_u32 h.(iph_src) n = false → ip4_addr_ismulticast h.(iph_src) = false →
  ∃ p', (∀ s, ip4_input_check stale p n s = (counted s, Some p')) ∧ payload p' = ztake (lwip_htons h.(_len)) b ∧ chain_ok p' ∧
    IPH_HL_BYTES h <= zlen (first_bytes p') ∧ zlen p' <= zlen p.
Proof.
  intros Hp b h Hv Hhl Hlen Hck Hup Haddr Hd Hdm Hsb Hsm.
  assert (is_u 16 (lwip_htons (_len h))) as Hu by (apply len_u16; by apply payload_bytes).
  destruct (trimmed_spec (lwip_htons (_len h)) p Hp Hu) as (Ht & Hf & Hok & Hz).
  set (p1 := if lwip_htons (_len h) <? chain_len p then chain_realloc p (lwip_htons (_len h)) else p) in *.
  fold b in Ht. pose proof (hl_u8 h).
  assert (zlen (payload p1) = lwip_htons (_len h)) as Hzp by (rewrite Ht; apply zlen_ztake; unfold is_u in Hu; lia).
  assert (IPH_HL_BYTES h <= zlen (first_bytes p1)) as Hf1.
  { rewrite Hf by (unfold chain_len; fold b; lia). unfold zlen, ztake in *. rewrite length_take. lia. }
  exists p1. split; [intros s|done]. unfold ip4_input_check. rewrite hdr_stale by lia. fold b h p1. clearbody p1.
  rewrite Hv. cbn [negb Z.eqb Pos.eqb].
  rewrite !Z.gtb_ltb, (proj2 (Z.ltb_ge (zlen (first_bytes p1)) _)) by lia.
  rewrite (proj2 (Z.ltb_ge (chain_len p1) _)) by (unfold chain_len; lia).
  rewrite (proj2 (Z.ltb_ge (IPH_HL_BYTES h) _)) by lia. cbn [orb].
  rewrite (proj2 (Z.eqb_eq (inet_chksum _ _) 0)).
  2:{ apply header_sum; [done|lia|]. rewrite Ht. unfold ztake. rewrite take_take, Nat.min_l by lia. done. }
  cbn [negb]. rewrite Hsb, Hsm. cbn [orb]. rewrite (proj2 (netif_for_us _ _)).
  - done.
  - split_and!; try done; [by left|intros _; by left].
Qed.

(** ** Fragments and whole packets *)

Lemma whole_offset o : is_u 16 o → (o .& lwip_htons (IP_OFFMASK .| IP_MF)) = 0 →
  (lwip_htons o .& IP_OFFMASK) = 0 ∧ (o .& lwip_htons IP_MF) = 0.
Proof.
  intros Ho. change (lwip_htons (IP_OFFMASK .| IP_MF)) with 0xFF3F. change (lwip_htons IP_MF) with 0x20. intros H.
  assert (o = (o .>> 6 .& 3) .<< 6) as E.
  { rewrite <- (land_u16 o Ho) at 1. change 0xFFFF with (0xFF3F .| 0xC0). rewrite Z.land_lor_distr_r, H, Z.lor_0_l.
    rewrite Z.shiftl_land, <- Z.ldiff_ones_r, Z.ldiff_land, <- Z.land_assoc by lia. done. }
  change 3 with (Z.ones 2) in E. rewrite Z.land_ones in E by lia.
  pose proof (Z.mod_pos_bound (o .>> 6) (2 ^ 2) ltac:(lia)) as Hb. set (m := (o .>> 6) mod 2 ^ 2) in *. clearbody m.
  assert (m = 0 ∨ m = 1 ∨ m = 2 ∨ m = 3) as Hm by lia. subst o. by destruct Hm as [-> | [-> | [-> | ->]]].
Qed.

Lemma is_fragment_spec p : chain_ok p → is_fragment (hdr_of (first_bytes p)) = false → frag_start p = 0 ∧ more_fragments p = false.
Proof.
  intros Hp. unfold is_fragment. rewrite negb_false_iff, Z.eqb_eq. intros E. apply whole_offset in E as [E1 E2].
  - unfold frag_start, IPH_OFFSET_BYTES, more_fragments. by rewrite E1, E2.
  - apply le16_u16; apply is_u_get; (lia || by apply chain_first_ok).
Qed.

Lemma pieces_fragments k ps z p : pieces k ps z → ps ≠ [] → p ∈ ps ++ [z] → is_fragment (hdr_of (first_bytes p)) = true.
Proof.
  intros Hpc Hne Hp. apply not_false_iff_true. intros E. destruct (in_ok k ps z Hpc p Hp) as [Hc _ _ _ _ _].
  apply is_fragment_spec in E as [E1 E2]; [|done]. apply (is_first k ps z Hpc) in E1; [|done]. apply (is_last_piece k ps z Hpc) in E2; [|done].
  destruct ps as [|x ps]; [done|]. cbn in E1. subst p. subst x. pose proof (all_nodup k _ z Hpc) as Hnd. cbn [app] in Hnd.
  apply NoDup_cons in Hnd as [Hn _]. apply Hn, elem_of_app. right. by left.
Qed.

(** ** Through the tunnel *)

(** A packet as the tunnel hands it over: in a chain of the receiver's, the header in its
    first link, with the padding behind it. *)
Definition tunnelled (s r : chain) : Prop :=
  chain_ok r ∧ IP_HLEN <= zlen (first_bytes r) ∧ ∃ k, (k < 16)%nat ∧ payload r = payload s ++ replicate k 0.

(** The interface takes what comes from [src] to [dest]. *)
Record takes (n : lwip_netif) (src dest : Z) : Prop := {
  tk_up : netif_is_up n = true; tk_addr : n.(n_addr) = dest; tk_any : dest ≠ IPADDR_ANY;
  tk_unicast : ip4_addr_ismulticast dest = false;
  tk_src : ip4_addr_isbroadcast_u32 src n = false ∧ ip4_addr_ismulticast src = false
}.

Lemma check_tunnelled stale s r n : IP_HLEN <= zlen (first_bytes s) → let h := hdr_of (first_bytes s) in
  IPH_V h = 4 → IPH_HL_BYTES h = IP_HLEN → lwip_htons h.(_len) = chain_len s → verifies (ztake IP_HLEN (payload s)) →
  takes n h.(iph_src) h.(iph_dest) → tunnelled s r →
  ∃ t, (∀ st, ip4_input_check stale r n st = (counted st, Some t)) ∧ same_packet s t ∧ zlen t <= zlen r.
Proof.
  intros Hf h Hv Hhl Hlen Hck Htk (Hr & Hfr & k & Hk & Hpay).
  assert (IP_HLEN <= zlen (payload s)) as Hps.
  { destruct s as [|q s]; [done|]. rewrite payload_cons, zlen_app. cbn [first_bytes] in Hf. pose proof (zlen_nonneg (payload s)). lia. }
  assert (hdr_of (payload r) = h) as Eh.
  { unfold h. rewrite hdr_first, Hpay by done. apply hdr_of_app. unfold zlen, IP_HLEN in Hps. lia. }
  destruct Htk as [Hup Haddr Hany Hm [Hs1 Hs2]].
  assert (chain_len s <= zlen (payload r)) as Hle by (unfold chain_len; rewrite Hpay, zlen_app; pose proof (zlen_nonneg (replicate k 0)); lia).
  destruct (check_complete stale r n Hr) as (t & Ht & Hp & Hc & Hft & Hz); rewrite ?Eh; try done.
  - rewrite Hhl. lia.
  - rewrite Hhl, Hlen. unfold chain_len in *. lia.
  - rewrite Hhl, Hpay, ztake_app_le by (unfold IP_HLEN in *; lia). done.
  - by rewrite Haddr.
  - rewrite Eh, Hhl in Hft. rewrite Eh, Hlen, Hpay in Hp. exists t. split; [done|]. split; [|done].
    split; [|done]. rewrite Hp. by apply ztake_app.
Qed.

Definition transport (proto : Z) : Prop := proto = IP_PROTO_UDP ∨ proto = IP_PROTO_TCP.

Lemma deliver_transport heap k room raw p hlen src dest n out s : raw ≠ RAW_INPUT_EATEN →
  transport (hdr_of (first_bytes p)).(_proto) →
  ip4_input_deliver heap k room raw p hlen src dest n out s =
  Ok (s, [], Up (hdr_of (first_bytes p)).(_proto) (ztake hlen (first_bytes p)) (pbuf_remove_header hlen p)).
Proof. intros Hr Hp. unfold ip4_input_deliver. destruct raw; [|done|]; by destruct Hp as [-> | ->]. Qed.

Section Receiving.
Context (heap : nat → list (option Z)) (room : Z) (raw : raw_input_state) (stale : list Z) (n : lwip_netif) (out : err_t).
Context (Hraw : raw ≠ RAW_INPUT_EATEN).

(** Packets in the order of their arrival: what is sent and what becomes of each. *)
Fixpoint receive_all (arrival : list chain) (s : ip_state) : res (ip_state * list chain * list ip_verdict) :=
  match arrival with
  | [] => Ok (s, [], [])
  | p :: arrival =>
    '(s, pkts, v) ← ip4_input heap room raw stale p n out s;
    '(s, pkts', vs) ← receive_all arrival s;
    Ok (s, pkts ++ pkts', v :: vs)
  end.

(** What reassembly makes of a fragment, handed on. *)
Definition verdict_of (d : option chain) : ip_verdict :=
  match d with
  | None => Kept
  | Some d => Up (hdr_of (first_bytes d)).(_proto) (ztake IP_HLEN (first_bytes d)) (pbuf_remove_header IP_HLEN d)
  end.

Definition fragment_in (r t : chain) : Prop :=
  (∀ s, ip4_input_check stale r n s = (counted s, Some t)) ∧ is_fragment (hdr_of (first_bytes t)) = true ∧
  IPH_HL_BYTES (hdr_of (first_bytes t)) = IP_HLEN.

Definition for_transport (d : option chain) : Prop := ∀ d', d = Some d' → transport (hdr_of (first_bytes d')).(_proto).

Lemma fragment_step r t s q d : fragment_in r t → ip4_reass t s.(is_reass) = (q, d, []) → for_transport d →
  ip4_input heap room raw stale r n out s = Ok (counted s <| is_reass := q |>, [], verdict_of d).
Proof.
  intros (Hc & Hf & Hhl) Hr Hd. unfold ip4_input. rewrite Hc, Hf.
  change (is_reass (counted s)) with (is_reass s). rewrite Hr, Hhl. cbn [send_events mbind res_bind].
  destruct d as [d|]; [|done]. rewrite deliver_transport by (done || by apply Hd). done.
Qed.

Lemma receive_fragments arrival ts : Forall2 fragment_in arrival ts → ∀ s q ds, reass_all ts s.(is_reass) = (q, ds, []) →
  Forall for_transport ds → ∃ s', receive_all arrival s = Ok (s', [], verdict_of <$> ds) ∧ s'.(is_reass) = q.
Proof.
  induction 1 as [|r t arrival ts Hrt _ IH]; intros s q ds; cbn [reass_all].
  { intros [= <- <-] _. by exists s. }
  destruct (ip4_reass t (is_reass s)) as [[q1 d] evs] eqn:E. destruct (reass_all ts q1) as [[q2 ds'] evs'] eqn:E'.
  intros [= <- <- Hevs] Hds. apply app_eq_nil in Hevs as [-> ->]. inversion_clear Hds as [|?? Hd Hds'].
  cbn [receive_all]. rewrite (fragment_step r t s q1 d Hrt E Hd). cbn [mbind res_bind].
  assert (is_reass (counted s <| is_reass := q1 |>) = q1) as Eq by reflexivity.
  destruct (IH (counted s <| is_reass := q1 |>) q2 ds' ltac:(by rewrite Eq) Hds') as (s' & -> & Hs). by exists s'.
Qed.

(** A packet that is whole goes up at once. *)
Lemma whole_step r t s : (∀ s, ip4_input_check stale r n s = (counted s, Some t)) → is_fragment (hdr_of (first_bytes t)) = false →
  IPH_HL_BYTES (hdr_of (first_bytes t)) = IP_HLEN → for_transport (Some t) →
  ip4_input heap room raw stale r n out s = Ok (counted s, [], verdict_of (Some t)).
Proof.
  intros Hc Hf Hhl Hd. unfold ip4_input. rewrite Hc, Hf, Hhl. rewrite deliver_transport by (done || by apply Hd). done.
Qed.

End Receiving.

(** The layer above gets [data], with a header of these addresses in front. *)
Definition delivers (src dest proto : Z) (data : list Z) (v : ip_verdict) : Prop :=
  ∃ h q, v = Up proto (hdr_bytes h) q ∧ payload q = data ∧ chain_ok q ∧ hdr_ok h ∧
    h.(iph_src) = src ∧ h.(iph_dest) = dest ∧ h.(_proto) = proto.

Lemma delivers_packet h data d : hdr_ok h → payload d = hdr_bytes h ++ data → chain_ok d → IP_HLEN <= zlen (first_bytes d) →
  hdr_of (first_bytes d) = h ∧ delivers h.(iph_src) h.(iph_dest) h.(_proto) data (verdict_of (Some d)).
Proof.
  intros Hh Hp Hc Hf. assert (hdr_of (first_bytes d) = h) as E by (rewrite hdr_first by done; rewrite Hp; by apply hdr_of_bytes).
  split; [done|]. exists h, (pbuf_remove_header IP_HLEN d). split_and!; try done.
  - unfold verdict_of. rewrite E, first_prefix by (unfold IP_HLEN in *; lia). rewrite Hp. by rewrite (ztake_app IP_HLEN).
  - rewrite payload_removed, Hp by done. by apply zdrop_app.
  - by apply chain_removed.
Qed.

Lemma cut_hdr_ok a h n : hdr_ok h → 0 <= n <= 65515 → hdr_ok (cut_hdr a h n).
Proof.
  intros Hh Hn. set (h1 := h <| _len := lwip_htons (n + IP_HLEN) |> <| _offset := 0 |>).
  assert (is_u 16 (lwip_htons (n + IP_HLEN))) as Hl by (apply htons_u16; unfold is_u, IP_HLEN; lia).
  assert (hdr_ok h1) as H1 by (destruct Hh; by split). by apply (hdr_chksum_verifies a h1).
Qed.

(** Room in the reassembly queue for [m] buffers of a new datagram. *)
Definition queue_room (k : Z * Z * Z) (m : Z) (q : reass) : Prop :=
  0 <= q.(ip_reass_pbufcount) ∧ (length q.(reassdatagrams) < MEMP_NUM_REASSDATA)%nat ∧
  (k ∉ key <$> q.(reassdatagrams)) ∧ q.(ip_reass_pbufcount) + m <= IP_REASS_MAX_PBUFS.

Definition links (l : list chain) : Z := foldr (λ p n, zlen p + n) 0 l.

Lemma links_frags l : links l = frags_clen (frag_of <$> l).
Proof. induction l as [|p l IH]; [done|]. change (links (p :: l)) with (zlen p + links l). by rewrite IH. Qed.

Lemma Forall2_with {A B} (P : A → B → Prop) (Q : B → Prop) l k :
  Forall2 P l k → Forall Q k → Forall2 (λ x y, P x y ∧ Q y) l k.
Proof. induction 1 as [|x y l k Hxy _ IH]; inversion 1; constructor; auto. Qed.

Section Delivery.
Context (heap : nat → list (option Z)) (room : Z) (raw : raw_input_state) (stale : list Z) (n : lwip_netif) (out : err_t).
Context (Hraw : raw ≠ RAW_INPUT_EATEN).

Lemma whole_delivered h data p r s : packet h data p → transport h.(_proto) → takes n h.(iph_src) h.(iph_dest) → tunnelled p r →
  ∃ s' v, receive_all heap room raw stale n out [r] s = Ok (s', [], [v]) ∧
    delivers h.(iph_src) h.(iph_dest) h.(_proto) data v ∧ s'.(is_reass) = s.(is_reass).
Proof.
  intros [Hh Hhl Hoff Hv Hlen Hsum Hc Hp Hf] Hpr Htk Hr. destruct (delivers_packet h data p Hh Hp Hc Hf) as [E _].
  destruct (check_tunnelled stale p r n Hf) as (t & Ht & (Htp & Htc & Htf) & _); rewrite ?E; try done.
  - rewrite Hlen. unfold chain_len. by rewrite Hp, zlen_app.
  - by rewrite Hp, (ztake_app IP_HLEN).
  - rewrite Hp in Htp. destruct (delivers_packet h data t Hh Htp Htc Htf) as [Et Hd].
    exists (counted s), (verdict_of (Some t)). cbn [receive_all].
    rewrite (whole_step heap room raw stale n out Hraw r t s Ht); rewrite ?Et; try done.
    + unfold is_fragment. by rewrite Hoff.
    + by intros d [= <-]; rewrite Et.
Qed.

(** Every fragment passes the checks. *)
Lemma fragment_accepted h k q r : leaves TUNNEL_MTU h k q → IPH_V h = 4 → takes n h.(iph_src) h.(iph_dest) → tunnelled q r →
  ∃ t, (∀ s, ip4_input_check stale r n s = (counted s, Some t)) ∧ same_packet q t ∧ zlen t <= zlen r.
Proof.
  intros ([_ Hf Hhl _ _ _] & Hv & Hz & _ & Hlen & l & o & c & E) Hver Htk Hr.
  apply check_tunnelled; try done; [by rewrite E| |by rewrite E].
  rewrite <- first_prefix by (unfold IP_HLEN in *; lia). rewrite ztake_all by lia. done.
Qed.

Lemma fragments_accepted h k sent recv : Forall (leaves TUNNEL_MTU h k) sent → IPH_V h = 4 → takes n h.(iph_src) h.(iph_dest) →
  Forall2 tunnelled sent recv →
  ∃ ts, Forall2 same_packet sent ts ∧ links ts <= links recv ∧
    Forall2 (λ r t, ∀ s, ip4_input_check stale r n s = (counted s, Some t)) recv ts.
Proof.
  intros Hl Hv Htk. induction 1 as [|q r sent recv Hq _ IH].
  { exists []. split_and!; [constructor|done|constructor]. }
  inversion_clear Hl as [|?? Hl1 Hl2]. destruct (IH Hl2) as (ts & H1 & H2 & H3).
  destruct (fragment_accepted h k q r Hl1 Hv Htk Hq) as (t & Ht & Hs & Hz).
  exists (t :: ts). split_and!; [by constructor|cbn [links foldr]; unfold links in H2; lia|by constructor].
Qed.

(** The surplus fragment finds nothing to join and stays in the queue. *)
Lemma surplus_kept h k late surplus s : Forall (leaves TUNNEL_MTU h k) late → (length late <= 1)%nat →
  Forall (λ q, 0 < frag_start q) late → IPH_V h = 4 → takes n h.(iph_src) h.(iph_dest) → Forall2 tunnelled late surplus →
  queue_room k (links surplus) s.(is_reass) →
  ∃ s', receive_all heap room raw stale n out surplus s = Ok (s', [], replicate (length late) Kept) ∧
    length s'.(is_reass).(reassdatagrams) = (length late + length s.(is_reass).(reassdatagrams))%nat.
Proof.
  intros Hl H1 Hpos Hv Htk Hs (Hq1 & Hq2 & Hq3 & Hq4). destruct (fragments_accepted h k late surplus Hl Hv Htk Hs) as (ts & Hts & Hlk & Hchk).
  destruct late as [|x [|y late]]; [| |cbn in H1; lia].
  { apply Forall2_nil_inv_l in Hs as ->. by exists s. }
  apply Forall2_cons_inv_l in Hts as (t & l & Ht & Hl' & ->). apply Forall2_nil_inv_l in Hl' as ->.
  apply Forall_singleton in Hl as [Hok _]. apply (proj1 (Forall_singleton _ x)) in Hpos. cbv beta in Hpos. destruct (same_fragment k x t Hok Ht) as (Hokt & Hst & _).
  assert (0 <= links surplus) as Hnn by (cbn [links foldr] in Hlk; pose proof (zlen_nonneg t); lia).
  destruct (reass_alone k t s.(is_reass) Hokt ltac:(lia) Hq1 Hq2 Hq3) as (q' & r & Er & Eq & _).
  { unfold chain_clen. cbn [links foldr] in Hlk. lia. }
  destruct (receive_fragments heap room raw stale n out Hraw surplus [t]) with (s := s) (q := q') (ds := [@None chain]) as (s' & Hrec & Hs').
  - eapply Forall2_impl; [exact (Forall2_with _ (λ u, u = t) _ _ Hchk ltac:(by repeat constructor))|]. intros r0 u [Hu ->]. split; [done|].
    split; [|apply Hokt]. apply not_false_iff_true. intros E. apply is_fragment_spec in E as [E _]; [|apply Hokt]. lia.
  - cbn [reass_all]. by rewrite Er.
  - by repeat constructor.
  - exists s'. split; [exact Hrec|]. by rewrite Hs', Eq.
Qed.

Lemma cut_delivered h data p addrs : packet h data p → transport h.(_proto) → takes n h.(iph_src) h.(iph_dest) →
  zlen p <= MEMP_NUM_FRAG_PBUF → TUNNEL_MTU - IP_HLEN < zlen data <= 65515 → zlen data <= 8 * NFB * zlen addrs →
  let lost := lost_tail (zlen data) in
  ∃ sent late, ip4_frag (Some <$> addrs) p TUNNEL_MTU = Ok (sent ++ late, ERR_OK) ∧
    Forall (λ q, chain_len q <= TUNNEL_MTU) (sent ++ late) ∧ (lost = 0 → late = []) ∧ (length late <= 1)%nat ∧
    ∀ recv arrival s, Forall2 tunnelled sent recv → arrival ≡ₚ recv →
      let k := (h.(iph_src), h.(iph_dest), h.(_id)) in queue_room k (links recv) s.(is_reass) →
      ∃ s' v, receive_all heap room raw stale n out arrival s = Ok (s', [], replicate (length sent - 1) Kept ++ [v]) ∧
        delivers h.(iph_src) h.(iph_dest) h.(_proto) (ztake (zlen data - lost) data) v ∧
        s'.(is_reass).(reassdatagrams) = s.(is_reass).(reassdatagrams) ∧
        s'.(is_reass).(ip_reass_pbufcount) = s.(is_reass).(ip_reass_pbufcount) ∧
        ∀ surplus, Forall2 tunnelled late surplus → queue_room k (links surplus) s'.(is_reass) →
        ∃ s'', receive_all heap room raw stale n out surplus s' = Ok (s'', [], replicate (length late) Kept) ∧
          length s''.(is_reass).(reassdatagrams) = (length late + length s'.(is_reass).(reassdatagrams))%nat.
Proof.
  intros [Hh Hhl Hoff Hv Hlen Hsum Hc Hp Hf] Hpr Htk Hz Hdata Haddrs lost.
  destruct (cut_and_joined addrs p h data Hh Hhl Hoff Hc Hp Hf Hz Hdata Haddrs) as (sent & late & Hfrag & Hl & Hlost & [Hone Hpos] & Hall).
  exists sent, late. split; [done|]. split; [eapply Forall_impl; [exact Hl|]; by intros q (_ & _ & _ & ? & _)|]. split; [done|]. split; [done|].
  intros recv arrival s Hrecv Hperm k (Hq1 & Hq2 & Hq3 & Hq4). apply Forall_app in Hl as [Hl Hl2].
  destruct (fragments_accepted h _ sent recv Hl Hv Htk Hrecv) as (ts & Hts & Hlk & Hchk).
  destruct (Hall ts Hts) as (rs & rz & E & Hpc & Hne & Hr). symmetry in Hperm.
  destruct (Permutation_Forall2 Hperm Hchk) as (ts' & Hperm' & Hchk').
  destruct (Hr ts' s.(is_reass)) as (q' & d & a & Hra & Hd & Hdc & Hdf & Hk1 & Hk2).
  { by symmetry. }
  { split; [done|]. split; [done|]. split; [done|]. rewrite <- E, <- links_frags. lia. }
  fold lost in Hd. assert (0 <= zlen data - lost <= 65515) as Hcut.
  { unfold lost, lost_tail, TUNNEL_MTU, IP_HLEN in *. destruct (_ && _); [|lia]. pose proof (Z.mod_pos_bound (zlen data) 1376 ltac:(lia)). lia. }
  destruct (delivers_packet _ _ d (cut_hdr_ok a h _ Hh Hcut) Hd Hdc Hdf) as [Ed Hdel].
  assert (Forall2 (fragment_in stale n) arrival ts') as Hin.
  { assert (Forall (λ t, t ∈ rs ++ [rz]) ts') as Hmem by (rewrite Forall_forall; intros t; by rewrite <- E, Hperm').
    eapply Forall2_impl; [exact (Forall2_with _ _ _ _ Hchk' Hmem)|]. intros r t [Ht Hin]. split; [done|].
    split; [by apply (pieces_fragments _ rs rz t Hpc)|]. by destruct (in_ok _ rs rz Hpc t Hin). }
  destruct (receive_fragments heap room raw stale n out Hraw arrival ts' Hin s q' _ Hra) as (s' & Hrec & Hs').
  { apply Forall_app. split; [by apply Forall_replicate|]. constructor; [|done]. intros d' [= <-]. by rewrite Ed. }
  exists s', (verdict_of (Some d)). split; [|rewrite Hs'; split; [done|]; split; [done|]; split; [done|];
    rewrite <- Hs'; intros surplus Hsur Hroom; by apply (surplus_kept h k)].
  assert (length sent - 1 = length rs)%nat as -> by (apply Forall2_length in Hts; rewrite Hts, E, length_app; cbn [length]; lia).
  by rewrite Hrec, fmap_app, fmap_replicate.
Qed.

End Delivery.

Lemma first_le p : zlen (first_bytes p) <= zlen (payload p).
Proof.
  destruct p as [|q p]; [done|]. rewrite payload_cons, zlen_app. cbn [first_bytes]. pose proof (zlen_nonneg (payload p)). lia.
Qed.

Lemma hdr_of_ztake n b : IP_HLEN <= n ∧ n <= zlen b → hdr_of (ztake n b) = hdr_of b.
Proof.
  intros [H1 H2]. assert (b = ztake n b ++ zdrop n b) as E by (symmetry; apply take_drop). rewrite E at 2. symmetry.
  apply hdr_of_app. unfold ztake. rewrite length_take. unfold IP_HLEN, zlen in *. lia.
Qed.

Lemma deliver_up heap k room raw p hlen src dest n out s s' sent proto hdr q :
  ip4_input_deliver heap k room raw p hlen src dest n out s = Ok (s', sent, Up proto hdr q) →
  s' = s ∧ sent = [] ∧ transport proto ∧ proto = (hdr_of (first_bytes p)).(_proto) ∧ hdr = ztake hlen (first_bytes p) ∧
  q = pbuf_remove_header hlen p.
Proof.
  unfold ip4_input_deliver. intros H. assert (raw ≠ RAW_INPUT_EATEN) as Hraw by by intros ->.
  destruct (Z.eqb_spec (hdr_of (first_bytes p)).(_proto) IP_PROTO_UDP) as [E|E].
  { assert (Ok (s, [], Up IP_PROTO_UDP (ztake hlen (first_bytes p)) (pbuf_remove_header hlen p)) = Ok (s', sent, Up proto hdr q))
      as [= <- <- <- <- <-] by by destruct raw. rewrite E. split_and!; try done. by left. }
  destruct (Z.eqb_spec (hdr_of (first_bytes p)).(_proto) IP_PROTO_TCP) as [E2|E2].
  { assert (Ok (s, [], Up IP_PROTO_TCP (ztake hlen (first_bytes p)) (pbuf_remove_header hlen p)) = Ok (s', sent, Up proto hdr q))
      as [= <- <- <- <- <-] by by destruct raw. rewrite E2. split_and!; try done. by right. }
  exfalso. destruct raw; [|done|].
  all: destruct (_ =? IP_PROTO_ICMP); [by destruct (icmp_input _ _ _ _ _ _ _ _ _) as [[? ?]| |]|].
  - destruct (_ && _); [|done]. by destruct (icmp_dest_unreach _ _ _ _ _ _) as [[? ?]| |].
  - done.
Qed.

Lemma send_events_reass heap k evs n out s s' pkts k' :
  send_events heap k evs n out s = Ok (s', pkts, k') → s'.(is_reass) = s.(is_reass).
Proof.
  revert k s s' pkts k'. induction evs as [|[p] evs IH]; intros k s s' pkts k'; cbn [send_events]; [by intros [= <- _ _]|].
  destruct (icmp_time_exceeded _ _ _ _ _ _) as [[i pk]| |]; [|done..]. cbn [mbind res_bind].
  destruct (send_events heap (S k) evs n out (s <| is_icmp := i |>)) as [[[s2 pk2] k2]| |] eqn:E; [|done..].
  cbn [mbind res_bind]. intros [= <- _ _]. exact (IH _ _ _ _ _ E).
Qed.

Lemma reass_plain p q r d evs : ip4_reass p q = (r, Some d, evs) → IPH_HL_BYTES (hdr_of (first_bytes p)) = IP_HLEN.
Proof. unfold ip4_reass. by destruct (Z.eqb_spec (IPH_HL_BYTES (hdr_of (first_bytes p))) IP_HLEN). Qed.

(** From one end of the tunnel to the other. *)
Lemma output_to_input (addrs : list Z) (room : Z) (p : chain) (src dest ttl tos proto : Z) (a b : lwip_netif) (out out' : err_t)
    (o : ip_out) (heap : nat → list (option Z)) (room' : Z) (raw : raw_input_state) (stale : list Z) :
  chain_ok p → p ≠ [] → IP_HLEN <= room → chain_len p <= 65515 → zlen p <= MEMP_NUM_FRAG_PBUF →
  chain_len p <= 8 * NFB * zlen addrs → is_u 32 src → src ≠ IPADDR_ANY → is_u 32 dest → is_byte ttl → is_byte tos →
  transport proto → is_u 16 o.(ip_id) → a.(n_mtu) = TUNNEL_MTU → takes b src dest → raw ≠ RAW_INPUT_EATEN →
  let lost := if chain_len p <=? TUNNEL_MTU - IP_HLEN then 0 else lost_tail (chain_len p) in
  ∃ o' sent late e, ip4_output_if (Some <$> addrs) room p (Some src) dest ttl tos proto a out o = Ok (o', sent ++ late, e) ∧
    Forall (λ q, chain_len q <= TUNNEL_MTU) (sent ++ late) ∧ (lost = 0 → late = []) ∧ (length late <= 1)%nat ∧
    ∀ recv arrival s, Forall2 tunnelled sent recv → arrival ≡ₚ recv →
      let k := (src, dest, lwip_htons o.(ip_id)) in queue_room k (links recv) s.(is_reass) →
      ∃ s' v, receive_all heap room' raw stale b out' arrival s = Ok (s', [], replicate (length sent - 1) Kept ++ [v]) ∧
        delivers src dest proto (ztake (chain_len p - lost) (payload p)) v ∧
        s'.(is_reass).(reassdatagrams) = s.(is_reass).(reassdatagrams) ∧
        s'.(is_reass).(ip_reass_pbufcount) = s.(is_reass).(ip_reass_pbufcount) ∧
        ∀ surplus, Forall2 tunnelled late surplus → queue_room k (links surplus) s'.(is_reass) →
        ∃ s'', receive_all heap room' raw stale b out' surplus s' = Ok (s'', [], replicate (length late) Kept) ∧
          length s''.(is_reass).(reassdatagrams) = (length late + length s'.(is_reass).(reassdatagrams))%nat.
Proof.
  intros Hp Hne Hroom Hl Hz Haddrs Hs Hany Hd Httl Htos Hpr Hid Hmtu Htk Hraw lost.
  assert (is_byte proto) as Hprb by by destruct Hpr as [-> | ->].
  destruct (output_packet (Some <$> addrs) room p src dest ttl tos proto a out o Hp Hroom Hne Hl Hs Hd Httl Htos Hprb Hid Hany)
    as (h & p' & o1 & -> & Hpk & Hzp & Hsrc & Hdest & Hproto & _ & _ & Hids & _).
  rewrite <- Hsrc, <- Hdest in Htk. rewrite <- Hproto in Hpr. pose proof Hpk as [_ _ _ _ _ _ _ Hpay _].
  assert (chain_len p' = IP_HLEN + chain_len p) as Hlen by (unfold chain_len; rewrite Hpay, zlen_app; done).
  unfold ip4_send. rewrite Hmtu, Hlen, Z.gtb_ltb. cbn [negb Z.eqb TUNNEL_MTU andb].
  destruct (Z.ltb_spec TUNNEL_MTU (IP_HLEN + chain_len p)) as [Hbig|Hsmall].
  - unfold TUNNEL_MTU, IP_HLEN in Hbig. assert (lost = lost_tail (chain_len p)) as -> by (unfold lost; by rewrite (proj2 (Z.leb_gt _ _)) by (unfold TUNNEL_MTU, IP_HLEN; lia)).
    destruct (cut_delivered heap room' raw stale b out' Hraw h (payload p) p' addrs Hpk Hpr Htk)
      as (sent & late & Hf & Hm & Hlate & Hone & Hall); [lia|unfold TUNNEL_MTU, IP_HLEN; unfold chain_len in *; lia|done|].
    rewrite Hf. cbn [mbind res_bind]. do 4 eexists. split; [reflexivity|]. split; [done|]. split; [done|]. split; [done|].
    assert (small_segment proto (chain_len p) = false) as Esm.
    { unfold small_segment. rewrite (proj2 (Z.leb_gt (IP_HLEN + chain_len p) _)) by (unfold IP_HLEN, IP4_MIN_MTU_LENGTH; lia).
      apply andb_false_r. }
    rewrite Esm in Hids. rewrite Hsrc, Hdest, Hproto, Hids in Hall. exact Hall.
  - assert (lost = 0) as El by (unfold lost; by rewrite (proj2 (Z.leb_le _ _)) by lia). rewrite El, Z.sub_0_r.
    eexists. exists [p'], [], out. split; [reflexivity|]. split; [constructor; [lia|done]|]. split; [done|]. split; [cbn; lia|].
    intros recv arrival s Hrecv Hperm. cbv zeta. intros _. apply Forall2_cons_inv_l in Hrecv as (r & l & Hr & Hl' & ->). apply Forall2_nil_inv_l in Hl' as ->.
    apply Permutation_singleton_r in Hperm as ->.
    destruct (whole_delivered heap room' raw stale b out' Hraw h (payload p) p' r s Hpk Hpr Htk Hr) as (s' & v & H1 & H2 & H3).
    exists s', v. rewrite Hsrc, Hdest, Hproto in H2. unfold chain_len. rewrite ztake_all by done. rewrite H3. split_and!; try done.
    intros surplus Hsur _. apply Forall2_nil_inv_l in Hsur as ->. exists s'. by rewrite H3.
Qed.

(** ** Properties *)

(** C23: from one end of the tunnel to the other. A payload given to [ip4_output_if] leaves
    as packets within the MTU, one if it fits and fragments otherwise. If the reassembly
    queue of the host they are addressed to has room for them (ten buffers in all, five
    datagrams, none of this one), and they reach [ip4_input] there in any order and with the
    tunnel's padding behind each, every packet but the last to come is kept and that one
    hands TCP or UDP the whole payload under the sender's addresses, nothing is sent in
    answer, and the queue is as it was. The exception are the lengths for which [ip4_frag]
    marks the last fragment but one as the last. Then there is a surplus fragment, [late]:
    when the fragments up to the marked one come first, in any order, the payload is handed
    up without the bytes of the surplus one, which is kept when it comes and stays in the
    queue. Nothing is said of a surplus fragment that overtakes others. *)
Theorem ip_delivers (addrs : list Z) (room : Z) (p : chain) (src dest ttl tos proto : Z) (a b : lwip_netif) (out out' : err_t)
    (o : ip_out) (heap : nat → list (option Z)) (room' : Z) (raw : raw_input_state) (stale : list Z) :
  chain_ok p → p ≠ [] → IP_HLEN <= room → chain_len p <= 65515 → zlen p <= MEMP_NUM_FRAG_PBUF →
  chain_len p <= 8 * NFB * zlen addrs → is_u 32 src → src ≠ IPADDR_ANY → is_u 32 dest → is_byte ttl → is_byte tos →
  transport proto → is_u 16 o.(ip_id) → a.(n_mtu) = TUNNEL_MTU → takes b src dest → raw ≠ RAW_INPUT_EATEN →
  let lost := if chain_len p <=? TUNNEL_MTU - IP_HLEN then 0 else lost_tail (chain_len p) in
  ∃ o' sent late e, ip4_output_if (Some <$> addrs) room p (Some src) dest ttl tos proto a out o = Ok (o', sent ++ late, e) ∧
    Forall (λ q, chain_len q <= TUNNEL_MTU) (sent ++ late) ∧ (lost = 0 → late = []) ∧ (length late <= 1)%nat ∧
    ∀ recv arrival s, Forall2 tunnelled sent recv → arrival ≡ₚ recv →
      let k := (src, dest, lwip_htons o.(ip_id)) in queue_room k (links recv) s.(is_reass) →
      ∃ s' v, receive_all heap room' raw stale b out' arrival s = Ok (s', [], replicate (length sent - 1) Kept ++ [v]) ∧
        delivers src dest proto (ztake (chain_len p - lost) (payload p)) v ∧
        s'.(is_reass).(reassdatagrams) = s.(is_reass).(reassdatagrams) ∧
        s'.(is_reass).(ip_reass_pbufcount) = s.(is_reass).(ip_reass_pbufcount) ∧
        ∀ surplus, Forall2 tunnelled late surplus → queue_room k (links surplus) s'.(is_reass) →
        ∃ s'', receive_all heap room' raw stale b out' surplus s' = Ok (s'', [], replicate (length late) Kept) ∧
          length s''.(is_reass).(reassdatagrams) = (length late + length s'.(is_reass).(reassdatagrams))%nat.
Proof. exact (output_to_input addrs room p src dest ttl tos proto a b out out' o heap room' raw stale). Qed.

(** C24: nothing reaches TCP or UDP unchecked. Whatever bytes arrive, what [ip4_input] hands
    up is of version 4, has its header in the first link and a length that arrived, verifies
    its header's checksum, is addressed to this interface or to a group or broadcast of it,
    and comes from a unicast address; a whole packet's payload is what lies between its
    header and the length it claims, not a byte of the padding behind; a fragment had no
    options and completed a datagram of the reassembly queue. *)
Theorem ip_input_checked (heap : nat → list (option Z)) (room : Z) (raw : raw_input_state) (stale : list Z) (p : chain)
    (n : lwip_netif) (out : err_t) (s s' : ip_state) (sent : list chain) (proto : Z) (hdr : list Z) (q : chain) :
  chain_ok p → is_bytes stale → ip4_input heap room raw stale p n out s = Ok (s', sent, Up proto hdr q) →
  let b := payload p in let h := hdr_of b in
  transport proto ∧ ∃ t, accepted n b t ∧
  if is_fragment h then
    IPH_HL_BYTES h = IP_HLEN ∧ ∃ d evs, ip4_reass t s.(is_reass) = (s'.(is_reass), Some d, evs) ∧
    proto = (hdr_of (first_bytes d)).(_proto) ∧ hdr = ztake IP_HLEN (first_bytes d) ∧ q = pbuf_remove_header IP_HLEN d
  else
    s' = counted s ∧ sent = [] ∧ proto = h.(_proto) ∧ hdr = ztake (IPH_HL_BYTES h) b ∧
    payload q = zdrop (IPH_HL_BYTES h) (ztake (lwip_htons h.(_len)) b).
Proof.
  intros Hp Hst Hin b h. unfold ip4_input in Hin. destruct (ip4_input_check stale p n s) as [s1 [t|]] eqn:Ec; [|done].
  apply check_sound in Ec as [Hac ->]; [|done..]. fold b in Hac. pose proof Hac as [_ Hhl Hlen _ _ _ _ [Ht Htc]]. fold h in Hhl, Hlen, Ht.
  assert (hdr_of (first_bytes t) = h) as Eh.
  { rewrite hdr_first by lia. unfold h. rewrite Ht. apply hdr_of_ztake.
    assert (zlen (first_bytes t) <= zlen (payload t)) as Hle by apply first_le. rewrite Ht in Hle. split; [|done].
    unfold zlen, ztake in Hle. rewrite length_take in Hle. unfold IP_HLEN, zlen in *. fold h. lia. }
  rewrite Eh in Hin. destruct (is_fragment h).
  - change (is_reass (counted s)) with (is_reass s) in Hin. destruct (ip4_reass t (is_reass s)) as [[r d] evs] eqn:Er.
    destruct (send_events _ _ _ _ _ _) as [[[s2 pk] k]| |] eqn:Es; [|done..]. apply send_events_reass in Es.
    cbn [mbind res_bind] in Hin. destruct d as [d|]; [|done].
    destruct (ip4_input_deliver _ _ _ _ _ _ _ _ _ _ _) as [[[s3 pk3] v]| |] eqn:Ed; [|done..]. cbn [mbind res_bind] in Hin.
    injection Hin as <- _ ->. apply deliver_up in Ed as (-> & _ & Htr & Hpr & Hhd & Hq). split; [done|]. exists t. split; [done|].
    pose proof (reass_plain _ _ _ _ _ Er) as E20. rewrite Eh in E20. rewrite E20 in Hhd, Hq. split; [done|]. exists d, evs.
    rewrite Es. by split_and!.
  - apply deliver_up in Hin as (-> & -> & Htr & Hpr & Hhd & ->). split; [done|]. exists t. split; [done|].
    rewrite Eh in Hpr. split_and!; try done.
    + rewrite Hhd, first_prefix, Ht by (unfold IP_HLEN in *; lia). unfold ztake. rewrite take_take. f_equal.
      pose proof (first_le t) as Hle. rewrite Ht in Hle. unfold zlen, ztake in *. rewrite length_take in Hle. lia.
    + rewrite <- Ht. apply payload_removed_n. unfold IP_HLEN in Hhl. lia.
Qed.

(** ** Witnesses *)

Definition state_zero : ip_state := IpState (Icmp (IpOut 7 proto_zero proto_zero) proto_zero) reass_init.
Definition padded (q : chain) : chain := q ++ [(0x9000, [0; 0; 0])].

Lemma tunnelled_padded l : chain_check (concat l) = true → forallb (λ s, IP_HLEN <=? zlen (first_bytes s)) l = true →
  Forall2 tunnelled l (padded <$> l).
Proof.
  intros Hc Hf. pose proof (same_packet_refl l Hc Hf) as H. clear Hc Hf. induction l as [|s l IH]; [constructor|].
  inversion_clear H as [|???? (_ & Hs & Hz) Hl]. rewrite fmap_cons. constructor; [|by apply IH]. split; [|split].
  - apply Forall_app. split; [done|]. constructor; [|constructor]. split; [word_list|done].
  - by destruct s.
  - exists 3%nat. split; [lia|]. unfold padded, payload. by rewrite fmap_app, concat_app.
Qed.

Lemma ip_delivers_witness : ∃ o s1 s2 s' h q,
  ip4_output_if (Some <$> [0x5000; 0x6000]) 54 [(0x1000, replicate 1381 7)] (Some 0x0200000A) 0x0300000A 255 0 IP_PROTO_UDP
    toy_netif4 ERR_OK (IpOut 7 proto_zero proto_zero) = Ok (o, [s1; s2], ERR_OK) ∧
  receive_all (λ _, []) 0 RAW_INPUT_NONE [] toy_netif4 ERR_OK [padded s2; padded s1] state_zero =
    Ok (s', [], [Kept; Up IP_PROTO_UDP (hdr_bytes h) q]) ∧ payload q = replicate 1381 7.
Proof.
  destruct (ip_delivers [0x5000; 0x6000] 54 [(0x1000, replicate 1381 7)] 0x0200000A 0x0300000A 255 0 IP_PROTO_UDP
    toy_netif4 toy_netif4 ERR_OK ERR_OK (IpOut 7 proto_zero proto_zero) (λ _, []) 0 RAW_INPUT_NONE [])
    as (o & sent & late & e & Hf & _ & Hlate & Hall).
  - by apply chain_check_ok; vm_compute.
  - discriminate.
  - by vm_compute.
  - by vm_compute.
  - by vm_compute.
  - by vm_compute.
  - by vm_compute.
  - by vm_compute.
  - by vm_compute.
  - by vm_compute.
  - by vm_compute.
  - left. reflexivity.
  - by vm_compute.
  - reflexivity.
  - split; [by vm_compute|reflexivity|by vm_compute|by vm_compute|split; by vm_compute].
  - discriminate.
  - rewrite Hlate, app_nil_r in Hf by by vm_compute.
    destruct (ip4_output_if (Some <$> [0x5000; 0x6000]) 54 [(0x1000, replicate 1381 7)] (Some 0x0200000A) 0x0300000A 255 0
      IP_PROTO_UDP toy_netif4 ERR_OK (IpOut 7 proto_zero proto_zero)) as [[[o0 l] e0]| |] eqn:E; [|discriminate..].
    injection Hf as -> -> ->. assert (∃ s1 s2, sent = [s1; s2] ∧ e = ERR_OK) as (s1 & s2 & -> & ->).
    { vm_compute in E. injection E as _ <- <-. do 2 eexists. split; reflexivity. }
    assert (Forall2 tunnelled [s1; s2] (padded <$> [s1; s2])) as Hs.
    { vm_compute in E. injection E as _ <- <-. apply tunnelled_padded; by vm_compute. }
    destruct (proj2 Hall (padded <$> [s1; s2]) [padded s2; padded s1] state_zero Hs) as (s' & v & Hr & (h & q & -> & Hq & _) & _).
    + constructor.
    + vm_compute in E. injection E as _ <- <-. split; [done|]. split; [vm_compute; lia|]. split; [by apply not_elem_of_nil|by vm_compute].
    + exists o, s1, s2, s', h, q. split; [done|]. split; [exact Hr|]. rewrite Hq. by vm_compute.
Defined.

Definition toy_datagram : chain :=
  [(0x4000, [69; 0; 0; 28; 0; 7; 0; 0; 64; 17; 0x66; 0xC6; 10; 0; 0; 2; 10; 0; 0; 3; 1; 2; 3]); (0x5000, [4; 5; 6; 7; 8; 0; 0; 0])].

Lemma ip_input_checked_witness : ∃ s' hdr q,
  ip4_input (λ _, []) 0 RAW_INPUT_NONE [] toy_datagram toy_netif4 ERR_OK state_zero = Ok (s', [], Up IP_PROTO_UDP hdr q) ∧
  transport IP_PROTO_UDP ∧ verifies (take 20 (payload toy_datagram)) ∧ payload q = [1; 2; 3; 4; 5; 6; 7; 8].
Proof.
  destruct (ip4_input (λ _, []) 0 RAW_INPUT_NONE [] toy_datagram toy_netif4 ERR_OK state_zero) as [[[s' sent] v]| |] eqn:E;
    [|discriminate..].
  assert (∃ hdr q, v = Up IP_PROTO_UDP hdr q) as (hdr & q & ->) by (vm_compute in E; injection E as _ _ <-; by do 2 eexists).
  destruct (ip_input_checked (λ _, []) 0 RAW_INPUT_NONE [] toy_datagram toy_netif4 ERR_OK state_zero s' sent IP_PROTO_UDP hdr q)
    as (Ht & t & Hac & Hr); [apply chain_check_ok; by vm_compute|constructor|exact E|].
  assert (is_fragment (hdr_of (payload toy_datagram)) = false) as Ew by by vm_compute. rewrite Ew in Hr.
  destruct Hr as (_ & -> & _ & _ & Hq). exists s', hdr, q. split; [done|]. split; [exact Ht|]. split; [|rewrite Hq; by vm_compute].
  exact (ac_chksum _ _ _ Hac).
Defined.
