(* ===== verification/Udp.v ===== *)
(** * lwip/core/udp.c

    The control blocks in memory, by address, and the list of those that are active, which
    is in the order the code searches it. A callback is the function pointer and its
    argument; what it does is the caller's. [room] is the space in front of the payload of
    the first buffer of a chain to be sent; when it has room for the header, the header
    stays in the caller's chain, which is not among the results. Broadcast filters, UDP-Lite, the reuse of
    addresses and multicast options are not compiled in. *)
From stdpp Require Import fin_maps fin_sets gmap.
From S2P Require Import Prelude IpProbe Pbuf Netif Chksum Ip4 IpReass IpFrag Icmp Ip4Input.

Definition UDP_HLEN : Z := 8.
Definition UDP_TTL : Z := 255.
Definition UDP_FLAGS_NOCHKSUM : Z := 1.
Definition UDP_FLAGS_CONNECTED : Z := 4.
Definition UDP_LOCAL_PORT_RANGE_START : Z := 0xC000.
Definition UDP_LOCAL_PORT_RANGE_END : Z := 0xFFFF.
Definition UDP_ENSURE_LOCAL_PORT_RANGE (port : Z) : Z :=
  u16 ((port .& u16 (Z.lnot UDP_LOCAL_PORT_RANGE_START)) + UDP_LOCAL_PORT_RANGE_START).
Definition MEMP_NUM_UDP_PCB : nat := 8.
Definition NETIF_NO_INDEX : Z := 0.
Definition ICMP_DUR_PORT : Z := 3.

(** The first interface is number 0. *)
Definition netif_get_index (n : lwip_netif) : Z := 1.

Definition netif_get_by_index (idx : Z) (n : lwip_netif) : bool := negb (idx =? NETIF_NO_INDEX) && (idx =? netif_get_index n).

Record udp_pcb := UdpPcb {
  up_local_ip : Z; up_remote_ip : Z; up_netif_idx : Z; up_tos : Z; up_ttl : Z; up_flags : Z;
  up_local_port : Z; up_remote_port : Z; up_recv : option Z; up_recv_arg : Z
}.

#[export] Instance udp_pcb_eta : Eta udp_pcb := λ p,
  UdpPcb p.(up_local_ip) p.(up_remote_ip) p.(up_netif_idx) p.(up_tos) p.(up_ttl) p.(up_flags) p.(up_local_port)
    p.(up_remote_port) p.(up_recv) p.(up_recv_arg).

(** The blocks allocated from the pool, and the file's static variables. *)
Record udp := Udp { pcbs : gmap Z udp_pcb; udp_pcbs : list Z; udp_port : Z; udp_stats : stats_proto }.

#[export] Instance udp_eta : Eta udp := λ u, Udp u.(pcbs) u.(udp_pcbs) u.(udp_port) u.(udp_stats).

Definition udp_deref (a : Z) (u : udp) : res udp_pcb := match u.(pcbs) !! a with Some p => Ok p | None => Fault end.
Definition udp_store (a : Z) (p : udp_pcb) (u : udp) : udp := u <| pcbs ::= <[a := p]> |>.
Definition udp_inc (f : stats_proto → stats_proto) (u : udp) : udp := u <| udp_stats ::= f |>.

Definition udp_connected (p : udp_pcb) : bool := negb ((p.(up_flags) .& UDP_FLAGS_CONNECTED) =? 0).

(** ** Control blocks *)

Definition udp_init (lwip_rand : Z) : udp :=
  Udp ∅ [] (UDP_ENSURE_LOCAL_PORT_RANGE (u16 lwip_rand)) proto_zero.

Fixpoint port_taken (port : Z) (l : list Z) (u : udp) : res bool :=
  match l with
  | [] => Ok false
  | a :: l => p ← udp_deref a u; if p.(up_local_port) =? port then Ok true else port_taken port l u
  end.

(** Each round tries the next port; 0 when all are taken. *)
Fixpoint new_port_loop (fuel : nat) (n : Z) (u : udp) : res (udp * Z) :=
  match fuel with
  | O => Fault
  | S fuel =>
    let port := if u.(udp_port) =? UDP_LOCAL_PORT_RANGE_END then UDP_LOCAL_PORT_RANGE_START else u16 (u.(udp_port) + 1) in
    let u := u <| udp_port := port |> in
    '(taken : bool) ← port_taken port u.(udp_pcbs) u;
    if taken then
      let n := u16 (n + 1) in
      if n >? UDP_LOCAL_PORT_RANGE_END - UDP_LOCAL_PORT_RANGE_START then Ok (u, 0) else new_port_loop fuel n u
    else Ok (u, port)
  end.

Definition udp_new_port (u : udp) : res (udp * Z) := new_port_loop (Z.to_nat 16384) 0 u.

(** [a] is where the pool has its next free element. *)
Definition udp_new (a : Z) (u : udp) : udp * option Z :=
  if (size u.(pcbs) <? MEMP_NUM_UDP_PCB)%nat
  then (udp_store a (UdpPcb 0 0 0 0 UDP_TTL 0 0 0 None 0) u, Some a) else (u, None).

Definition udp_new_ip_type (type a : Z) (u : udp) : udp * option Z := udp_new a u.

Fixpoint unlink (a : Z) (l : list Z) : list Z :=
  match l with
  | [] => []
  | b :: l => if b =? a then l else b :: unlink a l
  end.

Definition udp_remove (a : Z) (u : udp) : udp := u <| udp_pcbs ::= unlink a |> <| pcbs ::= delete a |>.

Definition udp_recv (a : Z) (recv : option Z) (recv_arg : Z) (u : udp) : res udp :=
  p ← udp_deref a u; Ok (udp_store a (p <| up_recv := recv |> <| up_recv_arg := recv_arg |>) u).

(** Whether another block holds the port for an address that overlaps. *)
Fixpoint bound_elsewhere (a ipaddr port : Z) (l : list Z) (u : udp) : res bool :=
  match l with
  | [] => Ok false
  | b :: l =>
    p ← udp_deref b u;
    if negb (a =? b) && (p.(up_local_port) =? port) &&
       ((p.(up_local_ip) =? ipaddr) || ip4_addr_isany_val ipaddr || ip4_addr_isany_val p.(up_local_ip))
    then Ok true else bound_elsewhere a ipaddr port l u
  end.

Definition udp_activate (a : Z) (u : udp) : udp :=
  if bool_decide (a ∈ u.(udp_pcbs)) then u else u <| udp_pcbs ::= cons a |>.

(** [None] is a null pointer. *)
Definition udp_bind (a : Z) (ipaddr : option Z) (port : Z) (u : udp) : res (udp * err_t) :=
  let ipaddr := default IPADDR_ANY ipaddr in
  '(u, port, e) ←
    (if port =? 0 then
       '(u, port) ← udp_new_port u;
       Ok (u, port, if port =? 0 then ERR_USE else ERR_OK)
     else
       '(taken : bool) ← bound_elsewhere a ipaddr port u.(udp_pcbs) u;
       Ok (u, port, if taken then ERR_USE else ERR_OK));
  match e with
  | ERR_OK =>
    p ← udp_deref a u;
    Ok (udp_activate a (udp_store a (p <| up_local_ip := ipaddr |> <| up_local_port := port |>) u), ERR_OK)
  | _ => Ok (u, e)
  end.

(** [None] for the interface is a null pointer. *)
Definition udp_bind_netif (a : Z) (n : option lwip_netif) (u : udp) : res udp :=
  p ← udp_deref a u;
  Ok (udp_store a (p <| up_netif_idx := match n with Some n => netif_get_index n | None => NETIF_NO_INDEX end |>) u).

Definition bind_if_needed (a : Z) (u : udp) : res (udp * err_t) :=
  p ← udp_deref a u;
  if p.(up_local_port) =? 0 then udp_bind a (Some p.(up_local_ip)) p.(up_local_port) u else Ok (u, ERR_OK).

Definition udp_connect (a ipaddr port : Z) (u : udp) : res (udp * err_t) :=
  '(u, e) ← bind_if_needed a u;
  match e with
  | ERR_OK =>
    p ← udp_deref a u;
    Ok (udp_activate a (udp_store a (p <| up_remote_ip := ipaddr |> <| up_remote_port := port |>
                                       <| up_flags ::= λ f, f .| UDP_FLAGS_CONNECTED |>) u), ERR_OK)
  | _ => Ok (u, e)
  end.

Definition udp_disconnect (a : Z) (u : udp) : res udp :=
  p ← udp_deref a u;
  Ok (udp_store a (p <| up_remote_ip := IPADDR_ANY |> <| up_remote_port := 0 |> <| up_netif_idx := NETIF_NO_INDEX |>
                     <| up_flags ::= λ f, f .& u8 (Z.lnot UDP_FLAGS_CONNECTED) |>) u).

Fixpoint readdress (old_addr new_addr : Z) (l : list Z) (u : udp) : res udp :=
  match l with
  | [] => Ok u
  | a :: l =>
    p ← udp_deref a u;
    readdress old_addr new_addr l (if p.(up_local_ip) =? old_addr then udp_store a (p <| up_local_ip := new_addr |>) u else u)
  end.

Definition udp_netif_ip_addr_changed (old_addr new_addr : Z) (u : udp) : res udp :=
  if negb (ip4_addr_isany_val old_addr) && negb (ip4_addr_isany_val new_addr)
  then readdress old_addr new_addr u.(udp_pcbs) u else Ok u.

(** ** Sending *)

Definition udp_hdr_bytes (sport dport len chksum : Z) : list Z :=
  le_bytes 2 (lwip_htons sport) ++ le_bytes 2 (lwip_htons dport) ++ le_bytes 2 (lwip_htons len) ++ le_bytes 2 chksum.

(** The header in front of the chain, in its first buffer or in one of its own, and the
    space in front of it. *)
Definition with_udp_hdr (ram : list (option Z)) (room : Z) (p : chain) : option (list (option Z) * chain * Z) :=
  match pbuf_add_header p room UDP_HLEN (replicate 8 0) with
  | Some q => Some (ram, q, room - UDP_HLEN)
  | None =>
    match ram with
    | Some a :: ram => Some (ram, if chain_len p =? 0 then [(a, replicate 8 0)] else (a, replicate 8 0) :: p, PBUF_IP_ROOM)
    | _ => None
    end
  end.

Definition set_udp_hdr (b : list Z) (q : chain) : chain :=
  match q with l :: next => (l.1, blit 0 b l.2) :: next | [] => [] end.

Definition udp_sendto_if_src (ram : list (option Z)) (room : Z) (a : Z) (p : chain) (dst_ip dst_port : Z) (n : lwip_netif)
    (src_ip : Z) (out : err_t) (o : ip_out) (u : udp) : res (udp * ip_out * list chain * err_t) :=
  '(u, e) ← bind_if_needed a u;
  match e with
  | ERR_OK =>
    pcb ← udp_deref a u;
    if u16 (chain_len p + UDP_HLEN) <? chain_len p then Ok (u, o, [], ERR_MEM)
    else
      match with_udp_hdr ram room p with
      | None => Ok (u, o, [], ERR_MEM)
      | Some (ram, q, room) =>
        let hdr := udp_hdr_bytes pcb.(up_local_port) dst_port (chain_len q) in
        let q := set_udp_hdr (hdr 0) q in
        let q :=
          if (pcb.(up_flags) .& UDP_FLAGS_NOCHKSUM) =? 0 then
            let udpchksum := ip_chksum_pseudo q IP_PROTO_UDP (chain_len q) src_ip dst_ip in
            let udpchksum := if udpchksum =? 0 then 0xFFFF else udpchksum in
            set_udp_hdr (hdr udpchksum) q
          else q in
        '(o, pkts, err) ← ip4_output_if_src ram room q (Some src_ip) dst_ip pcb.(up_ttl) pcb.(up_tos) IP_PROTO_UDP n out o;
        Ok (udp_inc (λ s, s <| st_xmit ::= STATS_INC |>) u, o, pkts, err)
      end
  | _ => Ok (u, o, [], e)
  end.

Definition udp_sendto_if (ram : list (option Z)) (room : Z) (a : Z) (p : chain) (dst_ip dst_port : Z) (n : lwip_netif)
    (out : err_t) (o : ip_out) (u : udp) : res (udp * ip_out * list chain * err_t) :=
  pcb ← udp_deref a u;
  if ip4_addr_isany_val pcb.(up_local_ip) || ip4_addr_ismulticast pcb.(up_local_ip)
  then udp_sendto_if_src ram room a p dst_ip dst_port n n.(n_addr) out o u
  else if negb (pcb.(up_local_ip) =? n.(n_addr)) then Ok (u, o, [], ERR_RTE)
  else udp_sendto_if_src ram room a p dst_ip dst_port n pcb.(up_local_ip) out o u.

(** [ip4_route] counts a route that is not there, too. *)
Definition udp_sendto (ram : list (option Z)) (room : Z) (a : Z) (p : chain) (dst_ip dst_port : Z) (n : lwip_netif)
    (out : err_t) (o : ip_out) (u : udp) : res (udp * ip_out * list chain * err_t) :=
  pcb ← udp_deref a u;
  let by_index := negb (pcb.(up_netif_idx) =? NETIF_NO_INDEX) in
  let netif := if by_index then netif_get_by_index pcb.(up_netif_idx) n else ip4_route dst_ip n in
  let o := if by_index || netif then o else o <| ip_stats ::= λ s, s <| st_rterr ::= STATS_INC |> |> in
  if negb netif then Ok (udp_inc (λ s, s <| st_rterr ::= STATS_INC |>) u, o, [], ERR_RTE)
  else udp_sendto_if ram room a p dst_ip dst_port n out o u.

Definition udp_send (ram : list (option Z)) (room : Z) (a : Z) (p : chain) (n : lwip_netif)
    (out : err_t) (o : ip_out) (u : udp) : res (udp * ip_out * list chain * err_t) :=
  pcb ← udp_deref a u;
  udp_sendto ram room a p pcb.(up_remote_ip) pcb.(up_remote_port) n out o u.

(** ** Receiving *)

Definition udp_input_local_match (pcb : udp_pcb) (dest_ip : Z) (n : lwip_netif) (broadcast : bool) : bool :=
  if negb (pcb.(up_netif_idx) =? NETIF_NO_INDEX) && negb (pcb.(up_netif_idx) =? netif_get_index n) then false
  else if broadcast then
    ip4_addr_isany_val pcb.(up_local_ip) || (dest_ip =? IPADDR_BROADCAST) || ip4_addr_net_eq pcb.(up_local_ip) dest_ip n.(n_mask)
  else ip4_addr_isany_val pcb.(up_local_ip) || (pcb.(up_local_ip) =? dest_ip).

(** The addresses and ports of a datagram, in host order where the code has them so. *)
Record udp_from := From { fm_src_ip : Z; fm_src : Z; fm_dest_ip : Z; fm_dest : Z; fm_broadcast : bool }.

Definition udp_local (pcb : udp_pcb) (f : udp_from) (n : lwip_netif) : bool :=
  (pcb.(up_local_port) =? f.(fm_dest)) && udp_input_local_match pcb f.(fm_dest_ip) n f.(fm_broadcast).

Definition udp_perfect (pcb : udp_pcb) (f : udp_from) : bool :=
  (pcb.(up_remote_port) =? f.(fm_src)) &&
  (ip4_addr_isany_val pcb.(up_remote_ip) || (pcb.(up_remote_ip) =? f.(fm_src_ip))).

(** The unconnected block so far that gets the datagram if none matches it fully. *)
Definition better_uncon (uncon : option (Z * udp_pcb)) (a : Z) (pcb : udp_pcb) (f : udp_from) (n : lwip_netif) : option (Z * udp_pcb) :=
  if udp_connected pcb then uncon
  else
    match uncon with
    | None => Some (a, pcb)
    | Some (b, q) =>
      if f.(fm_broadcast) && (f.(fm_dest_ip) =? IPADDR_BROADCAST) && negb (q.(up_local_ip) =? n.(n_addr)) &&
         (pcb.(up_local_ip) =? n.(n_addr))
      then Some (a, pcb) else Some (b, q)
    end.

(** The walk: [before] are the blocks already passed, last first. The block found, whether
    it matches fully, and the list, in which such a block has come to the front. *)
Fixpoint udp_walk (before l : list Z) (uncon : option (Z * udp_pcb)) (f : udp_from) (n : lwip_netif) (u : udp)
    : res (option (Z * udp_pcb) * bool * list Z) :=
  match l with
  | [] => Ok (uncon, false, rev before)
  | a :: next =>
    pcb ← udp_deref a u;
    if udp_local pcb f n then
      let uncon := better_uncon uncon a pcb f n in
      if udp_perfect pcb f then Ok (Some (a, pcb), true, a :: rev before ++ next)
      else udp_walk (a :: before) next uncon f n u
    else udp_walk (a :: before) next uncon f n u
  end.

(** Whether the datagram is freed, or a block's callback is called with it. *)
Inductive udp_verdict :=
| UdpFreed
| UdpRecv (pcb fn arg : Z) (p : chain) (src_ip src : Z).

(** [hdr] is the IP header in front of [p]; [src_ip] and [dest_ip] are the packet's. *)
Definition udp_input (ram : list (option Z)) (hdr : list Z) (p : chain) (src_ip dest_ip : Z) (n : lwip_netif) (out : err_t)
    (i : icmp) (u : udp) : res (udp * icmp * list chain * udp_verdict) :=
  let u := udp_inc (λ s, s <| st_recv ::= STATS_INC |>) u in
  if zlen (first_bytes p) <? UDP_HLEN
  then Ok (udp_inc (λ s, s <| st_lenerr ::= STATS_INC |> <| st_drop ::= STATS_INC |>) u, i, [], UdpFreed)
  else
    let udphdr := first_bytes p in
    let broadcast := ip4_addr_isbroadcast_u32 dest_ip n in
    let src := lwip_htons (le16 udphdr.[0] udphdr.[1]) in
    let dest := lwip_htons (le16 udphdr.[2] udphdr.[3]) in
    '(pcb, perfect, l) ← udp_walk [] u.(udp_pcbs) None (From src_ip src dest_ip dest broadcast) n u;
    let cachehit := perfect && bool_decide (head u.(udp_pcbs) = fst <$> pcb) in
    let u := if cachehit then udp_inc (λ s, s <| st_cachehit ::= STATS_INC |>) u else u <| udp_pcbs := l |> in
    let for_us := match pcb with Some _ => true | None => n.(n_addr) =? dest_ip end in
    if for_us then
      if negb (le16 udphdr.[6] udphdr.[7] =? 0) && negb (ip_chksum_pseudo p IP_PROTO_UDP (chain_len p) src_ip dest_ip =? 0)
      then Ok (udp_inc (λ s, s <| st_chkerr ::= STATS_INC |> <| st_drop ::= STATS_INC |>) u, i, [], UdpFreed)
      else
        let q := pbuf_remove_header UDP_HLEN p in
        match pcb with
        | Some (a, pcb) =>
          match pcb.(up_recv) with
          | Some fn => Ok (u, i, [], UdpRecv a fn pcb.(up_recv_arg) q src_ip src)
          | None => Ok (u, i, [], UdpFreed)
          end
        | None =>
          '(i, pkts) ←
            (if negb broadcast && negb (ip4_addr_ismulticast dest_ip) then
               let whole := match p with l :: next => (l.1 - zlen hdr, hdr ++ l.2) :: next | [] => [] end in
               icmp_dest_unreach ram whole ICMP_DUR_PORT n out i
             else Ok (i, []));
          Ok (udp_inc (λ s, s <| st_proterr ::= STATS_INC |> <| st_drop ::= STATS_INC |>) u, i, pkts, UdpFreed)
        end
    else Ok (u, i, [], UdpFreed).

(** ** Ports *)

Definition port_range (port : Z) : Prop := UDP_LOCAL_PORT_RANGE_START <= port <= UDP_LOCAL_PORT_RANGE_END.

(** What holds of the blocks at every moment. *)
Definition overlap (p q : udp_pcb) : Prop :=
  p.(up_local_ip) = q.(up_local_ip) ∨ p.(up_local_ip) = IPADDR_ANY ∨ q.(up_local_ip) = IPADDR_ANY.

Record udp_wf (u : udp) : Prop := {
  uw_nodup : NoDup u.(udp_pcbs);
  uw_live : ∀ a, a ∈ u.(udp_pcbs) → is_Some (u.(pcbs) !! a);
  uw_bound : ∀ a p, u.(pcbs) !! a = Some p → a ∈ u.(udp_pcbs) ↔ p.(up_local_port) ≠ 0;
  uw_port : ∀ a p, u.(pcbs) !! a = Some p → is_u 16 p.(up_local_port);
  uw_clash : ∀ a b p q, u.(pcbs) !! a = Some p → u.(pcbs) !! b = Some q → a ≠ b →
    a ∈ u.(udp_pcbs) → b ∈ u.(udp_pcbs) → p.(up_local_port) = q.(up_local_port) → ¬ overlap p q;
  uw_size : (size u.(pcbs) <= MEMP_NUM_UDP_PCB)%nat;
  uw_range : port_range u.(udp_port)
}.

(** The ports in use. *)
Definition ports (u : udp) : list Z := (λ a, default 0 (up_local_port <$> u.(pcbs) !! a)) <$> u.(udp_pcbs).

Lemma port_taken_spec port l u : (∀ a, a ∈ l → is_Some (u.(pcbs) !! a)) →
  port_taken port l u = Ok (bool_decide (port ∈ (λ a, default 0 (up_local_port <$> u.(pcbs) !! a)) <$> l)).
Proof.
  induction l as [|a l IH]; intros Hl; cbn [port_taken].
  { by rewrite bool_decide_false by apply not_elem_of_nil. }
  destruct (Hl a ltac:(by left)) as [p Hp]. unfold udp_deref. rewrite Hp, fmap_cons, Hp. cbn [mbind res_bind fmap option_fmap option_map default].
  destruct (Z.eqb_spec (up_local_port p) port) as [E|E].
  - rewrite bool_decide_true; [done|]. subst port. by left.
  - rewrite IH by (intros; apply Hl; by right). f_equal. apply bool_decide_ext. rewrite elem_of_cons. naive_solver.
Qed.

(** The ports in the order they are tried, from [p0] on. *)
Definition nth_port (p0 k : Z) : Z := UDP_LOCAL_PORT_RANGE_START + (p0 - UDP_LOCAL_PORT_RANGE_START + k) mod 16384.

Lemma next_port p0 k : port_range p0 → 0 <= k →
  (if nth_port p0 k =? UDP_LOCAL_PORT_RANGE_END then UDP_LOCAL_PORT_RANGE_START else u16 (nth_port p0 k + 1)) = nth_port p0 (k + 1).
Proof.
  unfold nth_port, port_range, UDP_LOCAL_PORT_RANGE_START, UDP_LOCAL_PORT_RANGE_END. intros Hp Hk.
  set (x := p0 - 0xC000 + k). replace (p0 - 0xC000 + (k + 1)) with (x + 1) by lia. assert (0 <= x) by lia. clearbody x.
  destruct (Z.eqb_spec (0xC000 + x mod 16384) 0xFFFF) as [E|E].
  - Z.div_mod_to_equations. lia.
  - rewrite u16_small; [|unfold is_u; Z.div_mod_to_equations; lia]. Z.div_mod_to_equations. lia.
Qed.

Lemma nth_port_range p0 k : port_range (nth_port p0 k).
Proof. unfold nth_port, port_range, UDP_LOCAL_PORT_RANGE_START, UDP_LOCAL_PORT_RANGE_END. Z.div_mod_to_equations. lia. Qed.

Lemma nth_port_inj p0 j k : 0 <= j < k → k < j + 16384 → nth_port p0 j ≠ nth_port p0 k.
Proof. unfold nth_port. intros H1 H2 E. Z.div_mod_to_equations. lia. Qed.

(** Among more ports than there are blocks one is free. *)
Lemma some_port_free p0 (L : list Z) : zlen L < 16384 →
  ∃ k, 1 <= k <= zlen L + 1 ∧ nth_port p0 k ∉ L.
Proof.
  intros HL. unfold zlen in HL. set (T := (λ i, nth_port p0 (Z.of_nat i)) <$> seq 1 (S (length L))).
  destruct (decide (Forall (λ x, x ∈ L) T)) as [Hall|Hex].
  - exfalso. assert (NoDup T) as Hnd.
    { unfold T. apply NoDup_fmap_2_strong; [|apply NoDup_seq]. intros i j Hi Hj E.
      apply list_elem_of_In, in_seq in Hi. apply list_elem_of_In, in_seq in Hj.
      destruct (Nat.lt_trichotomy i j) as [H|[H|H]]; [|done|]; exfalso.
      - revert E. apply nth_port_inj; lia.
      - symmetry in E. revert E. apply nth_port_inj; lia. }
    assert (T ⊆+ L) as Hs.
    { apply NoDup_submseteq; [done|]. intros x Hx. rewrite Forall_forall in Hall. by apply Hall. }
    apply submseteq_length in Hs. unfold T in Hs. rewrite length_fmap, length_seq in Hs. lia.
  - apply not_Forall_Exists in Hex; [|intros x; apply _]. apply Exists_exists in Hex as (x & Hx & Hn).
    apply list_elem_of_fmap in Hx as (i & -> & Hi). apply list_elem_of_In, in_seq in Hi.
    exists (Z.of_nat i). unfold zlen. split; [lia|done].
Qed.

Lemma new_port_loop_ok u p0 fuel j k : port_range p0 → (∀ a, a ∈ u.(udp_pcbs) → is_Some (u.(pcbs) !! a)) →
  u.(udp_port) = nth_port p0 j → 0 <= j < k → k <= 16384 → nth_port p0 k ∉ ports u → k - j <= Z.of_nat fuel →
  ∃ i, j < i <= k ∧ new_port_loop fuel j u = Ok (u <| udp_port := nth_port p0 i |>, nth_port p0 i) ∧ nth_port p0 i ∉ ports u.
Proof.
  revert u j. induction fuel as [|fuel IH]; intros u j Hp Hl Hu Hj Hk Hfree Hf; [lia|].
  cbn [new_port_loop]. rewrite Hu, next_port by (done || lia). cbv zeta.
  set (u' := u <| udp_port := nth_port p0 (j + 1) |>). change (udp_pcbs u') with (udp_pcbs u).
  rewrite port_taken_spec by done. change (pcbs u') with (pcbs u). fold (ports u). cbn [mbind res_bind].
  destruct (decide (nth_port p0 (j + 1) ∈ ports u)) as [Ht|Ht].
  - rewrite bool_decide_true by done. assert (j + 1 ≠ k) by (intros E; by rewrite E in Ht).
    rewrite u16_small by (unfold is_u; lia). unfold UDP_LOCAL_PORT_RANGE_END, UDP_LOCAL_PORT_RANGE_START.
    rewrite Z.gtb_ltb, (proj2 (Z.ltb_ge _ _)) by lia.
    destruct (IH u' (j + 1) Hp Hl eq_refl ltac:(lia) Hk Hfree ltac:(lia)) as (i & Hi & E & Hn).
    exists i. split; [lia|]. split; [exact E|exact Hn].
  - rewrite bool_decide_false by done. exists (j + 1). split; [lia|done].
Qed.

Lemma listed_bound u : udp_wf u → (length u.(udp_pcbs) <= MEMP_NUM_UDP_PCB)%nat.
Proof.
  intros [Hnd Hl _ _ _ Hs _]. assert (length u.(udp_pcbs) = size (list_to_set u.(udp_pcbs) : gset Z)) as ->.
  { by rewrite size_list_to_set. }
  etrans; [|exact Hs]. rewrite <- size_dom. apply subseteq_size. intros a Ha. apply elem_of_list_to_set in Ha.
  apply elem_of_dom. by apply Hl.
Qed.

Lemma new_port_ok u : udp_wf u →
  ∃ port, udp_new_port u = Ok (u <| udp_port := port |>, port) ∧ port_range port ∧ port ∉ ports u.
Proof.
  intros Hw. pose proof (listed_bound u Hw) as Hb. destruct Hw as [Hnd Hl _ _ _ _ Hr].
  assert (length (ports u) = length u.(udp_pcbs)) as Hlen by apply length_fmap.
  destruct (some_port_free u.(udp_port) (ports u)) as (k & Hk & Hfree); [unfold zlen, MEMP_NUM_UDP_PCB in *; lia|].
  unfold zlen, MEMP_NUM_UDP_PCB in *.
  destruct (new_port_loop_ok u u.(udp_port) (Z.to_nat 16384) 0 k Hr Hl) as (i & _ & E & Hn); try done; try lia.
  - unfold nth_port, port_range, UDP_LOCAL_PORT_RANGE_START, UDP_LOCAL_PORT_RANGE_END in *. rewrite Z.mod_small; lia.
  - exists (nth_port u.(udp_port) i). split; [exact E|]. split; [apply nth_port_range|done].
Qed.

(** ** The blocks stay apart *)

Lemma init_wf r : udp_wf (udp_init r).
Proof.
  assert (∀ a, pcbs (udp_init r) !! a = None) as He by (intros a; apply lookup_empty).
  split; try (by intros * Ha; rewrite He in Ha).
  - apply NoDup_nil_2.
  - intros a Ha. by apply elem_of_nil in Ha.
  - change (pcbs (udp_init r)) with (∅ : gmap Z udp_pcb). rewrite map_size_empty. unfold MEMP_NUM_UDP_PCB. lia.
  - change (udp_port (udp_init r)) with (UDP_ENSURE_LOCAL_PORT_RANGE (u16 r)).
    unfold UDP_ENSURE_LOCAL_PORT_RANGE. change (u16 (Z.lnot UDP_LOCAL_PORT_RANGE_START)) with (Z.ones 14).
    rewrite Z.land_ones by lia. pose proof (Z.mod_pos_bound (u16 r) (2 ^ 14) ltac:(lia)).
    unfold port_range, UDP_LOCAL_PORT_RANGE_START, UDP_LOCAL_PORT_RANGE_END. change (2 ^ 14) with 16384 in *.
    rewrite u16_small; [lia|]. unfold is_u. lia.
Qed.

(** What only the list's order, the counters or the port to try next tell apart. *)
Lemma wf_alike u u' : udp_wf u → u'.(pcbs) = u.(pcbs) → u'.(udp_pcbs) ≡ₚ u.(udp_pcbs) → port_range u'.(udp_port) → udp_wf u'.
Proof.
  intros [H1 H2 H3 H4 H5 H6 H7] Ep El Hr. split; rewrite ?Ep; try done.
  - by rewrite El.
  - intros a Ha. apply H2. by rewrite <- El.
  - intros a p Ha. rewrite El. by apply H3.
  - intros a b p q. rewrite El. apply H5.
Qed.

Lemma inc_wf f u : udp_wf u → udp_wf (udp_inc f u).
Proof. intros Hw. apply (wf_alike u); try done. apply Hw. Qed.

(** A change that leaves the address and the port. *)
Lemma store_wf a p p' u : udp_wf u → u.(pcbs) !! a = Some p → p'.(up_local_ip) = p.(up_local_ip) →
  p'.(up_local_port) = p.(up_local_port) → udp_wf (udp_store a p' u).
Proof.
  intros [H1 H2 H3 H4 H5 H6 H7] Ha Ei Ep. split; try done; change (pcbs (udp_store a p' u)) with (<[a := p']> (pcbs u));
    change (udp_pcbs (udp_store a p' u)) with (udp_pcbs u).
  - intros b Hb. destruct (decide (b = a)) as [->|]; [by rewrite lookup_insert_eq|]. rewrite lookup_insert_ne by done. by apply H2.
  - intros b q. destruct (decide (b = a)) as [->|]; [rewrite lookup_insert_eq; intros [= <-]; rewrite Ep; by apply H3|].
    rewrite lookup_insert_ne by done. apply H3.
  - intros b q. destruct (decide (b = a)) as [->|]; [rewrite lookup_insert_eq; intros [= <-]; rewrite Ep; by apply (H4 a)|].
    rewrite lookup_insert_ne by done. apply H4.
  - intros b c q r Hb Hc Hne. unfold overlap. destruct (decide (b = a)) as [->|]; [|rewrite lookup_insert_ne in Hb by done].
    + rewrite lookup_insert_eq in Hb. injection Hb as <-. rewrite lookup_insert_ne in Hc by done. rewrite Ei, Ep. by apply (H5 a c).
    + destruct (decide (c = a)) as [->|]; [|rewrite lookup_insert_ne in Hc by done; by apply (H5 b c)].
      rewrite lookup_insert_eq in Hc. injection Hc as <-. rewrite Ei, Ep. by apply (H5 b a).
  - rewrite map_size_insert_Some; [done|by rewrite Ha].
Qed.

(** A block gets an address and a port that no other one holds. *)
Lemma bound_wf a p ip port u : udp_wf u → u.(pcbs) !! a = Some p → port ≠ 0 → is_u 16 port →
  (∀ b q, b ≠ a → b ∈ u.(udp_pcbs) → u.(pcbs) !! b = Some q → q.(up_local_port) = port →
    ¬ overlap q (p <| up_local_ip := ip |>)) →
  udp_wf (udp_activate a (udp_store a (p <| up_local_ip := ip |> <| up_local_port := port |>) u)).
Proof.
  intros [H1 H2 H3 H4 H5 H6 H7] Ha Hp0 Hpu Hfree. set (p' := p <| up_local_ip := ip |> <| up_local_port := port |>).
  set (u' := udp_activate a (udp_store a p' u)).
  assert (pcbs u' = <[a := p']> (pcbs u)) as Ep by (unfold u', udp_activate; by destruct (bool_decide _)).
  assert (udp_port u' = udp_port u) as Er by (unfold u', udp_activate; by destruct (bool_decide _)).
  assert (∀ b, b ∈ udp_pcbs u' ↔ b = a ∨ b ∈ udp_pcbs u) as El.
  { intros b. unfold u', udp_activate. cbn. destruct (bool_decide_reflect (a ∈ udp_pcbs u)); cbn; [|by rewrite elem_of_cons].
    split; [by right|]. by intros [->|]. }
  assert (∀ b q, b ≠ a → b ∈ udp_pcbs u → pcbs u !! b = Some q → up_local_port q = port → ¬ overlap q p' ∧ ¬ overlap p' q) as Hf2.
  { intros b q Hb Hl Hq Hport. pose proof (Hfree b q Hb Hl Hq Hport) as Hn. unfold overlap in *. cbn in *. split; [done|]. intros Ho. apply Hn. naive_solver. }
  split; rewrite ?Ep, ?Er; try done.
  - unfold u', udp_activate. cbn. destruct (bool_decide_reflect (a ∈ udp_pcbs u)); [done|]. by constructor.
  - intros b Hb. apply El in Hb. destruct (decide (b = a)) as [->|]; [by rewrite lookup_insert_eq|].
    rewrite lookup_insert_ne by done. apply H2. naive_solver.
  - intros b q. rewrite El. destruct (decide (b = a)) as [->|]; [rewrite lookup_insert_eq; intros [= <-]; cbn; naive_solver|].
    rewrite lookup_insert_ne by done. intros Hq. rewrite <- (H3 b q Hq). naive_solver.
  - intros b q. destruct (decide (b = a)) as [->|]; [by rewrite lookup_insert_eq; intros [= <-]|].
    rewrite lookup_insert_ne by done. apply H4.
  - intros b c q r Hb Hc Hne. rewrite !El. destruct (decide (b = a)) as [->|]; [|rewrite lookup_insert_ne in Hb by done].
    + rewrite lookup_insert_eq in Hb. injection Hb as <-. rewrite lookup_insert_ne in Hc by done. intros _ [->|Hl] Eport; [done|].
      by apply (Hf2 c r).
    + destruct (decide (c = a)) as [->|].
      * rewrite lookup_insert_eq in Hc. injection Hc as <-. intros [->|Hl] _ Eport; [done|]. by apply (Hf2 b q).
      * rewrite lookup_insert_ne in Hc by done. intros [->|Hl] [->|Hl'] Eport; try done. by apply (H5 b c).
  - by rewrite map_size_insert_Some by by rewrite Ha.
Qed.

(** Another active block holds the port for the address, for all, or for one while all are
    asked for. *)
Definition clash (u : udp) (a ip port : Z) : Prop :=
  ∃ b q, b ≠ a ∧ b ∈ u.(udp_pcbs) ∧ u.(pcbs) !! b = Some q ∧ q.(up_local_port) = port ∧
    (q.(up_local_ip) = ip ∨ q.(up_local_ip) = IPADDR_ANY ∨ ip = IPADDR_ANY).

Lemma bound_elsewhere_spec a ip port l u : (∀ b, b ∈ l → is_Some (u.(pcbs) !! b)) →
  ∃ t, bound_elsewhere a ip port l u = Ok t ∧
    (t = true ↔ ∃ b q, b ≠ a ∧ b ∈ l ∧ u.(pcbs) !! b = Some q ∧ q.(up_local_port) = port ∧
       (q.(up_local_ip) = ip ∨ q.(up_local_ip) = IPADDR_ANY ∨ ip = IPADDR_ANY)).
Proof.
  induction l as [|b l IH]; intros Hl; cbn [bound_elsewhere].
  { exists false. split; [done|]. split; [done|]. intros (b & q & _ & Hb & _). by apply elem_of_nil in Hb. }
  destruct (Hl b ltac:(by left)) as [q Hq]. unfold udp_deref. rewrite Hq. cbn [mbind res_bind].
  destruct (negb (a =? b) && _ && _) eqn:E;
    rewrite ?andb_true_iff, ?andb_false_iff, ?orb_true_iff, ?orb_false_iff, ?negb_true_iff, ?negb_false_iff in E;
    unfold ip4_addr_isany_val in E; rewrite ?Z.eqb_neq, ?Z.eqb_eq in E.
  - exists true. split; [done|]. split; [intros _|done]. exists b, q. split; [naive_solver|]. split; [by left|]. naive_solver.
  - destruct IH as (t & Ht & Hf); [intros; apply Hl; by right|]. exists t. split; [done|]. rewrite Hf. split.
    + intros (c & r & H1 & H2 & H3). exists c, r. split; [done|]. split; [by right|done].
    + intros (c & r & H1 & [->|H2]%elem_of_cons & H3); [|by exists c, r]. exfalso. naive_solver.
Qed.

Lemma bind_ok a ip port u : udp_wf u → is_Some (u.(pcbs) !! a) → is_u 16 port →
  ∃ u' e, udp_bind a ip port u = Ok (u', e) ∧ udp_wf u' ∧
    match e with
    | ERR_OK => ∃ p p', u.(pcbs) !! a = Some p ∧ u'.(pcbs) = <[a := p']> u.(pcbs) ∧ a ∈ u'.(udp_pcbs) ∧
        p' = p <| up_local_ip := default IPADDR_ANY ip |> <| up_local_port := p'.(up_local_port) |> ∧
        if port =? 0 then port_range p'.(up_local_port) ∧ p'.(up_local_port) ∉ ports u
        else p'.(up_local_port) = port ∧ ¬ clash u a (default IPADDR_ANY ip) port
    | ERR_USE => u' = u ∧ port ≠ 0 ∧ clash u a (default IPADDR_ANY ip) port
    | _ => False
    end.
Proof.
  intros Hw [p Hp] Hport. unfold udp_bind. destruct (Z.eqb_spec port 0) as [->|Hne].
  - destruct (new_port_ok u Hw) as (port & -> & Hr & Hn). cbn [mbind res_bind]. unfold port_range, UDP_LOCAL_PORT_RANGE_START, UDP_LOCAL_PORT_RANGE_END in Hr.
    rewrite (proj2 (Z.eqb_neq port 0)) by lia. set (v := u <| udp_port := port |>).
    assert (udp_wf v) as Hv by (apply (wf_alike u); [done..|]; unfold port_range, UDP_LOCAL_PORT_RANGE_START, UDP_LOCAL_PORT_RANGE_END; cbn; lia).
    unfold udp_deref. change (pcbs v) with (pcbs u). rewrite Hp. cbn [mbind res_bind]. do 2 eexists. split; [reflexivity|].
    split.
    + apply bound_wf; [done|exact Hp|lia|unfold is_u; lia|]. intros b q _ Hb Hq Ep _. apply Hn. apply list_elem_of_fmap.
      exists b. change (udp_pcbs v) with (udp_pcbs u) in Hb. change (pcbs v) with (pcbs u) in Hq. rewrite Hq. split; [by cbn|done].
    + exists p. eexists. split; [done|]. split; [unfold udp_activate; by destruct (bool_decide _)|]. split.
      { unfold udp_activate. destruct (bool_decide_reflect (a ∈ udp_pcbs (udp_store a (p <| up_local_ip := default IPADDR_ANY ip |> <| up_local_port := port |>) v))); [done|by left]. }
      split; [reflexivity|]. split; [|exact Hn]. unfold port_range, UDP_LOCAL_PORT_RANGE_START, UDP_LOCAL_PORT_RANGE_END. cbn. lia.
  - destruct (bound_elsewhere_spec a (default IPADDR_ANY ip) port u.(udp_pcbs) u (uw_live u Hw)) as (t & -> & Hf). cbn [mbind res_bind].
    destruct t; [exists u, ERR_USE; split_and!; try done; by apply Hf|]. unfold udp_deref. rewrite Hp. cbn [mbind res_bind]. do 2 eexists. split; [reflexivity|].
    split.
    + apply bound_wf; try done. intros b q Hb Hl Hq Ep Ho. assert (false = true) as ?; [apply Hf|done]. exists b, q. by split_and!.
    + exists p. eexists. split; [done|]. split; [unfold udp_activate; by destruct (bool_decide _)|]. split.
      { unfold udp_activate. destruct (bool_decide_reflect (a ∈ udp_pcbs (udp_store a (p <| up_local_ip := default IPADDR_ANY ip |> <| up_local_port := port |>) u))); [done|by left]. }
      split; [reflexivity|]. split; [reflexivity|]. intros Hc. by apply Hf in Hc.
Qed.

Lemma activate_listed a u : a ∈ u.(udp_pcbs) → udp_activate a u = u.
Proof. intros H. unfold udp_activate. by rewrite bool_decide_true. Qed.

(** A block that has no port gets one, and that never fails. *)
Lemma bind_if_needed_ok a p u : udp_wf u → u.(pcbs) !! a = Some p →
  ∃ u' p', bind_if_needed a u = Ok (u', ERR_OK) ∧ udp_wf u' ∧ u'.(pcbs) = <[a := p']> u.(pcbs) ∧ a ∈ u'.(udp_pcbs) ∧
    p' = p <| up_local_port := p'.(up_local_port) |> ∧ (p.(up_local_port) ≠ 0 → p' = p ∧ u' = u).
Proof.
  intros Hw Hp. unfold bind_if_needed, udp_deref. rewrite Hp. cbn [mbind res_bind].
  destruct (Z.eqb_spec p.(up_local_port) 0) as [E|E].
  - destruct (bind_ok a (Some p.(up_local_ip)) p.(up_local_port) u Hw ltac:(by rewrite Hp) ltac:(by apply (uw_port u Hw a)))
      as (u' & e & Hb & Hw' & He). rewrite Hb. destruct e; try done; [|by destruct He as (_ & ? & _)].
    destruct He as (q & p' & Hq & Hs & Hl & Ep & _). assert (q = p) as -> by congruence.
    exists u', p'. split; [done|]. split; [done|]. split; [done|]. split; [done|]. split; [|done]. rewrite Ep at 1. by destruct p.
  - exists u, p. split; [done|]. split; [done|]. split; [by rewrite insert_id|]. split; [by apply (uw_bound u Hw a p Hp)|].
    split; [by destruct p|done].
Qed.

Lemma connect_ok a ip port u : udp_wf u → is_Some (u.(pcbs) !! a) →
  ∃ u', udp_connect a ip port u = Ok (u', ERR_OK) ∧ udp_wf u'.
Proof.
  intros Hw [p Hp]. unfold udp_connect. destruct (bind_if_needed_ok a p u Hw Hp) as (u' & p' & -> & Hw' & Es & Hl & _).
  assert (pcbs u' !! a = Some p') as Hp' by by rewrite Es, lookup_insert_eq.
  cbn [mbind res_bind]. unfold udp_deref. rewrite Hp'. cbn [mbind res_bind]. eexists. split; [reflexivity|].
  rewrite activate_listed by exact Hl. by apply (store_wf a p').
Qed.

Lemma new_wf a u : udp_wf u → u.(pcbs) !! a = None → udp_wf (udp_new a u).1.
Proof.
  intros Hw Ha. unfold udp_new. destruct (Nat.ltb_spec (size (pcbs u)) MEMP_NUM_UDP_PCB) as [Hs|]; [|done].
  pose proof Hw as [H1 H2 H3 H4 H5 H6 H7]. set (p := UdpPcb 0 0 0 0 UDP_TTL 0 0 0 None 0). cbn [fst].
  assert (a ∉ udp_pcbs u) as Hn by (intros Hl; destruct (H2 a Hl) as [q Hq]; congruence).
  split; try done; change (pcbs (udp_store a p u)) with (<[a := p]> (pcbs u)); change (udp_pcbs (udp_store a p u)) with (udp_pcbs u).
  - intros b Hb. rewrite lookup_insert_ne by (by intros ->). by apply H2.
  - intros b q. destruct (decide (b = a)) as [->|]; [rewrite lookup_insert_eq; by intros [= <-]|].
    rewrite lookup_insert_ne by done. apply H3.
  - intros b q. destruct (decide (b = a)) as [->|]; [rewrite lookup_insert_eq; by intros [= <-]|].
    rewrite lookup_insert_ne by done. apply H4.
  - intros b c q r Hb Hc Hne Hlb Hlc. rewrite lookup_insert_ne in Hb by (by intros ->). rewrite lookup_insert_ne in Hc by (by intros ->).
    by apply (H5 b c).
  - rewrite map_size_insert_None by done. lia.
Qed.

Lemma unlink_spec a l : NoDup l → NoDup (unlink a l) ∧ ∀ b, b ∈ unlink a l ↔ b ∈ l ∧ b ≠ a.
Proof.
  induction 1 as [|x l Hx Hl [IH1 IH2]]; cbn [unlink].
  { split; [constructor|]. intros b. split; [intros H; by apply elem_of_nil in H|intros [H _]; by apply elem_of_nil in H]. }
  destruct (Z.eqb_spec x a) as [->|Hne].
  - split; [exact Hl|]. intros b. rewrite elem_of_cons. split; [|naive_solver]. intros Hb. split; [by right|]. by intros ->.
  - split; [constructor; [rewrite IH2; naive_solver|done]|]. intros b. rewrite !elem_of_cons, IH2. naive_solver.
Qed.

Lemma remove_wf a u : udp_wf u → udp_wf (udp_remove a u).
Proof.
  intros [H1 H2 H3 H4 H5 H6 H7]. destruct (unlink_spec a u.(udp_pcbs) H1) as [Hn Hin].
  split; try done; change (pcbs (udp_remove a u)) with (delete a (pcbs u)); change (udp_pcbs (udp_remove a u)) with (unlink a (udp_pcbs u)).
  - intros b [Hb Hne]%Hin. rewrite lookup_delete_ne by done. by apply H2.
  - intros b q [Hne Hq]%lookup_delete_Some. rewrite Hin, <- (H3 b q Hq). naive_solver.
  - intros b q [Hne Hq]%lookup_delete_Some. by apply (H4 b).
  - intros b c q r [_ Hb]%lookup_delete_Some [_ Hc]%lookup_delete_Some Hne [Hlb _]%Hin [Hlc _]%Hin. by apply (H5 b c).
  - etrans; [|exact H6]. apply map_subseteq_size, delete_subseteq.
Qed.

(** ** Who gets a datagram *)

Lemma walk_ok before l uncon f n u : (∀ a, a ∈ l → is_Some (u.(pcbs) !! a)) →
  ∃ r perfect l', udp_walk before l uncon f n u = Ok (r, perfect, l') ∧ l' ≡ₚ before ++ l.
Proof.
  revert before uncon. induction l as [|a l IH]; intros before uncon Hl; cbn [udp_walk].
  { do 3 eexists. split; [done|]. rewrite app_nil_r. symmetry. apply Permutation_rev. }
  destruct (Hl a ltac:(by left)) as [p Hp]. unfold udp_deref. rewrite Hp. cbn [mbind res_bind].
  assert (∀ x, ∃ r perfect l', udp_walk (a :: before) l x f n u = Ok (r, perfect, l') ∧ l' ≡ₚ before ++ a :: l) as Hrest.
  { intros x. destruct (IH (a :: before) x) as (r & pf & l' & -> & Hp'); [intros; apply Hl; by right|].
    exists r, pf, l'. split; [done|]. rewrite Hp'. cbn [app]. apply Permutation_middle. }
  destruct (udp_local p f n); [|apply Hrest]. destruct (udp_perfect p f); [|apply Hrest].
  do 3 eexists. split; [done|]. rewrite <- Permutation_rev. apply Permutation_middle.
Qed.

Lemma walk_none before l uncon f n u : (∀ a, a ∈ l → ∃ p, u.(pcbs) !! a = Some p ∧ udp_local p f n = false) →
  udp_walk before l uncon f n u = Ok (uncon, false, rev before ++ l).
Proof.
  revert before. induction l as [|a l IH]; intros before Hl; cbn [udp_walk]; [by rewrite app_nil_r|].
  destruct (Hl a ltac:(by left)) as (p & Hp & Hf). unfold udp_deref. rewrite Hp. cbn [mbind res_bind]. rewrite Hf, IH.
  - cbn [rev]. by rewrite <- app_assoc.
  - intros b Hb. apply Hl. by right.
Qed.

(** One block matches the destination: it gets the datagram if it is not connected, or to
    the datagram's source. *)
Lemma walk_one l1 a p l2 f n u : u.(pcbs) !! a = Some p → udp_local p f n = true →
  (∀ b, b ∈ l1 ++ l2 → ∃ q, u.(pcbs) !! b = Some q ∧ udp_local q f n = false) → ∀ before,
  ∃ perfect l', udp_walk before (l1 ++ a :: l2) None f n u =
    Ok (if negb (udp_connected p) || udp_perfect p f then Some (a, p) else None, perfect, l').
Proof.
  intros Hp Hm. induction l1 as [|b l1 IH]; intros Hl before; cbn [app udp_walk].
  - unfold udp_deref. rewrite Hp. cbn [mbind res_bind]. rewrite Hm. unfold better_uncon.
    destruct (udp_perfect p f); [rewrite orb_true_r; by do 2 eexists|]. rewrite orb_false_r.
    rewrite walk_none by (intros b Hb; apply Hl; by right || done). destruct (udp_connected p); by do 2 eexists.
  - destruct (Hl b ltac:(by left)) as (q & Hq & Hf). unfold udp_deref. rewrite Hq. cbn [mbind res_bind]. rewrite Hf.
    apply IH. intros c Hc. apply Hl. by right.
Qed.

Lemma local_unicast p f n : f.(fm_broadcast) = false → udp_local p f n = true →
  p.(up_local_port) = f.(fm_dest) ∧ (p.(up_local_ip) = IPADDR_ANY ∨ p.(up_local_ip) = f.(fm_dest_ip)).
Proof.
  intros Hb. unfold udp_local, udp_input_local_match. rewrite Hb. rewrite andb_true_iff, Z.eqb_eq. intros [Hp Hm]. split; [done|].
  destruct (_ && _); [done|]. apply orb_true_iff in Hm as [Hm|Hm]; apply Z.eqb_eq in Hm; auto.
Qed.

(** No two active blocks match the same unicast datagram. *)
Lemma local_unique u a b p q f n : udp_wf u → u.(pcbs) !! a = Some p → u.(pcbs) !! b = Some q → a ∈ u.(udp_pcbs) → b ∈ u.(udp_pcbs) →
  f.(fm_broadcast) = false → udp_local p f n = true → udp_local q f n = true → a = b.
Proof.
  intros Hw Ha Hb Hla Hlb Hf Hp Hq. destruct (local_unicast p f n Hf Hp) as [E1 E2], (local_unicast q f n Hf Hq) as [F1 F2].
  destruct (decide (a = b)) as [|Hne]; [done|]. exfalso.
  apply (uw_clash u Hw a b p q Ha Hb Hne Hla Hlb); [congruence|]. unfold overlap. destruct E2, F2; auto. left. congruence.
Qed.

Lemma walk_unicast u a p f n : udp_wf u → u.(pcbs) !! a = Some p → a ∈ u.(udp_pcbs) → f.(fm_broadcast) = false →
  udp_local p f n = true →
  ∃ perfect l', udp_walk [] u.(udp_pcbs) None f n u =
    Ok (if negb (udp_connected p) || udp_perfect p f then Some (a, p) else None, perfect, l').
Proof.
  intros Hw Hp Hl Hf Hm. pose proof (uw_nodup u Hw) as Hnd. destruct (list_elem_of_split _ _ Hl) as (l1 & l2 & E). rewrite E in Hnd |- *.
  apply walk_one; [done..|]. intros b Hb. assert (b ∈ udp_pcbs u) as Hbl by (rewrite E, elem_of_app, elem_of_cons; apply elem_of_app in Hb; tauto).
  destruct (uw_live u Hw b Hbl) as [q Hq]. exists q. split; [done|]. destruct (udp_local q f n) eqn:Eq; [|done]. exfalso.
  assert (a = b) as <- by by apply (local_unique u a b p q f n).
  apply NoDup_app in Hnd as (_ & Hd & Hnd2). apply NoDup_cons in Hnd2 as [Hn2 _]. apply elem_of_app in Hb as [Hb|Hb]; [|done].
  apply (Hd a Hb). by left.
Qed.

(** ** Runs *)

Lemma deref_live a u p : udp_deref a u = Ok p → u.(pcbs) !! a = Some p.
Proof. unfold udp_deref. destruct (pcbs u !! a); [by intros [= ->]|done]. Qed.

Lemma sendto_if_src_wf ram room a p dst dport n src out o u u' o' pkts e : udp_wf u →
  udp_sendto_if_src ram room a p dst dport n src out o u = Ok (u', o', pkts, e) → udp_wf u'.
Proof.
  intros Hw. unfold udp_sendto_if_src. destruct (pcbs u !! a) as [pcb|] eqn:Ha.
  2:{ unfold bind_if_needed, udp_deref. by rewrite Ha. }
  destruct (bind_if_needed_ok a pcb u Hw Ha) as (v & p' & -> & Hv & Es & _). cbn [mbind res_bind].
  unfold udp_deref. rewrite Es, lookup_insert_eq. cbn [mbind res_bind]. destruct (_ <? _); [by intros [= <- _ _ _]|].
  destruct (with_udp_hdr _ _ _) as [[[ram' q] room']|]; [|by intros [= <- _ _ _]].
  destruct (ip4_output_if_src _ _ _ _ _ _ _ _ _ _ _) as [[[o2 pk] e2]| |]; [|done..]. cbn [mbind res_bind].
  intros [= <- _ _ _]. by apply inc_wf.
Qed.

Lemma sendto_wf ram room a p dst dport n out o u u' o' pkts e : udp_wf u →
  udp_sendto ram room a p dst dport n out o u = Ok (u', o', pkts, e) → udp_wf u'.
Proof.
  intros Hw. unfold udp_sendto, udp_sendto_if. destruct (udp_deref a u) as [pcb| |]; [|done..]. cbn [mbind res_bind].
  destruct (negb _); [intros [= <- _ _ _]; by apply inc_wf|]. destruct (_ || _); [by apply sendto_if_src_wf|].
  destruct (negb _); [by intros [= <- _ _ _]|by apply sendto_if_src_wf].
Qed.

Lemma input_wf ram hdr p src dest n out i u u' i' pkts v : udp_wf u →
  udp_input ram hdr p src dest n out i u = Ok (u', i', pkts, v) → udp_wf u'.
Proof.
  intros Hw. unfold udp_input. set (u1 := udp_inc (λ s, s <| st_recv ::= STATS_INC |>) u).
  assert (udp_wf u1) as Hw1 by by apply inc_wf. clearbody u1. destruct (zlen (first_bytes p) <? UDP_HLEN).
  { intros E. injection E as <- _ _ _. exact (inc_wf _ _ Hw1). }
  cbv zeta. match goal with |- context [udp_walk [] (udp_pcbs u1) None ?f n u1] =>
    destruct (walk_ok [] (udp_pcbs u1) None f n u1 (uw_live u1 Hw1)) as (r & pf & l & -> & Hl) end.
  cbn [mbind res_bind]. set (hit := pf && bool_decide (head (udp_pcbs u1) = fst <$> r)). clearbody hit.
  set (u2 := if hit then udp_inc (λ s, s <| st_cachehit ::= STATS_INC |>) u1 else u1 <| udp_pcbs := l |>).
  assert (udp_wf u2) as Hw2.
  { unfold u2. destruct hit; [exact (inc_wf _ _ Hw1)|]. apply (wf_alike u1); [done|done|exact Hl|apply Hw1]. }
  clearbody u2. destruct r as [[a q]|].
  - destruct (negb (le16 _ _ =? 0) && _); [|destruct (up_recv q)]; intros E; injection E as <- _ _ _;
      [exact (inc_wf _ _ Hw2)|exact Hw2|exact Hw2].
  - destruct (n_addr n =? dest); [|intros E; injection E as <- _ _ _; exact Hw2].
    destruct (negb (le16 _ _ =? 0) && _); [intros E; injection E as <- _ _ _; exact (inc_wf _ _ Hw2)|].
    match goal with |- context [mbind _ ?c] => destruct c as [[i2 pk]| |]; [|done..] end. cbn [mbind res_bind].
    intros E. injection E as <- _ _ _. exact (inc_wf _ _ Hw2).
Qed.

(** States that the code can come to, as long as nobody changes the interface's address. *)
Inductive udp_reach : udp → Prop :=
| ur_init r : udp_reach (udp_init r)
| ur_new a u : udp_reach u → u.(pcbs) !! a = None → udp_reach (udp_new a u).1
| ur_remove a u : udp_reach u → udp_reach (udp_remove a u)
| ur_recv a fn arg u u' : udp_reach u → udp_recv a fn arg u = Ok u' → udp_reach u'
| ur_bind a ip port u u' e : udp_reach u → is_u 16 port → udp_bind a ip port u = Ok (u', e) → udp_reach u'
| ur_bind_netif a n u u' : udp_reach u → udp_bind_netif a n u = Ok u' → udp_reach u'
| ur_connect a ip port u u' e : udp_reach u → udp_connect a ip port u = Ok (u', e) → udp_reach u'
| ur_disconnect a u u' : udp_reach u → udp_disconnect a u = Ok u' → udp_reach u'
| ur_sendto ram room a p dst dport n out o u u' o' pkts e : udp_reach u →
    udp_sendto ram room a p dst dport n out o u = Ok (u', o', pkts, e) → udp_reach u'
| ur_input ram hdr p src dest n out i u u' i' pkts v : udp_reach u →
    udp_input ram hdr p src dest n out i u = Ok (u', i', pkts, v) → udp_reach u'.

Lemma live_or_fault a u : is_Some (u.(pcbs) !! a) ∨ udp_deref a u = Fault.
Proof. unfold udp_deref. destruct (pcbs u !! a); [left|right]; done. Qed.

Lemma reach_wf u : udp_reach u → udp_wf u.
Proof.
  induction 1 as [r|a u _ IH Ha|a u _ IH|a fn arg u u' _ IH E|a ip port u u' e _ IH Hp E|a n u u' _ IH E|a ip port u u' e _ IH E
    |a u u' _ IH E|? ? ? ? ? ? ? ? ? ? ? ? ? ? _ IH E|? ? ? ? ? ? ? ? ? ? ? ? ? _ IH E].
  - apply init_wf.
  - by apply new_wf.
  - by apply remove_wf.
  - unfold udp_recv in E. destruct (udp_deref a u) as [p| |] eqn:Ed; [|done..]. injection E as <-. by apply (store_wf a p); [|apply deref_live|..].
  - destruct (live_or_fault a u) as [Hl|Hf].
    + destruct (bind_ok a ip port u IH Hl Hp) as (v & f & Eb & Hv & _). congruence.
    + unfold udp_bind in E. revert E. destruct (port =? 0).
      * destruct (new_port_ok u IH) as (q & -> & Hr & _). cbn [mbind res_bind]. unfold port_range, UDP_LOCAL_PORT_RANGE_START in Hr.
        rewrite (proj2 (Z.eqb_neq q 0)) by lia. change (udp_deref a (u <| udp_port := q |>)) with (udp_deref a u). by rewrite Hf.
      * destruct (bound_elsewhere_spec a (default IPADDR_ANY ip) port u.(udp_pcbs) u (uw_live u IH)) as (t & -> & _). cbn [mbind res_bind].
        destruct t; [congruence|by rewrite Hf].
  - unfold udp_bind_netif in E. destruct (udp_deref a u) as [p| |] eqn:Ed; [|done..]. injection E as <-. by apply (store_wf a p); [|apply deref_live|..].
  - destruct (live_or_fault a u) as [Hl|Hf].
    + destruct (connect_ok a ip port u IH Hl) as (v & Eb & Hv). congruence.
    + unfold udp_connect, bind_if_needed in E. by rewrite Hf in E.
  - unfold udp_disconnect in E. destruct (udp_deref a u) as [p| |] eqn:Ed; [|done..]. injection E as <-. by apply (store_wf a p); [|apply deref_live|..].
  - by apply (sendto_wf _ _ _ _ _ _ _ _ _ _ _ _ _ _ IH E).
  - by apply (input_wf _ _ _ _ _ _ _ _ _ _ _ _ _ IH E).
Qed.

(** ** Changes of the interface's address *)

Definition readdressed (old_addr new_addr : Z) (l : list Z) (a : Z) (p : udp_pcb) : udp_pcb :=
  if bool_decide (a ∈ l) && (p.(up_local_ip) =? old_addr) then p <| up_local_ip := new_addr |> else p.

Lemma readdress_spec old_addr new_addr l u : NoDup l → (∀ a, a ∈ l → is_Some (u.(pcbs) !! a)) →
  ∃ m, readdress old_addr new_addr l u = Ok (u <| pcbs := m |>) ∧
    ∀ a, m !! a = readdressed old_addr new_addr l a <$> u.(pcbs) !! a.
Proof.
  intros Hnd. revert u. induction Hnd as [|b l Hb _ IH]; intros u Hl; cbn [readdress].
  { exists (pcbs u). split; [by destruct u|]. intros a. destruct (pcbs u !! a) as [p|]; [|done]. cbn. unfold readdressed.
    rewrite bool_decide_false by apply not_elem_of_nil. done. }
  destruct (Hl b ltac:(by left)) as [p Hp]. unfold udp_deref. rewrite Hp. cbn [mbind res_bind].
  set (p' := if up_local_ip p =? old_addr then p <| up_local_ip := new_addr |> else p).
  set (u1 := if up_local_ip p =? old_addr then udp_store b (p <| up_local_ip := new_addr |>) u else u).
  assert (u1 = u <| pcbs := <[b := p']> u.(pcbs) |>) as ->.
  { unfold u1, p'. destruct (_ =? _); [done|]. rewrite insert_id by done. by destruct u. }
  destruct (IH (u <| pcbs := <[b := p']> u.(pcbs) |>)) as (m & E & Hm).
  { intros a Ha. change (is_Some (<[b := p']> (pcbs u) !! a)). destruct (decide (a = b)) as [->|]; [by rewrite lookup_insert_eq|].
    rewrite lookup_insert_ne by done. apply Hl. by right. }
  exists m. split; [exact E|]. intros a. rewrite Hm. change (pcbs (u <| pcbs := <[b := p']> u.(pcbs) |>)) with (<[b := p']> (pcbs u)).
  destruct (decide (a = b)) as [->|Hne].
  - rewrite lookup_insert_eq, Hp. cbn. f_equal. unfold readdressed. rewrite bool_decide_false by done.
    rewrite bool_decide_true by by left. unfold p'. by destruct (_ =? _).
  - rewrite lookup_insert_ne by done. destruct (pcbs u !! a) as [q|]; [|done]. cbn. f_equal. unfold readdressed.
    by rewrite (bool_decide_ext (a ∈ b :: l) (a ∈ l)) by (rewrite elem_of_cons; naive_solver).
Qed.

(** Every active block of the old address has the new one, and nothing else changes. *)
Theorem address_changed (u : udp) (old_addr new_addr : Z) : udp_wf u → old_addr ≠ IPADDR_ANY → new_addr ≠ IPADDR_ANY →
  ∃ m, udp_netif_ip_addr_changed old_addr new_addr u = Ok (u <| pcbs := m |>) ∧
    ∀ a, m !! a = readdressed old_addr new_addr u.(udp_pcbs) a <$> u.(pcbs) !! a.
Proof.
  intros Hw H1 H2. unfold udp_netif_ip_addr_changed, ip4_addr_isany_val. rewrite !(proj2 (Z.eqb_neq _ _)) by done.
  apply readdress_spec; apply Hw.
Qed.

(** The code does not look for a block that has the new address and the port already: the
    invariant of [udp_reach] does not survive the change. *)
Theorem address_change_clash : ∃ u u', udp_reach u ∧ udp_netif_ip_addr_changed 5 6 u = Ok u' ∧ ¬ udp_wf u'.
Proof.
  set (u0 := (udp_new 0x200 (udp_new 0x100 (udp_init 0)).1).1).
  assert (udp_reach u0) as H0 by (apply ur_new; [apply ur_new; [apply ur_init|done]|by vm_compute]).
  destruct (udp_bind 0x100 (Some 5) 53 u0) as [[u1 e1]| |] eqn:E1; [|by vm_compute in E1..].
  assert (udp_reach u1) as H1 by (apply (ur_bind 0x100 (Some 5) 53 u0 u1 e1 H0); [done|exact E1]).
  destruct (udp_bind 0x200 (Some 6) 53 u1) as [[u2 e2]| |] eqn:E2; [|by vm_compute in E1; injection E1 as <- _; vm_compute in E2..].
  assert (udp_reach u2) as H2 by (apply (ur_bind 0x200 (Some 6) 53 u1 u2 e2 H1); [done|exact E2]).
  exists u2. vm_compute in E1. injection E1 as <- _. vm_compute in E2. injection E2 as <- _.
  eexists. split; [exact H2|]. split; [by vm_compute|]. intros Hw.
  refine (uw_clash _ Hw 0x100 0x200 _ _ eq_refl eq_refl ltac:(done) _ _ eq_refl (or_introl eq_refl)); vm_compute; set_solver.
Qed.

(** ** The datagram on the wire *)

Lemma udp_hdr_bytes_ok sport dport len ck : is_u 16 sport → is_u 16 dport → is_u 16 len → is_u 16 ck →
  is_bytes (udp_hdr_bytes sport dport len ck).
Proof. intros. unfold udp_hdr_bytes. repeat apply is_bytes_app; auto with word. Qed.

Lemma zlen_udp_hdr sport dport len ck : zlen (udp_hdr_bytes sport dport len ck) = UDP_HLEN.
Proof. done. Qed.

(** The header gets eight bytes, in the first buffer if it has the room. *)
Lemma with_udp_hdr_spec addrs room p : chain_ok p → p ≠ [] → chain_len p <= 65507 → room < UDP_HLEN ∨ UDP_HLEN + IP_HLEN <= room →
  1 <= zlen addrs →
  ∃ addrs' q room', with_udp_hdr (Some <$> addrs) room p = Some (Some <$> addrs', q, room') ∧ IP_HLEN <= room' ∧
    zlen addrs <= zlen addrs' + 1 ∧ chain_len q = UDP_HLEN + chain_len p ∧
    ∀ b, is_bytes b → zlen b = UDP_HLEN → ∀ c, zlen c = UDP_HLEN →
      set_udp_hdr b (set_udp_hdr c q) = set_udp_hdr b q ∧ payload (set_udp_hdr b q) = b ++ payload p ∧
      chain_ok (set_udp_hdr b q) ∧ set_udp_hdr b q ≠ [] ∧ zlen (set_udp_hdr b q) <= zlen p + 1.
Proof.
  intros Hp Hne Hl Hr Ha. destruct Hp as [|[x l] p [Hb Hz] Hp]; [done|]. cbn [fst snd] in *. rewrite chain_len_cons in Hl. cbn [snd] in Hl.
  assert (0 <= chain_len p) by apply zlen_nonneg. pose proof (zlen_nonneg l). pose proof (zlen_nonneg p). unfold UDP_HLEN, IP_HLEN in *.
  assert (∀ (b : list Z) r, zlen b = 8 → blit 0 b (replicate 8 0 ++ r) = b ++ r) as Hblit.
  { intros b r E. unfold zlen in E. unfold blit. cbn [take]. rewrite app_nil_l, drop_app_ge by (rewrite length_replicate; lia).
    rewrite length_replicate. replace (0 + length b - 8)%nat with 0%nat by lia. done. }
  assert (∀ (b c r : list Z), zlen b = 8 → zlen c = 8 → blit 0 b (c ++ r) = b ++ r) as Hblit2.
  { intros b c r E1 E2. unfold zlen in *. unfold blit. cbn [take]. rewrite app_nil_l, drop_app_ge by lia.
    replace (0 + length b - length c)%nat with 0%nat by lia. done. }
  unfold with_udp_hdr, pbuf_add_header. rewrite chain_len_cons. cbn [snd fst]. rewrite u16_small by (unfold is_u, UDP_HLEN; lia).
  rewrite (proj2 (Z.ltb_ge (UDP_HLEN + _) _)) by (unfold UDP_HLEN; lia). cbn [orb].
  destruct (Z.ltb_spec room UDP_HLEN) as [Hs|Hs]; unfold UDP_HLEN in Hs.
  - destruct addrs as [|a addrs]; [change (zlen []) with 0 in Ha; lia|]. rewrite fmap_cons, zlen_cons in *.
    exists addrs. do 2 eexists. split; [reflexivity|]. split; [unfold PBUF_IP_ROOM; lia|]. split; [lia|].
    destruct (Z.eqb_spec (zlen l + chain_len p) 0) as [E|E].
    + assert (payload ((x, l) :: p) = []) as Enil.
      { apply nil_length_inv. pose proof (chain_len_cons (x, l) p) as Hc. cbn [snd] in Hc. unfold chain_len, zlen in *. lia. }
      split; [change (chain_len [(a, replicate 8 0)]) with 8; lia|]. intros b Hbb Eb c Ec. cbn [set_udp_hdr fst snd]. rewrite Enil, !app_nil_r, <- (app_nil_r (replicate 8 0)), !Hblit by done.
      rewrite Hblit2 by done. split; [done|]. split; [by cbn; rewrite !app_nil_r|]. split; [|split; [done|rewrite !zlen_cons; change (zlen []) with 0; lia]].
      constructor; [|constructor]. cbn [snd]. rewrite app_nil_r. split; [done|lia].
    + split; [rewrite !chain_len_cons; cbn [snd]; change (zlen (replicate 8 0)) with 8; lia|]. intros b Hbb Eb c Ec. cbn [set_udp_hdr fst snd].
      rewrite <- (app_nil_r (replicate 8 0)), !Hblit by done. rewrite Hblit2, !app_nil_r by done.
      split; [done|]. split; [by rewrite payload_cons|]. split; [|split; [done|rewrite !zlen_cons; lia]].
      constructor; [cbn [snd]; split; [done|lia]|]. by constructor.
  - exists addrs. do 2 eexists. split; [reflexivity|]. unfold UDP_HLEN. split; [lia|]. split; [lia|].
    split; [rewrite !chain_len_cons; cbn [snd]; rewrite zlen_app; change (zlen (replicate 8 0)) with 8; lia|].
    intros b Hbb Eb c Ec. cbn [set_udp_hdr fst snd]. rewrite !Hblit, Hblit2 by done.
    split; [done|]. split; [by rewrite !payload_cons; cbn [snd]; rewrite app_assoc|]. split; [|split; [done|rewrite !zlen_cons; lia]].
    constructor; [|done]. cbn [snd]. rewrite zlen_app. split; [by apply is_bytes_app|lia].
Qed.

(** All ones in the place of zeros changes no sum that verifies. *)
Lemma ones_for_zeros pre post : is_bytes pre → is_bytes post → zodd pre = false →
  verifies (pre ++ [0; 0] ++ post) → verifies (pre ++ [255; 255] ++ post).
Proof.
  intros Hpre Hpost He. assert (is_bytes (pre ++ [0; 0] ++ post)) as H0.
  { repeat apply is_bytes_app; [done|word_list|done]. }
  assert (is_bytes (pre ++ [255; 255] ++ post)) as H1 by (repeat apply is_bytes_app; [done|word_list|done]).
  rewrite !verifies_sum by done. intros Hv. rewrite (lwords_field pre 255 255 post) by (done || word_list).
  destruct Hv as (? & _ & ? & k & Hk). split_and!; [lia|lia|lia|]. exists (k + 1). lia.
Qed.

Lemma udp_fields sport dport len ck rest : is_u 16 sport → is_u 16 dport → is_u 16 ck →
  let b := udp_hdr_bytes sport dport len ck ++ rest in
  lwip_htons (le16 b.[0] b.[1]) = sport ∧ lwip_htons (le16 b.[2] b.[3]) = dport ∧ le16 b.[6] b.[7] = ck.
Proof.
  intros Hs Hd Hc b.
  change (le16 b.[0] b.[1]) with (le16 (u8 (lwip_htons sport)) (u8 (lwip_htons sport .>> 8))).
  change (le16 b.[2] b.[3]) with (le16 (u8 (lwip_htons dport)) (u8 (lwip_htons dport .>> 8))).
  change (le16 b.[6] b.[7]) with (le16 (u8 ck) (u8 (ck .>> 8))).
  rewrite !le16_bytes by first [by apply htons_u16|done]. rewrite !htons_twice by done. done.
Qed.

(** A datagram that verifies, or one that says it has no sum. *)
Definition sum_ok (src dst ck : Z) (b : list Z) : Prop :=
  ck = 0 ∨ verifies (pseudo src dst IP_PROTO_UDP (zlen b) ++ b).

(** The sum the sender stores. *)
Lemma stored_sum q sport dport src dst data : chain_ok q → is_u 16 sport → is_u 16 dport → is_u 32 src → is_u 32 dst →
  is_bytes data → UDP_HLEN + zlen data < 65536 → payload q = udp_hdr_bytes sport dport (chain_len q) 0 ++ data →
  let c := ip_chksum_pseudo q IP_PROTO_UDP (chain_len q) src dst in
  let ck := if c =? 0 then 0xFFFF else c in
  is_u 16 ck ∧ sum_ok src dst ck (udp_hdr_bytes sport dport (chain_len q) ck ++ data).
Proof.
  intros Hq Hsp Hdp Hs Hd Hb Hz Hp c ck. unfold UDP_HLEN in Hz.
  assert (chain_len q = 8 + zlen data) as El by (unfold chain_len; rewrite Hp, zlen_app; done).
  pose proof (zlen_nonneg data). assert (is_u 16 (chain_len q)) as Hl by (unfold is_u; lia).
  set (pre := pseudo src dst IP_PROTO_UDP (chain_len q) ++ take 6 (udp_hdr_bytes sport dport (chain_len q) 0)).
  assert (is_bytes pre) as Hpre.
  { unfold pre. apply is_bytes_app; [by apply pseudo_bytes|]. apply is_bytes_take, udp_hdr_bytes_ok; done. }
  assert (∀ k, pseudo src dst IP_PROTO_UDP (chain_len q) ++ udp_hdr_bytes sport dport (chain_len q) k ++ data = pre ++ le_bytes 2 k ++ data) as Esplit.
  { intros k. unfold pre. rewrite <- app_assoc. done. }
  assert (zodd pre = false) as Ho by done.
  assert (c = lwip_htons (rfc1071 (pre ++ [0; 0] ++ data))) as Ec.
  { unfold c, ip_chksum_pseudo. rewrite inet_chksum_pseudo_spec by done. by rewrite Hp, Esplit. }
  assert (is_u 16 c) as Hc.
  { rewrite Ec. apply htons_u16, rfc1071_u16. apply is_bytes_app; [done|apply is_bytes_app; [word_list|done]]. }
  pose proof (stored_verifies pre data Hpre Hb Ho) as Hv. rewrite <- Ec in Hv. unfold ck.
  assert (∀ k, zlen (udp_hdr_bytes sport dport (chain_len q) k ++ data) = chain_len q) as Ez by (intros k; rewrite zlen_app, zlen_udp_hdr; unfold UDP_HLEN; lia).
  destruct (Z.eqb_spec c 0) as [E|E].
  - split; [done|]. right. rewrite Ez, Esplit. rewrite E in Hv. by apply (ones_for_zeros pre data).
  - split; [done|]. right. by rewrite Ez, Esplit.
Qed.

(** What [udp_sendto_if_src] hands to IP. *)
Lemma segment_sent addrs room a pcb p dst dport n src out o u : udp_wf u → u.(pcbs) !! a = Some pcb →
  chain_ok p → p ≠ [] → chain_len p <= 65507 → room < UDP_HLEN ∨ UDP_HLEN + IP_HLEN <= room → 1 <= zlen addrs →
  is_u 16 dport → is_u 32 src → is_u 32 dst → src ≠ IPADDR_ANY →
  ∃ u' sport addrs' q room' ck,
    udp_sendto_if_src (Some <$> addrs) room a p dst dport n src out o u =
      ('(o, pkts, e) ← ip4_output_if (Some <$> addrs') room' q (Some src) dst pcb.(up_ttl) pcb.(up_tos) IP_PROTO_UDP n out o;
       Ok (udp_inc (λ s, s <| st_xmit ::= STATS_INC |>) u', o, pkts, e)) ∧
    udp_wf u' ∧ u'.(pcbs) = <[a := pcb <| up_local_port := sport |>]> u.(pcbs) ∧
    is_u 16 sport ∧ sport ≠ 0 ∧ (pcb.(up_local_port) ≠ 0 → sport = pcb.(up_local_port)) ∧
    payload q = udp_hdr_bytes sport dport (UDP_HLEN + chain_len p) ck ++ payload p ∧ is_u 16 ck ∧
    sum_ok src dst ck (payload q) ∧ (ck = 0 → pcb.(up_flags) .& UDP_FLAGS_NOCHKSUM ≠ 0) ∧
    chain_ok q ∧ q ≠ [] ∧ IP_HLEN <= room' ∧ zlen q <= zlen p + 1 ∧ zlen addrs <= zlen addrs' + 1.
Proof.
  intros Hw Hpcb Hp Hne Hl Hroom Ha Hdp Hs Hd Hany. unfold udp_sendto_if_src.
  destruct (bind_if_needed_ok a pcb u Hw Hpcb) as (u' & p' & -> & Hw' & Es & Hin & Ep & Hkeep). cbn [mbind res_bind].
  assert (pcbs u' !! a = Some p') as Hp' by by rewrite Es, lookup_insert_eq.
  unfold udp_deref. rewrite Hp'. cbn [mbind res_bind]. assert (0 <= chain_len p) by apply zlen_nonneg.
  rewrite u16_small by (unfold is_u, UDP_HLEN; lia). rewrite (proj2 (Z.ltb_ge _ (chain_len p))) by (unfold UDP_HLEN; lia).
  destruct (with_udp_hdr_spec addrs room p Hp Hne Hl Hroom Ha) as (addrs' & q & room' & -> & Hr' & Ha' & Hlq & Hq).
  set (sport := up_local_port p') in *. set (hdr := udp_hdr_bytes sport dport (chain_len q)).
  assert (is_u 16 sport) as Hsp by by apply (uw_port u' Hw' a).
  assert (sport ≠ 0) as Hsp0 by by apply (uw_bound u' Hw' a p' Hp').
  assert (is_u 16 (chain_len q)) as Hlu by (rewrite Hlq; unfold is_u, UDP_HLEN; lia).
  assert (∀ ck, is_u 16 ck → is_bytes (hdr ck) ∧ zlen (hdr ck) = UDP_HLEN) as Hhdr.
  { intros ck Hck. split; [by apply udp_hdr_bytes_ok|done]. }
  destruct (Hhdr 0 ltac:(done)) as [H0b H0z]. destruct (Hq _ H0b H0z _ H0z) as (_ & H0p & H0c & H0n & H0l).
  assert (chain_len (set_udp_hdr (hdr 0) q) = chain_len q) as E0.
  { unfold chain_len at 1. by rewrite H0p, zlen_app, H0z, Hlq. }
  assert (up_flags p' = up_flags pcb ∧ up_ttl p' = up_ttl pcb ∧ up_tos p' = up_tos pcb) as (-> & -> & ->) by by rewrite Ep.
  destruct (stored_sum (set_udp_hdr (hdr 0) q) sport dport src dst (payload p) H0c Hsp Hdp Hs Hd (payload_bytes p Hp))
    as [Hck Hsum]; [fold (chain_len p); unfold UDP_HLEN; lia|by rewrite E0|]. rewrite E0 in Hck, Hsum.
  set (c := ip_chksum_pseudo (set_udp_hdr (hdr 0) q) IP_PROTO_UDP (chain_len q) src dst) in *.
  set (cks := if c =? 0 then 0xFFFF else c) in *. set (gen := (up_flags pcb .& UDP_FLAGS_NOCHKSUM) =? 0).
  assert (is_u 16 (if gen then cks else 0)) as Hcku by by destruct gen.
  exists u', sport, addrs', (set_udp_hdr (hdr (if gen then cks else 0)) q), room', (if gen then cks else 0).
  destruct (Hhdr _ Hcku) as [Hb Hz]. destruct (Hq _ Hb Hz _ H0z) as (Hset & Hpay & Hc & Hn & Hlk).
  split.
  { unfold ip4_output_if, ip4_addr_isany_val. change (default IPADDR_ANY (Some src)) with src. rewrite (proj2 (Z.eqb_neq src _)) by done.
    f_equal. f_equal. destruct gen; [|done]. rewrite E0; exact Hset. }
  rewrite Hpay. fold hdr. rewrite <- Hlq. split; [done|]. split; [by rewrite Es, Ep|]. split; [done|]. split; [done|].
  split; [by intros Hx; destruct (Hkeep Hx) as [<- _]|]. split; [done|]. split; [done|]. split.
  { destruct gen; [exact Hsum|by left]. }
  split.
  { unfold gen. destruct (Z.eqb_spec (up_flags pcb .& UDP_FLAGS_NOCHKSUM) 0) as [E|E]; [|done]. unfold cks.
    destruct (Z.eqb_spec c 0); [done|congruence]. }
  by split_and!.
Qed.

(** A block that a datagram from [src], [sport] to [dst], [dport] is for: active, of this
    address or all, not kept to another interface, and not connected to somebody else. *)
Record listens (u : udp) (n : lwip_netif) (src sport dst dport : Z) (b : Z) (rcv : udp_pcb) : Prop := {
  ln_wf : udp_wf u; ln_block : u.(pcbs) !! b = Some rcv; ln_active : b ∈ u.(udp_pcbs);
  ln_port : rcv.(up_local_port) = dport; ln_ip : rcv.(up_local_ip) = IPADDR_ANY ∨ rcv.(up_local_ip) = dst;
  ln_netif : rcv.(up_netif_idx) = NETIF_NO_INDEX ∨ rcv.(up_netif_idx) = netif_get_index n;
  ln_peer : udp_connected rcv = false ∨
    rcv.(up_remote_port) = sport ∧ (rcv.(up_remote_ip) = IPADDR_ANY ∨ rcv.(up_remote_ip) = src)
}.

Lemma listens_matches u n src sport dst dport b rcv : listens u n src sport dst dport b rcv →
  let f := From src sport dst dport false in
  udp_local rcv f n = true ∧ negb (udp_connected rcv) || udp_perfect rcv f = true.
Proof.
  intros [_ _ _ Hp Hi Hn Hc] f. split.
  - unfold udp_local, udp_input_local_match, ip4_addr_isany_val. cbn [fm_dest fm_dest_ip fm_broadcast f].
    rewrite (proj2 (Z.eqb_eq _ _) Hp). cbn [andb].
    destruct (negb _ && negb _) eqn:E; [exfalso|].
    { rewrite andb_true_iff, !negb_true_iff, !Z.eqb_neq in E. tauto. }
    apply orb_true_iff. rewrite !Z.eqb_eq. tauto.
  - apply orb_true_iff. rewrite negb_true_iff. destruct Hc as [Hc|[Hc1 Hc2]]; [by left|right].
    unfold udp_perfect, ip4_addr_isany_val. cbn [fm_src fm_src_ip f]. apply andb_true_iff. rewrite orb_true_iff, !Z.eqb_eq. tauto.
Qed.

(** The block gets the datagram, without its header. *)
Lemma datagram_received ram hdr q src sport dst dport len ck data n out i u b rcv fn :
  listens u n src sport dst dport b rcv → rcv.(up_recv) = Some fn → is_u 16 sport → is_u 16 dport → is_u 16 ck →
  is_u 32 src → is_u 32 dst → ip4_addr_isbroadcast_u32 dst n = false → chain_ok q → chain_len q < 65536 →
  payload q = udp_hdr_bytes sport dport len ck ++ data → sum_ok src dst ck (payload q) → UDP_HLEN <= zlen (first_bytes q) →
  ∃ u' q', udp_input ram hdr q src dst n out i u = Ok (u', i, [], UdpRecv b fn rcv.(up_recv_arg) q' src sport) ∧
    payload q' = data ∧ udp_wf u'.
Proof.
  intros Hl Hfn Hsp Hdp Hck Hs Hd Hbr Hq Hz Hp Hsum Hf. destruct (listens_matches _ _ _ _ _ _ _ _ Hl) as [Hm Hto].
  destruct Hl as [Hw Hb Hact _ _ _ _]. 
  assert (∃ u' pkts q', payload q' = data ∧ udp_input ram hdr q src dst n out i u = Ok (u', i, pkts, UdpRecv b fn rcv.(up_recv_arg) q' src sport) ∧ pkts = []) as
    (u' & pkts & q' & Hq' & E & ->).
  2:{ exists u', q'. split; [exact E|]. split; [done|]. exact (input_wf _ _ _ _ _ _ _ _ _ _ _ _ _ Hw E). }
  unfold udp_input. set (u1 := udp_inc (λ s, s <| st_recv ::= STATS_INC |>) u).
  rewrite (proj2 (Z.ltb_ge (zlen (first_bytes q)) UDP_HLEN)) by done. rewrite Hbr.
  assert (∃ rest, first_bytes q = udp_hdr_bytes sport dport len ck ++ rest) as [rest Erest].
  { pose proof (first_prefix UDP_HLEN q ltac:(unfold UDP_HLEN in *; lia)) as E. rewrite Hp, ztake_app in E by apply zlen_udp_hdr.
    exists (zdrop UDP_HLEN (first_bytes q)). rewrite <- E. symmetry. apply take_drop. }
  cbv zeta. rewrite Erest. destruct (udp_fields sport dport len ck rest Hsp Hdp Hck) as (-> & -> & ->).
  destruct (walk_unicast u1 b rcv (From src sport dst dport false) n (inc_wf _ _ Hw) Hb Hact eq_refl Hm) as (pf & l & ->).
  rewrite Hto. cbn [mbind res_bind]. set (u2 := if pf && _ then _ else _). clearbody u2.
  assert (negb (ck =? 0) && negb (ip_chksum_pseudo q IP_PROTO_UDP (chain_len q) src dst =? 0) = false) as ->.
  { destruct Hsum as [-> |Hv]; [done|]. apply andb_false_iff. right. apply negb_false_iff, Z.eqb_eq. unfold ip_chksum_pseudo.
    assert (is_u 16 (chain_len q)) by (split; [apply zlen_nonneg|done]).
    rewrite inet_chksum_pseudo_spec by done. apply chksum_zero; [|exact Hv]. apply is_bytes_app; [by apply pseudo_bytes|by apply payload_bytes]. }
  rewrite Hfn. exists u2, [], (pbuf_remove_header UDP_HLEN q). split; [|done].
  rewrite payload_removed_n by (unfold UDP_HLEN in *; lia). rewrite Hp. by apply zdrop_app.
Qed.

(** What the sender needs: a live block of the interface's address or of all, a route, a
    chain with its room and memory for the fragments and for a header of its own. *)
Record sends (u : udp) (n : lwip_netif) (a : Z) (pcb : udp_pcb) (dst : Z) (p : chain) (room : Z) (addrs : list Z) : Prop := {
  sd_wf : udp_wf u; sd_block : u.(pcbs) !! a = Some pcb; sd_netif : pcb.(up_netif_idx) = NETIF_NO_INDEX;
  sd_ip : pcb.(up_local_ip) = IPADDR_ANY ∨ pcb.(up_local_ip) = n.(n_addr);
  sd_ttl : is_byte pcb.(up_ttl); sd_tos : is_byte pcb.(up_tos);
  sd_route : ip4_route dst n = true; sd_mtu : n.(n_mtu) = TUNNEL_MTU; sd_addr : is_u 32 n.(n_addr) ∧ n.(n_addr) ≠ IPADDR_ANY;
  sd_chain : chain_ok p ∧ p ≠ [] ∧ chain_len p <= 65507 ∧ zlen p < MEMP_NUM_FRAG_PBUF;
  sd_room : room < UDP_HLEN ∨ UDP_HLEN + IP_HLEN <= room;
  sd_memory : UDP_HLEN + chain_len p <= 8 * NFB * (zlen addrs - 1)
}.

Lemma sendto_if_src_used ram room a pcb p dst dport n out o u : u.(pcbs) !! a = Some pcb →
  pcb.(up_netif_idx) = NETIF_NO_INDEX → pcb.(up_local_ip) = IPADDR_ANY ∨ pcb.(up_local_ip) = n.(n_addr) → ip4_route dst n = true →
  udp_sendto ram room a p dst dport n out o u = udp_sendto_if_src ram room a p dst dport n n.(n_addr) out o u.
Proof.
  intros Hp Hi Hip Hr. unfold udp_sendto, udp_deref. rewrite Hp. cbn [mbind res_bind]. rewrite Hi, Hr. cbn [NETIF_NO_INDEX Z.eqb negb orb].
  unfold udp_sendto_if, udp_deref. rewrite Hp. cbn [mbind res_bind]. unfold ip4_addr_isany_val.
  destruct (_ || _) eqn:E; [done|]. destruct Hip as [Hip|Hip]; [by rewrite Hip in E|]. by rewrite Hip, Z.eqb_refl.
Qed.

Lemma takes_unicast n src dst : takes n src dst → is_u 32 dst → dst ≠ IPADDR_BROADCAST → ip4_addr_isbroadcast_u32 dst n = false.
Proof.
  intros [_ Ha Hany _ _] Hu Hb. unfold ip4_addr_isbroadcast_u32. rewrite Ha, (proj2 (Z.eqb_neq dst IPADDR_ANY)) by done.
  assert (u32 (Z.lnot dst) ≠ IPADDR_ANY) as Hn.
  { rewrite u32_mod. unfold IPADDR_ANY, IPADDR_BROADCAST, is_u, Z.lnot in *. change (2 ^ 32) with 4294967296 in *. intros E.
    Z.div_mod_to_equations. lia. }
  rewrite (proj2 (Z.eqb_neq _ _) Hn). cbn [orb]. rewrite Z.eqb_refl. by destruct (_ =? 0).
Qed.

(** ** Properties *)

(** C21: a datagram from one host's callback to the other's. What [udp_sendto] is given
    leaves as packets within the MTU, provided the datagram fits one packet or is not of a
    length for which [ip4_frag] marks the wrong fragment as the last ([lost_tail]: one to
    four bytes more than a multiple of 1376; then its end would be lost). When the receiver's
    reassembly queue has room for the packets (ten buffers in all, five datagrams, none of
    this one) and they have come through the tunnel, in any order and padded, the last one
    makes [ip4_input] hand UDP the datagram put together. The code looks for the UDP header
    in the first buffer: if it came there, [udp_input] calls the block that listens to the
    address and port with exactly the bytes that were sent, under the sender's address and
    the port its block has, which is a new one if it had none. No sum fails, and nothing is
    sent in answer. *)
Theorem udp_delivers (ua ub : udp) (a b : Z) (pcb rcv : udp_pcb) (na nb : lwip_netif) (addrs : list Z) (room : Z) (p : chain)
    (dst dport fn : Z) (out out' : err_t) (o : ip_out) (heap : nat → list (option Z)) (room' : Z) (raw : raw_input_state)
    (stale : list Z) :
  sends ua na a pcb dst p room addrs → is_u 16 dport → is_u 32 dst → is_u 16 o.(ip_id) →
  UDP_HLEN + chain_len p <= TUNNEL_MTU - IP_HLEN ∨ lost_tail (UDP_HLEN + chain_len p) = 0 →
  takes nb na.(n_addr) dst → dst ≠ IPADDR_BROADCAST → raw ≠ RAW_INPUT_EATEN → rcv.(up_recv) = Some fn →
  (∀ sport, (pcb.(up_local_port) ≠ 0 → sport = pcb.(up_local_port)) → listens ub nb na.(n_addr) sport dst dport b rcv) →
  ∃ ua' o' sent e sport, udp_sendto (Some <$> addrs) room a p dst dport na out o ua = Ok (ua', o', sent, e) ∧
    udp_wf ua' ∧ ua'.(pcbs) !! a = Some (pcb <| up_local_port := sport |>) ∧ sport ≠ 0 ∧
    Forall (λ q, chain_len q <= TUNNEL_MTU) sent ∧
    ∀ recv arrival s, Forall2 tunnelled sent recv → arrival ≡ₚ recv →
      queue_room (na.(n_addr), dst, lwip_htons o.(ip_id)) (links recv) s.(is_reass) →
      ∃ s' hdr q, receive_all heap room' raw stale nb out' arrival s =
          Ok (s', [], replicate (length sent - 1) Kept ++ [Up IP_PROTO_UDP hdr q]) ∧
        (UDP_HLEN <= zlen (first_bytes q) → ∀ ram i, ∃ ub' q',
           udp_input ram hdr q na.(n_addr) dst nb out' i ub = Ok (ub', i, [], UdpRecv b fn rcv.(up_recv_arg) q' na.(n_addr) sport) ∧
           payload q' = payload p ∧ udp_wf ub').
Proof.
  intros [Hw Hb Hni Hip Httl Htos Hrt Hmtu [Hsu Hany] (Hp & Hne & Hl & Hz) Hroom Hmem] Hdp Hd Hid Hlost Htk Hbc Hraw Hfn Hlisten.
  rewrite (sendto_if_src_used _ _ a pcb) by done. assert (0 <= chain_len p) by apply zlen_nonneg.
  destruct (segment_sent addrs room a pcb p dst dport na (n_addr na) out o ua Hw Hb Hp Hne Hl Hroom)
    as (u1 & sport & addrs' & q & room1 & ck & -> & Hw1 & Hs1 & Hsp & Hsp0 & Hkeep & Hq & Hcku & Hsum & _ & Hqc & Hqn & Hr1 & Hqz & Hal);
    [unfold UDP_HLEN, NFB in Hmem; lia|done..|].
  assert (chain_len q = UDP_HLEN + chain_len p) as Hql by (unfold chain_len at 1; by rewrite Hq, zlen_app).
  destruct (output_to_input addrs' room1 q (n_addr na) dst (up_ttl pcb) (up_tos pcb) IP_PROTO_UDP na nb out out' o heap room' raw stale)
    as (o' & sent & late & e & -> & Hfit & Hlate & _ & Hall); try done; try (unfold UDP_HLEN, NFB in *; lia); [by left|].
  rewrite Hql in Hlate, Hall.
  assert ((if UDP_HLEN + chain_len p <=? TUNNEL_MTU - IP_HLEN then 0 else lost_tail (UDP_HLEN + chain_len p)) = 0) as E0.
  { destruct Hlost as [Hlo|Hlo]; [by rewrite (proj2 (Z.leb_le _ _)) by done|by destruct (_ <=? _)]. }
  rewrite E0 in Hlate, Hall. rewrite (Hlate eq_refl), app_nil_r in *. cbn [mbind res_bind].
  do 5 eexists. split; [reflexivity|]. split; [exact (inc_wf _ _ Hw1)|]. split.
  { change (pcbs (udp_inc (λ s, s <| st_xmit ::= STATS_INC |>) u1)) with (pcbs u1). rewrite Hs1. apply lookup_insert_eq. }
  split; [done|]. split; [done|]. intros recv arrival s Hrecv Hperm Hroom2.
  destruct (Hall recv arrival s Hrecv Hperm Hroom2) as (s' & v & Hrec & (h & q2 & -> & Hq2 & Hq2c & _) & _).
  exists s', (hdr_bytes h), q2. split; [exact Hrec|]. intros Hf ram i. rewrite Z.sub_0_r, ztake_all in Hq2 by (unfold chain_len, UDP_HLEN in *; lia).
  destruct (datagram_received ram (hdr_bytes h) q2 (n_addr na) sport dst dport (UDP_HLEN + chain_len p) ck (payload p) nb out' i ub b rcv fn
    (Hlisten sport Hkeep)) as (ub' & q' & H1 & H2 & H3); try done.
  - by apply (takes_unicast nb (n_addr na)).
  - unfold chain_len at 1. rewrite Hq2. fold (chain_len q). unfold UDP_HLEN in *; lia.
  - by rewrite Hq2.
  - by rewrite Hq2.
  - by exists ub', q'.
Qed.

(** C22: whatever binds, connects, sends and receives have been done, the blocks stay apart:
    no two active ones match the same unicast datagram, so one of them at most can get it; a
    live block asked for a free port always gets one, in the range and nobody else's;
    asked for a given one, it gets it unless another active block has the port for an
    address that overlaps, and then nothing changes; and connecting never fails. *)
Theorem udp_blocks_apart (u : udp) : udp_reach u →
  (∀ a b p q f n, u.(pcbs) !! a = Some p → u.(pcbs) !! b = Some q → a ∈ u.(udp_pcbs) → b ∈ u.(udp_pcbs) →
   f.(fm_broadcast) = false → udp_local p f n = true → udp_local q f n = true → a = b) ∧
  ∀ a p, u.(pcbs) !! a = Some p →
    (∀ ip, ∃ u' port, udp_bind a ip 0 u = Ok (u', ERR_OK) ∧ port_range port ∧ (port ∉ ports u) ∧ a ∈ u'.(udp_pcbs) ∧
       u'.(pcbs) = <[a := p <| up_local_ip := default IPADDR_ANY ip |> <| up_local_port := port |>]> u.(pcbs)) ∧
    (∀ ip port, is_u 16 port → port ≠ 0 →
       clash u a (default IPADDR_ANY ip) port ∧ udp_bind a ip port u = Ok (u, ERR_USE) ∨
       ¬ clash u a (default IPADDR_ANY ip) port ∧ ∃ u', udp_bind a ip port u = Ok (u', ERR_OK) ∧ a ∈ u'.(udp_pcbs) ∧
         u'.(pcbs) = <[a := p <| up_local_ip := default IPADDR_ANY ip |> <| up_local_port := port |>]> u.(pcbs)) ∧
    (∀ ip port, ∃ u', udp_connect a ip port u = Ok (u', ERR_OK)).
Proof.
  intros Hw%reach_wf. split; [intros a b p q f n; by apply local_unique|]. intros a p Hp.
  assert (is_Some (pcbs u !! a)) as Hlive by by rewrite Hp. split; [|split].
  - intros ip. destruct (bind_ok a ip 0 u Hw Hlive ltac:(done)) as (u' & e & Hb & _ & He). rewrite Hb.
    destruct e; try done; [|by destruct He as (_ & ? & _)]. destruct He as (q & p' & Hq & Hs & Hin & Ep & Hr & Hn).
    assert (q = p) as -> by congruence. exists u', (up_local_port p'). split_and!; try done. by rewrite Hs, Ep.
  - intros ip port Hu H0. destruct (bind_ok a ip port u Hw Hlive Hu) as (u' & e & Hb & _ & He). rewrite Hb.
    rewrite (proj2 (Z.eqb_neq port 0)) in He by done. destruct e; try done; [right|left; by destruct He as (-> & _ & ?)].
    destruct He as (q & p' & Hq & Hs & Hin & Ep & Hr & Hn). assert (q = p) as -> by congruence. split; [done|].
    exists u'. split_and!; try done. by rewrite Hs, Ep, Hr.
  - intros ip port. destruct (connect_ok a ip port u Hw Hlive) as (u' & -> & _). by exists u'.
Qed.

(** ** Witnesses *)

Definition toy_sender : lwip_netif := LwipNetif [97; 119] 1400 5 0x0200000A 0xFFFFFFFF 0 true.
Definition toy_ua : udp := (udp_new 0x100 (udp_init 5)).1.
Definition toy_pcb : udp_pcb := UdpPcb 0 0 0 0 UDP_TTL 0 0 0 None 0.
Definition toy_ub0 : udp := (udp_new 0x200 (udp_init 7)).1.
Definition toy_ub1 : udp := match udp_bind 0x200 None 53 toy_ub0 with Ok (u, _) => u | _ => toy_ub0 end.
Definition toy_ub : udp := match udp_recv 0x200 (Some 9) 4 toy_ub1 with Ok u => u | _ => toy_ub0 end.
Definition toy_rcv : udp_pcb := UdpPcb 0 0 0 0 UDP_TTL 0 53 0 (Some 9) 4.

Lemma toy_ua_reach : udp_reach toy_ua.
Proof. apply ur_new; [apply ur_init|reflexivity]. Qed.

Lemma toy_ub1_reach : udp_reach toy_ub1.
Proof.
  apply (ur_bind 0x200 None 53 toy_ub0 toy_ub1 ERR_OK); [apply ur_new; [apply ur_init|reflexivity]|by vm_compute|by vm_compute].
Qed.

Lemma toy_ub_reach : udp_reach toy_ub.
Proof. apply (ur_recv 0x200 (Some 9) 4 toy_ub1 toy_ub); [apply toy_ub1_reach|by vm_compute]. Qed.

(** The tunnel copies a packet into one buffer. *)
Definition flat (s : chain) : chain := [(0x9000, payload s ++ replicate 3 0)].

Lemma tunnelled_flat s : chain_ok s → IP_HLEN <= chain_len s <= TUNNEL_MTU → tunnelled s (flat s).
Proof.
  intros Hs [H1 H2]. unfold flat, chain_len, TUNNEL_MTU, IP_HLEN in *.
  assert (zlen (payload s ++ replicate 3 0) = zlen (payload s) + 3) as Hz by by rewrite zlen_app.
  split; [|split].
  - constructor; [|constructor]. cbn [snd]. rewrite Hz. split; [|lia]. apply is_bytes_app; [by apply payload_bytes|word_list].
  - cbn [first_bytes snd]. rewrite Hz. unfold IP_HLEN. lia.
  - exists 3%nat. split; [lia|]. by rewrite payload_cons, app_nil_r.
Qed.

Lemma udp_delivers_witness : ∃ u o s1 s2 s' hdr q ub q' sport,
  udp_sendto (Some <$> [0x5000; 0x6000; 0x7000]) 62 0x100 [(0x1000, replicate 1381 7)] 0x0300000A 53 toy_sender ERR_OK
    (IpOut 7 proto_zero proto_zero) toy_ua = Ok (u, o, [s1; s2], ERR_OK) ∧
  receive_all (λ _, []) 0 RAW_INPUT_NONE [] toy_netif4 ERR_OK [flat s2; flat s1] state_zero =
    Ok (s', [], [Kept; Up IP_PROTO_UDP hdr q]) ∧
  udp_input [] hdr q 0x0200000A 0x0300000A toy_netif4 ERR_OK state_zero.(is_icmp) toy_ub =
    Ok (ub, state_zero.(is_icmp), [], UdpRecv 0x200 9 4 q' 0x0200000A sport) ∧ payload q' = replicate 1381 7.
Proof.
  destruct (udp_delivers toy_ua toy_ub 0x100 0x200 toy_pcb toy_rcv toy_sender toy_netif4 [0x5000; 0x6000; 0x7000] 62
    [(0x1000, replicate 1381 7)] 0x0300000A 53 9 ERR_OK ERR_OK (IpOut 7 proto_zero proto_zero) (λ _, []) 0 RAW_INPUT_NONE [])
    as (u & o & sent & e & sport & Hf & _ & _ & _ & _ & Hall).
  - split; try by vm_compute.
    + apply reach_wf, toy_ua_reach.
    + left. by vm_compute.
    + split_and!; try by vm_compute. by apply chain_check_ok; vm_compute.
    + right. by vm_compute.
  - by vm_compute.
  - by vm_compute.
  - by vm_compute.
  - right. by vm_compute.
  - split; [by vm_compute|reflexivity|by vm_compute|by vm_compute|split; by vm_compute].
  - discriminate.
  - discriminate.
  - reflexivity.
  - intros sp _. split; [apply reach_wf, toy_ub_reach|by vm_compute|by left|reflexivity|by left|by left|by left].
  - destruct (udp_sendto (Some <$> [0x5000; 0x6000; 0x7000]) 62 0x100 [(0x1000, replicate 1381 7)] 0x0300000A 53 toy_sender ERR_OK
      (IpOut 7 proto_zero proto_zero) toy_ua) as [[[[u0 o0] l] e0]| |] eqn:E; [|discriminate..].
    injection Hf as -> -> -> ->. assert (∃ s1 s2, sent = [s1; s2] ∧ e = ERR_OK) as (s1 & s2 & -> & ->).
    { vm_compute in E. injection E as _ _ <- <-. do 2 eexists. split; reflexivity. }
    assert (Forall2 tunnelled [s1; s2] (flat <$> [s1; s2])) as Hs.
    { vm_compute in E. injection E as _ _ <- <-. do 2 (constructor; [apply tunnelled_flat; [apply chain_check_ok|]; by vm_compute|]). constructor. }
    destruct (Hall (flat <$> [s1; s2]) [flat s2; flat s1] state_zero Hs) as (s' & hdr & q & Hr & Hin).
    + constructor.
    + vm_compute in E. injection E as _ _ <- <-. split; [done|]. split; [vm_compute; lia|]. split; [by apply not_elem_of_nil|by vm_compute].
    + assert (UDP_HLEN <= zlen (first_bytes q)) as Hz.
      { clear Hin. vm_compute in E. injection E as _ _ <- <-. vm_compute in Hr. injection Hr as _ _ <-. by vm_compute. }
      destruct (Hin Hz [] state_zero.(is_icmp)) as (ub & q' & Hrec & Hp & _). exists u, o, s1, s2, s', hdr, q, ub, q', sport.
      split; [done|]. split; [exact Hr|]. split; [exact Hrec|exact Hp].
Defined.

Lemma udp_blocks_apart_witness : udp_reach toy_ub ∧ toy_ub.(pcbs) !! 0x200 = Some toy_rcv ∧
  ∃ u, udp_connect 0x200 0x0200000A 5353 toy_ub = Ok (u, ERR_OK).
Proof.
  destruct (udp_blocks_apart toy_ub toy_ub_reach) as [_ Hall]. destruct (Hall 0x200 toy_rcv eq_refl) as (_ & _ & Hc).
  split; [exact toy_ub_reach|]. split; [reflexivity|]. exact (Hc 0x0200000A 5353).
Defined.
