(* ===== verification/Http.v ===== *)
(** * main_switch.c: the HTTP probe

    A fetch through the tunnel's TCP: its static variables, lwIP's callbacks and the
    start of a fetch, as transitions on the probe's state. *)
From S2P Require Import Prelude Cstr Pbuf.

Inductive http_state : Set :=
| HTTP_IDLE | HTTP_CONNECTING | HTTP_SENT | HTTP_GOT_DATA | HTTP_DONE | HTTP_FAILED.

#[export] Instance http_state_eq_dec : EqDecision http_state.
Proof. solve_decision. Defined.

(** [g_http_line] is the C string. *)
Record http := Http {
  g_http : http_state; g_pcb : option Z; g_http_bytes : Z; g_http_started : Z; g_http_ms : Z;
  g_http_line : list Z; g_http_err : Z
}.

#[export] Instance http_eta : Eta http := λ h,
  Http h.(g_http) h.(g_pcb) h.(g_http_bytes) h.(g_http_started) h.(g_http_ms) h.(g_http_line) h.(g_http_err).

Definition http_init : http := Http HTTP_IDLE None 0 0 0 [] 0.

(** What the probe asks of lwIP. *)
Inductive http_action : Type :=
| HttpAbort (pcb : Z)
| HttpConnect (pcb : Z)
| HttpWrite (bytes : list Z)
| HttpOutput
| HttpRecved (n : Z)
| HttpPbufFree.

Definition http_reset (h : http) : http * list http_action :=
  match h.(g_pcb) with
  | Some p => (h <| g_pcb := None |>, [HttpAbort p])
  | None => (h, [])
  end.

Definition HTTP_LINE : Z := 64.

(** [c] ends the line: its NUL, a CR or an LF. *)
Definition line_end (c : Z) : bool := (c =? 0) || (c =? 13) || (c =? 10).

Definition status_line (p : pbuf) : list Z :=
  let n := if tot_len p <? HTTP_LINE - 1 then tot_len p else HTTP_LINE - 1 in
  take_while (λ c, negb (line_end c)) (pbuf_copy_partial p n 0).

Definition http_on_recv (p : option pbuf) (err_ok : bool) (now : Z) (h : http) : http * list http_action :=
  match p with
  | None =>
    (h <| g_http := if 0 <? h.(g_http_bytes) then HTTP_DONE else HTTP_FAILED |>
       <| g_http_ms := u32 (u64 (now - h.(g_http_started))) |>, [])
  | Some p =>
    if negb err_ok then (h <| g_http := HTTP_FAILED |>, [HttpPbufFree])
    else
      let h := if h.(g_http_bytes) =? 0 then h <| g_http_line := status_line p |> else h in
      (h <| g_http_bytes ::= λ b, u32 (b + tot_len p) |> <| g_http := HTTP_GOT_DATA |>
         <| g_http_ms := u32 (u64 (now - h.(g_http_started))) |>,
       [HttpRecved (tot_len p); HttpPbufFree])
  end.

Definition http_on_err (err : Z) (h : http) : http :=
  h <| g_pcb := None |> <| g_http_err := err |> <| g_http := HTTP_FAILED |>.

Definition http_request : list Z :=
  str "GET / HTTP/1.0" ++ [13; 10] ++ str "Host: one.one.one.one" ++ [13; 10] ++
  str "Connection: close" ++ [13; 10; 13; 10].

(** [err] is 0 for [ERR_OK]. *)
Definition http_on_connected (err : Z) (write_ok : bool) (h : http) : http * list http_action :=
  if negb (err =? 0) then (h <| g_http := HTTP_FAILED |> <| g_http_err := err |>, [])
  else if negb write_ok then (h <| g_http := HTTP_FAILED |>, [HttpWrite http_request])
  else (h <| g_http := HTTP_SENT |>, [HttpWrite http_request; HttpOutput]).

(** [new] is [tcp_new]'s result, [connect_ok] whether [tcp_connect] accepts. *)
Definition http_start (now : Z) (new : option Z) (connect_ok : bool) (h : http) : http * list http_action * bool :=
  let '(h, acts) := http_reset h in
  let h := h <| g_http_bytes := 0 |> <| g_http_err := 0 |> <| g_http_line := [] |> <| g_http_started := now |> in
  let h := h <| g_pcb := new |> in
  match new with
  | None => (h <| g_http := HTTP_FAILED |>, acts, false)
  | Some p =>
    let h := h <| g_http := HTTP_CONNECTING |> in
    if negb connect_ok then (h <| g_http := HTTP_FAILED |>, acts, false)
    else (h, acts ++ [HttpConnect p], true)
  end.

(** A fetch is under way. *)
Definition http_busy (h : http) : bool :=
  match h.(g_http) with HTTP_CONNECTING | HTTP_SENT | HTTP_GOT_DATA => true | _ => false end.

(** ** A fetch as a run of events *)

Inductive http_event : Type :=
| HeRecv (p : option pbuf) (err_ok : bool) (now : Z)
| HeErr (err : Z)
| HeConnected (err : Z) (write_ok : bool).

Definition http_handle (ev : http_event) (h : http) : http * list http_action :=
  match ev with
  | HeRecv p ok now => http_on_recv p ok now h
  | HeErr err => (http_on_err err h, [])
  | HeConnected err ok => http_on_connected err ok h
  end.

Fixpoint http_run (evs : list http_event) (h : http) : http * list http_action :=
  match evs with
  | [] => (h, [])
  | ev :: evs => let '(h, a1) := http_handle ev h in let '(h, a2) := http_run evs h in (h, a1 ++ a2)
  end.

(** ** A fetch *)

(** The chunks of an answer, each with the time of its arrival. *)
Definition chunk_events (cs : list (pbuf * Z)) : list http_event := (λ c, HeRecv (Some c.1) true c.2) <$> cs.
Definition chunk_bytes (cs : list (pbuf * Z)) : list Z := concat ((λ c, concat c.1) <$> cs).

(** Every chunk acknowledged in full and freed, in order. *)
Definition acknowledged (cs : list (pbuf * Z)) : list http_action :=
  concat ((λ c, [HttpRecved (tot_len c.1); HttpPbufFree]) <$> cs).

Lemma http_run_app a b h : http_run (a ++ b) h =
  let '(h, x) := http_run a h in let '(h, y) := http_run b h in (h, x ++ y).
Proof.
  revert h. induction a as [|ev a IH]; intros h; cbn [http_run app]; [by destruct (http_run b h)|].
  destruct (http_handle ev h) as [h1 x1]. rewrite IH. destruct (http_run a h1) as [h2 x2].
  destruct (http_run b h2) as [h3 x3]. by rewrite app_assoc.
Qed.

Lemma status_line_spec p : tot_len p < 65536 →
  status_line p = take_while (λ c, negb (line_end c)) (ztake 63 (concat p)).
Proof.
  intros Hp. unfold status_line, HTTP_LINE. assert (0 <= tot_len p) by apply zlen_nonneg.
  rewrite pbuf_copy_partial_spec by (try case_match; lia). change (zdrop 0 (concat p)) with (concat p).
  destruct (Z.ltb_spec (tot_len p) (64 - 1)); [|done]. by rewrite !ztake_all by (unfold tot_len in *; lia).
Qed.

(** After the first chunk the line stays. *)
Lemma chunks_run cs h : 0 < h.(g_http_bytes) → Forall (λ c, 0 < tot_len c.1 < 65536) cs →
  h.(g_http_bytes) + zlen (chunk_bytes cs) < 2 ^ 32 →
  let '(h', acts) := http_run (chunk_events cs) h in
  h'.(g_http_bytes) = h.(g_http_bytes) + zlen (chunk_bytes cs) ∧ h'.(g_http_line) = h.(g_http_line) ∧
  h'.(g_http_started) = h.(g_http_started) ∧ h'.(g_pcb) = h.(g_pcb) ∧ h'.(g_http_err) = h.(g_http_err) ∧ acts = acknowledged cs.
Proof.
  revert h. induction cs as [|[p t] cs IH]; intros h Hpos Hc Hb; cbn [chunk_events fmap list_fmap http_run].
  { change (zlen (chunk_bytes [])) with 0. by rewrite Z.add_0_r. }
  apply Forall_cons in Hc as [Hp Hc]. cbn in Hp.
  assert (zlen (chunk_bytes ((p, t) :: cs)) = tot_len p + zlen (chunk_bytes cs)) as Hz by apply zlen_app.
  pose proof (zlen_nonneg (chunk_bytes cs)). rewrite Hz in *.
  unfold http_handle, http_on_recv at 1. cbn [fst snd negb].
  rewrite (proj2 (Z.eqb_neq (g_http_bytes h) 0)) by lia.
  set (h1 := h <| g_http_bytes ::= _ |> <| g_http := _ |> <| g_http_ms := _ |>).
  assert (g_http_bytes h1 = g_http_bytes h + tot_len p) as E1 by (cbn; apply u32_small; unfold is_u; lia).
  specialize (IH h1 ltac:(lia) Hc ltac:(lia)). fold (chunk_events cs).
  destruct (http_run (chunk_events cs) h1) as [h2 acts]. destruct IH as (I1 & I2 & I3 & I4 & I5 & ->).
  split_and!; [lia|done|done|done|done|done].
Qed.

(** A fetch whose connection is made and whose answer comes in chunks of any shape
    until the peer closes: the request is written once, every chunk is acknowledged in
    full and freed, the count is the length of the answer, the line kept is what the
    first chunk holds up to its first line end or the buffer's, and the fetch is done
    exactly when there was an answer. *)
Theorem http_fetch (h : http) (now : Z) (pcb : Z) (cs : list (pbuf * Z)) (fin : Z) :
  Forall (λ c, 0 < tot_len c.1 < 65536) cs → zlen (chunk_bytes cs) < 2 ^ 32 →
  let '(h0, _, ok) := http_start now (Some pcb) true h in
  let '(h1, acts) := http_run (HeConnected 0 true :: chunk_events cs ++ [HeRecv None true fin]) h0 in
  ok = true ∧ http_busy h0 = true ∧ acts = HttpWrite http_request :: HttpOutput :: acknowledged cs ∧
  h1.(g_http) = (if decide (cs = []) then HTTP_FAILED else HTTP_DONE) ∧
  h1.(g_http_bytes) = zlen (chunk_bytes cs) ∧ h1.(g_pcb) = Some pcb ∧ h1.(g_http_err) = 0 ∧
  h1.(g_http_ms) = u32 (u64 (fin - now)) ∧
  h1.(g_http_line) = match cs with [] => [] | (p, _) :: _ => take_while (λ c, negb (line_end c)) (ztake 63 (concat p)) end.
Proof.
  intros Hc Hb. unfold http_start. destruct (http_reset h) as [hr ar]. cbn [negb].
  set (h0 := hr <| g_http_bytes := 0 |> <| g_http_err := 0 |> <| g_http_line := [] |> <| g_http_started := now |>
    <| g_pcb := Some pcb |> <| g_http := HTTP_CONNECTING |>).
  cbn [http_run http_handle http_on_connected Z.eqb negb]. rewrite http_run_app.
  destruct cs as [|[p t] cs]; [by cbn|]. apply Forall_cons in Hc as [Hp Hc]. cbn in Hp.
  assert (zlen (chunk_bytes ((p, t) :: cs)) = tot_len p + zlen (chunk_bytes cs)) as Hz by apply zlen_app.
  pose proof (zlen_nonneg (chunk_bytes cs)). rewrite Hz in *.
  cbn [chunk_events fmap list_fmap http_run http_handle http_on_recv fst snd negb].
  change (g_http_bytes (h0 <| g_http := HTTP_SENT |>) =? 0) with true. cbv iota.
  set (h2 := _ <| g_http_bytes ::= _ |> <| g_http := HTTP_GOT_DATA |> <| g_http_ms := _ |>).
  assert (g_http_bytes h2 = tot_len p) as E2 by (cbn; apply u32_small; unfold is_u; lia).
  pose proof (chunks_run cs h2 ltac:(lia) Hc ltac:(lia)) as Hr. fold (chunk_events cs).
  destruct (http_run (chunk_events cs) h2) as [h3 acts]. destruct Hr as (R1 & R2 & R3 & R4 & R5 & ->).
  rewrite (proj2 (Z.ltb_lt 0 (g_http_bytes h3))) by lia. rewrite app_nil_r.
  split_and!; try done; cbn; [lia|by rewrite R3|]. rewrite R2. apply status_line_spec. lia.
Qed.
