(* ===== verification/Main.v ===== *)
(** * main_switch.c: the main loop

    One pass of the loop over the module's whole state: the session, the interface, the
    proxy, the probe and the power log. The results of the calls a pass makes are its
    input, a [pass]; lwIP's activity, which runs inside the calls that drive the stack,
    is the list of [stack_event]s each such call is given. What comes before the loop is in
    [Boot]; the log lines are not modelled. *)
From S2P Require Import Prelude Cstr Awg Noise Session Proxy ProxyRun Power Pbuf Netif Http.

(** ** The state *)

(** The variables of [main] and the statics of its file; [pos] is the position in the
    stream of entropy. [last_rx_pkts], [last_down_kb] and [reported] are the status
    report's. *)
Record main := Main {
  sess : awg_session; statics : replay_static; fd : Z; nif : netif; prx : proxy; pwr : power; web : http;
  pos : nat;
  next_fetch : Z; next_status : Z; next_rebuild : Z; next_power : Z; unreachable_since : Z;
  fetches : Z; fetches_ok : Z; stray_datagrams : Z; loops : Z; rebuilds : Z; suspends : Z;
  netif_up : bool; tunnel_lost : bool;
  last_rx_pkts : Z; last_down_kb : Z; reported : Z; next_alive : Z
}.

#[export] Instance main_eta : Eta main := λ m, Main
  m.(sess) m.(statics) m.(fd) m.(nif) m.(prx) m.(pwr) m.(web) m.(pos)
  m.(next_fetch) m.(next_status) m.(next_rebuild) m.(next_power) m.(unreachable_since)
  m.(fetches) m.(fetches_ok) m.(stray_datagrams) m.(loops) m.(rebuilds) m.(suspends)
  m.(netif_up) m.(tunnel_lost) m.(last_rx_pkts) m.(last_down_kb) m.(reported) m.(next_alive).

(** What the module does to the outside. *)
Inductive main_action : Type :=
| SendTo (fd : Z) (bytes : list Z)
| CloseTunnel (fd : Z)
| Socket (now result : Z)
| ProxyDoes (a : action)
| HttpDoes (a : http_action)
| SetResolver (ip : Z)
| ToStack (p : pbuf)
| SleepTick
| Status (d_pkts d_kb : Z) (replay_line : bool)
| Alive (line : list Z).

(** A part of the pass: it may fault where the session's code does. *)
Definition stage : Type := main → res (main * list main_action).

Definition skip : stage := λ m, Ok (m, []).
Definition then_do (f g : stage) : stage := λ m,
  '(m, a) ← f m; '(m, b) ← g m; mret (m, a ++ b).
Definition set_to (f : main → main) : stage := λ m, Ok (f m, []).
Definition emit (a : main → list main_action) : stage := λ m, Ok (m, a m).

Infix ";;;" := then_do (at level 62, right associativity) : awg_scope.

Definition on_proxy (f : proxy → proxy * list action) : stage := λ m,
  let '(p, acts) := f m.(prx) in Ok (m <| prx := p |>, ProxyDoes <$> acts).
Definition on_http (f : http → http * list http_action) : stage := λ m,
  let '(h, acts) := f m.(web) in Ok (m <| web := h |>, HttpDoes <$> acts).

(** [sendto]'s errors, by name. *)
Inductive errno : Set :=
| EPIPE | EBADF | ENOTCONN | ENOTSOCK | ENETRESET | ECONNABORTED | ECONNRESET
| ENETUNREACH | ENETDOWN | EOTHER (e : Z).

Definition sock_is_dead (e : errno) : bool :=
  match e with
  | EPIPE | EBADF | ENOTCONN | ENOTSOCK | ENETRESET | ECONNABORTED | ECONNRESET => true
  | _ => false
  end.

(** ** The stack's activity *)

(** lwIP calls a callback only while it is registered: [tcp_recv] from the connection
    on until the slot is closed, [tcp_err] while there is a pcb, the resolver's for
    ever. A link of a chain is shorter than 65536 bytes. *)
Definition registered (ev : ProxyRun.event) (p : proxy) : bool :=
  match ev with
  | EvPoll _ _ => false
  | EvRecv i chain _ =>
    match p.(g_conn) !! i with
    | Some c => bool_decide (c.(st) = ST_RELAY) && forallb (λ q, zlen q <? 65536) (default [] chain)
    | None => false
    end
  | EvErr i => match p.(g_conn) !! i with Some c => bool_decide (is_Some c.(pcb)) | None => false end
  | EvConnected i _ =>
    match p.(g_conn) !! i with Some c => bool_decide (c.(st) = ST_CONNECTING) | None => false end
  | EvResolved _ _ _ _ _ => true
  end.

Inductive stack_event : Type :=
| StOutput (p : pbuf) (sys_now : Z) (sent : bool)
| StProxy (ev : ProxyRun.event)
| StHttp (ev : http_event).

(** What the calls of one pass return, in the order of the loop. *)
Record datagram := Datagram {
  dg_addr_len : Z; dg_addr : Z; dg_port : Z; dg_bytes : list Z; dg_now : Z;
  dg_pool : Z → option pbuf; dg_in_ok : bool; dg_stack : list stack_event
}.

Record pass := Pass {
  i_now : Z;                                              (* now_ms() *)
  i_range : option (Z * Z); i_query : Z → Z → option (list bool);
  i_power_stack : list stack_event;                       (* awg_proxy_stop() *)
  i_stop_stack : list stack_event;                        (* awg_proxy_stop() of the rebuild *)
  i_socket : Z; i_rebuild_stack : list stack_event;
  i_listen : Z * bool * bool;                             (* socket(), bind(), listen() *)
  i_wall : Z; i_send : option errno;                      (* sendto() of the initiation *)
  i_netif_add : bool; i_listen_up : Z * bool * bool;
  i_http_now : Z; i_http_new : option Z; i_http_connect : bool; i_fetch_stack : list stack_event;
  i_report_stack : list stack_event;
  i_poll : poll_in; i_poll_stack : list stack_event;
  i_datagrams : list datagram;
  i_timer_stack : list stack_event;
  i_status_now : Z; i_status_t : Z                        (* now_ms(), once to test and once inside *)
}.

Definition WIRE_CAP : Z := 4096.
Definition INNER_CAP : Z := 2048.
Definition FETCH_EVERY_MS : Z := 300000.
Definition SOCKADDR_IN : Z := 16.

Section Loop.
Context `{Entropy} `{Curve}.
Context (cfg : awg_config) (dst_addr dst_port : Z) (dst : list Z).

Definition stack_step (ev : stack_event) : stage := λ m,
  match ev with
  | StOutput p sys_now sent =>
    '(s, _, out, q) ← tunnel_output m.(nif) m.(sess) cfg p sys_now sent m.(pos);
    mret (m <| sess := s |> <| pos := q |>, match out with Some (f, d) => [SendTo f d] | None => [] end)
  | StProxy ev => if registered ev m.(prx) then on_proxy (ProxyRun.handle ev) m else Ok (m, [])
  | StHttp ev => if bool_decide (is_Some m.(web).(g_pcb)) then on_http (http_handle ev) m else Ok (m, [])
  end.

Definition stack_run (evs : list stack_event) : stage := foldr (λ ev k, stack_step ev ;;; k) skip evs.

Definition proxy_stop (evs : list stack_event) : stage := on_proxy awg_proxy_stop ;;; stack_run evs.

Definition resolver : Z := if 1 <? zlen cfg.(dns) then cfg.(dns).[1] else cfg.(dns).[0].

Definition proxy_start (l : Z * bool * bool) : stage :=
  emit (λ _, [SetResolver resolver]) ;;;
  on_proxy (λ p, let '(p, _, acts) := awg_proxy_start l.1.1 l.1.2 l.2 p in (p, acts)).

Definition close_fd : stage := emit (λ m, if 0 <=? m.(fd) then [CloseTunnel m.(fd)] else []).

(** *** The power log, once a second *)

Definition drop_tunnel (i : pass) : stage :=
  set_to (λ m, m <| suspends ::= λ n, u32 (n + 1) |>) ;;;
  proxy_stop i.(i_power_stack) ;;; close_fd ;;;
  set_to (λ m, m <| fd := -1 |> <| nif ::= awg_netif_set_fd (-1) |>
                 <| sess ::= awg_session_wipe |> <| tunnel_lost := true |>).

Definition power_stage (i : pass) : stage := λ m,
  if i.(i_now) <? m.(next_power) then Ok (m, [])
  else
    let m := m <| next_power := u64 (i.(i_now) + 1000) |> in
    let '(p, changed) := awg_power_transition id i.(i_range) i.(i_query) m.(pwr) in
    let m := m <| pwr := p |> in
    if negb changed then Ok (m, [])
    else
      let m := m <| unreachable_since := 0 |> in
      if m.(sess).(established) && negb m.(tunnel_lost) then drop_tunnel i m else Ok (m, []).

(** *** Rebuilding *)

Definition restart_tunnel (i : pass) : stage :=
  set_to (λ m, let '(s, q) := awg_session_init cfg m.(pos) in
    m <| rebuilds ::= λ n, u32 (n + 1) |> <| nif ::= awg_netif_set_fd m.(fd) |> <| sess := s |> <| pos := q |>) ;;;
  on_http http_reset ;;; stack_run i.(i_rebuild_stack) ;;;
  set_to (λ m, m <| web ::= λ h, h <| g_http := HTTP_IDLE |> |> <| next_fetch := 0 |>
                 <| tunnel_lost := false |> <| unreachable_since := 0 |>) ;;;
  (λ m, if m.(netif_up) then proxy_start i.(i_listen) m else Ok (m, [])).

Definition rebuild_stage (i : pass) : stage := λ m,
  if m.(tunnel_lost) && (m.(next_rebuild) <=? i.(i_now)) then
    (set_to (λ m, m <| next_rebuild := u64 (i.(i_now) + 3000) |>) ;;;
     proxy_stop i.(i_stop_stack) ;;; close_fd ;;;
     emit (λ _, [Socket i.(i_now) i.(i_socket)]) ;;; set_to (λ m, m <| fd := i.(i_socket) |>) ;;;
     (λ m, if m.(fd) <? 0 then Ok (m, []) else restart_tunnel i m)) m
  else Ok (m, []).

(** *** The handshake and the keepalive *)

(** After the initiation's [sendto]. *)
Definition send_result_stage (i : pass) : stage := set_to (λ m,
  match i.(i_send) with
  | None => m <| unreachable_since := 0 |>
  | Some e =>
    if sock_is_dead e then m <| tunnel_lost := true |>
    else match e with
         | ENETUNREACH | ENETDOWN =>
           if m.(unreachable_since) =? 0 then m <| unreachable_since := i.(i_now) |>
           else if (u64 (i.(i_now) - m.(unreachable_since)) >? 30000) && negb m.(tunnel_lost)
           then m <| tunnel_lost := true |> <| unreachable_since := 0 |>
           else m
         | _ => m
         end
  end).

(** The line of the heartbeat file, which it replaces if the file opens. *)
Definition alive_mark (mono_ms wall loops : Z) (state : list Z) : list Z :=
  str "mono_ms=" ++ dec mono_ms ++ str " wall=" ++ dec wall ++ str " loops=" ++ dec loops ++
  str " state=" ++ state ++ [10].

Definition alive_stage (i : pass) : stage := λ m,
  if i.(i_now) <? m.(next_alive) then Ok (m, [])
  else
    Ok (m <| next_alive := u64 (i.(i_now) + 1000) |>,
        [Alive (alive_mark i.(i_now) i.(i_wall) m.(loops) (if m.(netif_up) then str "up" else str "down"))]).

Definition handshake_stage (i : pass) : stage := λ m,
  if m.(fd) <? 0 then Ok (m, [])
  else if awg_session_needs_handshake m.(sess) i.(i_now) then
    let '(s, out, q) := awg_session_build_initiation m.(sess) cfg WIRE_CAP i.(i_now) i.(i_wall) m.(pos) in
    let m := m <| sess := s |> <| pos := q |> in
    match out with
    | None => Ok (m, [])
    | Some d =>
      if negb (0 <? zlen d) then Ok (m, [])
      else
        let '(junk, q) := awg_junk_packets cfg 128 16 m.(pos) in
        let m := m <| pos := q |> in
        (emit (λ m, (SendTo m.(fd) <$> junk) ++ [SendTo m.(fd) d]) ;;; send_result_stage i) m
    end
  else if awg_session_needs_keepalive m.(sess) i.(i_now) then
    '(s, out, q) ← awg_session_build_keepalive m.(sess) cfg WIRE_CAP i.(i_now) m.(pos);
    let m := m <| sess := s |> <| pos := q |> in
    mret (m, match out with
             | Some d => if 0 <? zlen d then [SendTo m.(fd) d] else []
             | None => []
             end)
  else Ok (m, []).

(** *** The interface and the probe *)

Definition bring_up_stage (i : pass) : stage := λ m,
  if m.(sess).(established) && negb m.(netif_up) then
    let '(n, r) := awg_netif_start cfg m.(fd) dst i.(i_netif_add) m.(nif) in
    let m := m <| nif := n |> in
    if r =? 0 then proxy_start i.(i_listen_up) (m <| netif_up := true |>) else Ok (m, [])
  else Ok (m, []).

Definition fetch_stage (i : pass) : stage := λ m,
  if m.(netif_up) && m.(sess).(established) && negb (http_busy m.(web)) && (m.(next_fetch) <=? i.(i_now)) then
    (set_to (λ m, m <| fetches ::= λ n, u32 (n + 1) |>) ;;;
     on_http (λ h, (http_start i.(i_http_now) i.(i_http_new) i.(i_http_connect) h).1) ;;;
     stack_run i.(i_fetch_stack) ;;;
     set_to (λ m, m <| next_fetch := u64 (i.(i_now) + FETCH_EVERY_MS) |>)) m
  else Ok (m, []).

Definition report_stage (i : pass) : stage := λ m,
  match m.(web).(g_http) with
  | HTTP_DONE | HTTP_FAILED =>
    let m := if bool_decide (m.(web).(g_http) = HTTP_DONE)
             then m <| fetches_ok ::= λ n, u32 (n + 1) |> else m in
    (on_http http_reset ;;; stack_run i.(i_report_stack) ;;;
     set_to (λ m, m <| web ::= λ h, h <| g_http := HTTP_IDLE |> |>)) m
  | _ => Ok (m, [])
  end.

(** *** The wait and the datagrams *)

(** With the events of the tunnel's socket. *)
Definition wait_stage (i : pass) : main → res (main * Z * list main_action) := λ m,
  if m.(fd) <? 0 then Ok (m, 0, [SleepTick])
  else if m.(netif_up) then
    let '(p, rev, acts) := awg_proxy_poll m.(fd) i.(i_poll) m.(prx) in
    '(m, b) ← stack_run i.(i_poll_stack) (m <| prx := p |>);
    mret (m, rev, (ProxyDoes <$> acts) ++ b)
  else Ok (m, if 0 <? i.(i_poll).(in_poll) then i.(i_poll).(in_revents) 0%nat else 0, []).

Definition socket_died (rev : Z) : stage := set_to (λ m,
  if bit rev (POLLERR .| POLLHUP .| POLLNVAL) then m <| tunnel_lost := true |> else m).

Definition from_peer (d : datagram) : bool :=
  negb ((d.(dg_addr_len) <? SOCKADDR_IN) || negb (d.(dg_addr) =? dst_addr) || negb (d.(dg_port) =? dst_port)).

Definition datagram_stage (d : datagram) : stage := λ m,
  '(s, g, r, pl) ← awg_session_on_datagram m.(sess) m.(statics) cfg d.(dg_bytes) INNER_CAP d.(dg_now);
  let m := m <| sess := s |> <| statics := g |> in
  match r with
  | AWG_RX_PAYLOAD =>
    '(p, _) ← awg_netif_input m.(nif) pl d.(dg_pool) d.(dg_in_ok);
    match p with
    | Some p => (emit (λ _, [ToStack p]) ;;; stack_run d.(dg_stack)) m
    | None => Ok (m, [])
    end
  | _ => Ok (m, [])
  end.

(** At most [n] calls of [recvfrom]; the list ends where it has nothing to give. *)
Fixpoint drain (n : nat) (ds : list datagram) : stage := λ m,
  match n, ds with
  | O, _ | _, [] => Ok (m, [])
  | S n, d :: ds =>
    if zlen d.(dg_bytes) <=? 0 then Ok (m, [])
    else if from_peer d then (datagram_stage d ;;; drain n ds) m
    else drain n ds (m <| stray_datagrams ::= λ n, u32 (n + 1) |>)
  end.

Definition timers_stage (i : pass) : stage := λ m,
  if awg_netif_poll m.(nif) then stack_run i.(i_timer_stack) m else Ok (m, []).

(** *** The status report *)

Definition status_stage (i : pass) : stage := λ m,
  if i.(i_status_now) <? m.(next_status) then Ok (m, [])
  else
    let ps := awg_proxy_get_stats m.(prx) in
    let now_pkts := m.(sess).(packets_rx) in
    let now_kb := u32 (ps.(bytes_down) / 1024) in
    let d_pkts := if m.(last_rx_pkts) <=? now_pkts then u32 (now_pkts - m.(last_rx_pkts)) else 0 in
    let d_kb := if m.(last_down_kb) <=? now_kb then u32 (now_kb - m.(last_down_kb)) else 0 in
    let line := m.(reported) <? m.(sess).(replays_dropped) in
    Ok (m <| last_rx_pkts := now_pkts |> <| last_down_kb := now_kb |>
          <| reported := m.(sess).(replays_dropped) |> <| next_status := u64 (i.(i_status_t) + 15000) |>,
        [Status (d_pkts / 15) (d_kb / 15) line]).

(** *** The pass *)

Definition wait_and_drain (i : pass) : stage := λ m,
  '(m, rev, a) ← wait_stage i m;
  '(m, b) ← (socket_died rev ;;; (if bit rev POLLIN then drain 64 i.(i_datagrams) else skip)) m;
  mret (m, a ++ b).

Definition loop_pass (i : pass) : stage :=
  set_to (λ m, m <| loops ::= λ n, u64 (n + 1) |>) ;;;
  power_stage i ;;; rebuild_stage i ;;; alive_stage i ;;; handshake_stage i ;;; bring_up_stage i ;;;
  fetch_stage i ;;; report_stage i ;;; wait_and_drain i ;;; timers_stage i ;;; status_stage i.

(** The state the loop starts from: [awg_session_init] has run, the socket is open. *)
Definition main_init (p : power) (sock : Z) (q : nat) : main :=
  let '(s, q) := awg_session_init cfg q in
  Main s (ReplayStatic 0 false) sock netif_init (started (-1)) p http_init q
    0 0 0 0 0 0 0 0 0 0 0 false false 0 0 0 0.

End Loop.
