(* ===== verification/MainRun.v ===== *)
(** * The main loop along its runs

    The loop drives every component only through its operations, so what holds of a
    component's own runs holds inside the module; it never touches a descriptor it has
    closed as long as [socket] succeeds; rebuilds are spaced, and a lost tunnel comes
    back with the first one that gets a socket. *)
From S2P Require Import Prelude Cstr Awg Noise Session Proxy ProxyRun Power Pbuf Netif Http Main.

(** ** Stages *)

Lemma then_do_ok f g m m' a : (f ;;; g) m = Ok (m', a) →
  ∃ m1 a1 a2, f m = Ok (m1, a1) ∧ g m1 = Ok (m', a2) ∧ a = a1 ++ a2.
Proof.
  unfold then_do. destruct (f m) as [[m1 a1]| |]; cbn [mbind res_bind]; try done.
  destruct (g m1) as [[m2 a2]| |] eqn:E; cbn [mbind res_bind]; try done.
  intros [= <- <-]. by exists m1, a1, a2.
Qed.

(** A stage that keeps a property and relates its start, its actions and its end. *)
Definition stage_ok (I : main → Prop) (R : main → list main_action → main → Prop) (f : stage) : Prop :=
  ∀ m m' a, I m → f m = Ok (m', a) → I m' ∧ R m a m'.

Class Composes (R : main → list main_action → main → Prop) : Prop := {
  composes_nil m : R m [] m;
  composes_app m a m1 b m2 : R m a m1 → R m1 b m2 → R m (a ++ b) m2
}.

Section Stages.
Context (I : main → Prop) (R : main → list main_action → main → Prop) `{!Composes R}.

Lemma stage_ok_then f g : stage_ok I R f → stage_ok I R g → stage_ok I R (f ;;; g).
Proof.
  intros Hf Hg m m' a Hm E. apply then_do_ok in E as (m1 & a1 & a2 & E1 & E2 & ->).
  destruct (Hf _ _ _ Hm E1) as [H1 R1]. destruct (Hg _ _ _ H1 E2) as [H2 R2].
  split; [done|by eapply composes_app].
Qed.

Lemma stage_ok_skip : stage_ok I R skip.
Proof. intros m m' a Hm [= <- <-]. split; [done|apply composes_nil]. Qed.

Lemma stage_ok_if (b : main → bool) f g : stage_ok I R f → stage_ok I R g →
  stage_ok I R (λ m, if b m then f m else g m).
Proof. intros Hf Hg m m' a. destruct (b m); [apply Hf|apply Hg]. Qed.

Lemma stage_ok_foldr {A} (f : A → stage) (l : list A) : (∀ x, stage_ok I R (f x)) →
  stage_ok I R (foldr (λ x k, f x ;;; k) skip l).
Proof.
  intros Hf. induction l as [|x l IH]; [apply stage_ok_skip|]. cbn [foldr]. by apply stage_ok_then.
Qed.

End Stages.

(** ** The descriptor of the tunnel *)

(** Replaying the descriptor through the actions: [None] when something is sent on,
    or closes, another descriptor than the open one, or when a socket is opened over
    an open one. *)
Fixpoint ledger (o : Z) (acts : list main_action) : option Z :=
  match acts with
  | [] => Some o
  | SendTo f _ :: acts => if (f =? o) && (0 <=? f) then ledger o acts else None
  | CloseTunnel f :: acts => if (f =? o) && (0 <=? f) then ledger (-1) acts else None
  | Socket _ f :: acts => if 0 <=? o then None else ledger f acts
  | _ :: acts => ledger o acts
  end.

Lemma ledger_app o a b : ledger o (a ++ b) = ledger o a ≫= λ o', ledger o' b.
Proof.
  revert o. induction a as [|x a IH]; intros o; [done|]. cbn [app ledger].
  destruct x; rewrite ?IH; by repeat case_match.
Qed.

Definition follows (m : main) (a : list main_action) (m' : main) : Prop := ledger m.(fd) a = Some m'.(fd).

#[export] Instance follows_composes : Composes follows.
Proof.
  split; [done|]. unfold follows. intros m a m1 b m2 H1 H2. by rewrite ledger_app, H1.
Qed.

(** Actions that have nothing to do with it. *)
Definition neutral (x : main_action) : Prop :=
  match x with SendTo _ _ | CloseTunnel _ | Socket _ _ => False | _ => True end.

Lemma ledger_neutral o a : Forall neutral a → ledger o a = Some o.
Proof. induction 1 as [|x a Hx _ IH]; [done|]. by destruct x. Qed.

Lemma neutral_proxy a : Forall neutral (ProxyDoes <$> a).
Proof. apply Forall_fmap. by apply Forall_true. Qed.
Lemma neutral_http a : Forall neutral (HttpDoes <$> a).
Proof. apply Forall_fmap. by apply Forall_true. Qed.

Lemma ledger_sends o ds : 0 <= o → ledger o (SendTo o <$> ds) = Some o.
Proof.
  intros Ho. induction ds as [|d ds IH]; [done|]. rewrite fmap_cons. cbn [ledger].
  by rewrite Z.eqb_refl, (proj2 (Z.leb_le 0 o)).
Qed.

(** ** The sockets opened *)

(** When the rebuilds tried. *)
Definition attempts (a : list main_action) : list Z :=
  omap (λ x, match x with Socket t _ => Some t | _ => None end) a.

Lemma attempts_app a b : attempts (a ++ b) = attempts a ++ attempts b.
Proof. apply omap_app. Qed.

Section Loop.
Context `{Entropy} `{Curve}.
Context (cfg : awg_config) (dst_addr dst_port : Z) (dst : list Z).

(** ** The components' invariants *)

(** The session is one its own operations reach. *)
Definition reachable (s : awg_session) (g : replay_static) : Prop := ∃ ep tr, reach cfg s g ep tr.

Definition parts_ok (m : main) : Prop := proxy_wf m.(prx).

(** What lwIP's activity leaves alone. *)
Definition same_frame (m m' : main) : Prop :=
  m'.(fd) = m.(fd) ∧ m'.(nif) = m.(nif) ∧ m'.(tunnel_lost) = m.(tunnel_lost) ∧ m'.(netif_up) = m.(netif_up) ∧
  m'.(next_rebuild) = m.(next_rebuild) ∧ m'.(sess).(established) = m.(sess).(established) ∧
  (m.(sess).(established) = false → m'.(sess) = m.(sess)) ∧
  (∀ g, reachable m.(sess) g → reachable m'.(sess) g) ∧ m'.(statics) = m.(statics) ∧ (all_free m.(prx) → all_free m'.(prx)).

Definition framed (m : main) (a : list main_action) (m' : main) : Prop := same_frame m m' ∧ attempts a = [].

#[export] Instance framed_composes : Composes framed.
Proof.
  split.
  - intros m. by split_and!.
  - intros m a m1 b m2 [(H1 & H2 & H3 & H4 & H5 & H6 & H7 & H8 & H9 & H10) Ha]
      [(K1 & K2 & K3 & K4 & K5 & K6 & K7 & K8 & K9 & K10) Hb].
    split; [|by rewrite attempts_app, Ha, Hb]. split_and!; try congruence; [|by auto..].
    intros He. rewrite K7, H7 by congruence. done.
Qed.

Lemma registered_enabled ev p : registered ev p = true → enabled ev p.
Proof.
  destruct ev as [| i chain ok|i|i ok|i name ip new ok]; cbn; try done.
  - destruct (g_conn p !! i) as [c|]; [|done]. rewrite andb_true_iff, bool_decide_eq_true, forallb_forall.
    intros [Hs Hl]. split; [by exists c|]. intros l ->. apply Forall_forall. intros q Hq.
    apply Z.ltb_lt, Hl. by apply list_elem_of_In.
  - destruct (g_conn p !! i) as [c|]; [|done]. rewrite bool_decide_eq_true. by exists c.
  - destruct (g_conn p !! i) as [c|]; [|done]. rewrite bool_decide_eq_true. by exists c.
Qed.

(** No callback is registered on a free slot but the resolver's, which ignores it. *)
Lemma handle_free ev p : all_free p → registered ev p = true → all_free (handle ev p).1.
Proof.
  intros Hf. assert (∀ i c, g_conn p !! i = Some c → c = conn_free) as Hc.
  { intros i c Hc. by apply (Forall_lookup_1 _ _ _ _ Hf Hc). }
  destruct ev as [fd' inp|i chain ok|i|i ok|i name ip new ok]; cbn; try done.
  1-3: destruct (g_conn p !! i) as [c|] eqn:E; [|done]; by rewrite (Hc i c E).
  intros _. unfold on_slot. destruct (g_conn p !! i) as [c|] eqn:E; [|done].
  assert (c = conn_free) as -> by (by apply (Hc i)). change (all_free (p <| g_conn ::= <[i:=conn_free]> |> <| g_stats := g_stats p |>)).
  unfold all_free. cbn. rewrite list_insert_id by done. exact Hf.
Qed.

Lemma output_sess n s p now sent q s' e out q' :
  tunnel_output n s cfg p now sent q = Ok (s', e, out, q') →
  s'.(established) = s.(established) ∧ (s.(established) = false → s' = s) ∧
  (∀ g, reachable s g → reachable s' g) ∧
  match out with Some (f, _) => f = n.(g_fd) ∧ n.(has_sess) = true ∧ s.(established) = true | None => True end.
Proof.
  unfold tunnel_output. destruct (has_sess n), (established s) eqn:Ee; cbn [negb orb];
    try (intros [= <- <- <- <-]; split_and!; done).
  destruct (tot_len p >? TUNNEL_MTU); [intros [= <- <- <- <-]; split_and!; done|].
  destruct (negb _); [done|]. destruct (negb _); [intros [= <- <- <- <-]; split_and!; done|].
  destruct (awg_session_build_data _ _ _ _ _ _) as [[[s1 out1] q1]| |] eqn:Eb; cbn [mbind res_bind]; try done.
  assert (s1.(established) = true) as He1.
  { revert Eb. unfold awg_session_build_data. rewrite Ee. cbn [negb].
    destruct (awg_transport_seal _ _ _ _ _ _) as [[? ?]| |]; intros [= <- <- <-]; done. }
  assert (∀ g, reachable s g → reachable s1 g) as Hs1.
  { intros g (ep & tr & Hr). do 2 eexists. by eapply reach_data. }
  destruct out1 as [d|]; [destruct sent|]; cbn [negb]; intros [= <- <- <- <-]; split_and!; done.
Qed.

Lemma on_proxy_ok f m m' a : on_proxy f m = Ok (m', a) →
  m' = m <| prx := (f m.(prx)).1 |> ∧ a = ProxyDoes <$> (f m.(prx)).2.
Proof. unfold on_proxy. destruct (f (prx m)) as [p acts]. by intros [= <- <-]. Qed.

Lemma on_http_ok f m m' a : on_http f m = Ok (m', a) →
  m' = m <| web := (f m.(web)).1 |> ∧ a = HttpDoes <$> (f m.(web)).2.
Proof. unfold on_http. destruct (f (web m)) as [p acts]. by intros [= <- <-]. Qed.

Lemma attempts_proxy l : attempts (ProxyDoes <$> l) = [].
Proof. unfold attempts. induction l; [done|]. by rewrite fmap_cons. Qed.
Lemma attempts_http l : attempts (HttpDoes <$> l) = [].
Proof. unfold attempts. induction l; [done|]. by rewrite fmap_cons. Qed.
Lemma attempts_sends f l : attempts (SendTo f <$> l) = [].
Proof. unfold attempts. induction l; [done|]. by rewrite fmap_cons. Qed.

(** A stage that only changes the proxy or the probe. *)
Lemma on_proxy_framed f : (∀ p, proxy_wf p → proxy_wf (f p).1 ∧ (all_free p → all_free (f p).1)) →
  stage_ok parts_ok framed (on_proxy f).
Proof.
  intros Hf m m' a Hp E. apply on_proxy_ok in E as [-> ->]. destruct (Hf _ Hp) as [Hw Ha].
  split; [done|]. split; [by split_and!|apply attempts_proxy].
Qed.

Lemma on_http_framed f : stage_ok parts_ok framed (on_http f).
Proof.
  intros m m' a Hp E. apply on_http_ok in E as [-> ->]. split; [done|].
  split; [by split_and!|apply attempts_http].
Qed.

Lemma stack_step_framed ev : stage_ok parts_ok framed (stack_step cfg ev).
Proof.
  intros m m' a Hp. destruct ev as [p now sent|ev|ev]; cbn [stack_step].
  - destruct (tunnel_output _ _ _ _ _ _ _) as [[[[s e] out] q]| |] eqn:E; cbn [mbind res_bind]; try done.
    intros [= <- <-]. destruct (output_sess _ _ _ _ _ _ _ _ _ _ E) as (He & Hz & Hok & _).
    split; [done|]. split; [by split_and!|]. by destruct out as [[f d]|].
  - destruct (registered ev (prx m)) eqn:Er; [|intros [= <- <-]; split; [done|apply composes_nil]].
    intros E. apply on_proxy_ok in E as [-> ->]. split.
    + by apply handle_ok, registered_enabled.
    + split; [|apply attempts_proxy]. split_and!; try done. intros Hf. by apply handle_free.
  - case_bool_decide; [|intros [= <- <-]; split; [done|apply composes_nil]]. by apply on_http_framed.
Qed.

Lemma stack_run_framed evs : stage_ok parts_ok framed (stack_run cfg evs).
Proof. apply stage_ok_foldr; [apply _|]. apply stack_step_framed. Qed.

(** The interface writes to the open descriptor. *)
Definition synced (m : main) : Prop :=
  (m.(nif).(has_sess) = true → m.(nif).(g_fd) = m.(fd)) ∧ (m.(fd) < 0 → m.(sess).(established) = false).

Lemma synced_frame m m' : synced m → same_frame m m' → synced m'.
Proof. intros [H1 H2] (E1 & E2 & _ & _ & _ & E3 & _). unfold synced. by rewrite E1, E2, E3. Qed.

Lemma stack_step_follows ev : stage_ok synced follows (stack_step cfg ev).
Proof.
  intros m m' a Hm. destruct ev as [p now sent|ev|ev]; cbn [stack_step].
  - destruct (tunnel_output _ _ _ _ _ _ _) as [[[[s e] out] q]| |] eqn:E; cbn [mbind res_bind]; try done.
    intros [= <- <-]. destruct (output_sess _ _ _ _ _ _ _ _ _ _ E) as (He & _ & _ & Ho).
    destruct Hm as [H1 H2]. split; [split; cbn; [done|by rewrite He]|]. unfold follows. cbn [fd modify].
    destruct out as [[f d]|]; [|done]. destruct Ho as (-> & Hh & Hest). rewrite (H1 Hh). cbn [ledger].
    rewrite Z.eqb_refl. destruct (Z.leb_spec 0 (fd m)) as [_|Hlt]; [done|]. rewrite (H2 Hlt) in Hest. done.
  - destruct (registered ev (prx m)); [|intros [= <- <-]; by split].
    intros E. apply on_proxy_ok in E as [-> ->]. split; [done|]. apply ledger_neutral, neutral_proxy.
  - case_bool_decide; [|intros [= <- <-]; by split].
    intros E. apply on_http_ok in E as [-> ->]. split; [done|]. apply ledger_neutral, neutral_http.
Qed.

Lemma stack_run_follows evs : stage_ok synced follows (stack_run cfg evs).
Proof. apply stage_ok_foldr; [apply _|]. apply stack_step_follows. Qed.

(** ** The invariant of the loop and what a stage does *)

(** [socks]: every [socket] of the run succeeds. *)
Context (socks : Prop).

Record main_inv (m : main) : Prop := {
  mi_sess : reachable m.(sess) m.(statics) ∨ m.(sess) = session_zero ∧ m.(fd) < 0;
  mi_proxy : proxy_wf m.(prx);
  mi_down : m.(fd) < 0 → m.(tunnel_lost) = true;
  mi_early : m.(netif_up) = false → all_free m.(prx);
  mi_sync : socks → synced m
}.

(** The times of the attempts, each at least three seconds after the one before; [lo]
    is the earliest the next may come. *)
Fixpoint waits (lo : Z) (ts : list Z) : option Z :=
  match ts with
  | [] => Some lo
  | t :: ts => if lo <=? t then waits (u64 (t + 3000)) ts else None
  end.

Lemma waits_app lo a b : waits lo (a ++ b) = waits lo a ≫= λ lo', waits lo' b.
Proof. revert lo. induction a as [|t a IH]; intros lo; [done|]. cbn. by destruct (lo <=? t). Qed.

Definition moves (m : main) (a : list main_action) (m' : main) : Prop :=
  (socks → follows m a m') ∧ waits m.(next_rebuild) (attempts a) = Some m'.(next_rebuild).

#[export] Instance moves_composes : Composes moves.
Proof.
  split; [by split|]. intros m a m1 b m2 [F1 W1] [F2 W2]. split.
  - intros Hs. by eapply (composes_app (R := follows)); [apply F1|apply F2].
  - rewrite attempts_app, waits_app, W1. exact W2.
Qed.

Lemma framed_inv m a m' : main_inv m → proxy_wf m'.(prx) → framed m a m' → main_inv m'.
Proof.
  intros [Hs Hp Hd He Hy] Hp' [(E1 & E2 & E3 & E4 & E5 & E6 & E7 & E8 & E9 & E10) _].
  split; rewrite ?E1, ?E3, ?E4, ?E9; try done.
  - destruct Hs as [Hs|[Hs ?]]; [left; by apply E8|right; split; [|done]; rewrite E7; [done|by rewrite Hs]].
  - auto.
  - intros Hk. unfold synced in *. rewrite E1, E2, E6. by apply Hy.
Qed.

(** A stage of lwIP's activity. *)
Lemma framed_stage f : stage_ok parts_ok framed f → stage_ok synced follows f → stage_ok main_inv moves f.
Proof.
  intros Hf Hg m m' a Hm E. destruct (Hf _ _ _ (mi_proxy m Hm) E) as [Hp Hfr].
  split; [by eapply framed_inv|]. split.
  - intros Hk. by destruct (Hg _ _ _ (mi_sync m Hm Hk) E).
  - destruct Hfr as [(_ & _ & _ & _ & E5 & _) ->]. by rewrite E5.
Qed.

Lemma stack_run_ok evs : stage_ok main_inv moves (stack_run cfg evs).
Proof. apply framed_stage; [apply stack_run_framed|apply stack_run_follows]. Qed.

Lemma on_http_follows f : stage_ok synced follows (on_http f).
Proof. intros m m' a Hm E. apply on_http_ok in E as [-> ->]. split; [done|]. apply ledger_neutral, neutral_http. Qed.

Lemma on_http_inv f : stage_ok main_inv moves (on_http f).
Proof. apply framed_stage; [apply on_http_framed|apply on_http_follows]. Qed.

Lemma on_proxy_follows f : stage_ok synced follows (on_proxy f).
Proof. intros m m' a Hm E. apply on_proxy_ok in E as [-> ->]. split; [done|]. apply ledger_neutral, neutral_proxy. Qed.

Lemma on_proxy_inv f : (∀ p, proxy_wf p → proxy_wf (f p).1 ∧ (all_free p → all_free (f p).1)) →
  stage_ok main_inv moves (on_proxy f).
Proof. intros Hf. apply framed_stage; [by apply on_proxy_framed|apply on_proxy_follows]. Qed.

(** The variables no part of the invariant speaks of. *)
Definition same_vars (m m' : main) : Prop :=
  m'.(sess) = m.(sess) ∧ m'.(statics) = m.(statics) ∧ m'.(fd) = m.(fd) ∧ m'.(nif) = m.(nif) ∧
  m'.(prx) = m.(prx) ∧ m'.(netif_up) = m.(netif_up) ∧ m'.(next_rebuild) = m.(next_rebuild) ∧
  (m.(tunnel_lost) = true → m'.(tunnel_lost) = true).

Lemma same_vars_inv m m' : main_inv m → same_vars m m' → main_inv m'.
Proof.
  intros [Hs Hp Hd He Hy] (E1 & E2 & E3 & E4 & E5 & E6 & _ & E8).
  split; rewrite ?E1, ?E2, ?E3, ?E5, ?E6; try done; [auto|].
  intros Hk. unfold synced in *. rewrite E1, E3, E4. auto.
Qed.

Lemma same_vars_ok m m' a : main_inv m → same_vars m m' → Forall neutral a → attempts a = [] →
  main_inv m' ∧ moves m a m'.
Proof.
  intros Hm Hc Hn Ha. split; [by eapply same_vars_inv|]. destruct Hc as (_ & _ & E3 & _ & _ & _ & E7 & _). split.
  - intros _. unfold follows. rewrite E3. by apply ledger_neutral.
  - by rewrite Ha, E7.
Qed.

Lemma set_core f : (∀ m, same_vars m (f m)) → stage_ok main_inv moves (set_to f).
Proof. intros Hf m m' a Hm [= <- <-]. by apply same_vars_ok. Qed.

Lemma emit_ok f : (∀ m, Forall neutral (f m) ∧ attempts (f m) = []) → stage_ok main_inv moves (emit f).
Proof. intros Hf m m' a Hm [= <- <-]. by apply same_vars_ok; [..|apply Hf|apply Hf]. Qed.

(** ** The stages *)

Lemma proxy_start_ok l m m' a : main_inv m → all_free m.(prx) → proxy_start cfg l m = Ok (m', a) →
  main_inv m' ∧ moves m a m'.
Proof.
  intros Hm Hf E. apply then_do_ok in E as (m1 & a1 & a2 & E1 & E2 & ->). injection E1 as <- <-.
  apply on_proxy_ok in E2 as [-> ->]. destruct l as [[l b1] b2]. cbn [fst snd].
  set (r := awg_proxy_start l b1 b2 (prx m)).
  replace (let '(p, _, acts) := r in (p, acts)) with (r.1.1, r.2) by (by destruct r as [[? ?] ?]). cbn [fst snd].
  pose proof (start_wf l b1 b2 (prx m) (mi_proxy m Hm) Hf) as Hw. fold r in Hw.
  split.
  - eapply framed_inv; [exact Hm|exact Hw|split; [|apply (attempts_proxy r.2)]].
    split_and!; try done. intros _. by apply start_free.
  - split.
    + intros _. unfold follows. by apply ledger_neutral, Forall_cons_2, neutral_proxy.
    + rewrite attempts_app, attempts_proxy. done.
Qed.

Lemma proxy_stop_ok evs : stage_ok main_inv moves (proxy_stop cfg evs).
Proof.
  apply stage_ok_then; [apply _| |apply stack_run_ok]. apply on_proxy_inv. intros p Hp.
  destruct (stop_wf p Hp). done.
Qed.

(** After the proxy's stop every slot is free. *)
Lemma proxy_stop_free evs m m' a : main_inv m → proxy_stop cfg evs m = Ok (m', a) → all_free m'.(prx).
Proof.
  intros Hm E. apply then_do_ok in E as (m1 & a1 & a2 & E1 & E2 & ->).
  apply on_proxy_ok in E1 as [-> ->]. destruct (stop_wf (prx m) (mi_proxy m Hm)) as [Hw Hf].
  set (m1 := m <| prx := _ |>) in *. assert (parts_ok m1) as Hp1 by exact Hw.
  destruct (stack_run_framed evs m1 _ _ Hp1 E2) as [_ [(_ & _ & _ & _ & _ & _ & _ & _ & _ & H10) _]]. by apply H10.
Qed.

Lemma proxy_stop_frame evs m m' a : main_inv m → proxy_stop cfg evs m = Ok (m', a) → framed m a m'.
Proof.
  intros Hm E. assert (stage_ok parts_ok framed (proxy_stop cfg evs)) as Hf.
  { apply stage_ok_then; [apply _| |apply stack_run_framed]. apply on_proxy_framed.
    intros p Hp. by destruct (stop_wf p Hp). }
  by destruct (Hf _ _ _ (mi_proxy m Hm) E).
Qed.

Lemma drop_tunnel_ok i m m' a : main_inv m → m.(tunnel_lost) = false → drop_tunnel cfg i m = Ok (m', a) → main_inv m' ∧ moves m a m'.
Proof.
  intros Hm Hl E. apply then_do_ok in E as (m1 & a1 & a2 & E1 & E & ->). injection E1 as <- <-.
  set (m1 := m <| suspends ::= _ |>) in *. assert (main_inv m1) as Hm1 by (by eapply same_vars_inv).
  apply then_do_ok in E as (m2 & a3 & a4 & E2 & E & ->).
  destruct (proxy_stop_ok _ _ _ _ Hm1 E2) as [Hm2 [F2 W2]]. pose proof (proxy_stop_free _ _ _ _ Hm1 E2) as Hf.
  assert (0 <= fd m2) as Hge.
  { destruct (proxy_stop_frame _ _ _ _ Hm1 E2) as [(-> & _) _]. apply Z.nlt_ge. intros Hlt.
    pose proof (mi_down m Hm Hlt). congruence. }
  apply then_do_ok in E as (m3 & a5 & a6 & E3 & E & ->). injection E3 as <- <-. injection E as <- <-.
  destruct Hm2 as [Hs Hp Hd He Hy]. split.
  - split; cbn; try done. by right.
  - split.
    + intros Hk. cbn [app]. eapply (composes_app (R := follows)); [by apply F2|]. rewrite app_nil_r.
      unfold follows. rewrite (proj2 (Z.leb_le 0 (fd m2)) Hge). cbn [ledger].
      by rewrite Z.eqb_refl, (proj2 (Z.leb_le 0 (fd m2)) Hge).
    + cbn [app]. rewrite app_nil_r, attempts_app, waits_app.
      change (next_rebuild m) with (next_rebuild m1). rewrite W2. cbn. by destruct (0 <=? fd m2).
Qed.

Lemma power_stage_ok i : stage_ok main_inv moves (power_stage cfg i).
Proof.
  intros m m' a Hm. unfold power_stage. destruct (i_now i <? next_power m); [by intros [= <- <-]; apply same_vars_ok|].
  destruct (awg_power_transition _ _ _ _) as [p changed]. set (m1 := m <| next_power := _ |> <| pwr := p |>).
  destruct changed; cbn [negb]; [|by intros [= <- <-]; apply same_vars_ok].
  set (m2 := m1 <| unreachable_since := 0 |>). assert (main_inv m2) as Hm2 by (by apply (same_vars_inv m)).
  destruct (established (sess m2) && negb (tunnel_lost m2)) eqn:Eb.
  - apply andb_true_iff in Eb as [_ Eb]. rewrite negb_true_iff in Eb. apply (drop_tunnel_ok i m2); done.
  - intros [= <- <-]. by apply same_vars_ok.
Qed.

(** Once the new socket is there. *)
Record restarted (i : pass) (m : main) (a : list main_action) (m' : main) : Prop := {
  rt_inv : main_inv m';
  rt_follows : socks → follows m a m';
  rt_attempts : attempts a = [];
  rt_rebuild : m'.(next_rebuild) = m.(next_rebuild);
  rt_fd : m'.(fd) = m.(fd);
  rt_nif : m'.(nif).(g_fd) = m.(fd);
  rt_lost : m'.(tunnel_lost) = false;
  rt_sess : m'.(sess) = (awg_session_init cfg m.(pos)).1
}.

Lemma init_not_established q : established (awg_session_init cfg q).1 = false ∧ handshaking (awg_session_init cfg q).1 = false.
Proof. unfold awg_session_init. repeat case_match. done. Qed.

Lemma restart_ok i m m' a : proxy_wf m.(prx) → all_free m.(prx) → 0 <= m.(fd) →
  restart_tunnel cfg i m = Ok (m', a) → restarted i m a m'.
Proof.
  intros Hp Hf Hfd E. destruct (init_not_established (pos m)) as [Hne _].
  apply then_do_ok in E as (m1 & a1 & a2 & E1 & E & ->).
  unfold set_to in E1. destruct (awg_session_init cfg (pos m)) as [s q] eqn:Es. injection E1 as <- <-.
  set (m1 := m <| rebuilds ::= _ |> <| nif ::= _ |> <| sess := s |> <| pos := q |>) in *.
  assert (main_inv m1) as Hm1.
  { split; [|done| |done|].
    - left. exists 0%nat, []. by eapply reach_init.
    - intros Hlt. change (fd m < 0) in Hlt. lia.
    - intros _. split; [done|]. intros Hlt. change (fd m < 0) in Hlt. lia. }
  apply then_do_ok in E as (m2 & a3 & a4 & E2 & E & ->).
  destruct (on_http_framed _ _ _ _ (mi_proxy m1 Hm1) E2) as [_ Fr2].
  destruct (on_http_inv _ _ _ _ Hm1 E2) as [Hm2 [F2 _]].
  apply then_do_ok in E as (m3 & a5 & a6 & E3 & E & ->).
  destruct (stack_run_framed _ _ _ _ (mi_proxy m2 Hm2) E3) as [_ Fr3].
  destruct (stack_run_ok _ _ _ _ Hm2 E3) as [Hm3 [F3 _]].
  pose proof (composes_app _ _ _ _ _ Fr2 Fr3) as [(X1 & X2 & X3 & X4 & X5 & X6 & X7 & X8 & X9 & X10) Xa].
  change (fd m1) with (fd m) in X1. change (sess m1) with s in *.
  apply then_do_ok in E as (m4 & a7 & a8 & E4 & E & ->). injection E4 as <- <-.
  set (m4 := m3 <| web ::= _ |> <| next_fetch := 0 |> <| tunnel_lost := false |> <| unreachable_since := 0 |>) in *.
  assert (main_inv m4) as Hm4.
  { destruct Hm3 as [Hs3 Hp3 Hd3 He3 Hy3]. split; try done. intros Hlt. change (fd m3 < 0) in Hlt. lia. }
  assert (∃ b, a8 = b ∧ main_inv m' ∧ moves m4 a8 m' ∧ framed m4 a8 m') as (b & -> & Hm' & [Fm _] & Frm).
  { exists a8. split; [done|]. destruct (netif_up m4).
    - assert (all_free (prx m4)) as Hf4 by (by apply X10).
      destruct (proxy_start_ok _ _ _ _ Hm4 Hf4 E) as [Hm' Mv]. split; [done|]. split; [done|].
      apply then_do_ok in E as (m5 & b1 & b2 & E5 & E6 & ->). injection E5 as <- <-.
      apply on_proxy_ok in E6 as [-> ->]. split; [|apply attempts_proxy].
      split_and!; try done. intros Hx. destruct (i_listen i) as [[l c1] c2]. cbn [fst snd].
      pose proof (start_free l c1 c2 _ Hx) as Hy. by destruct (awg_proxy_start l c1 c2 (prx m4)) as [[? ?] ?].
    - injection E as <- <-. split; [done|]. split; [apply composes_nil|apply composes_nil]. }
  destruct Frm as [(Y1 & Y2 & Y3 & Y4 & Y5 & Y6 & Y7 & Y8 & Y9 & Y10) Yb].
  change (fd m4) with (fd m3) in Y1. change (nif m4) with (nif m3) in Y2. change (sess m4) with (sess m3) in *.
  change (next_rebuild m4) with (next_rebuild m3) in Y5.
  split; [done| | |by rewrite Y5, X5|by rewrite Y1|by rewrite Y2, X2|by rewrite Y3|].
  - intros Hk. cbn [app]. eapply (composes_app (R := follows)); [|eapply (composes_app (R := follows))].
    + exact (F2 Hk).
    + exact (F3 Hk).
    + exact (Fm Hk).
  - cbn [app]. by rewrite app_assoc, attempts_app, Xa, Yb.
  - rewrite Y7, X7; [by rewrite Es|done|by rewrite X6].
Qed.

(** The close and the socket that follow the proxy's stop. *)
Lemma reopen_follows m f t : follows m ((if 0 <=? m.(fd) then [CloseTunnel m.(fd)] else []) ++ [Socket t f]) (m <| fd := f |>).
Proof.
  unfold follows. destruct (Z.leb_spec 0 (fd m)) as [Hge|Hlt]; cbn [app ledger].
  - by rewrite Z.eqb_refl, (proj2 (Z.leb_le 0 (fd m)) Hge).
  - by rewrite (proj2 (Z.leb_gt 0 (fd m)) Hlt).
Qed.

(** An attempt at rebuilding. *)
Lemma rebuild_run i m m' a : main_inv m → (socks → 0 <= i.(i_socket)) →
  m.(tunnel_lost) = true → m.(next_rebuild) <= i.(i_now) → rebuild_stage cfg i m = Ok (m', a) →
  ∃ m1 b c, a = b ++ c ∧ attempts b = [i.(i_now)] ∧ Socket i.(i_now) i.(i_socket) ∈ b ∧ (socks → follows m b m1) ∧
    m1.(fd) = i.(i_socket) ∧ m1.(next_rebuild) = u64 (i.(i_now) + 3000) ∧
    m'.(next_rebuild) = u64 (i.(i_now) + 3000) ∧ m'.(fd) = i.(i_socket) ∧
    if i.(i_socket) <? 0 then main_inv m' ∧ m' = m1 ∧ c = [] else restarted i m1 c m'.
Proof.
  intros Hm Hk Hl Hn. unfold rebuild_stage. rewrite Hl, (proj2 (Z.leb_le _ _) Hn). cbn [andb]. intros E.
  apply then_do_ok in E as (m1 & a1 & a2 & E1 & E & ->). injection E1 as <- <-.
  set (m1 := m <| next_rebuild := _ |>) in *. assert (main_inv m1) as Hm1 by (by destruct Hm; split).
  apply then_do_ok in E as (m2 & a3 & a4 & E2 & E & ->).
  destruct (proxy_stop_ok _ _ _ _ Hm1 E2) as [Hm2 [F2 _]]. pose proof (proxy_stop_free _ _ _ _ Hm1 E2) as Hf.
  destruct (proxy_stop_frame _ _ _ _ Hm1 E2) as [(_ & X2 & X3 & _ & X5 & _) Xa].
  apply then_do_ok in E as (m3 & a5 & a6 & E3 & E & ->). injection E3 as <- <-.
  apply then_do_ok in E as (m4 & a7 & a8 & E4 & E & ->). injection E4 as <- <-.
  apply then_do_ok in E as (m5 & a9 & a10 & E5 & E & ->). injection E5 as <- <-.
  set (m5 := m2 <| fd := i_socket i |>) in *. change (fd m5) with (i_socket i) in E.
  exists m5, (a3 ++ (if 0 <=? fd m2 then [CloseTunnel (fd m2)] else []) ++ [Socket (i_now i) (i_socket i)]), a10.
  split; [cbn [app]; by rewrite <- !app_assoc|].
  split; [rewrite !attempts_app, Xa; by destruct (0 <=? fd m2)|].
  split; [rewrite !elem_of_app; right; right; by left|].
  split; [intros Hs; eapply (composes_app (R := follows)); [by apply F2|apply reopen_follows]|].
  split; [done|]. split; [exact X5|]. destruct (Z.ltb_spec (i_socket i) 0) as [Hlt|Hge].
  - injection E as <- <-. split; [exact X5|]. split; [done|]. split; [|done].
    destruct Hm2 as [Hs2 Hp2 Hd2 He2 Hy2]. split; try done.
    + destruct Hs2 as [Hs2|[Hs2 _]]; [by left|right; by split].
    + intros _. change (tunnel_lost m2 = true). by rewrite X3.
    + intros Hs. specialize (Hk Hs). lia.
  - assert (proxy_wf (prx m5)) as Hp5 by exact (mi_proxy m2 Hm2).
    pose proof (restart_ok i m5 m' a10 Hp5 Hf Hge E) as Hr. split; [by rewrite (rt_rebuild _ _ _ _ Hr)|].
    split; [by rewrite (rt_fd _ _ _ _ Hr)|done].
Qed.

Lemma rebuild_stage_ok i : (socks → 0 <= i.(i_socket)) → stage_ok main_inv moves (rebuild_stage cfg i).
Proof.
  intros Hk m m' a Hm E. destruct (tunnel_lost m) eqn:Hl.
  2: { unfold rebuild_stage in E. rewrite Hl in E. injection E as <- <-. by apply same_vars_ok. }
  destruct (Z.leb_spec (next_rebuild m) (i_now i)) as [Hn|Hn].
  2: { unfold rebuild_stage in E. rewrite Hl, (proj2 (Z.leb_gt _ _)) in E by done.
       injection E as <- <-. by apply same_vars_ok. }
  destruct (rebuild_run i m m' a Hm Hk Hl Hn E) as (m1 & b & c & -> & Hb & _ & F1 & Hfd & Hn1 & Hn' & Hfd' & Hr).
  assert (waits (next_rebuild m) (attempts b) = Some (next_rebuild m')) as W.
  { rewrite Hb, Hn'. cbn. by rewrite (proj2 (Z.leb_le _ _)). }
  destruct (Z.ltb_spec (i_socket i) 0).
  - destruct Hr as (Hm' & -> & ->). rewrite app_nil_r. split; [done|by split].
  - destruct Hr as [Hm' F2 Ha _ _ _ _ _]. split; [done|]. split.
    + intros Hs. eapply (composes_app (R := follows)); [by apply F1|by apply F2].
    + by rewrite attempts_app, Ha, app_nil_r.
Qed.

(** With the tunnel up the session is a reachable one. *)
Lemma up_reachable m : main_inv m → 0 <= m.(fd) → reachable m.(sess) m.(statics).
Proof. intros [[Hs|[_ Hs]] _ _ _ _] Hfd; [done|lia]. Qed.

Lemma set_sess_inv m s g q : main_inv m → 0 <= m.(fd) → reachable s g →
  main_inv (m <| sess := s |> <| statics := g |> <| pos := q |>).
Proof.
  intros [Hs Hp Hd He Hy] Hfd Hr. split; try done; [by left|].
  intros Hk. destruct (Hy Hk) as [H1 H2]. split; [done|]. intros Hlt. change (fd m < 0) in Hlt. lia.
Qed.

Lemma send_result_core i m : same_vars m ((λ m, match (send_result_stage i) m with Ok (m', _) => m' | _ => m end) m).
Proof.
  unfold send_result_stage, set_to. destruct (i_send i) as [e|]; [|by split_and!].
  destruct (sock_is_dead e); [by split_and!|].
  destruct e; try by split_and!.
  all: destruct (unreachable_since m =? 0); [by split_and!|]; destruct (_ && _); by split_and!.
Qed.

Lemma send_result_ok i : stage_ok main_inv moves (send_result_stage i).
Proof.
  intros m m' a Hm E. pose proof (send_result_core i m) as Hc. cbv beta in Hc. rewrite E in Hc.
  unfold send_result_stage, set_to in E. injection E as _ <-. by apply same_vars_ok.
Qed.

Lemma sends_ok_moves m l : main_inv m → 0 <= m.(fd) → main_inv m ∧ moves m (SendTo m.(fd) <$> l) m.
Proof.
  intros Hm Hfd. split; [done|]. split; [intros _; by apply ledger_sends|]. by rewrite attempts_sends.
Qed.

Lemma handshake_stage_ok i : stage_ok main_inv moves (handshake_stage cfg i).
Proof.
  intros m m' a Hm. unfold handshake_stage. destruct (Z.ltb_spec (fd m) 0) as [Hlt|Hfd].
  { intros [= <- <-]. by apply same_vars_ok. }
  destruct (up_reachable m Hm Hfd) as (ep & tr & Hr).
  destruct (awg_session_needs_handshake _ _).
  - destruct (awg_session_build_initiation _ _ _ _ _ _) as [[s out] q] eqn:Eb.
    assert (reachable s (statics m)) as Hr1 by (do 2 eexists; by eapply reach_initiation).
    set (m1 := m <| sess := s |> <| pos := q |>). assert (main_inv m1) as Hm1 by exact (set_sess_inv m s (statics m) q Hm Hfd Hr1).
    destruct out as [d|]; [|intros [= <- <-]; split; [done|by split]].
    destruct (negb (0 <? zlen d)); [intros [= <- <-]; split; [done|by split]|].
    destruct (awg_junk_packets _ _ _ _) as [junk q2]. set (m2 := m1 <| pos := q2 |>). intros E.
    assert (main_inv m2) as Hm2 by (by apply (same_vars_inv m1)).
    apply then_do_ok in E as (m3 & a1 & a2 & E1 & E2 & ->). injection E1 as <- <-.
    destruct (send_result_ok _ _ _ _ Hm2 E2) as [Hm' [F W]]. split; [done|].
    destruct (sends_ok_moves m2 (junk ++ [d]) Hm2 Hfd) as [_ Mv]. rewrite fmap_app in Mv.
    exact (composes_app (R := moves) m2 _ _ _ _ Mv (conj F W)).
  - destruct (awg_session_needs_keepalive _ _); [|intros [= <- <-]; by apply same_vars_ok].
    destruct (awg_session_build_keepalive _ _ _ _ _) as [[[s out] q]| |] eqn:Eb; cbn [mbind res_bind]; try done.
    assert (reachable s (statics m)) as Hr1 by (do 2 eexists; by eapply reach_keepalive).
    set (m1 := m <| sess := s |> <| pos := q |>). assert (main_inv m1) as Hm1 by exact (set_sess_inv m s (statics m) q Hm Hfd Hr1).
    intros [= <- <-]. split; [done|]. destruct out as [d|]; [|by split]. destruct (0 <? zlen d); [|by split].
    exact (proj2 (sends_ok_moves m1 [d] Hm1 Hfd)).
Qed.

Lemma bring_up_stage_ok i : stage_ok main_inv moves (bring_up_stage cfg dst i).
Proof.
  intros m m' a Hm. unfold bring_up_stage.
  destruct (established (sess m)) eqn:Ee; [|intros [= <- <-]; by apply same_vars_ok].
  destruct (netif_up m) eqn:Eu; [intros [= <- <-]; by apply same_vars_ok|]. cbn [negb andb].
  destruct (awg_netif_start cfg (fd m) dst (i_netif_add i) (nif m)) as [n r] eqn:En.
  assert (socks → has_sess n = true → g_fd n = fd m) as Hsync.
  { intros Hk. destruct (mi_sync m Hm Hk) as [H1 _]. revert En. unfold awg_netif_start.
    destruct (_ || _); [intros [= <- <-]; done|]. destruct (negb (i_netif_add i)); intros [= <- <-]; done. }
  assert (∀ u, main_inv (m <| nif := n |> <| netif_up := u |>)) as Hm1.
  { intros u. destruct Hm as [Hs Hp Hd He Hy]. split; try done; [by intros _; apply He|].
    intros Hk. split; [by apply Hsync|]. by apply Hy. }
  destruct (r =? 0).
  - intros E. destruct (proxy_start_ok _ _ _ _ (Hm1 true) (mi_early m Hm Eu) E) as [Hm' [F W]].
    split; [done|]. by split.
  - intros [= <- <-]. split; [|by split]. specialize (Hm1 (netif_up m)). by destruct m.
Qed.

Lemma fetch_stage_ok i : stage_ok main_inv moves (fetch_stage cfg i).
Proof.
  apply stage_ok_if; [|by intros m m' a Hm [= <- <-]; apply same_vars_ok].
  apply stage_ok_then; [apply _|apply set_core; by intros; split_and!|].
  apply stage_ok_then; [apply _|apply on_http_inv|].
  apply stage_ok_then; [apply _|apply stack_run_ok|]. apply set_core; by intros; split_and!.
Qed.

Lemma report_stage_ok i : stage_ok main_inv moves (report_stage cfg i).
Proof.
  intros m m' a Hm. unfold report_stage.
  set (f := on_http http_reset ;;; _). assert (stage_ok main_inv moves f) as Hf.
  { apply stage_ok_then; [apply _|apply on_http_inv|].
    apply stage_ok_then; [apply _|apply stack_run_ok|]. apply set_core; by intros; split_and!. }
  destruct (g_http (web m)); try (intros [= <- <-]; by apply same_vars_ok).
  all: case_bool_decide; [|by apply Hf].
  all: intros E; destruct (Hf (m <| fetches_ok ::= λ n, u32 (n + 1) |>) m' a) as [Hm' Mv];
    [by apply (same_vars_inv m)|exact E|by split].
Qed.

Lemma wait_stage_ok i m m' rev a : main_inv m → poll_ok i.(i_poll) → wait_stage cfg i m = Ok (m', rev, a) →
  main_inv m' ∧ moves m a m' ∧ m'.(fd) = m.(fd) ∧ (m.(fd) < 0 → rev = 0).
Proof.
  intros Hm Hi. unfold wait_stage. destruct (Z.ltb_spec (fd m) 0) as [Hlt|Hfd].
  { intros [= <- <- <-]. split; [done|]. split_and!; [by split|done|done]. }
  destruct (netif_up m) eqn:Eu.
  2: { intros [= <- <- <-]. split; [done|]. split_and!; [by split|done|lia]. }
  pose proof (awg_proxy_poll_ok (fd m) (i_poll i) (prx m) Hi (mi_proxy m Hm)) as Hp.
  destruct (awg_proxy_poll _ _ _) as [[p rev'] acts]. destruct Hp as [Hp _]. set (m1 := m <| prx := p |>).
  assert (main_inv m1) as Hm1.
  { destruct Hm as [Hs Hp0 Hd He Hy]. split; try done. intros Hx. change (netif_up m = false) in Hx. congruence. }
  destruct (stack_run cfg _ m1) as [[m2 b]| |] eqn:Es; cbn [mbind res_bind]; try done. intros [= <- <- <-].
  destruct (stack_run_ok _ _ _ _ Hm1 Es) as [Hm2 Mv].
  destruct (stack_run_framed _ _ _ _ (mi_proxy m1 Hm1) Es) as [_ [(E1 & _) _]]. split; [done|]. split_and!.
  - apply (composes_app (R := moves) m (ProxyDoes <$> acts) m1 b m2); [|done].
    split; [intros _; apply ledger_neutral, neutral_proxy|]. by rewrite attempts_proxy.
  - by rewrite E1.
  - intros Hlt. lia.
Qed.

(** With the tunnel's socket there. *)
Definition main_up (m : main) : Prop := main_inv m ∧ 0 <= m.(fd).

Lemma datagram_stage_ok d : is_bytes d.(dg_bytes) → stage_ok main_up moves (datagram_stage cfg d).
Proof.
  intros Hb m m' a [Hm Hfd]. unfold datagram_stage.
  destruct (awg_session_on_datagram _ _ _ _ _ _) as [[[[s g] r] pl]| |] eqn:Ed; cbn [mbind res_bind]; try done.
  destruct (up_reachable m Hm Hfd) as (ep & tr & Hr).
  assert (reachable s g) as Hr1.
  { destruct (rx_record (sess m) cfg (dg_bytes d) INNER_CAP (dg_now d) r ep tr) as [ep' tr'] eqn:Er.
    exists ep', tr'. by eapply reach_datagram. }
  set (m1 := m <| sess := s |> <| statics := g |>).
  assert (main_inv m1) as Hm1 by exact (set_sess_inv m s g (pos m) Hm Hfd Hr1).
  assert (main_up m1 ∧ moves m [] m1) as Hnone by (split; [split; [done|exact Hfd]|by split]).
  destruct r; try (intros [= <- <-]; exact Hnone).
  destruct (awg_netif_input _ _ _ _) as [[p fr]| |]; cbn [mbind res_bind]; try done.
  destruct p as [p|]; [|intros [= <- <-]; exact Hnone].
  intros E. apply then_do_ok in E as (m2 & a1 & a2 & E1 & E2 & ->). injection E1 as <- <-.
  destruct (stack_run_ok _ _ _ _ Hm1 E2) as [Hm2 [F W]].
  destruct (stack_run_framed _ _ _ _ (mi_proxy m1 Hm1) E2) as [_ [(Ef & _) _]].
  split; [split; [done|by rewrite Ef]|]. by split.
Qed.

Lemma drain_ok n ds : Forall (λ d, is_bytes d.(dg_bytes)) ds →
  stage_ok main_up moves (drain cfg dst_addr dst_port n ds).
Proof.
  revert ds. induction n as [|n IH]; intros ds Hds m m' a Hm; cbn [drain].
  { intros [= <- <-]. split; [done|by split]. }
  destruct Hds as [|d ds Hd Hds]; [intros [= <- <-]; split; [done|by split]|].
  destruct (zlen (dg_bytes d) <=? 0); [intros [= <- <-]; split; [done|by split]|].
  destruct (from_peer dst_addr dst_port d).
  - intros E. refine (stage_ok_then _ _ _ _ _ _ _ _ _ Hm E); [by apply datagram_stage_ok|by apply IH].
  - intros E. destruct (IH ds Hds (m <| stray_datagrams ::= λ n, u32 (n + 1) |>) m' a) as [Hm' Mv]; [|done|by split].
    destruct Hm as [Hm Hfd]. split; [by apply (same_vars_inv m)|done].
Qed.

Lemma wait_and_drain_ok i : poll_ok i.(i_poll) → Forall (λ d, is_bytes d.(dg_bytes)) i.(i_datagrams) →
  stage_ok main_inv moves (wait_and_drain cfg dst_addr dst_port i).
Proof.
  intros Hp Hd m m' a Hm. unfold wait_and_drain.
  destruct (wait_stage cfg i m) as [[[m1 rev] a1]| |] eqn:Ew; cbn [mbind res_bind]; try done.
  destruct (wait_stage_ok _ _ _ _ _ Hm Hp Ew) as (Hm1 & Mv1 & Hfd & Hrev).
  set (f := _ ;;; _). destruct (f m1) as [[m2 a2]| |] eqn:Ef; cbn [mbind res_bind]; try done. intros [= <- <-].
  assert (main_inv m2 ∧ moves m1 a2 m2) as [Hm2 Mv2]; [|split; [done|by eapply composes_app]].
  apply then_do_ok in Ef as (m3 & b & c & E3 & E4 & ->).
  assert (same_vars m1 m3 ∧ b = []) as [Hc ->].
  { unfold socket_died, set_to in E3. destruct (bit rev (POLLERR .| POLLHUP .| POLLNVAL)); injection E3 as <- <-; (split; [by split_and!|done]). }
  destruct (same_vars_ok m1 m3 [] Hm1 Hc) as [Hm3 Mv3]; [constructor|done|].
  assert (main_inv m2 ∧ moves m3 c m2) as [Hm2 Mv4]; [|split; [done|by apply (composes_app _ _ _ _ _ Mv3 Mv4)]].
  destruct (bit rev POLLIN) eqn:Eb; [|injection E4 as <- <-; split; [done|by split]].
  assert (main_up m3) as Hup.
  { split; [done|]. destruct Hc as (_ & _ & Ec & _). rewrite Ec, Hfd. apply Z.nlt_ge. intros Hlt.
    by rewrite (Hrev Hlt) in Eb. }
  by destruct (drain_ok 64 _ Hd _ _ _ Hup E4) as [[Hm2 _] Mv4].
Qed.

Lemma timers_stage_ok i : stage_ok main_inv moves (timers_stage cfg i).
Proof. apply stage_ok_if; [apply stack_run_ok|]. intros m m' a Hm [= <- <-]. by apply same_vars_ok. Qed.

Lemma alive_stage_ok i : stage_ok main_inv moves (alive_stage i).
Proof.
  intros m m' a Hm. unfold alive_stage. destruct (_ <? _); intros [= <- <-]; [by apply same_vars_ok|].
  apply same_vars_ok; [done|done|by constructor|done].
Qed.

Lemma status_stage_ok i : stage_ok main_inv moves (status_stage i).
Proof.
  intros m m' a Hm. unfold status_stage. destruct (_ <? _); intros [= <- <-]; [by apply same_vars_ok|].
  apply same_vars_ok; [done|done|by constructor|done].
Qed.

(** What the calls of a pass promise. *)
Record pass_ok (i : pass) : Prop := {
  po_poll : poll_ok i.(i_poll);
  po_bytes : Forall (λ d, is_bytes d.(dg_bytes)) i.(i_datagrams);
  po_socket : socks → 0 <= i.(i_socket)
}.

Lemma loop_pass_ok i : pass_ok i → stage_ok main_inv moves (loop_pass cfg dst_addr dst_port dst i).
Proof.
  intros [Hp Hb Hs]. unfold loop_pass.
  repeat (apply stage_ok_then; [apply _| |]).
  - apply set_core. by intros; split_and!.
  - apply power_stage_ok.
  - by apply rebuild_stage_ok.
  - apply alive_stage_ok.
  - apply handshake_stage_ok.
  - apply bring_up_stage_ok.
  - apply fetch_stage_ok.
  - apply report_stage_ok.
  - by apply wait_and_drain_ok.
  - apply timers_stage_ok.
  - apply status_stage_ok.
Qed.

(** ** Runs *)

Inductive main_runs (m0 : main) : list pass → main → list main_action → Prop :=
| main_start : main_runs m0 [] m0 []
| main_pass ps m acts i m' a : main_runs m0 ps m acts → pass_ok i →
    loop_pass cfg dst_addr dst_port dst i m = Ok (m', a) → main_runs m0 (ps ++ [i]) m' (acts ++ a).

Lemma main_init_inv p sock q : 0 <= sock → main_inv (main_init cfg p sock q).
Proof.
  intros Hs. unfold main_init. destruct (awg_session_init cfg q) as [s q'] eqn:E. split.
  - left. exists 0%nat, []. by eapply reach_init.
  - apply started_wf.
  - cbn. lia.
  - intros _. apply Forall_replicate. done.
  - intros _. split; [done|]. cbn. lia.
Qed.

Lemma main_runs_ok m0 ps m acts : main_inv m0 → main_runs m0 ps m acts → main_inv m ∧ moves m0 acts m.
Proof.
  intros Hinit. induction 1 as [|ps m acts i m' a _ [IH Mv] Hi E]; [split; [done|apply composes_nil]|].
  destruct (loop_pass_ok i Hi _ _ _ IH E) as [Hm' Mv']. split; [done|by eapply composes_app].
Qed.

(** The session along every run. *)
Lemma reached_session p sock q ps m acts : 0 <= sock → main_runs (main_init cfg p sock q) ps m acts →
  (∃ ep tr, reach cfg m.(sess) m.(statics) ep tr ∧ (zlen tr < 2 ^ 64 → NoDup tr)) ∨ m.(sess) = session_zero ∧ m.(fd) < 0.
Proof.
  intros Hs Hr. destruct (main_runs_ok _ _ _ _ (main_init_inv p sock q Hs) Hr) as [[H1 _ _ _ _] _].
  destruct H1 as [(ep & tr & Hr1)|H1]; [left|by right].
  exists ep, tr. split; [done|]. intros Hl. by eapply ti_nodup, reach_inv.
Qed.

(** ** No pass faults *)

Definition total (f : stage) : Prop := ∀ m, ∃ m' a, f m = Ok (m', a).

Lemma total_then f g : total f → total g → total (f ;;; g).
Proof.
  intros Hf Hg m. destruct (Hf m) as (m1 & a1 & E1), (Hg m1) as (m2 & a2 & E2).
  exists m2, (a1 ++ a2). unfold then_do. by rewrite E1; cbn [mbind res_bind]; rewrite E2.
Qed.

Lemma total_ok (f : main → main * list main_action) : total (λ m, Ok (f m)).
Proof. intros m. destruct (f m) as [m' a]. by exists m', a. Qed.
Lemma total_set f : total (set_to f).
Proof. intros m. by exists (f m), []. Qed.
Lemma total_emit f : total (emit f).
Proof. intros m. by exists m, (f m). Qed.
Lemma total_skip : total skip.
Proof. intros m. by exists m, []. Qed.
Lemma total_proxy f : total (on_proxy f).
Proof. intros m. unfold on_proxy. destruct (f (prx m)) as [p a]. eauto. Qed.
Lemma total_http f : total (on_http f).
Proof. intros m. unfold on_http. destruct (f (web m)) as [p a]. eauto. Qed.
Lemma total_foldr {A} (f : A → stage) l : (∀ x, total (f x)) → total (foldr (λ x k, f x ;;; k) skip l).
Proof. intros Hf. induction l; [apply total_skip|]. by apply total_then. Qed.

Create HintDb total.
#[local] Hint Resolve total_then total_set total_emit total_skip total_proxy total_http total_foldr : total.

(** The configured paddings are not negative. *)
Context (pads_ok : 0 <= cfg.(s2) ∧ 0 <= cfg.(s4)).

Lemma build_data_total s p cap now q : ∃ s' out q', awg_session_build_data s cfg p cap now q = Ok (s', out, q').
Proof.
  unfold awg_session_build_data. destruct (negb (established s)); [eauto|].
  rewrite seal_spec by apply pads_ok. destruct (decide _); cbv zeta; eauto.
Qed.

Lemma build_keepalive_total s cap now q : ∃ s' out q', awg_session_build_keepalive s cfg cap now q = Ok (s', out, q').
Proof.
  unfold awg_session_build_keepalive. destruct (build_data_total s [] cap now q) as (s' & out & q' & ->).
  cbn [mbind res_bind]. destruct out as [d|]; [|eauto]. destruct (0 <? zlen d); eauto.
Qed.

Lemma open_either_total s pkt cap : ∃ r, open_either s cfg pkt cap = Ok r.
Proof.
  unfold open_either. destruct (transport_open_total cfg (cur s) pkt cap (proj2 pads_ok)) as [[p r] ->]. cbn [mbind res_bind].
  destruct r as [[? ?]|]; [eauto|]. destruct (have_prev s); [|eauto].
  destruct (transport_open_total cfg (prev s) p cap (proj2 pads_ok)) as [[p' r] ->]. cbn [mbind res_bind]. destruct r as [[? ?]|]; eauto.
Qed.

Lemma on_datagram_total s g pkt cap now :
  ∃ s' g' r pl, awg_session_on_datagram s g cfg pkt cap now = Ok (s', g', r, pl).
Proof.
  unfold awg_session_on_datagram. destruct (handshaking s && _).
  - pose proof (unwrap_total cfg AWG_KIND_RESPONSE pkt (proj1 pads_ok)) as Hu. cbn [padding_for] in Hu.
    destruct (awg_unwrap _ _ _) as [[[pkt' off] mlen]| |]; [|eauto 6|done]. destruct Hu as [-> Hu].
    destruct (Z.eqb_spec mlen (Z.of_nat AWG_MSG_RESP_SIZE)) as [->|]; cbn [negb]; [|eauto 6].
    rewrite within_true by (pose proof (proj1 pads_ok); unfold AWG_MSG_RESP_SIZE in *; lia). cbn [negb].
    destruct (awg_consume_response _ _) as [hs ok]. destruct (negb ok); eauto 6.
  - destruct (negb (established s)); [eauto 6|]. set (s1 := expire_prev s now).
    destruct (open_either_total s1 pkt cap) as [r ->]. cbn [mbind res_bind].
    destruct r as [[[plain ctr] on_prev]|]; [|eauto 6].
    destruct (session_replay s1 g ctr on_prev) as [[fr s2'] g2]. destruct (negb fr); [eauto 6|].
    destruct (zlen plain =? 0); eauto 6.
Qed.

Lemma stack_step_total ev : total (stack_step cfg ev).
Proof.
  intros m. destruct ev as [p now sent|ev|ev]; cbn [stack_step].
  - unfold tunnel_output. destruct (_ || _); [cbn [mbind res_bind]; eauto|].
    rewrite Z.gtb_ltb. destruct (Z.ltb_spec TUNNEL_MTU (tot_len p)); [cbn [mbind res_bind]; eauto|].
    rewrite within_true by (pose proof (zlen_nonneg (concat p)); change (zlen (concat p)) with (tot_len p) in *; lia).
    cbn [negb]. destruct (negb _); [cbn [mbind res_bind]; eauto|].
    destruct (build_data_total (sess m) (pbuf_copy_partial p (u16 (tot_len p)) 0) OUT_CAP (u64 now) (pos m))
      as (s & out & q & ->). cbn [mbind res_bind].
    destruct out; [|cbn [mbind res_bind]; eauto]. destruct (negb sent); cbn [mbind res_bind]; eauto.
  - destruct (registered ev (prx m)); [apply total_proxy|eauto].
  - case_bool_decide; [apply total_http|eauto].
Qed.

Lemma stack_run_total evs : total (stack_run cfg evs).
Proof. apply total_foldr, stack_step_total. Qed.

#[local] Hint Resolve stack_run_total : total.

Lemma proxy_stop_total evs : total (proxy_stop cfg evs).
Proof. unfold proxy_stop. auto with total. Qed.
Lemma proxy_start_total l : total (proxy_start cfg l).
Proof. unfold proxy_start. auto with total. Qed.

#[local] Hint Resolve proxy_stop_total proxy_start_total : total.

Lemma power_stage_total i : total (power_stage cfg i).
Proof.
  intros m. unfold power_stage. destruct (_ <? _); [eauto|].
  destruct (awg_power_transition _ _ _ _) as [p changed]. destruct (negb changed); [eauto|].
  destruct (_ && _); [|eauto]. assert (total (drop_tunnel cfg i)) as Hd by (unfold drop_tunnel, close_fd; auto 6 with total).
  apply Hd.
Qed.

Lemma rebuild_stage_total i : total (rebuild_stage cfg i).
Proof.
  assert (total (restart_tunnel cfg i)) as Hr.
  { unfold restart_tunnel. repeat (apply total_then; [by auto with total|]).
    intros m. destruct (netif_up m); [apply proxy_start_total|eauto]. }
  intros m. unfold rebuild_stage. destruct (_ && _); [|eauto]. revert m. unfold close_fd.
  repeat (apply total_then; [by auto with total|]). intros m. destruct (fd m <? 0); [eauto|apply Hr].
Qed.

Lemma handshake_stage_total i : total (handshake_stage cfg i).
Proof.
  intros m. unfold handshake_stage. destruct (fd m <? 0); [eauto|].
  destruct (awg_session_needs_handshake _ _).
  - destruct (awg_session_build_initiation _ _ _ _ _ _) as [[s out] q]. destruct out as [d|]; [|eauto].
    destruct (negb _); [eauto|]. destruct (awg_junk_packets _ _ _ _) as [junk q2].
    assert (∀ j, total (emit (λ m, (SendTo (fd m) <$> j) ++ [SendTo (fd m) d]) ;;; send_result_stage i)) as Hs
      by (intros j; unfold send_result_stage; auto with total). apply Hs.
  - destruct (awg_session_needs_keepalive _ _); [|eauto].
    destruct (build_keepalive_total (sess m) WIRE_CAP (i_now i) (pos m)) as (s & out & q & ->).
    cbn [mbind res_bind]. eauto.
Qed.

Lemma bring_up_stage_total i : total (bring_up_stage cfg dst i).
Proof.
  intros m. unfold bring_up_stage. destruct (_ && _); [|eauto].
  destruct (awg_netif_start _ _ _ _ _) as [n r]. destruct (r =? 0); [apply proxy_start_total|eauto].
Qed.

Lemma fetch_stage_total i : total (fetch_stage cfg i).
Proof.
  intros m. unfold fetch_stage. destruct (_ && _); [|eauto]. revert m.
  repeat (apply total_then; [by auto with total|]). auto with total.
Qed.

Lemma report_stage_total i : total (report_stage cfg i).
Proof.
  intros m. unfold report_stage.
  assert (total (on_http http_reset ;;; stack_run cfg (i_report_stack i) ;;;
    set_to (λ m, m <| web ::= λ h, h <| g_http := HTTP_IDLE |> |>))) as Hr by auto with total.
  destruct (g_http (web m)); (eauto || apply Hr).
Qed.

Lemma input_total n packet pool ok : pool_ok pool → ∃ r, awg_netif_input n packet pool ok = Ok r.
Proof.
  intros Hp. unfold awg_netif_input. destruct (_ || _); [eauto|].
  pose proof (u16_bound (zlen packet)) as Hu. unfold is_u in Hu.
  destruct (pool (u16 (zlen packet))) as [p|] eqn:E; [|eauto]. unfold pbuf_take.
  destruct (Z.ltb_spec (tot_len p) (zlen (ztake (u16 (zlen packet)) packet))); [eauto|].
  destruct (pbuf_take_loop_spec p (ztake (u16 (zlen packet)) packet)) as (p' & -> & _); [done|eauto].
Qed.

Lemma drain_total n ds : Forall (λ d, pool_ok d.(dg_pool)) ds → total (drain cfg dst_addr dst_port n ds).
Proof.
  revert ds. induction n as [|n IH]; intros ds Hds m; cbn [drain]; [eauto|].
  destruct Hds as [|d ds Hd Hds]; [eauto|]. destruct (zlen (dg_bytes d) <=? 0); [eauto|].
  destruct (from_peer dst_addr dst_port d); [|by apply IH]. apply total_then; [|by apply IH].
  clear m. intros m. unfold datagram_stage.
  destruct (on_datagram_total (sess m) (statics m) (dg_bytes d) INNER_CAP (dg_now d)) as (s & g & r & pl & ->).
  cbn [mbind res_bind]. destruct r; eauto.
  destruct (input_total (nif m) pl (dg_pool d) (dg_in_ok d) Hd) as [[p fr] E]. cbn [nif modify]. rewrite E.
  cbn [mbind res_bind]. destruct p; [|eauto].
  assert (∀ p, total (emit (λ _, [ToStack p]) ;;; stack_run cfg (dg_stack d))) as Hs by auto with total. apply Hs.
Qed.

Lemma wait_and_drain_total i : Forall (λ d, pool_ok d.(dg_pool)) i.(i_datagrams) →
  total (wait_and_drain cfg dst_addr dst_port i).
Proof.
  intros Hd m. unfold wait_and_drain. assert (∃ m1 rev a, wait_stage cfg i m = Ok (m1, rev, a)) as (m1 & rev & a & ->).
  { unfold wait_stage. destruct (fd m <? 0); [eauto|]. destruct (netif_up m); [|eauto].
    destruct (awg_proxy_poll _ _ _) as [[p rev] acts].
    destruct (stack_run_total (i_poll_stack i) (m <| prx := p |>)) as (m2 & b & ->). cbn [mbind res_bind]. eauto. }
  cbn [mbind res_bind]. set (f := _ ;;; _). assert (total f) as Hf.
  { apply total_then; [apply total_set|]. destruct (bit rev POLLIN); [by apply drain_total|apply total_skip]. }
  destruct (Hf m1) as (m2 & b & ->). cbn [mbind res_bind]. eauto.
Qed.

Lemma alive_stage_total i : total (alive_stage i).
Proof. intros m. unfold alive_stage. destruct (_ <? _); eauto. Qed.

Lemma loop_pass_total i : Forall (λ d, pool_ok d.(dg_pool)) i.(i_datagrams) →
  total (loop_pass cfg dst_addr dst_port dst i).
Proof.
  intros Hd. unfold loop_pass.
  repeat (apply total_then;
    [first [apply total_set|apply power_stage_total|apply rebuild_stage_total|apply alive_stage_total|apply handshake_stage_total
           |apply bring_up_stage_total|apply fetch_stage_total|apply report_stage_total
           |by apply wait_and_drain_total]|]).
  apply total_then.
  - intros m. unfold timers_stage. destruct (awg_netif_poll (nif m)); [apply stack_run_total|eauto].
  - intros m. unfold status_stage. destruct (_ <? _); eauto.
Qed.
End Loop.
