(* ===== verification/MainFlow.v ===== *)
(** * The proxy inside the main loop

    The main loop drives the proxy only through its operations, and starts it only over
    a table that is free: the part of a run's actions that concerns the proxy is one of
    the proxy's own. *)
From S2P Require Import Prelude Cstr Awg Noise Session Proxy ProxyRun ProxyFlow Power Pbuf Netif Http Main MainRun.

(** The proxy's part of a trace. *)
Definition proxy_acts (a : list main_action) : list action :=
  omap (λ x, match x with ProxyDoes y => Some y | _ => None end) a.

Lemma proxy_acts_app a b : proxy_acts (a ++ b) = proxy_acts a ++ proxy_acts b.
Proof. apply omap_app. Qed.
Lemma proxy_acts_proxy l : proxy_acts (ProxyDoes <$> l) = l.
Proof. unfold proxy_acts. induction l as [|x l IH]; [done|]. rewrite fmap_cons. cbn. by rewrite IH. Qed.
Lemma proxy_acts_http l : proxy_acts (HttpDoes <$> l) = [].
Proof. unfold proxy_acts. induction l; [done|]. by rewrite fmap_cons. Qed.
Lemma proxy_acts_sends f l : proxy_acts (SendTo f <$> l) = [].
Proof. unfold proxy_acts. induction l; [done|]. by rewrite fmap_cons. Qed.

Definition drives (m : main) (a : list main_action) (m' : main) : Prop := driven m.(prx) (proxy_acts a) m'.(prx).

#[export] Instance drives_composes : Composes drives.
Proof.
  split; [intros m; apply driven_nil|]. intros m a m1 b m2 H1 H2. unfold drives. rewrite proxy_acts_app.
  by eapply driven_app.
Qed.

Section Loop.
Context `{Entropy} `{Curve}.
Context (cfg : awg_config) (dst_addr dst_port : Z) (dst : list Z).

(** The table is well formed; it is free before the interface is up, and, with [j],
    between the proxy's stop and its start. *)
Definition table_ok (j : bool) (m : main) : Prop :=
  proxy_wf m.(prx) ∧ ((if j then True else m.(netif_up) = false) → all_free m.(prx)).

Abbreviation dr j := (stage_ok (table_ok j) drives).

Lemma drives_same j m m' a : table_ok j m → m'.(prx) = m.(prx) → m'.(netif_up) = m.(netif_up) → proxy_acts a = [] →
  table_ok j m' ∧ drives m a m'.
Proof. unfold table_ok, drives. intros Hm -> -> ->. split; [done|apply driven_nil]. Qed.

Lemma dr_set j f : (∀ m, (f m).(prx) = m.(prx) ∧ (f m).(netif_up) = m.(netif_up)) → dr j (set_to f).
Proof. intros Hf m m' a Hm [= <- <-]. by apply (drives_same j); [|apply Hf|apply Hf|]. Qed.

Lemma dr_emit j f : (∀ m, proxy_acts (f m) = []) → dr j (emit f).
Proof. intros Hf m m' a Hm [= <- <-]. by apply (drives_same j). Qed.

Lemma dr_nil j m m' a : table_ok j m → Ok (m, []) = Ok (m', a) → table_ok j m' ∧ drives m a m'.
Proof. intros Hm [= <- <-]. by apply (drives_same j). Qed.

Lemma dr_http j f : dr j (on_http f).
Proof. intros m m' a Hm E. apply on_http_ok in E as [-> ->]. apply (drives_same j); try done. apply proxy_acts_http. Qed.

Lemma dr_proxy j f m m' a : (proxy_wf m.(prx) → proxy_wf (f m.(prx)).1) → (all_free m.(prx) → all_free (f m.(prx)).1) →
  driven m.(prx) (f m.(prx)).2 (f m.(prx)).1 → table_ok j m → on_proxy f m = Ok (m', a) → table_ok j m' ∧ drives m a m'.
Proof.
  intros Hw Hf Hd [Hp Ha] E. apply on_proxy_ok in E as [-> ->]. split; [split; [by apply Hw|]|].
  - intros Hj. apply Hf, Ha. exact Hj.
  - unfold drives. by rewrite proxy_acts_proxy.
Qed.

Lemma dr_stack_step j ev : dr j (stack_step cfg ev).
Proof.
  intros m m' a Hm. destruct ev as [p now sent|ev|ev]; cbn [stack_step].
  - destruct (tunnel_output _ _ _ _ _ _ _) as [[[[s e] out] q]| |]; cbn [mbind res_bind]; try done.
    intros [= <- <-]. apply (drives_same j); try done. by destruct out as [[f d]|].
  - destruct (registered ev (prx m)) eqn:Er; [|by apply dr_nil]. pose proof (registered_enabled ev _ Er) as He.
    apply dr_proxy; [| | |done].
    + intros Hp. by apply handle_ok.
    + intros Hf. by apply handle_free.
    + apply (driven_handle _ []); [apply driven_nil|done].
  - case_bool_decide; [by apply dr_http|by apply dr_nil].
Qed.

Lemma dr_stack j evs : dr j (stack_run cfg evs).
Proof. apply stage_ok_foldr; [apply _|]. intros. apply dr_stack_step. Qed.

Lemma table_ok_idle m : table_ok true m → table_ok false m.
Proof. intros [Hp Hf]. split; [done|]. intros _. by apply Hf. Qed.

(** The stop leaves the table free, and the stack leaves it so. *)
Lemma dr_stop evs m m' a : proxy_wf m.(prx) → proxy_stop cfg evs m = Ok (m', a) → table_ok true m' ∧ drives m a m'.
Proof.
  intros Hp E. apply then_do_ok in E as (m1 & a1 & a2 & E1 & E2 & ->). apply on_proxy_ok in E1 as [-> ->].
  destruct (stop_wf (prx m) Hp) as [Hw Hf].
  assert (table_ok true (m <| prx := (awg_proxy_stop (prx m)).1 |>)) as Hm1 by (split; [exact Hw|by intros _]).
  destruct (dr_stack true evs _ _ _ Hm1 E2) as [Hm' Hd]. split; [done|].
  eapply composes_app; [|exact Hd]. unfold drives. rewrite proxy_acts_proxy.
  apply (driven_stop _ []), driven_nil.
Qed.

Lemma dr_start j l m m' a : table_ok j m → all_free m.(prx) → proxy_start cfg l m = Ok (m', a) →
  table_ok j m' ∧ drives m a m'.
Proof.
  intros [Hp _] Hf E. apply then_do_ok in E as (m1 & a1 & a2 & E1 & E2 & ->). injection E1 as <- <-.
  apply on_proxy_ok in E2 as [-> ->]. destruct l as [[l b1] b2]. cbn [fst snd].
  pose proof (start_wf l b1 b2 (prx m) Hp Hf) as Hw. pose proof (start_free l b1 b2 (prx m) Hf) as Hfree.
  pose proof (driven_start (prx m) [] (prx m) l b1 b2 (driven_nil _) Hf) as Hd.
  destruct (awg_proxy_start l b1 b2 (prx m)) as [[p r] acts]. cbn [fst snd app] in *.
  split; [by split|]. change (driven (prx m) (proxy_acts (ProxyDoes <$> acts)) p). by rewrite proxy_acts_proxy.
Qed.

(** ** The stages *)

Lemma dr_power i : dr false (power_stage cfg i).
Proof.
  intros m m' a Hm. unfold power_stage. destruct (i_now i <? next_power m); [by apply dr_nil|].
  destruct (awg_power_transition _ _ _ _) as [p changed].
  set (m1 := m <| next_power := _ |> <| pwr := p |>). destruct changed; cbn [negb]; [|by apply (dr_nil _ m1)].
  set (m2 := m1 <| unreachable_since := 0 |>). destruct (_ && _); [|by apply (dr_nil _ m2)]. intros E.
  apply then_do_ok in E as (m3 & a1 & a2 & E1 & E & ->). injection E1 as <- <-.
  apply then_do_ok in E as (m4 & a3 & a4 & E2 & E & ->).
  destruct ((λ H, dr_stop _ _ _ _ H E2) (proj1 Hm)) as [Hm4 Hd].
  apply then_do_ok in E as (m5 & a5 & a6 & E3 & E & ->). injection E3 as <- <-. injection E as <- <-.
  split; [exact (table_ok_idle m4 Hm4)|]. cbn [app]. rewrite app_nil_r.
  eapply composes_app; [exact Hd|]. unfold drives. destruct (0 <=? fd m4); apply driven_nil.
Qed.

Lemma dr_restart i : dr true (restart_tunnel cfg i).
Proof.
  unfold restart_tunnel. repeat (apply stage_ok_then; [apply _| |]).
  - apply dr_set. intros m. by destruct (awg_session_init cfg (pos m)).
  - apply dr_http.
  - apply dr_stack.
  - by apply dr_set.
  - intros m m' a Hm. destruct (netif_up m); [|by apply dr_nil].
    intros E. apply (dr_start true (i_listen i) m m' a Hm); [by apply Hm|done].
Qed.

Lemma dr_rebuild i : dr false (rebuild_stage cfg i).
Proof.
  intros m m' a Hm. unfold rebuild_stage. destruct (_ && _); [|by apply dr_nil]. intros E.
  apply then_do_ok in E as (m1 & a1 & a2 & E1 & E & ->). injection E1 as <- <-.
  apply then_do_ok in E as (m2 & a3 & a4 & E2 & E & ->).
  destruct ((λ H, dr_stop _ _ _ _ H E2) (proj1 Hm)) as [Hm2 Hd].
  match type of E with ?f m2 = _ => assert (dr true f) as Hrest end.
  { apply stage_ok_then; [apply _|apply dr_emit; intros m3; by destruct (0 <=? fd m3)|].
    apply stage_ok_then; [apply _|by apply dr_emit|]. apply stage_ok_then; [apply _|by apply dr_set|].
    apply stage_ok_if; [|apply dr_restart]. intros m3 m4 b Hm3. by apply dr_nil. }
  destruct (Hrest _ _ _ Hm2 E) as [Hm' Hd2]. split; [by apply table_ok_idle|].
  exact (composes_app (R := drives) _ _ _ _ _ Hd Hd2).
Qed.

Lemma dr_handshake i : dr false (handshake_stage cfg i).
Proof.
  intros m m' a Hm. unfold handshake_stage. destruct (fd m <? 0); [by apply dr_nil|].
  destruct (awg_session_needs_handshake _ _).
  - destruct (awg_session_build_initiation _ _ _ _ _ _) as [[s out] q]. set (m1 := m <| sess := s |> <| pos := q |>).
    destruct out as [d|]; [|by apply (dr_nil _ m1)]. destruct (negb _); [by apply (dr_nil _ m1)|].
    destruct (awg_junk_packets _ _ _ _) as [junk q2]. intros E. set (m2 := m1 <| pos := q2 |>) in *.
    assert (dr false (emit (λ m, (SendTo m.(fd) <$> junk) ++ [SendTo m.(fd) d]) ;;; send_result_stage i)) as Hf;
      [|exact ((λ H, Hf _ _ _ H E) Hm)].
    apply stage_ok_then; [apply _| |].
    + apply dr_emit. intros m3. by rewrite proxy_acts_app, proxy_acts_sends.
    + apply dr_set. intros m3. destruct (i_send i) as [e|]; [|done]. destruct (sock_is_dead e); [done|].
      destruct e; try done. all: destruct (unreachable_since m3 =? 0); [done|]; by destruct (_ && _).
  - destruct (awg_session_needs_keepalive _ _); [|by apply dr_nil].
    destruct (awg_session_build_keepalive _ _ _ _ _) as [[[s out] q]| |]; cbn [mbind res_bind]; try done.
    intros [= <- <-]. apply (drives_same false); try done. destruct out as [d|]; [|done]. by destruct (0 <? zlen d).
Qed.

Lemma dr_bring_up i : dr false (bring_up_stage cfg dst i).
Proof.
  intros m m' a [Hp Hf]. unfold bring_up_stage. destruct (established (sess m)); [|by apply dr_nil].
  destruct (netif_up m) eqn:Eu; cbn [negb andb]; [apply dr_nil; split; [done|]; by rewrite Eu|].
  destruct (awg_netif_start _ _ _ _ _) as [n r]. destruct (r =? 0).
  - intros E. set (m1 := m <| nif := n |> <| netif_up := true |>) in *.
    apply (dr_start false (i_listen_up i) m1); [split; [done|]; intros Hx; discriminate|by apply Hf|exact E].
  - intros [= <- <-]. apply (drives_same false); try done. split; [done|]. intros _. by apply Hf.
Qed.

Lemma dr_fetch i : dr false (fetch_stage cfg i).
Proof.
  apply stage_ok_if; [|intros m m' a; by apply dr_nil].
  apply stage_ok_then; [apply _|by apply dr_set|]. apply stage_ok_then; [apply _|apply dr_http|].
  apply stage_ok_then; [apply _|apply dr_stack|by apply dr_set].
Qed.

Lemma dr_report i : dr false (report_stage cfg i).
Proof.
  assert (dr false (on_http http_reset ;;; stack_run cfg (i_report_stack i) ;;;
    set_to (λ m, m <| web ::= λ h, h <| g_http := HTTP_IDLE |> |>))) as Hf.
  { apply stage_ok_then; [apply _|apply dr_http|]. apply stage_ok_then; [apply _|apply dr_stack|by apply dr_set]. }
  intros m m' a Hm. unfold report_stage. destruct (g_http (web m)); try by apply dr_nil.
  all: case_bool_decide; [|by apply Hf].
  all: intros E; exact ((λ H, Hf _ _ _ H E) Hm).
Qed.

Lemma dr_datagram d : dr false (datagram_stage cfg d).
Proof.
  intros m m' a Hm. unfold datagram_stage.
  destruct (awg_session_on_datagram _ _ _ _ _ _) as [[[[s g] r] pl]| |]; cbn [mbind res_bind]; try done.
  set (m1 := m <| sess := s |> <| statics := g |>). assert (table_ok false m1) as Hm1 by exact Hm.
  destruct r; try by apply (dr_nil _ m1).
  destruct (awg_netif_input _ _ _ _) as [[p fr]| |]; cbn [mbind res_bind]; try done.
  destruct p as [p|]; [|by apply (dr_nil _ m1)]. intros E.
  assert (dr false (emit (λ _, [ToStack p]) ;;; stack_run cfg (dg_stack d))) as Hf;
    [|exact ((λ H, Hf _ _ _ H E) Hm)].
  apply stage_ok_then; [apply _|by apply dr_emit|apply dr_stack].
Qed.

Lemma dr_drain n ds : dr false (drain cfg dst_addr dst_port n ds).
Proof.
  revert ds. induction n as [|n IH]; intros ds m m' a Hm; cbn [drain]; [by apply dr_nil|].
  destruct ds as [|d ds]; [by apply dr_nil|]. destruct (zlen (dg_bytes d) <=? 0); [by apply dr_nil|].
  destruct (from_peer dst_addr dst_port d).
  - intros E. refine (stage_ok_then _ _ _ _ _ _ _ _ _ Hm E); [apply dr_datagram|apply IH].
  - intros E. exact ((λ H, IH ds _ _ _ H E) Hm).
Qed.

Lemma dr_wait i m m' rev a : poll_ok i.(i_poll) → table_ok false m → wait_stage cfg i m = Ok (m', rev, a) →
  table_ok false m' ∧ drives m a m'.
Proof.
  intros Hi Hm. unfold wait_stage. destruct (fd m <? 0); [intros [= <- _ <-]; by apply (drives_same false)|].
  destruct (netif_up m) eqn:Eu; [|intros [= <- _ <-]; by apply (drives_same false)].
  pose proof (awg_proxy_poll_ok (fd m) (i_poll i) (prx m) Hi (proj1 Hm)) as Hp.
  pose proof (driven_handle (prx m) [] (prx m) (EvPoll (fd m) (i_poll i)) (driven_nil _) Hi) as Hd. cbn [handle] in Hd.
  destruct (awg_proxy_poll _ _ _) as [[p rev'] acts]. destruct Hp as [Hp _]. cbn [fst snd app] in *.
  set (m1 := m <| prx := p |>).
  assert (table_ok false m1) as Hm1 by (split; [done|]; intros Hx; change (netif_up m = false) in Hx; congruence).
  destruct (stack_run cfg _ m1) as [[m2 b]| |] eqn:Es; cbn [mbind res_bind]; try done. intros [= <- _ <-].
  destruct (dr_stack false _ _ _ _ Hm1 Es) as [Hm2 Hd2]. split; [done|].
  apply (composes_app (R := drives) m (ProxyDoes <$> acts) m1 b m2); [|done]. unfold drives. by rewrite proxy_acts_proxy.
Qed.

Lemma dr_wait_and_drain i : poll_ok i.(i_poll) → dr false (wait_and_drain cfg dst_addr dst_port i).
Proof.
  intros Hi m m' a Hm. unfold wait_and_drain.
  destruct (wait_stage cfg i m) as [[[m1 rev] a1]| |] eqn:Ew; cbn [mbind res_bind]; try done.
  destruct (dr_wait _ _ _ _ _ Hi Hm Ew) as [Hm1 Hd1].
  set (f := _ ;;; _). destruct (f m1) as [[m2 a2]| |] eqn:Ef; cbn [mbind res_bind]; try done. intros [= <- <-].
  assert (dr false f) as Hf.
  { apply stage_ok_then; [apply _| |].
    - apply dr_set. intros m3. by destruct (bit rev (POLLERR .| POLLHUP .| POLLNVAL)).
    - destruct (bit rev POLLIN); [apply dr_drain|apply stage_ok_skip, _]. }
  destruct (Hf _ _ _ Hm1 Ef) as [Hm2 Hd2]. split; [done|by eapply composes_app].
Qed.

Lemma dr_pass i : poll_ok i.(i_poll) → dr false (loop_pass cfg dst_addr dst_port dst i).
Proof.
  intros Hi. unfold loop_pass. repeat (apply stage_ok_then; [apply _| |]).
  - by apply dr_set.
  - apply dr_power.
  - apply dr_rebuild.
  - intros m m' a Hm. unfold alive_stage. destruct (_ <? _); [by apply dr_nil|].
    intros [= <- <-]. by apply (drives_same false).
  - apply dr_handshake.
  - apply dr_bring_up.
  - apply dr_fetch.
  - apply dr_report.
  - by apply dr_wait_and_drain.
  - apply stage_ok_if; [apply dr_stack|intros m m' a; by apply dr_nil].
  - intros m m' a Hm. unfold status_stage. destruct (_ <? _); [by apply dr_nil|].
    intros [= <- <-]. by apply (drives_same false).
Qed.

Lemma main_runs_driven socks m0 ps m acts : table_ok false m0 → main_runs cfg dst_addr dst_port dst socks m0 ps m acts →
  table_ok false m ∧ drives m0 acts m.
Proof.
  intros Hinit. induction 1 as [|ps m acts i m' a _ [IH Hd] Hi E]; [split; [done|apply driven_nil]|].
  destruct (dr_pass i (po_poll _ _ Hi) _ _ _ IH E) as [Hm' Hd']. split; [done|by eapply composes_app].
Qed.

Lemma main_init_driven p sock q socks ps m acts : main_runs cfg dst_addr dst_port dst socks (main_init cfg p sock q) ps m acts →
  driven (started (-1)) (proxy_acts acts) m.(prx).
Proof.
  intros Hr. assert (prx (main_init cfg p sock q) = started (-1)) as E by (unfold main_init; by destruct (awg_session_init cfg q)).
  destruct (main_runs_driven socks _ _ _ _ ltac:(split; rewrite E; [apply started_wf|intros _; by apply Forall_replicate]) Hr)
    as [_ Hd]. unfold drives in Hd. by rewrite E in Hd.
Qed.

End Loop.
