(* ===== verification/MainProps.v ===== *)
(** * The module as a whole

    What the main loop guarantees along its runs, with a concrete configuration for the
    witnesses. *)
From S2P Require Import Prelude Cstr Awg AEAD Noise Session Proxy ProxyRun ProxyFlow Power Pbuf Netif Http Main MainRun MainFlow.

(** ** Spacing *)

(** Consecutive elements at least [d] apart. *)
Fixpoint apart (d : Z) (ts : list Z) : Prop :=
  match ts with
  | t :: (t' :: _) as ts => t + d <= t' ∧ apart d ts
  | _ => True
  end.

Lemma waits_apart lo ts hi : waits lo ts = Some hi → Forall (λ t, 0 <= t ∧ t + 3000 < 2 ^ 64) ts → apart 3000 ts.
Proof.
  revert lo. induction ts as [|t ts IH]; intros lo Hw Ht; [done|]. apply Forall_cons in Ht as [Ht Hts].
  cbn [waits] in Hw. destruct (lo <=? t); [|done]. specialize (IH _ Hw Hts). destruct ts as [|t' ts]; [done|].
  split; [|exact IH]. cbn [waits] in Hw. rewrite u64_small in Hw by (unfold is_u; lia).
  destruct (Z.leb_spec (t + 3000) t'); [done|discriminate].
Qed.

(** ** Recovery *)

Section Recovery.
Context `{Entropy} `{Curve}.
Context (cfg : awg_config) (dst_addr dst_port : Z) (dst : list Z).

(** With the tunnel lost the power log changes nothing of it. *)
Lemma power_stage_lost i m m' a : m.(tunnel_lost) = true → power_stage cfg i m = Ok (m', a) →
  a = [] ∧ m'.(tunnel_lost) = true ∧ m'.(next_rebuild) = m.(next_rebuild).
Proof.
  intros Hl. unfold power_stage. destruct (i_now i <? next_power m); [intros [= <- <-]; by split_and!|].
  destruct (awg_power_transition _ _ _ _) as [p changed]. destruct (negb changed); [intros [= <- <-]; by split_and!|].
  match goal with |- context [negb (tunnel_lost ?x)] => assert (tunnel_lost x = true) as -> by exact Hl end.
  rewrite andb_false_r. intros [= <- <-]. by split_and!.
Qed.

Lemma init_needs_handshake q now : awg_session_needs_handshake (awg_session_init cfg q).1 now = true.
Proof.
  destruct (init_not_established cfg q) as [He Hh]. unfold awg_session_needs_handshake. by rewrite Hh, He.
Qed.

(** The handshake a fresh session starts. *)
Lemma handshake_sends i m m' a d : 0 <= m.(fd) → m.(sess).(established) = false → m.(sess).(handshaking) = false →
  (awg_session_build_initiation m.(sess) cfg WIRE_CAP i.(i_now) i.(i_wall) m.(pos)).1.2 = Some d → 0 < zlen d →
  handshake_stage cfg i m = Ok (m', a) → SendTo m.(fd) d ∈ a.
Proof.
  intros Hfd He Hh Hb Hd. unfold handshake_stage. rewrite (proj2 (Z.ltb_ge _ _)) by done.
  assert (awg_session_needs_handshake (sess m) (i_now i) = true) as -> by
    (unfold awg_session_needs_handshake; by rewrite Hh, He).
  destruct (awg_session_build_initiation _ _ _ _ _ _) as [[s out] q]. cbn [fst snd] in Hb. subst out.
  rewrite (proj2 (Z.ltb_lt _ _) Hd). cbn [negb]. destruct (awg_junk_packets _ _ _ _) as [junk q2].
  intros E. apply then_do_ok in E as (m1 & a1 & a2 & E1 & _ & ->). injection E1 as <- <-.
  apply elem_of_app. left. apply elem_of_app. right. by left.
Qed.

(** *** From the handshake on, a pass keeps its descriptor *)

Definition keeps_fd (m : main) (a : list main_action) (m' : main) : Prop := m'.(fd) = m.(fd).

#[local] Instance keeps_fd_composes : Composes keeps_fd.
Proof. split; [done|]. unfold keeps_fd. congruence. Qed.

Definition fd_stage (f : stage) : Prop := stage_ok (λ _, True) keeps_fd f.

Lemma fd_then f g : fd_stage f → fd_stage g → fd_stage (f ;;; g).
Proof. apply stage_ok_then, _. Qed.
Lemma fd_set f : (∀ m, (f m).(fd) = m.(fd)) → fd_stage (set_to f).
Proof. intros Hf m m' a _ [= <- <-]. split; [done|apply Hf]. Qed.
Lemma fd_emit f : fd_stage (emit f).
Proof. intros m m' a _ [= <- <-]. done. Qed.
Lemma fd_proxy f : fd_stage (on_proxy f).
Proof. intros m m' a _ E. apply on_proxy_ok in E as [-> ->]. done. Qed.
Lemma fd_http f : fd_stage (on_http f).
Proof. intros m m' a _ E. apply on_http_ok in E as [-> ->]. done. Qed.

Lemma fd_stack evs : fd_stage (stack_run cfg evs).
Proof.
  apply stage_ok_foldr; [apply _|]. intros ev m m' a _. destruct ev as [p now sent|ev|ev]; cbn [stack_step].
  - destruct (tunnel_output _ _ _ _ _ _ _) as [[[[s e] out] q]| |]; cbn [mbind res_bind]; try done. by intros [= <- <-].
  - destruct (registered ev (prx m)); [by apply fd_proxy|by intros [= <- <-]].
  - case_bool_decide; [by apply fd_http|by intros [= <- <-]].
Qed.

Lemma fd_proxy_start l : fd_stage (proxy_start cfg l).
Proof. apply fd_then; [apply fd_emit|apply fd_proxy]. Qed.

Lemma fd_send_result i : fd_stage (send_result_stage i).
Proof.
  apply fd_set. intros m. destruct (i_send i) as [e|]; [|done]. destruct (sock_is_dead e); [done|].
  destruct e; try done. all: destruct (unreachable_since m =? 0); [done|]; by destruct (_ && _).
Qed.

Lemma fd_handshake i : fd_stage (handshake_stage cfg i).
Proof.
  intros m m' a _. unfold handshake_stage. destruct (fd m <? 0); [by intros [= <- <-]|].
  destruct (awg_session_needs_handshake _ _).
  - destruct (awg_session_build_initiation _ _ _ _ _ _) as [[s out] q]. destruct out as [d|]; [|by intros [= <- <-]].
    destruct (negb _); [by intros [= <- <-]|]. destruct (awg_junk_packets _ _ _ _) as [junk q2]. intros E.
    by destruct (fd_then _ _ (fd_emit _) (fd_send_result i) _ _ _ I E).
  - destruct (awg_session_needs_keepalive _ _); [|by intros [= <- <-]].
    destruct (awg_session_build_keepalive _ _ _ _ _) as [[[s out] q]| |]; cbn [mbind res_bind]; try done.
    by intros [= <- <-].
Qed.

Lemma fd_bring_up i : fd_stage (bring_up_stage cfg dst i).
Proof.
  intros m m' a _. unfold bring_up_stage. destruct (_ && _); [|by intros [= <- <-]].
  destruct (awg_netif_start _ _ _ _ _) as [n r]. destruct (r =? 0); [|by intros [= <- <-]].
  intros E. by destruct (fd_proxy_start _ _ _ _ I E).
Qed.

Lemma fd_fetch i : fd_stage (fetch_stage cfg i).
Proof.
  apply stage_ok_if; [|by intros m m' a _ [= <- <-]].
  apply fd_then; [by apply fd_set|]. apply fd_then; [apply fd_http|]. apply fd_then; [apply fd_stack|by apply fd_set].
Qed.

Lemma fd_report i : fd_stage (report_stage cfg i).
Proof.
  assert (fd_stage (on_http http_reset ;;; stack_run cfg (i_report_stack i) ;;;
    set_to (λ m, m <| web ::= λ h, h <| g_http := HTTP_IDLE |> |>))) as Hf.
  { apply fd_then; [apply fd_http|]. apply fd_then; [apply fd_stack|by apply fd_set]. }
  intros m m' a _. unfold report_stage. destruct (g_http (web m)); try (by intros [= <- <-]).
  all: intros E; destruct (Hf _ _ _ I E) as [_ Hk]; split; [done|]; unfold keeps_fd in *; rewrite Hk; by case_bool_decide.
Qed.

Lemma fd_drain n ds : fd_stage (drain cfg dst_addr dst_port n ds).
Proof.
  revert ds. induction n as [|n IH]; intros ds m m' a _; cbn [drain]; [by intros [= <- <-]|].
  destruct ds as [|d ds]; [by intros [= <- <-]|]. destruct (zlen (dg_bytes d) <=? 0); [by intros [= <- <-]|].
  destruct (from_peer dst_addr dst_port d); [|intros E; by destruct (IH ds _ _ _ I E)].
  intros E. refine (fd_then _ _ _ (IH ds) m m' a I E). clear. intros m m' a _. unfold datagram_stage.
  destruct (awg_session_on_datagram _ _ _ _ _ _) as [[[[s g] r] pl]| |]; cbn [mbind res_bind]; try done.
  destruct r; try (by intros [= <- <-]).
  destruct (awg_netif_input _ _ _ _) as [[p fr]| |]; cbn [mbind res_bind]; try done.
  destruct p as [p|]; [|by intros [= <- <-]]. intros E. by destruct (fd_then _ _ (fd_emit _) (fd_stack _) _ _ _ I E).
Qed.

Lemma fd_wait_and_drain i : fd_stage (wait_and_drain cfg dst_addr dst_port i).
Proof.
  intros m m' a _. unfold wait_and_drain.
  destruct (wait_stage cfg i m) as [[[m1 rev] a1]| |] eqn:Ew; cbn [mbind res_bind]; try done.
  assert (fd m1 = fd m) as E1.
  { revert Ew. unfold wait_stage. destruct (fd m <? 0); [by intros [= <- <- <-]|].
    destruct (netif_up m); [|by intros [= <- <- <-]]. destruct (awg_proxy_poll _ _ _) as [[p rev'] acts].
    destruct (stack_run cfg _ _) as [[m2 b]| |] eqn:Es; cbn [mbind res_bind]; try done. intros [= <- <- <-].
    by destruct (fd_stack _ _ _ _ I Es) as [_ ->]. }
  set (f := _ ;;; _). destruct (f m1) as [[m2 a2]| |] eqn:Ef; cbn [mbind res_bind]; try done. intros [= <- <-].
  split; [done|]. unfold keeps_fd. rewrite <- E1.
  assert (fd_stage f) as Hf.
  { apply fd_then; [apply fd_set; intros m3; cbv beta; by destruct (bit rev (POLLERR .| POLLHUP .| POLLNVAL))|].
    destruct (bit rev POLLIN); [apply fd_drain|]. intros m3 m4 b _ [= <- <-]. done. }
  by destruct (Hf _ _ _ I Ef).
Qed.

Lemma alive_stage_spec i m m' a : alive_stage i m = Ok (m', a) → ∃ n, m' = m <| next_alive := n |>.
Proof.
  unfold alive_stage. destruct (_ <? _); intros [= <- <-]; [|by eexists].
  exists m.(next_alive). by destruct m.
Qed.

(** The pass after its heartbeat. *)
Definition later_stages (i : pass) : stage :=
  bring_up_stage cfg dst i ;;; fetch_stage cfg i ;;; report_stage cfg i ;;;
  wait_and_drain cfg dst_addr dst_port i ;;; timers_stage cfg i ;;; status_stage i.

Lemma fd_later i : fd_stage (later_stages i).
Proof.
  apply fd_then; [apply fd_bring_up|]. apply fd_then; [apply fd_fetch|]. apply fd_then; [apply fd_report|].
  apply fd_then; [apply fd_wait_and_drain|]. apply fd_then.
  - apply stage_ok_if; [apply fd_stack|]. by intros m m' a _ [= <- <-].
  - intros m m' a _. unfold status_stage. destruct (_ <? _); by intros [= <- <-].
Qed.

End Recovery.

(** ** Strays *)

Section Strays.
Context `{Entropy} `{Curve}.
Context (cfg : awg_config) (dst_addr dst_port : Z).

Definition bump (f : Z → Z) (m : main) : main := m <| stray_datagrams ::= f |>.

(** A stage to which the count of strays makes no difference. *)
Definition blind (st : stage) : Prop := ∀ f m, st (bump f m) = ('(m', a) ← st m; mret (bump f m', a)).

Lemma blind_skip : blind skip.
Proof. done. Qed.

Lemma blind_then st1 st2 : blind st1 → blind st2 → blind (st1 ;;; st2).
Proof.
  intros H1 H2 f m. unfold then_do. rewrite H1. destruct (st1 m) as [[m1 a1]| |]; try done.
  cbn [mbind res_bind mret res_ret]. rewrite H2. by destruct (st2 m1) as [[m2 a2]| |].
Qed.

Lemma blind_foldr {A} (g : A → stage) l : (∀ x, blind (g x)) → blind (foldr (λ x k, g x ;;; k) skip l).
Proof. intros Hg. induction l; [apply blind_skip|]. by apply blind_then. Qed.

Lemma blind_stack ev : blind (stack_step cfg ev).
Proof.
  intros f m. destruct ev as [p now sent|ev|ev]; cbn [stack_step].
  - change (nif (bump f m)) with (nif m). change (sess (bump f m)) with (sess m). change (pos (bump f m)) with (pos m).
    by destruct (tunnel_output _ _ _ _ _ _ _) as [[[[s e] out] q]| |].
  - change (prx (bump f m)) with (prx m). destruct (registered ev (prx m)); [|done].
    unfold on_proxy. change (prx (bump f m)) with (prx m). by destruct (ProxyRun.handle ev (prx m)).
  - change (web (bump f m)) with (web m). case_bool_decide; [|done].
    unfold on_http. change (web (bump f m)) with (web m). by destruct (http_handle ev (web m)).
Qed.

Lemma blind_datagram d : blind (datagram_stage cfg d).
Proof.
  intros f m. unfold datagram_stage.
  change (sess (bump f m)) with (sess m). change (statics (bump f m)) with (statics m).
  destruct (awg_session_on_datagram _ _ _ _ _ _) as [[[[s g] r] pl]| |]; try done. cbn [mbind res_bind].
  destruct r; try done. set (m1 := m <| sess := s |> <| statics := g |>).
  change (bump f m <| sess := s |> <| statics := g |>) with (bump f m1). change (nif (bump f m1)) with (nif m1).
  destruct (awg_netif_input _ _ _ _) as [[p fr]| |]; try done. cbn [mbind res_bind]. destruct p as [p|]; [|done].
  assert (blind (emit (λ _, [ToStack p]) ;;; stack_run cfg (dg_stack d))) as Hb; [|apply Hb].
  apply blind_then; [done|]. apply blind_foldr, blind_stack.
Qed.

(** What [recvfrom] gives in one pass. *)
Fixpoint received (n : nat) (ds : list datagram) : list datagram :=
  match n, ds with
  | O, _ | _, [] => []
  | S n, d :: ds => if zlen d.(dg_bytes) <=? 0 then [] else d :: received n ds
  end.

Definition peers_datagrams (ds : list datagram) : list datagram := filter (λ d, from_peer dst_addr dst_port d = true) ds.

(** The datagrams handled in order. *)
Definition handle_all (ds : list datagram) : stage := foldr (λ d k, datagram_stage cfg d ;;; k) skip ds.

Definition count_stray : Z → Z := λ n, u32 (n + 1).

Lemma drain_spec n ds m :
  drain cfg dst_addr dst_port n ds m =
  ('(m', a) ← handle_all (peers_datagrams (received n ds)) m;
   mret (bump (Nat.iter (length (received n ds) - length (peers_datagrams (received n ds))) count_stray) m', a)).
Proof.
  revert n m. induction ds as [|d ds IH]; intros n m.
  { destruct n; cbn; unfold bump; by destruct m. }
  destruct n as [|n]; [cbn; unfold bump; by destruct m|]. cbn [drain received].
  destruct (zlen (dg_bytes d) <=? 0); [cbn; unfold bump; by destruct m|].
  unfold peers_datagrams in *. rewrite filter_cons.
  assert (∀ l, length (filter (λ d, from_peer dst_addr dst_port d = true) l) <= length l)%nat as Hle by (intros; apply length_filter).
  specialize (Hle (received n ds)). destruct (from_peer dst_addr dst_port d) eqn:Ep.
  - rewrite decide_True by done. set (l := filter _ _) in *. change (handle_all (d :: l)) with (datagram_stage cfg d ;;; handle_all l).
    cbn [length Nat.sub]. unfold then_do. destruct (datagram_stage cfg d m) as [[m1 a1]| |]; try done.
    cbn [mbind res_bind]. rewrite IH. fold l. by destruct (handle_all l m1) as [[m2 a2]| |].
  - rewrite decide_False by done. change (m <| stray_datagrams ::= _ |>) with (bump count_stray m). rewrite IH.
    assert (blind (handle_all (filter (λ d, from_peer dst_addr dst_port d = true) (received n ds)))) as Hb
      by (apply blind_foldr, blind_datagram).
    rewrite Hb. destruct (handle_all _ m) as [[m1 a1]| |]; try done. cbn [mbind res_bind mret res_ret].
    f_equal. f_equal. cbn [length]. rewrite Nat.sub_succ_l by done. cbn [Nat.iter]. unfold bump.
    destruct m1. cbv [modify]. cbn [main_eta]. f_equal. apply Nat.iter_swap.
Qed.

End Strays.

(** ** Properties *)

(** C14: the loop drives its parts only through their operations. Along every run, from
    the state it starts in and whatever the calls, the datagrams and lwIP do, the
    session is one its own operations reach, with pairwise distinct nonces and accepted
    counters, or it is wiped and there is no socket; the proxy's table and its part of the
    trace are a run of the proxy's own operations, so its streams are those of [ProxyFlow];
    and without a socket the tunnel counts as lost. *)
Theorem main_refines `{Entropy} `{Curve} (cfg : awg_config) (dst_addr dst_port : Z) (dst : list Z) (p : power)
    (sock : Z) (q : nat) (ps : list pass) (m : main) (acts : list main_action) :
  0 <= sock → main_runs cfg dst_addr dst_port dst False (main_init cfg p sock q) ps m acts →
  ((∃ ep tr, reach cfg m.(sess) m.(statics) ep tr ∧ (zlen tr < 2 ^ 64 → NoDup tr)) ∨
   m.(sess) = session_zero ∧ m.(fd) < 0) ∧
  driven (started (-1)) (proxy_acts acts) m.(prx) ∧ proxy_wf m.(prx) ∧ (m.(fd) < 0 → m.(tunnel_lost) = true).
Proof.
  intros Hs Hr. destruct (main_runs_ok _ _ _ _ _ _ _ _ _ (main_init_inv cfg False p sock q Hs) Hr) as [[_ H2 H3 _ _] _].
  split; [by eapply reached_session|]. split; [by eapply main_init_driven|by split].
Qed.

(** C17: as long as [socket] succeeds, the module never sends on a descriptor that is not
    the open one, be it from the loop or from within lwIP, never closes one twice and
    never leaves one open behind a new one. *)
Theorem main_descriptors `{Entropy} `{Curve} (cfg : awg_config) (dst_addr dst_port : Z) (dst : list Z) (p : power)
    (sock : Z) (q : nat) (ps : list pass) (m : main) (acts : list main_action) :
  0 <= sock → main_runs cfg dst_addr dst_port dst True (main_init cfg p sock q) ps m acts →
  ledger sock acts = Some m.(fd).
Proof.
  intros Hs Hr. destruct (main_runs_ok _ _ _ _ _ _ _ _ _ (main_init_inv cfg True p sock q Hs) Hr) as [_ [Hf _]].
  specialize (Hf I). unfold follows, main_init in Hf. by destruct (awg_session_init cfg q).
Qed.

(** C19: rebuilds cannot spin: along every run, however the tunnel was lost and whatever
    fails on the way, two attempts at a new socket are at least three seconds apart. *)
Theorem rebuilds_spaced `{Entropy} `{Curve} (cfg : awg_config) (dst_addr dst_port : Z) (dst : list Z) (p : power)
    (sock : Z) (q : nat) (ps : list pass) (m : main) (acts : list main_action) :
  0 <= sock → main_runs cfg dst_addr dst_port dst False (main_init cfg p sock q) ps m acts →
  Forall (λ t, 0 <= t ∧ t + 3000 < 2 ^ 64) (attempts acts) → apart 3000 (attempts acts).
Proof.
  intros Hs Hr Ht. destruct (main_runs_ok _ _ _ _ _ _ _ _ _ (main_init_inv cfg False p sock q Hs) Hr) as [_ [_ Hw]].
  by eapply waits_apart.
Qed.

(** C18: a lost tunnel comes back: the first pass that is not earlier than the spacing
    allows and gets a socket ends with it as its descriptor, and in the same pass the
    initiation that a fresh session builds is sent on it. *)
Theorem lost_tunnel_recovers `{Entropy} `{Curve} (cfg : awg_config) (dst_addr dst_port : Z) (dst : list Z) (p : power)
    (sock : Z) (q : nat) (ps : list pass) (m : main) (acts : list main_action) (i : pass) (m' : main) (a : list main_action) :
  0 <= sock → main_runs cfg dst_addr dst_port dst False (main_init cfg p sock q) ps m acts →
  m.(tunnel_lost) = true → m.(next_rebuild) <= i.(i_now) → 0 <= i.(i_socket) →
  loop_pass cfg dst_addr dst_port dst i m = Ok (m', a) →
  m'.(fd) = i.(i_socket) ∧ Socket i.(i_now) i.(i_socket) ∈ a ∧
  ∃ q1 q2, let s := (awg_session_init cfg q1).1 in
    awg_session_needs_handshake s i.(i_now) = true ∧
    ∀ d, (awg_session_build_initiation s cfg WIRE_CAP i.(i_now) i.(i_wall) q2).1.2 = Some d → 0 < zlen d →
      SendTo i.(i_socket) d ∈ a.
Proof.
  intros Hs Hr Hl Hn Hk E.
  destruct (main_runs_ok _ _ _ _ _ _ _ _ _ (main_init_inv cfg False p sock q Hs) Hr) as [Hm _].
  apply then_do_ok in E as (m1 & a1 & a2 & E1 & E & ->). injection E1 as <- <-.
  set (m1 := m <| loops ::= _ |>) in *. assert (main_inv cfg False m1) as Hm1 by (by eapply same_vars_inv).
  apply then_do_ok in E as (m2 & a3 & a4 & E2 & E & ->).
  destruct (power_stage_lost cfg i m1 m2 a3 Hl E2) as (-> & Hl2 & Hn2).
  destruct (power_stage_ok cfg False i _ _ _ Hm1 E2) as [Hm2 _].
  apply then_do_ok in E as (m3 & a5 & a6 & E3 & E & ->).
  assert (next_rebuild m2 <= i_now i) as Hn3 by (rewrite Hn2; exact Hn).
  destruct (rebuild_run cfg False i m2 m3 a5 Hm2 ltac:(done) Hl2 Hn3 E3)
    as (m4 & b & c & -> & _ & Hin & _ & Hfd4 & _ & _ & Hfd3 & Hre).
  rewrite (proj2 (Z.ltb_ge _ _) Hk) in Hre.
  apply then_do_ok in E as (ma & aa & ab & Ea & E & ->). destruct (alive_stage_spec i m3 ma aa Ea) as [n ->].
  apply then_do_ok in E as (m5 & a7 & a8 & E5 & E & ->).
  destruct (fd_handshake cfg i _ _ _ I E5) as [_ Hk5]. destruct (fd_later cfg dst_addr dst_port dst i _ _ _ I E) as [_ Hk6].
  unfold keeps_fd in *. split; [by rewrite Hk6, Hk5|]. split.
  - apply elem_of_app. right. apply elem_of_app. right. apply elem_of_app. left. apply elem_of_app. by left.
  - exists (pos m4), (pos m3). pose proof (rt_sess _ _ _ _ _ _ Hre) as Es. cbv zeta. rewrite <- Es.
    split; [rewrite Es; apply init_needs_handshake|]. intros d Hb' Hd.
    destruct (init_not_established cfg (pos m4)) as [He Hh]. rewrite <- Es in He, Hh.
    do 4 (apply elem_of_app; right). apply elem_of_app. left.
    rewrite <- Hfd3. assert (0 <= fd m3) as Hk3 by (by rewrite Hfd3).
    match type of E5 with handshake_stage _ _ ?x = _ => exact (handshake_sends cfg i x m5 a7 d Hk3 He Hh Hb' Hd E5) end.
Qed.

(** Datagrams from anyone but the peer cost nothing but a count: draining the socket
    does to the whole module exactly what handling the peer's datagrams does, in their
    order, among the at most sixty-four received before the socket is empty. *)
Theorem strays_ignored `{Entropy} `{Curve} (cfg : awg_config) (dst_addr dst_port : Z) (ds : list datagram) (m : main) :
  let got := received 64 ds in
  let ours := peers_datagrams dst_addr dst_port got in
  drain cfg dst_addr dst_port 64 ds m =
    ('(m', a) ← handle_all cfg ours m;
     mret (m' <| stray_datagrams ::= Nat.iter (length got - length ours) (λ n, u32 (n + 1)) |>, a)) ∧
  (length got <= 64)%nat ∧ (∀ d, d ∈ ours ↔ d ∈ got ∧ d.(dg_addr_len) >= SOCKADDR_IN ∧ d.(dg_addr) = dst_addr ∧ d.(dg_port) = dst_port).
Proof.
  intros got ours. split; [apply drain_spec|]. split.
  - unfold got. clear. revert ds. generalize 64%nat as n. induction n as [|n IH]; intros ds; [done|].
    destruct ds as [|d ds]; cbn [received]; [cbn; lia|]. destruct (_ <=? 0); cbn [length]; [lia|].
    specialize (IH ds). lia.
  - intros d. unfold ours, peers_datagrams. rewrite list_elem_of_filter. unfold from_peer.
    rewrite negb_true_iff, !orb_false_iff, !negb_false_iff, !Z.eqb_eq, Z.ltb_ge. naive_solver lia.
Qed.


(** C31: when a rebuild gets no socket, the interface keeps the number of the descriptor
    it has just closed, and the session stays established: the next packet of lwIP is
    sealed and sent on the closed descriptor, or on whatever has taken its number. *)
Theorem closed_descriptor_used `{Entropy} `{Curve} (cfg : awg_config) (i : pass) (m m' : main)
    (a : list main_action) (p : pbuf) (sys_now : Z) (sent : bool) :
  m.(sess).(established) = true → m.(nif).(has_sess) = true → m.(nif).(g_fd) = m.(fd) → 0 <= m.(fd) →
  m.(tunnel_lost) = true → m.(next_rebuild) <= i.(i_now) → i.(i_socket) = -1 → i.(i_stop_stack) = [] →
  nonce_ok cfg cfg.(s4) → tot_len p <= TUNNEL_MTU → cfg.(s4) + 32 + padded_to_16 (tot_len p) <= OUT_CAP →
  rebuild_stage cfg i m = Ok (m', a) →
  CloseTunnel m.(fd) ∈ a ∧ m'.(fd) = -1 ∧
  ∃ m'' d, stack_step cfg (StOutput p sys_now sent) m' = Ok (m'', [SendTo m.(fd) d]).
Proof.
  intros He Hh Hg Hfd Hl Hn Hk Hst Hno Hmtu Hfit. unfold rebuild_stage.
  rewrite Hl, (proj2 (Z.leb_le _ _) Hn). cbn [andb]. intros E.
  apply then_do_ok in E as (m1 & a1 & a2 & E1 & E & ->). injection E1 as <- <-.
  apply then_do_ok in E as (m2 & a3 & a4 & E2 & E & ->). unfold proxy_stop in E2. rewrite Hst in E2.
  apply then_do_ok in E2 as (m3 & b1 & b2 & E2 & E3 & ->). injection E3 as <- <-.
  apply on_proxy_ok in E2 as [-> ->].
  apply then_do_ok in E as (m4 & a5 & a6 & E4 & E & ->). injection E4 as <- <-.
  apply then_do_ok in E as (m5 & a7 & a8 & E5 & E & ->). injection E5 as <- <-.
  apply then_do_ok in E as (m6 & a9 & a10 & E6 & E & ->). injection E6 as <- <-.
  rewrite Hk in E. injection E as <- <-. split.
  - apply elem_of_app. right. apply elem_of_app. right. apply elem_of_app. left.
    cbn [fd modify]. rewrite (proj2 (Z.leb_le 0 (fd m)) Hfd). by left.
  - split; [done|]. cbn [stack_step]. set (m6 := _ <| fd := -1 |>).
    change (nif m6) with (nif m). change (sess m6) with (sess m).
    rewrite tunnel_output_spec by (done || unfold TUNNEL_MTU in *; lia).
    rewrite Hh, He, decide_True by done. cbn [negb orb mbind res_bind]. cbv zeta. rewrite Hg.
    do 2 eexists. reflexivity.
Qed.

(** ** Witnesses *)

(** A pass in which nothing happens but the clock; the sending of an initiation ends
    as [send] says and [socket] gives [sock]. *)
Definition toy_pass (now sock : Z) (send : option errno) : pass := Pass now None (λ _ _, None) [] [] sock []
  (-1, false, false) 1700000000 send true (3, true, true) now None false [] [] (quiet_pass now) [] [] [] now now.

Definition toy_main : main := @main_init toy_entropy toy_session_config power_init 4 0.
Definition toy_loop (i : pass) (m : main) : res (main * list main_action) :=
  @loop_pass toy_entropy toy_curve toy_session_config 1 2 (replicate 16 0) i m.

Lemma toy_pass_ok (socks : Prop) now sock send : 0 <= sock → pass_ok socks (toy_pass now sock send).
Proof. intros Hs. split; [apply quiet_pass_ok|constructor|done]. Qed.

Lemma toy_pads : 0 <= toy_session_config.(s2) ∧ 0 <= toy_session_config.(s4).
Proof. split; vm_compute; congruence. Qed.

(** A send that fails for good, and the pass a second later. *)
Lemma toy_run (socks : Prop) : ∃ m1 a1 m2 a2,
  toy_loop (toy_pass 1000 5 (Some EPIPE)) toy_main = Ok (m1, a1) ∧
  toy_loop (toy_pass 2000 5 None) m1 = Ok (m2, a2) ∧
  @main_runs toy_entropy toy_curve toy_session_config 1 2 (replicate 16 0) socks toy_main
    [toy_pass 1000 5 (Some EPIPE)] m1 a1 ∧
  @main_runs toy_entropy toy_curve toy_session_config 1 2 (replicate 16 0) socks toy_main
    [toy_pass 1000 5 (Some EPIPE); toy_pass 2000 5 None] m2 (a1 ++ a2).
Proof.
  destruct (@loop_pass_total toy_entropy toy_curve toy_session_config 1 2 (replicate 16 0) toy_pads
    (toy_pass 1000 5 (Some EPIPE)) (Forall_nil_2 _) toy_main) as (m1 & a1 & E1).
  destruct (@loop_pass_total toy_entropy toy_curve toy_session_config 1 2 (replicate 16 0) toy_pads
    (toy_pass 2000 5 None) (Forall_nil_2 _) m1) as (m2 & a2 & E2).
  exists m1, a1, m2, a2. split; [exact E1|]. split; [exact E2|].
  assert (@main_runs toy_entropy toy_curve toy_session_config 1 2 (replicate 16 0) socks toy_main
    [toy_pass 1000 5 (Some EPIPE)] m1 a1) as R1.
  { apply (main_pass _ _ _ _ _ _ [] toy_main [] _ m1 a1 (main_start _ _ _ _ _ _)); [by apply toy_pass_ok|exact E1]. }
  split; [exact R1|]. apply (main_pass _ _ _ _ _ _ _ _ _ _ _ _ R1); [by apply toy_pass_ok|exact E2].
Qed.

Lemma main_refines_witness : ∃ m acts,
  @main_runs toy_entropy toy_curve toy_session_config 1 2 (replicate 16 0) False toy_main
    [toy_pass 1000 5 (Some EPIPE); toy_pass 2000 5 None] m acts ∧
  driven (started (-1)) (proxy_acts acts) m.(prx).
Proof.
  destruct (toy_run False) as (m1 & a1 & m2 & a2 & _ & _ & _ & R2). exists m2, (a1 ++ a2). split; [exact R2|].
  refine (proj1 (proj2 (@main_refines toy_entropy toy_curve toy_session_config 1 2 (replicate 16 0) power_init 4 0
    _ m2 _ _ R2))). vm_compute; congruence.
Defined.

Lemma main_descriptors_witness : ∃ m acts,
  @main_runs toy_entropy toy_curve toy_session_config 1 2 (replicate 16 0) True toy_main
    [toy_pass 1000 5 (Some EPIPE); toy_pass 2000 5 None] m acts ∧ ledger 4 acts = Some m.(fd).
Proof.
  destruct (toy_run True) as (m1 & a1 & m2 & a2 & _ & _ & _ & R2). exists m2, (a1 ++ a2). split; [exact R2|].
  refine (@main_descriptors toy_entropy toy_curve toy_session_config 1 2 (replicate 16 0) power_init 4 0 _ m2 _ _ R2).
  vm_compute; congruence.
Defined.

Lemma rebuilds_spaced_witness : ∃ m acts,
  @main_runs toy_entropy toy_curve toy_session_config 1 2 (replicate 16 0) False toy_main
    [toy_pass 1000 5 (Some EPIPE); toy_pass 2000 5 None] m acts ∧ attempts acts = [2000] ∧ apart 3000 (attempts acts).
Proof.
  destruct (toy_run False) as (m1 & a1 & m2 & a2 & E1 & E2 & _ & R2). exists m2, (a1 ++ a2). split; [exact R2|].
  assert (attempts (a1 ++ a2) = [2000]) as Ha.
  { assert (match toy_loop (toy_pass 1000 5 (Some EPIPE)) toy_main with
            | Ok (m1, a1) => match toy_loop (toy_pass 2000 5 None) m1 with
                             | Ok (m2, a2) => attempts (a1 ++ a2) = [2000] | _ => False end
            | _ => False end) as Hc by (vm_compute; reflexivity).
    rewrite E1, E2 in Hc. exact Hc. }
  split; [exact Ha|].
  refine (@rebuilds_spaced toy_entropy toy_curve toy_session_config 1 2 (replicate 16 0) power_init 4 0 _ m2 _ _ R2 _).
  - vm_compute; congruence.
  - rewrite Ha. apply Forall_cons_2; [split; vm_compute; congruence|apply Forall_nil_2].
Defined.

Lemma lost_tunnel_recovers_witness : ∃ m1 m2 a2,
  m1.(tunnel_lost) = true ∧ toy_loop (toy_pass 2000 5 None) m1 = Ok (m2, a2) ∧ m2.(fd) = 5 ∧ Socket 2000 5 ∈ a2.
Proof.
  destruct (toy_run False) as (m1 & a1 & m2 & a2 & E1 & E2 & R1 & _). exists m1, m2, a2.
  assert (m1.(tunnel_lost) = true ∧ m1.(next_rebuild) = 0) as [Hl Hn].
  { assert (match toy_loop (toy_pass 1000 5 (Some EPIPE)) toy_main with
            | Ok (m1, a1) => tunnel_lost m1 = true ∧ next_rebuild m1 = 0 | _ => False end) as Hc
      by (vm_compute; split; reflexivity).
    rewrite E1 in Hc. exact Hc. }
  split; [exact Hl|]. split; [exact E2|].
  destruct (@lost_tunnel_recovers toy_entropy toy_curve toy_session_config 1 2 (replicate 16 0) power_init 4 0
    _ m1 a1 (toy_pass 2000 5 None) m2 a2 ltac:(vm_compute; congruence) R1 Hl
    ltac:(rewrite Hn; vm_compute; congruence) ltac:(vm_compute; congruence) E2) as (Hfd & Hs & _).
  split; [exact Hfd|exact Hs].
Defined.


(** An established session over an interface that is up, its tunnel lost. *)
Definition toy_lost : main := toy_main <| sess := toy_session |> <| nif := toy_netif |> <| tunnel_lost := true |>.

Lemma closed_descriptor_used_witness : ∃ m' m'' d,
  m'.(fd) = -1 ∧ @stack_step toy_entropy toy_config (StOutput [[69; 0]] 2000 true) m' = Ok (m'', [SendTo 4 d]).
Proof.
  destruct (@rebuild_stage_total toy_entropy toy_config ltac:(split; vm_compute; congruence)
    (toy_pass 2000 (-1) None) toy_lost) as (m' & a & E).
  destruct (@closed_descriptor_used toy_entropy toy_curve toy_config (toy_pass 2000 (-1) None) toy_lost m' a
    [[69; 0]] 2000 true) as (_ & Hfd & m'' & d & Hs).
  - reflexivity.
  - reflexivity.
  - reflexivity.
  - vm_compute; congruence.
  - reflexivity.
  - vm_compute; congruence.
  - reflexivity.
  - reflexivity.
  - split; [vm_compute; congruence|intros _; vm_compute; congruence].
  - vm_compute; congruence.
  - vm_compute; congruence.
  - exact E.
  - exists m', m'', d. split; [exact Hfd|exact Hs].
Defined.
