(* ===== verification/Boot.v ===== *)
(** * main_switch.c, awg_rand.c, sys_arch.c: clocks, services and the way to the loop

    The clocks the module reads, the services it starts and stops, and [main] from its
    first line to the loop of [Main], with the places it leaves for: the return, and the
    label [done], where it wipes its secrets and parks. What the services answer is an
    input; the lines of the log are not modelled, and nothing sets [g_stop]. *)
From S2P Require Import Prelude Cstr Awg Noise Session Config ConfigText Proxy ProxyRun ProxyFlow Power Netif Http Main MainRun MainFlow.

(** ** Clocks *)

(** What [timeGetCurrentTime] answers for the three clocks, and [time(NULL)]. *)
Record clocks := Clocks { network_clock : option Z; user_clock : option Z; default_clock : option Z; unix_time : Z }.

(** A clock that answers zero counts as none. *)
Definition clock_set (c : option Z) : option Z :=
  match c with Some ts => if ts =? 0 then None else Some ts | None => None end.

Definition awg_now_seconds (c : clocks) : Z :=
  match clock_set c.(network_clock) with
  | Some ts => ts
  | None =>
    match clock_set c.(user_clock) with
    | Some ts => ts
    | None => match clock_set c.(default_clock) with Some ts => ts | None => u64 c.(unix_time) end
    end
  end.

(** [ns] is the system tick in nanoseconds. *)
Definition now_ms (ns : Z) : Z := ns / 1000000.
Definition sys_now (ns : Z) : Z := u32 (ns / 1000000).

Definition lwip_port_rand `{Entropy} (pos : nat) : Z * nat :=
  let '(v, pos) := awg_random_bytes 4 pos in (le_val v, pos).

(** ** Services *)

Inductive service : Set := Sm | Fs | Nifm | TimeSrv | Sockets | SdCard | PowerLog.

#[export] Instance service_eq_dec : EqDecision service.
Proof. solve_decision. Defined.

Inductive service_action : Set := Start (s : service) | Stop (s : service) | AbortStart (s : service).

(** Those whose failure is fatal come with [true]; the mount and the power log are tried. *)
Definition start_order : list (service * bool) :=
  [(Sm, true); (Fs, true); (SdCard, false); (Nifm, true); (TimeSrv, true); (Sockets, true); (PowerLog, false)].

Fixpoint start_services (order : list (service * bool)) (ok : service → bool) : list service_action * bool :=
  match order with
  | [] => ([], true)
  | (s, fatal) :: order =>
    if ok s || negb fatal then
      let '(acts, up) := start_services order ok in (Start s :: acts, up)
    else ([AbortStart s], false)
  end.

(** The second component is whether the module goes on to [main]. *)
Definition appInit (ok : service → bool) : list service_action * bool :=
  let '(acts, up) := start_services start_order ok in
  (acts ++ (if up then [Stop Sm] else []), up).

Definition appExit : list service_action :=
  [Stop PowerLog; Stop Sockets; Stop TimeSrv; Stop Nifm; Stop SdCard; Stop Fs].

(** ** On the way to the loop *)

Inductive boot_action : Set :=
| MakeDir
| NewLog
| SleepNs (ns : Z)
| Open6 (fd : Z)
| NonBlock (fd : Z)
| WaitWritable (fd ms : Z)
| Close6 (fd : Z)
| OpenUdp (fd : Z).

(** [connected k] is whether the [k]-th query succeeds and says so. *)
Fixpoint wait_loop (tries k : nat) (connected : nat → bool) : list boot_action :=
  match tries with
  | O => []
  | S tries => if connected k then [] else SleepNs 2000000000 :: wait_loop tries (S k) connected
  end.

Definition wait_for_network (connected : nat → bool) : list boot_action := wait_loop 150 0 connected.

Inductive connect_result : Set := Connected | InProgress | ConnectFailed (e : Z).

(** The probe's calls: [socket], whether the flags could be read, [connect], whether
    [poll] finds it writable, and [SO_ERROR] if it can be read. *)
Record probe_in := ProbeIn {
  p6_socket : Z; p6_flags : bool; p6_connect : connect_result; p6_writable : bool; p6_error : option Z
}.

(** Whether the peer was reached, if the socket could be opened. *)
Definition ipv6_probe (i : probe_in) : list boot_action * option bool :=
  if i.(p6_socket) <? 0 then ([], None)
  else
    let fd := i.(p6_socket) in
    let '(waits, reached) :=
      match i.(p6_connect) with
      | Connected => ([], true)
      | ConnectFailed _ => ([], false)
      | InProgress =>
        ([WaitWritable fd 3000],
         if i.(p6_writable) then match i.(p6_error) with Some so => so =? 0 | None => false end else false)
      end in
    (Open6 fd :: (if i.(p6_flags) then [NonBlock fd] else []) ++ waits ++ [Close6 fd], Some reached).

(** The file of the configuration, whether the log opens, the answers of the network
    service, [inet_pton], and [socket]. *)
Record boot_in := BootIn {
  bi_log : bool; bi_file : option (list Z); bi_connected : nat → bool; bi_ip : option Z;
  bi_pton : list Z → option Z; bi_probe : probe_in; bi_socket : Z
}.

Definition CONF_PATH : list Z := str "sdmc:/config/sys-amneziawg/awg.conf".

(** Returned; parked, with what the configuration and the session hold; or in the loop,
    with the configuration, the peer's address and port, and the loop's state. *)
Inductive booted : Type :=
| Returned
| Parked (cfg : awg_config) (s : awg_session)
| Looping (cfg : awg_config) (dst_addr dst_port : Z) (m : main).

(** The label [done], for a configuration and a session. *)
Definition park (cfg : awg_config) (s : awg_session) : booted :=
  let cfg := awg_config_free cfg in
  let s := awg_session_wipe s in
  Parked config_zero s.

(** [htons] on the little-endian console. *)
Definition htons (x : Z) : Z := u16 (x .<< 8) .| (x .>> 8).

Section boot.
Context `{Entropy}.

(** [garbage] is what the session's memory holds before it is initialised. *)
Definition main_boot (i : boot_in) (p : power) (garbage : awg_session) (pos : nat) : list boot_action * booted :=
  if negb i.(bi_log) then ([MakeDir], Returned)
  else
    let opened := [MakeDir; NewLog] in
    match awg_config_load i.(bi_file) CONF_PATH 256 with
    | inr _ => (opened, Returned)
    | inl cfg =>
      let up := opened ++ SleepNs 15000000000 :: wait_for_network i.(bi_connected) in
      match i.(bi_ip) with
      | None => (up, park cfg garbage)
      | Some ip =>
        if ip =? 0 then (up, park cfg garbage)
        else
          match i.(bi_pton) cfg.(endpoint_host) with
          | None => (up, park cfg garbage)
          | Some addr =>
            let probed := up ++ (ipv6_probe i.(bi_probe)).1 in
            let fd := i.(bi_socket) in
            if fd <? 0 then (probed, park cfg garbage)
            else (probed ++ [OpenUdp fd], Looping cfg addr (htons (u16 cfg.(endpoint_port))) (main_init cfg p fd pos))
          end
      end
    end.

End boot.

(** ** Clocks: what they promise *)

(** The clock is the first of the three that is set; without one, [time]'s. *)
Lemma awg_now_seconds_first c cs :
  omap clock_set [c.(network_clock); c.(user_clock); c.(default_clock)] = cs →
  awg_now_seconds c = match cs with ts :: _ => ts | [] => u64 c.(unix_time) end.
Proof. intros <-. unfold awg_now_seconds. cbn [omap list_omap]. by repeat case_match. Qed.

Lemma clock_set_nonzero c ts : clock_set c = Some ts → c = Some ts ∧ ts ≠ 0.
Proof. destruct c as [t|]; cbn; [|done]. destruct (Z.eqb_spec t 0); [done|]. by intros [= <-]. Qed.

(** lwIP compares times by subtracting them at 32 bits: across a wrap of the clock the
    difference is the time that has passed, if that is less than 49 days. *)
Lemma sys_now_elapsed t t' : t <= t' → now_ms t' - now_ms t < 2 ^ 32 →
  u32 (sys_now t' - sys_now t) = now_ms t' - now_ms t.
Proof.
  intros Ht Hd. unfold sys_now. change (t / 1000000) with (now_ms t). change (t' / 1000000) with (now_ms t').
  rewrite !u32_mod, <- Zminus_mod. apply Z.mod_small. split; [|done].
  apply Z.le_0_sub. by apply Z.div_le_mono.
Qed.

(** ** Services: what they promise *)

(** What is left running by a sequence of actions, the last started first. *)
Fixpoint running (acts : list service_action) (up : list service) : list service :=
  match acts with
  | [] => up
  | Start s :: acts => running acts (s :: up)
  | Stop s :: acts => running acts (filter (λ s', s' ≠ s) up)
  | AbortStart _ :: acts => running acts up
  end.

(** A start is never aborted by the mount or the power log; when every other service comes
    up, [__appExit] stops exactly those that are still running, in the reverse order. *)
Lemma appInit_up ok :
  (appInit ok).2 = ok Sm && (ok Fs && (ok Nifm && (ok TimeSrv && ok Sockets))).
Proof.
  unfold appInit, start_order. cbn [start_services].
  destruct (ok Sm), (ok Fs), (ok SdCard), (ok Nifm), (ok TimeSrv), (ok Sockets), (ok PowerLog); done.
Qed.

Lemma appExit_reverses ok : (appInit ok).2 = true →
  appExit = map Stop (running (appInit ok).1 []) ∧ running ((appInit ok).1 ++ appExit) [] = [].
Proof.
  unfold appInit, start_order. cbn [start_services].
  destruct (ok Sm), (ok Fs), (ok SdCard), (ok Nifm), (ok TimeSrv), (ok Sockets), (ok PowerLog); done.
Qed.

(** A failure of one that matters is the last thing that happens. *)
Lemma start_aborts order ok acts : start_services order ok = (acts, false) →
  ∃ before s after, order = before ++ (s, true) :: after ∧ ok s = false ∧
    acts = map (Start ∘ fst) before ++ [AbortStart s].
Proof.
  revert acts. induction order as [|[s fatal] order IH]; intros acts; cbn [start_services]; [done|].
  destruct (ok s || negb fatal) eqn:E.
  - destruct (start_services order ok) as [acts' up]. intros [= <- ->].
    destruct (IH acts' eq_refl) as (before & s' & after & -> & Hs & ->). by exists ((s, fatal) :: before), s', after.
  - intros [= <-]. apply orb_false_iff in E as [Hs Hf]. destruct fatal; [|done]. by exists [], s, order.
Qed.

(** ** The way to the loop: what it promises *)

(** The longest a sequence of actions can take, in milliseconds: its sleeps, and the
    waits for a descriptor. *)
Fixpoint at_most_ms (acts : list boot_action) : Z :=
  match acts with
  | [] => 0
  | SleepNs ns :: acts => ns / 1000000 + at_most_ms acts
  | WaitWritable _ ms :: acts => ms + at_most_ms acts
  | _ :: acts => at_most_ms acts
  end.

(** The descriptors open after a sequence of actions. *)
Fixpoint fds_after (acts : list boot_action) (fds : list Z) : list Z :=
  match acts with
  | [] => fds
  | (Open6 fd | OpenUdp fd) :: acts => fds_after acts (fd :: fds)
  | Close6 fd :: acts => fds_after acts (filter (λ fd', fd' ≠ fd) fds)
  | _ :: acts => fds_after acts fds
  end.

Lemma at_most_ms_app a b : at_most_ms (a ++ b) = at_most_ms a + at_most_ms b.
Proof. induction a as [|[] a IH]; cbn [app at_most_ms]; rewrite ?IH; lia. Qed.

Lemma fds_after_app a b fds : fds_after (a ++ b) fds = fds_after b (fds_after a fds).
Proof. revert fds. induction a as [|[] a IH]; intros fds; cbn [app fds_after]; by rewrite ?IH. Qed.

(** The network is asked every two seconds, a hundred and fifty times at most, up to the
    first yes. *)
Lemma wait_loop_spec tries k connected : ∃ n,
  wait_loop tries k connected = replicate n (SleepNs 2000000000) ∧ (n <= tries)%nat ∧
  (∀ j, (j < n)%nat → connected (k + j)%nat = false) ∧ ((n < tries)%nat → connected (k + n)%nat = true).
Proof.
  revert k. induction tries as [|tries IH]; intros k; cbn [wait_loop].
  - exists 0%nat. split_and!; [done|lia|lia|lia].
  - destruct (connected k) eqn:E.
    + exists 0%nat. split_and!; [done|lia|lia|]. intros _. by rewrite Nat.add_0_r.
    + destruct (IH (S k)) as (n & -> & Hn & Hno & Hyes). exists (S n).
      split_and!; [done|lia| |].
      * intros [|j] Hj; [by rewrite Nat.add_0_r|]. replace (k + S j)%nat with (S k + j)%nat by lia. apply Hno. lia.
      * intros Hl. replace (k + S n)%nat with (S k + n)%nat by lia. apply Hyes. lia.
Qed.

Lemma sleeps_ms n : at_most_ms (replicate n (SleepNs 2000000000)) = 2000 * Z.of_nat n.
Proof. induction n as [|n IH]; [done|]. cbn [replicate at_most_ms]. rewrite IH.
  change (2000000000 / 1000000) with 2000. lia. Qed.

Lemma sleeps_fds n fds : fds_after (replicate n (SleepNs 2000000000)) fds = fds.
Proof. by induction n. Qed.

Lemma wait_bounded connected :
  0 <= at_most_ms (wait_for_network connected) <= 300000 ∧ ∀ fds, fds_after (wait_for_network connected) fds = fds.
Proof.
  destruct (wait_loop_spec 150 0 connected) as (n & E & Hn & _). unfold wait_for_network. rewrite E, sleeps_ms.
  split; [lia|]. intros fds. apply sleeps_fds.
Qed.

(** The probe delays the module by three seconds at most and closes what it opens. *)
Lemma probe_bounded i :
  0 <= at_most_ms (ipv6_probe i).1 <= 3000 ∧ fds_after (ipv6_probe i).1 [] = [].
Proof.
  unfold ipv6_probe. destruct (_ <? 0); [split; [cbn; lia|done]|].
  destruct i.(p6_connect), i.(p6_flags); cbn; (split; [lia|]); by rewrite decide_False by tauto.
Qed.

(** It reports the peer as reached only if [connect] succeeded at once, or the socket became
    writable without an error. *)
Lemma probe_reached i : (ipv6_probe i).2 = Some true ↔
  0 <= i.(p6_socket) ∧
  (i.(p6_connect) = Connected ∨ i.(p6_connect) = InProgress ∧ i.(p6_writable) = true ∧ i.(p6_error) = Some 0).
Proof.
  unfold ipv6_probe. destruct (Z.ltb_spec i.(p6_socket) 0); [split; [done|lia]|].
  destruct i.(p6_connect), i.(p6_writable), i.(p6_error) as [so|]; cbn;
    try destruct (Z.eqb_spec so 0); naive_solver.
Qed.

Lemma main_init_fd `{Entropy} cfg p sock q : (main_init cfg p sock q).(fd) = sock.
Proof. unfold main_init. by destruct (awg_session_init cfg q). Qed.

(** ** Properties *)

Section properties.
Context `{Entropy} `{Curve}.

(** C16: the module reaches its loop exactly when the log opens, the configuration loads,
    the console has an address, the endpoint is a literal one and [socket] succeeds; then
    the configuration is well formed, that one socket is the only one open, and whatever
    the loop goes through, its session is one that its own operations reach, or it is
    wiped. Every other way ends in a return or parked for good with nothing open and
    with no key in memory, neither the configuration's nor the session's. *)
Theorem boot_outcome (i : boot_in) (p : power) (garbage : awg_session) (q : nat) (acts : list boot_action) (r : booted) :
  main_boot i p garbage q = (acts, r) →
  ((∃ cfg addr port m, r = Looping cfg addr port m) ↔
   i.(bi_log) = true ∧
   ∃ cfg ip addr, awg_config_load i.(bi_file) CONF_PATH 256 = inl cfg ∧ i.(bi_ip) = Some ip ∧ ip ≠ 0 ∧
     i.(bi_pton) cfg.(endpoint_host) = Some addr ∧ 0 <= i.(bi_socket)) ∧
  match r with
  | Returned => fds_after acts [] = []
  | Parked cfg s => fds_after acts [] = [] ∧ cfg = config_zero ∧ s = session_zero
  | Looping cfg addr port m =>
    fds_after acts [] = [m.(fd)] ∧ config_wf cfg ∧ i.(bi_pton) cfg.(endpoint_host) = Some addr ∧
    ∀ dst ps m' acts', main_runs cfg addr port dst False m ps m' acts' →
      (∃ ep tr, reach cfg m'.(sess) m'.(statics) ep tr ∧ (zlen tr < 2 ^ 64 → NoDup tr)) ∨
      m'.(sess) = session_zero ∧ m'.(fd) < 0
  end.
Proof.
  unfold main_boot. destruct (bi_log i); cbn [negb]; [|intros [= <- <-]; split; [naive_solver|done]].
  destruct (awg_config_load _ _ _) as [cfg|] eqn:Ec; [|intros [= <- <-]; split; [naive_solver|done]].
  destruct (wait_bounded (bi_connected i)) as [_ Hw]. destruct (probe_bounded (bi_probe i)) as [_ Hp].
  destruct (bi_ip i) as [ip|] eqn:Ei; [|intros [= <- <-]; split; [naive_solver|by split; [apply Hw|]]].
  destruct (Z.eqb_spec ip 0) as [->|Hip]; [intros [= <- <-]; split; [naive_solver|by split; [apply Hw|]]|].
  destruct (bi_pton i _) as [addr|] eqn:Ea; [|intros [= <- <-]; split; [naive_solver|by split; [apply Hw|]]].
  destruct (Z.ltb_spec (bi_socket i) 0) as [Hs|Hs]; intros [= <- <-].
  - split; [naive_solver lia|]. split; [|done]. cbn [app fds_after]. by rewrite fds_after_app, Hw, Hp.
  - split; [naive_solver|]. cbn [app fds_after]. rewrite !fds_after_app, Hw, Hp. cbn [fds_after].
    split; [by rewrite main_init_fd|]. destruct (bi_file i) as [file|]; [|done].
    split; [by eapply loaded_wf|]. split; [done|]. intros dst ps m' acts' Hr.
    by eapply reached_session.
Qed.

(** The way to the loop is bounded: whatever the network and the probe's peer do, no
    more than the fifteen seconds of the console's own start, five minutes for the network
    and three seconds for the probe pass before the loop is entered or given up. *)
Theorem boot_bounded (i : boot_in) (p : power) (garbage : awg_session) (q : nat) :
  0 <= at_most_ms (main_boot i p garbage q).1 <= 318000.
Proof.
  unfold main_boot. pose proof (wait_bounded i.(bi_connected)) as [Hw _]. pose proof (probe_bounded i.(bi_probe)) as [Hp _].
  assert (15000000000 / 1000000 = 15000) as Hb by done.
  repeat case_match; cbn [fst]; repeat (rewrite ?at_most_ms_app, ?Hb; cbn [at_most_ms app]); lia.
Qed.

End properties.

(** ** Witness *)

Definition literal_config : awg_config := sample_config <| endpoint_host := str "127.0.0.1" |>.

(** Its file, the third answer of the network service a yes, a socket; the probe is
    refused. *)
Definition sample_boot : boot_in :=
  BootIn true (Some (config_text literal_config)) (λ k, (2 <=? k)%nat) (Some 0x0A01A8C0) parse_ipv4
    (ProbeIn 4 true InProgress true (Some 113)) 5.

Definition sample_main : main := @main_init toy_entropy literal_config power_init 5 0.

Lemma sample_boots :
  @main_boot toy_entropy sample_boot power_init session_zero 0 =
  ([MakeDir; NewLog; SleepNs 15000000000; SleepNs 2000000000; SleepNs 2000000000; Open6 4; NonBlock 4;
    WaitWritable 4 3000; Close6 4; OpenUdp 5], Looping literal_config 0x0100007F 0x6CCA sample_main).
Proof. by vm_compute. Qed.

Lemma boot_outcome_witness : config_wf literal_config ∧
  ∀ dst ps m acts, @main_runs toy_entropy toy_curve literal_config 0x0100007F 0x6CCA dst False sample_main ps m acts →
    (∃ ep tr, @reach toy_entropy toy_curve literal_config m.(sess) m.(statics) ep tr ∧ (zlen tr < 2 ^ 64 → NoDup tr)) ∨
    m.(sess) = session_zero ∧ m.(fd) < 0.
Proof.
  destruct (@boot_outcome toy_entropy toy_curve _ _ _ _ _ _ sample_boots) as (_ & _ & Hwf & _ & Hruns).
  by split.
Defined.
