(* ===== verification/Host.v ===== *)
(** * main_host.c: the host harness

    The program that runs the other parts against each other on a development machine:
    its checks with their outcomes in order, and its exit status. What [malloc] gives,
    the clock, and what a buffer holds before it is written, or is left with by a call
    that fails, are arguments. What it prints besides its checks is not modelled. *)
From S2P Require Import Prelude Cstr Awg Crypto AEAD Blake2s X25519 Noise Obf Config ConfigText IpProbe.

(** Whether a check passed, and what it says. *)
Definition check : Set := bool * list Z.

(** [memcmp(a + off, b, length b) == 0]. *)
Definition memcmp (a : list Z) (off : Z) (b : list Z) : res bool :=
  x ← read_n a off (length b); Ok (bool_decide (x = b)).

(** ** Base64 *)

Definition test_base64 : list check :=
  let key := str "OPWipEv6C0PVzD2Ly7yby81zbcjSh/nsAMST3dwz42E=" in
  let raw := awg_b64_decode key 32 in
  let back := raw ← raw; awg_b64_encode_raw raw 64 in
  [(match raw with Some raw => zlen raw =? 32 | None => false end, str "32-byte key decodes");
   (match back with Some back => (zlen back =? 43) && bool_decide (ztake 43 back = ztake 43 key) | None => false end,
    str "re-encodes to the same text");
   (match awg_b64_decode (str "not valid base64!!") 8 with Some _ => false | None => true end,
    str "rejects invalid input")].

(** ** Known answers *)

Definition hex_nibble (c : Z) : Z := if c <=? 57 then c - 48 else (c .| 32) - 97 + 10.

Fixpoint from_hex (hex : list Z) (cap : nat) : list Z :=
  match hex, cap with
  | hi :: lo :: hex, S cap => u8 ((hex_nibble hi .<< 4) .| hex_nibble lo) :: from_hex hex cap
  | _, _ => []
  end.

Section host.
Context `{Entropy} `{Curve}.

Definition test_crypto : list check :=
  let digest := default [] (blake2s 32 [] (str "abc")) in
  let want := from_hex (str "508c5e8c327c14e2e1a72ba34eeb452f37458b209ed63a294d999b4c86675982") 32 in
  let a_priv := from_hex (str "77076d0a7318a57d3c16c17251b26645df4c2f87ebc0992ab177fba51db92c2a") 32 in
  let b_priv := from_hex (str "5dab087e624a8a4b79e17f8b83800ee66f3bb1292618b6fd1c2f8b27ff88e0eb") 32 in
  let a_pub := awg_public_from_private a_priv in
  let want_pub := from_hex (str "8520f0098930a754748b7ddcb43ef75a0dbf3a0d26381af4eba4a98eaa9b4e6a") 32 in
  let b_pub := awg_public_from_private b_priv in
  let shared := (curve a_priv b_pub true).1 in
  let want_shared := from_hex (str "4a5d9d5ba4ce2de1728e3bf480350f25e07e21c947d19e3376f09b3c1e161742") 32 in
  [(bool_decide (digest = want), str "BLAKE2s-256 matches RFC 7693");
   (bool_decide (a_pub = want_pub), str "X25519 public key matches RFC 7748");
   (bool_decide (shared = want_shared), str "X25519 shared secret matches RFC 7748")].

(** [alloc k n] is what the [k]-th [malloc] gives for [n] bytes, [clock k] the [k]-th
    time asked for, [garbage k] the [k]-th buffer before it is written. *)
Context (alloc : nat → Z → option (list Z)) (clock : nat → Z) (garbage : nat → list Z).

(** ** Templates *)

Fixpoint first_chain (l : list (option awg_obf_chain)) : option awg_obf_chain :=
  match l with
  | [] => None
  | Some c :: _ => Some c
  | None :: l => first_chain l
  end.

(** The walk along the chain over two renders: the offset it ends at, and whether literal
    runs were exact and random ones different. *)
Fixpoint obf_walk (its : list awg_obf) (a b : list Z) (len off : Z) (fixed_ok rand_ok : bool) : res (Z * bool * bool) :=
  match its with
  | [] => Ok (off, fixed_ok, rand_ok)
  | o :: its =>
    match o.(kind) with
    | AWG_OBF_BYTES =>
      eqa ← memcmp a off o.(data);
      eqb ← (if (eqa : bool) then memcmp b off o.(data) else Ok false);
      obf_walk its a b len (off + zlen o.(data)) (fixed_ok && eqb) rand_ok
    | AWG_OBF_RAND =>
      same ← (if 16 <=? o.(olen) then run ← read_n b off (Z.to_nat o.(olen)); memcmp a off run else Ok false);
      obf_walk its a b len (off + o.(olen)) fixed_ok (rand_ok && negb same)
    | _ => Ok (off + (len - off), fixed_ok, rand_ok)
    end
  end.

Definition test_obf (cfg : awg_config) (pos : nat) : res (list check * nat) :=
  match first_chain cfg.(c_i) with
  | None => Ok ([], pos)
  | Some c =>
    let len := awg_obf_out_len (Some c) 0 in
    let plausible : check := ((0 <? len) && (len <? 65535), str "length is plausible for a UDP datagram") in
    match alloc 0 len, alloc 1 len with
    | Some a, Some b =>
      let '(a, pos) := awg_obf_render (Some c) a None 0 (clock 0) pos in
      let '(b, pos) := awg_obf_render (Some c) b None 0 (clock 1) pos in
      '(off, fixed_ok, rand_ok) ← obf_walk c.(items) a b len 0 true true;
      Ok ([plausible; (fixed_ok, str "literal runs are byte-exact and stable");
             (rand_ok, str "random runs differ between renders");
             (off =? len, str "tag widths sum to the declared length")], pos)
    | _, _ => Ok ([plausible; (false, str "allocation")], pos)
    end
  end.

(** ** The handshake *)

Definition test_handshake (cfg : awg_config) (pos : nat) : list check * nat :=
  let '(server_priv, pos) := awg_generate_private pos in
  let server_pub := awg_public_from_private server_priv in
  let client := awg_handshake_begin cfg.(private_key) (Some server_pub) (Some cfg.(preshared_key)) 0x11223344 in
  let server := awg_handshake_begin server_priv None (Some cfg.(preshared_key)) 0x55667788 in
  let '(client, init, pos) := awg_create_initiation client (clock 2) pos in
  let '(server, accepted) := awg_consume_initiation server (default (garbage 0) init) in
  let client_pub := awg_public_from_private cfg.(private_key) in
  let recovered := bool_decide (server.(peer_pub) = client_pub) in
  let '(server, resp, pos) := awg_create_response server pos in
  let '(client, agreed) := awg_consume_response client (default (garbage 1) resp) in
  let tampered := <[50%nat := (default (garbage 1) resp).[50] .^ 0x01]> (default (garbage 1) resp) in
  let c2 := awg_handshake_begin cfg.(private_key) (Some server_pub) (Some cfg.(preshared_key)) 0x11223344 in
  let '(c2, _, pos) := awg_create_initiation c2 (clock 3) pos in
  ([(bool_decide (is_Some init), str "initiation builds (148 bytes)");
    (accepted, str "responder accepts it and verifies mac1");
    (recovered, str "responder recovers our static public key");
    (bool_decide (is_Some resp), str "response builds (92 bytes)");
    (agreed, str "initiator accepts the response");
    (bool_decide (client.(send_key) = server.(recv_key)), str "client send key == server receive key");
    (bool_decide (client.(recv_key) = server.(send_key)), str "client receive key == server send key");
    (negb (awg_consume_response c2 tampered).2, str "a corrupted response is rejected")], pos).

(** ** Framing *)

(** A buffer size past the range of [int] is undefined: a [Fault]. *)
Definition test_framing (cfg : awg_config) (pos : nat) : res (list check * nat) :=
  let msg := (λ i, u8 (Z.of_nat i)) <$> seq 0 AWG_MSG_INIT_SIZE in
  let cap := cfg.(s1) + Z.of_nat AWG_MSG_INIT_SIZE + 64 in
  if 2 ^ 31 <=? cap then Fault else
  match alloc 2 cap with
  | None => Ok ([(false, str "allocation")], pos)
  | Some wire =>
    let '(wire, n, pos) :=
      match awg_wrap cfg AWG_KIND_INIT msg cap pos with
      | Ok (d, pos) => (blit 0 d wire, zlen d, pos)
      | _ => (wire, -1, pos)
      end in
    plaintext ← memcmp wire cfg.(s1) msg;
    let '(wire, m, off) :=
      match awg_unwrap cfg AWG_KIND_INIT (ztake n wire) with
      | Ok (pkt, off, m) => (blit 0 pkt wire, m, off)
      | _ => (wire, -1, 0)
      end in
    recovered ← memcmp wire off msg;
    let framing : list check :=
      [(n =? cfg.(s1) + Z.of_nat AWG_MSG_INIT_SIZE, str "wrapped length is padding + message");
       (negb plaintext, str "message body is encrypted, not plaintext");
       ((m =? Z.of_nat AWG_MSG_INIT_SIZE) && (off =? cfg.(s1)), str "unwrap reports the right offsets");
       (recovered, str "unwrap recovers the original message")] in
    match alloc 3 (256 * 16) with
    | None => Ok (framing ++ [(false, str "allocation")], pos)
    | Some _ =>
      let '(bufs, pos) := awg_junk_packets cfg 256 16 pos in
      let sizes_ok := (zlen bufs =? cfg.(jc)) &&
        forallb (λ b, negb ((zlen b <? cfg.(jmin)) || (zlen b >? cfg.(jmax)))) bufs in
      Ok (framing ++ [(sizes_ok, str "junk count and sizes follow Jc/Jmin/Jmax")], pos)
    end
  end.

(** ** Transport *)

(** The two ends of a handshake, and whether it came about. *)
Definition transport_ends (cfg : awg_config) (pos : nat) : awg_handshake * awg_handshake * bool * nat :=
  let '(server_priv, pos) := awg_generate_private pos in
  let server_pub := awg_public_from_private server_priv in
  let client := awg_handshake_begin cfg.(private_key) (Some server_pub) (Some cfg.(preshared_key)) 0xAABBCCDD in
  let server := awg_handshake_begin server_priv None (Some cfg.(preshared_key)) 0x11223344 in
  let '(client, init, pos) := awg_create_initiation client (clock 4) pos in
  let '(server, _) := awg_consume_initiation server (default (garbage 2) init) in
  let '(server, resp, pos) := awg_create_response server pos in
  let '(client, agreed) := awg_consume_response client (default (garbage 3) resp) in
  (client, server, agreed, pos).

(** The parser on a packet it did not build; [reply] is [None] if it was not built. *)
Definition parser_checks (cfg : awg_config) : res (list check) :=
  let reply := default [] (ipprobe_build_dns 256 0x04040808 cfg.(address) 40000 0x1234 (str "example.com")) in
  '(rc, _) ← ipprobe_parse_dns reply (zlen reply) 0x04040808 53 0x1234;
  '(rc_port, _) ← ipprobe_parse_dns reply (zlen reply) 0x04040808 9999 0x1234;
  '(rc_host, _) ← ipprobe_parse_dns reply (zlen reply) 0x01010101 53 0x1234;
  Ok [(rc =? -8, str "parser walks IP, UDP and DNS, then reports 'no A record'");
        (rc_port =? -5, str "a mismatched port is rejected");
        (rc_host =? -4, str "a packet from the wrong host is rejected")].

(** A packet that is not built or sealed leaves [memcmp] and [wire\[n - 1\]] outside
    their buffers: a [Fault]. *)
Definition test_transport (cfg : awg_config) (pos : nat) : res (list check * nat) :=
  let '(client, server, agreed, pos) := transport_ends cfg pos in
  if negb agreed then Ok ([(false, str "handshake for transport")], pos) else
  match ipprobe_build_dns 256 cfg.(address) 0x04040808 40000 0x1234 (str "example.com") with
  | None => Fault
  | Some ip =>
    let ip_len := zlen ip in
    '(wire, n, pos) ←
      match awg_transport_seal cfg client 0 ip 2048 pos with
      | Ok (d, pos) => Ok (blit 0 d (garbage 4), zlen d, pos)
      | Err => Ok (garbage 4, -1, pos)
      | Fault => Fault
      end;
    plaintext ← memcmp wire (cfg.(s4) + 16) ip;
    '(pkt, opened) ← awg_transport_open cfg server (ztake n wire) 2048;
    let wire := blit 0 pkt wire in
    let '(m, plain, ctr) := match opened with Some (out, ctr) => (zlen out, out, ctr) | None => (-1, [], 999) end in
    if n <? 1 then Fault else
    let wire := <[Z.to_nat (n - 1) := wire.[Z.to_nat (n - 1)] .^ 0x01]> wire in
    '(_, again) ← awg_transport_open cfg server (ztake n wire) 2048;
    parsed ← parser_checks cfg;
    Ok ([(28 <? ip_len, str "IPv4/UDP/DNS packet builds");
           (0 <? n, str "seal produces a datagram");
           (negb plaintext, str "payload is encrypted");
           (ip_len <=? m, str "peer opens it");
           (ctr =? 0, str "counter survives the round trip");
           ((ip_len <=? m) && bool_decide (ztake ip_len plain = ip), str "payload comes back byte-exact");
           (forallb (λ x, x =? 0) (zdrop ip_len plain), str "padding is zeroed");
           (bool_decide (again = None), str "a corrupted data packet is rejected")] ++ parsed, pos)
  end.

(** ** The program *)

(** The arguments after the program's name; the exit status. *)
Definition main_host (args : list (list Z)) (files : list Z → option (list Z)) : res Z :=
  match args with
  | [] => Ok 2
  | path :: _ =>
    match awg_config_load (files path) path 256 with
    | inr _ => Ok 1
    | inl cfg =>
      '(obf, pos) ← test_obf cfg 0;
      let known := test_crypto in
      let '(handshake, pos) := test_handshake cfg pos in
      '(framing, pos) ← test_framing cfg pos;
      '(transport, _) ← test_transport cfg pos;
      let failures := length (filter (λ c : check, c.1 = false) (test_base64 ++ obf ++ known ++ handshake ++ framing ++ transport)) in
      Ok (if decide (failures = 0%nat) then 0 else 1)
    end
  end.

End host.

(** ** The parts: what the checks come to *)

Definition passed (cs : list check) : Prop := Forall (λ c : check, c.1 = true) cs.

Lemma passed_cons b what cs : b = true → passed cs → passed ((b, what) :: cs).
Proof. intros -> Hc. by constructor. Qed.

Lemma base64_passes : passed test_base64.
Proof. repeat (apply passed_cons; [by vm_compute|]). by apply Forall_nil_2. Qed.

(** The query for the harness's name, between any two addresses. *)
Definition dns_body : list Z :=
  [18; 52; 1; 0; 0; 1; 0; 0; 0; 0; 0; 0; 7] ++ str "example" ++ [3] ++ str "com" ++ [0; 0; 1; 0; 1].

Lemma dns_shape src dst : ∃ c1 c2 k1 k2,
  ipprobe_build_dns 256 src dst 40000 0x1234 (str "example.com") =
  Some ([69; 0; 0; 57; 18; 52; 64; 0; 64; 17; c1; c2] ++ le_bytes 4 src ++ le_bytes 4 dst ++
        [156; 64; 0; 53; 0; 37; k1; k2] ++ dns_body) ∧ is_bytes [c1; c2; k1; k2].
Proof.
  unfold ipprobe_build_dns. change (256 <? _) with false. cbn iota zeta.
  assert (∃ name, encode_name (256 - IP_HDR - UDP_HDR - 12 - 4) (str "example.com") = Some name ∧
    name = [7] ++ str "example" ++ [3] ++ str "com" ++ [0]) as (name & -> & ->) by (eexists; by split; vm_compute).
  generalize (le_bytes 4 src) (le_bytes 4 dst) (length_le_bytes 4 src) (length_le_bytes 4 dst).
  intros s d Hs Hd.
  explode s Hs. explode d Hd.
  set (ck_ip := fold (sum16 _ 0)). set (ck_udp := if _ =? 0 then 65535 else _).
  exists (u8 (ck_ip .>> 8)), (u8 ck_ip), (u8 (ck_udp .>> 8)), (u8 ck_udp). split; [|word_list].
  clearbody ck_ip ck_udp. reflexivity.
Qed.

Lemma dns_builds src dst : ∃ ip, ipprobe_build_dns 256 src dst 40000 0x1234 (str "example.com") = Some ip ∧
  is_bytes ip ∧ zlen ip = 57.
Proof.
  destruct (dns_shape src dst) as (c1 & c2 & k1 & k2 & -> & Hb). eexists. split; [done|].
  apply Forall_cons in Hb as [? [? [? [? _]%Forall_cons]%Forall_cons]%Forall_cons].
  split; [|unfold zlen; rewrite !length_app, !length_le_bytes; done].
  repeat apply is_bytes_app; auto using le_bytes_bytes; try word_list.
  all: by vm_compute; repeat constructor.
Qed.

Lemma parser_passes cfg : ∃ cs, parser_checks cfg = Ok cs ∧ passed cs ∧ length cs = 3%nat.
Proof.
  unfold parser_checks. destruct (dns_shape 0x04040808 cfg.(address)) as (c1 & c2 & k1 & k2 & -> & _). cbn [default].
  generalize (le_bytes 4 cfg.(address)) (length_le_bytes 4 cfg.(address)). intros d Hd.
  explode d Hd.
  eexists. split; [reflexivity|]. split; [|done]. repeat (apply passed_cons; [done|]). by apply Forall_nil_2.
Qed.

(** The vectors of RFC 7748, section 6.1. *)
Definition rfc_a_priv : list Z := from_hex (str "77076d0a7318a57d3c16c17251b26645df4c2f87ebc0992ab177fba51db92c2a") 32.
Definition rfc_b_priv : list Z := from_hex (str "5dab087e624a8a4b79e17f8b83800ee66f3bb1292618b6fd1c2f8b27ff88e0eb") 32.
Definition rfc_a_pub : list Z := from_hex (str "8520f0098930a754748b7ddcb43ef75a0dbf3a0d26381af4eba4a98eaa9b4e6a") 32.
Definition rfc_b_pub : list Z := from_hex (str "de9edb7d7b7dc1b4d35b61c2ece435373f8343c85b78674dadfc7e146f882b4f") 32.
Definition rfc_shared : list Z := from_hex (str "4a5d9d5ba4ce2de1728e3bf480350f25e07e21c947d19e3376f09b3c1e161742") 32.

(** The curve gives the RFC's answers, which is a fact about it and not about the code. *)
Definition known_answers `{Curve} : Prop :=
  awg_public_from_private rfc_a_priv = rfc_a_pub ∧ (curve rfc_a_priv (awg_public_from_private rfc_b_priv) true).1 = rfc_shared.

Lemma crypto_passes `{Curve} : known_answers → passed test_crypto.
Proof.
  intros [Ha Hs]. apply passed_cons; [by vm_compute|].
  apply passed_cons; [by apply bool_decide_eq_true_2|]. apply passed_cons; [by apply bool_decide_eq_true_2|apply Forall_nil_2].
Qed.

Section parts.
Context `{Entropy} `{Curve} `{!CurveLaws}.
Context (alloc : nat → Z → option (list Z)) (clock : nat → Z) (garbage : nat → list Z).

(** The curve gives both sides the same secret for the keys that a handshake from [pos]
    draws. *)
Definition secrets_agree (cfg : awg_config) (idx now : Z) (pos : nat) : Prop :=
  let '(sr, p1) := awg_generate_private pos in
  let si := cfg.(private_key) in
  let ei := (awg_generate_private p1).1 in
  let p2 := (awg_create_initiation (begin_i si sr (Some cfg.(preshared_key)) idx) now p1).2 in
  let er := (awg_generate_private p2).1 in
  dh_agree ei sr ∧ dh_agree si sr ∧ dh_agree er ei ∧ dh_agree er si.

(** The response of the handshake from [pos]. *)
Definition response_sent (cfg : awg_config) (idxI idxR now : Z) (pos : nat) : list Z :=
  let '(sr, p1) := awg_generate_private pos in
  let '(_, m1, p2) := awg_create_initiation (begin_i cfg.(private_key) sr (Some cfg.(preshared_key)) idxI) now p1 in
  let hsR := (awg_consume_initiation (begin_r sr (Some cfg.(preshared_key)) idxR) (default [] m1)).1 in
  default [] (awg_create_response hsR p2).1.2.

Definition tamper (m : list Z) : list Z := <[50%nat := m.[50] .^ 0x01]> m.

(** The first tag of a message does not collide with that of the message tampered with. *)
Definition mac_detects (pub m : list Z) : Prop := mac1 pub (take 60 (tamper m)) ≠ mac1 pub (take 60 m).

Lemma create_initiation_s_pub hs now pos : (awg_create_initiation hs now pos).1.1.(s_pub) = hs.(s_pub).
Proof.
  unfold awg_create_initiation. destruct (awg_generate_private pos) as [priv q].
  unfold mix_key, mix_ck, mix_h, chain_start.
  repeat (case_match; simplify_eq; try done).
Qed.

(** A response with its first tag right is refused by anyone with the same key once it is
    tampered with, before any other tag is looked at. *)
Lemma tampered_refused hs hs' m : is_bytes m → length m = AWG_MSG_RESP_SIZE → hs'.(s_pub) = hs.(s_pub) →
  (awg_consume_response hs m).2 = true → mac_detects hs.(s_pub) m → response_addressed hs' (tamper m) = false.
Proof.
  intros Hb Hl Hp Hok Hd. unfold response_addressed. apply andb_false_iff. right.
  apply not_true_is_false. intros He. apply Hd.
  assert (crypto_equal (mac1 hs.(s_pub) (take 60 m)) (drop 60 m) 16 = true) as Hm.
  { revert Hok. unfold awg_consume_response. destruct (get_u32_le m =? 2); cbn [negb]; [|done].
    destruct (_ =? local_index hs); cbn [negb]; [|done]. destruct (crypto_equal (mac1 hs.(s_pub) (take 60 m)) (drop 60 m) 16); [intros _; reflexivity|].
    intros E. discriminate E. }
  unfold AWG_MSG_RESP_SIZE in Hl. assert (drop 60 (tamper m) = drop 60 m) as Ht.
  { unfold tamper. rewrite drop_insert_lt by lia. done. }
  rewrite Ht, Hp in He.
  apply crypto_equal_spec in Hm, He; rewrite ?length_mac1, ?length_drop; auto using mac1_bytes with word; try lia.
  rewrite !(take_ge (mac1 _ _)) in * by (rewrite length_mac1; lia). congruence.
Qed.

Lemma unaddressed_refused hs m : response_addressed hs m = false → (awg_consume_response hs m).2 = false.
Proof.
  unfold response_addressed, awg_consume_response.
  destruct (get_u32_le m =? 2); cbn [negb andb]; [|done].
  destruct (get_u32_le (drop 8 m) =? local_index hs); cbn [negb andb]; [|done].
  by intros ->.
Qed.

Lemma handshake_passes cfg pos : secrets_agree cfg 0x11223344 (clock 2) pos →
  mac_detects (awg_public_from_private cfg.(private_key)) (response_sent cfg 0x11223344 0x55667788 (clock 2) pos) →
  passed (test_handshake clock garbage cfg pos).1.
Proof.
  unfold secrets_agree, response_sent, test_handshake. destruct (awg_generate_private pos) as [sr p1].
  fold (begin_i cfg.(private_key) sr (Some cfg.(preshared_key)) 0x11223344).
  fold (begin_r sr (Some cfg.(preshared_key)) 0x55667788).
  intros (D1 & D2 & D3 & D4) Hmac.
  destruct (steps_agree _ sr (Some cfg.(preshared_key)) 0x11223344 0x55667788 (clock 2) p1 _
    ltac:(by unfold is_u) ltac:(by unfold is_u) D1 D2 D3 D4)
    as (hsI1 & m1 & p2 & hsR1 & hsR & m2 & p3 & hsI & E1 & E2 & E3 & E4 & Hp & Hs & Hl & Hb & Hk1 & Hk2 & _).
  rewrite E1 in E3, Hmac |- *. cbn [fst snd from_option id] in E3, Hmac |- *.
  rewrite E2 in Hmac |- *. cbn [fst] in Hmac. rewrite E3 in Hmac |- *. cbn [fst snd from_option id] in Hmac |- *. rewrite E4.
  pose proof (create_initiation_s_pub (begin_i cfg.(private_key) sr (Some cfg.(preshared_key)) 0x11223344) (clock 3) p3) as Hc.
  destruct (awg_create_initiation _ (clock 3) p3) as [[c2 m3] p4]. cbn [fst] in Hc |- *.
  repeat (apply passed_cons; [first [done|by apply bool_decide_eq_true_2]|]). apply passed_cons; [|by apply Forall_nil_2].
  rewrite unaddressed_refused; [done|]. fold (tamper m2).
  apply (tampered_refused hsI1); [done|done| |by rewrite E4|by rewrite Hs].
  rewrite Hc, Hs. by destruct (begin_fields cfg.(private_key) (Some (awg_public_from_private sr)) (Some cfg.(preshared_key)) 0x11223344).
Qed.

(** [malloc] gives what it is asked for, or nothing. *)
Definition alloc_ok : Prop := ∀ k n b, alloc k n = Some b → zlen b = n.

Lemma memcmp_at pre x post y off : off = zlen pre → length y = length x →
  memcmp (pre ++ x ++ post) off y = Ok (bool_decide (x = y)).
Proof. intros -> Hl. unfold memcmp. by rewrite read_n_app. Qed.

Lemma blit_front d l : blit 0 d l = d ++ drop (length d) l.
Proof. done. Qed.

(** The message of the harness. *)
Definition host_msg : list Z := (λ i, u8 (Z.of_nat i)) <$> seq 0 AWG_MSG_INIT_SIZE.

Lemma zlen_host_msg : zlen host_msg = 148.
Proof. done. Qed.

(** The wrapped message in its buffer. *)
Lemma framing_wire cfg wire pos : nonce_ok cfg cfg.(s1) → zlen wire = cfg.(s1) + 212 →
  let prefix := (awg_random_bytes (Z.to_nat cfg.(s1)) pos).1 in
  let body := header_xor cfg prefix host_msg in
  ∃ post, awg_wrap cfg AWG_KIND_INIT host_msg (cfg.(s1) + 148 + 64) pos = Ok (prefix ++ body, (pos + Z.to_nat cfg.(s1))%nat) ∧
    zlen prefix = cfg.(s1) ∧ zlen body = 148 ∧ blit 0 (prefix ++ body) wire = prefix ++ body ++ post.
Proof.
  intros Hn Hw prefix body. exists (drop (length (prefix ++ body)) wire). rewrite wrap_spec. cbn [padding_for].
  rewrite decide_True by (split; [done|rewrite zlen_host_msg; lia]).
  split; [done|]. split; [apply zlen_random, Hn|]. split; [unfold body; by rewrite zlen_header_xor|].
  by rewrite blit_front, <- app_assoc.
Qed.

Definition junk_fits (cfg : awg_config) : Prop :=
  0 <= cfg.(jc) <= 16 ∧ 0 <= cfg.(jmin) <= 256 ∧ cfg.(jmin) <= cfg.(jmax) < 2 ^ 31.

Lemma junk_passes cfg pos : junk_fits cfg →
  let bufs := (awg_junk_packets cfg 256 16 pos).1 in
  (zlen bufs =? cfg.(jc)) && forallb (λ b, negb ((zlen b <? cfg.(jmin)) || (zlen b >? cfg.(jmax)))) bufs = true.
Proof.
  intros (Hc & Hmin & Hmax) bufs. destruct (junk_bounds cfg 256 16 pos) as [Hl Hf]; [lia..|]. fold bufs in Hl, Hf.
  apply andb_true_iff. split; [apply Z.eqb_eq; lia|]. apply forallb_forall. intros b Hb%list_elem_of_In.
  rewrite Forall_forall in Hf. destruct (Hf b Hb) as (_ & [H2 H3] & H4 & H5).
  apply negb_true_iff, orb_false_iff. rewrite Z.gtb_ltb, !Z.ltb_ge. lia.
Qed.

Lemma framing_passes cfg pos : alloc_ok → is_Some (alloc 2 (cfg.(s1) + 212)) → is_Some (alloc 3 4096) →
  cfg.(have_header_protection) = true → 12 <= cfg.(s1) < 2 ^ 31 - 212 → junk_fits cfg →
  header_xor cfg (awg_random_bytes (Z.to_nat cfg.(s1)) pos).1 host_msg ≠ host_msg →
  ∃ cs pos', test_framing alloc cfg pos = Ok (cs, pos') ∧ passed cs.
Proof.
  intros Ha [wire Hw] [jb Hj] Hp Hs Hjf Hx. unfold test_framing. fold host_msg.
  change (Z.of_nat AWG_MSG_INIT_SIZE) with 148. rewrite (proj2 (Z.leb_gt _ _)) by lia.
  replace (s1 cfg + 148 + 64) with (s1 cfg + 212) by lia. rewrite Hw. apply Ha in Hw.
  assert (nonce_ok cfg cfg.(s1)) as Hn by (split; lia).
  destruct (framing_wire cfg wire pos Hn Hw) as (post & E & Hlp & Hlb & Eb).
  replace (s1 cfg + 148 + 64) with (s1 cfg + 212) in E by lia. rewrite E.
  set (prefix := (awg_random_bytes _ _).1) in *. set (body := header_xor _ _ _) in *. assert (header_xor cfg prefix body = host_msg) as Hback by apply header_xor_twice.
  clearbody prefix body. clear E.
  rewrite Eb, zlen_app, Hlp, Hlb.
  rewrite memcmp_at by (try done; unfold zlen in Hlb; change (length host_msg) with 148%nat; lia). cbn [mbind res_bind].
  rewrite bool_decide_eq_false_2 by done.
  replace (ztake (s1 cfg + 148) (prefix ++ body ++ post)) with (prefix ++ body).
  2: { rewrite app_assoc. symmetry. apply ztake_app. rewrite zlen_app. lia. }
  rewrite (unwrap_spec cfg AWG_KIND_INIT prefix body) by (first [done|by intros ->]). cbn [padding_for].
  rewrite Hback.
  assert (zlen host_msg = 148) as Hm by done. rewrite Hlb.
  rewrite blit_front, <- !app_assoc.  rewrite memcmp_at by done. cbn [mbind res_bind].
  rewrite bool_decide_eq_true_2 by done. change (256 * 16) with 4096. rewrite Hj.
  pose proof (junk_passes cfg (pos + Z.to_nat (s1 cfg))%nat Hjf) as Hjp.
  destruct (awg_junk_packets cfg 256 16 _) as [bufs p']. cbn [fst] in Hjp. rewrite Hjp, !Z.eqb_refl.
  eexists _, _. split; [done|]. repeat (apply passed_cons; [done|]). by apply Forall_nil_2.
Qed.

(** Without header protection the body is sent as it is, so the harness reports it as
    unencrypted, whatever else the configuration says. *)
Lemma framing_unprotected cfg pos cs pos' : alloc_ok → cfg.(have_header_protection) = false →
  test_framing alloc cfg pos = Ok (cs, pos') → ¬ passed cs.
Proof.
  intros Ha Hp. unfold test_framing. fold host_msg. change (Z.of_nat AWG_MSG_INIT_SIZE) with 148.
  destruct (2 ^ 31 <=? _); [done|]. destruct (alloc 2 _) as [wire|] eqn:Hw.
  2: { intros [= <- <-] Hc. by apply Forall_cons in Hc as [? _]. }
  apply Ha in Hw. destruct (decide (0 <= cfg.(s1))) as [Hs|Hs].
  - assert (nonce_ok cfg cfg.(s1)) as Hn by (split; [done|congruence]).
    destruct (framing_wire cfg wire pos Hn ltac:(lia)) as (post & -> & Hlp & Hlb & Eb).
    unfold header_xor in *. rewrite Hp in *. rewrite Eb, memcmp_at by done. cbn [mbind res_bind].
    rewrite bool_decide_eq_true_2 by done.
    destruct (match awg_unwrap _ _ _ with Ok _ => _ | _ => _ end) as [[wire' m] off].
    destruct (memcmp wire' off host_msg) as [b| |]; cbn [mbind res_bind]; [|done..].
    destruct (alloc 3 _); [destruct (awg_junk_packets _ _ _ _)|]; intros [= <- <-] Hc;
      apply Forall_cons in Hc as [_ Hc]; by apply Forall_cons in Hc as [? _].
  - destruct (match awg_wrap _ _ _ _ _ with Ok _ => _ | _ => _ end) as [[wire' n] p].
    unfold memcmp, read_n. by rewrite (proj2 (Z.leb_gt 0 _)) by lia.
Qed.

(** Random runs of sixteen bytes and more differ between two renders. *)
Fixpoint runs_differ (its : list awg_obf) (off : Z) (a b : list Z) : Prop :=
  match its with
  | [] => True
  | o :: its =>
    (o.(kind) = AWG_OBF_RAND → 16 <= o.(olen) →
     slice (Z.to_nat off) (Z.to_nat o.(olen)) a ≠ slice (Z.to_nat off) (Z.to_nat o.(olen)) b) ∧
    runs_differ its (off + tag_out_len o 0) a b
  end.

Lemma slice_app pre x post off n : off = zlen pre → length x = n → slice (Z.to_nat off) n (pre ++ x ++ post) = x.
Proof.
  intros -> <-. unfold slice, zlen. rewrite Nat2Z.id, drop_app_length. apply take_app_length.
Qed.

(** The walk ends at the end of the chain and finds everything in order. *)
Lemma obf_walk_passes its nowA nowB bsA bsB preA preB postA postB len off :
  Forall2 (tag_shows [] nowA) its bsA → Forall2 (tag_shows [] nowB) its bsB → Forall wf_item its →
  zlen preA = off → zlen preB = off → len = off + zlen (concat bsA) →
  runs_differ its off (preA ++ concat bsA ++ postA) (preB ++ concat bsB ++ postB) →
  obf_walk its (preA ++ concat bsA ++ postA) (preB ++ concat bsB ++ postB) len off true true = Ok (len, true, true).
Proof.
  intros HA. revert bsB preA preB off. induction HA as [|o xA its bsA Hx _ IH]; intros bsB preA preB off HB Hwf HpA HpB Hl Hd.
  - cbn in Hl. cbn [obf_walk]. by replace off with len by (unfold zlen in *; cbn in *; lia).
  - inversion HB as [|o' xB its' bsB' Hy HB']; subst o' its' bsB. rename bsB' into bsB. clear HB.
    apply Forall_cons in Hwf as [Ho Hwf]. cbn [concat] in *. rewrite <- !app_assoc in *. cbn [runs_differ] in Hd.
    destruct Hd as [Hdo Hd]. rewrite zlen_app in Hl.
    pose proof (tag_shows_len _ _ _ _ Hx) as HlA. pose proof (tag_shows_len _ _ _ _ Hy) as HlB.
    change (zlen (@nil Z)) with 0 in HlA, HlB.
    assert (∀ f r, f = true → r = true →
      obf_walk its (preA ++ xA ++ concat bsA ++ postA) (preB ++ xB ++ concat bsB ++ postB) len
        (off + tag_out_len o 0) f r = Ok (len, true, true)) as Hrest.
    { intros f r -> ->. rewrite !(app_assoc preA), !(app_assoc preB) in Hd |- *.
      apply IH; [done|done| | | |done]; rewrite ?zlen_app; lia. }
    cbn [obf_walk]. destruct o as [k n d]. cbn [kind olen data] in *.
    destruct k; try (do 3 f_equal; lia).
    + inversion Hx; subst. inversion Hy; subst.
      rewrite !memcmp_at by done. rewrite !bool_decide_eq_true_2 by done. cbn [mbind res_bind].
      by apply Hrest.
    + cbn [tag_out_len kind olen] in HlA, HlB. unfold wf_item in Ho. cbn in Ho. destruct (Z.leb_spec 16 n) as [Hn|Hn].
      * specialize (Hdo eq_refl Hn). rewrite !slice_app in Hdo by (try done; unfold zlen in *; lia).
        rewrite <- HpB at 1. rewrite read_n_app by (unfold zlen in *; lia). cbn [mbind res_bind].
        rewrite memcmp_at by (try done; unfold zlen in *; lia). cbn [mbind res_bind].
        rewrite bool_decide_eq_false_2 by done. by apply Hrest.
      * cbn [mbind res_bind]. by apply Hrest.
Qed.

(** The renders of the two buffers, with the position after them. *)
Definition renders (cfg : awg_config) (pos : nat) : list Z * list Z * nat :=
  match first_chain cfg.(c_i) with
  | None => ([], [], pos)
  | Some c =>
    let len := awg_obf_out_len (Some c) 0 in
    let '(a, pos) := awg_obf_render (Some c) (default [] (alloc 0 len)) None 0 (clock 0) pos in
    let '(b, pos) := awg_obf_render (Some c) (default [] (alloc 1 len)) None 0 (clock 1) pos in
    (a, b, pos)
  end.

(** A chain, if there is one, is plausible, gets its buffers and draws afresh. *)
Definition obf_fits (cfg : awg_config) (pos : nat) : Prop :=
  ∀ c, first_chain cfg.(c_i) = Some c →
    0 < awg_obf_out_len (Some c) 0 < 65535 ∧
    is_Some (alloc 0 (awg_obf_out_len (Some c) 0)) ∧ is_Some (alloc 1 (awg_obf_out_len (Some c) 0)) ∧
    runs_differ c.(items) 0 (renders cfg pos).1.1 (renders cfg pos).1.2.

Lemma first_chain_ok l c : Forall chain_ok l → first_chain l = Some c → Forall wf_item c.(items).
Proof.
  induction 1 as [|[c'|] l Hc _ IH]; cbn [first_chain]; [done| |done]. intros [= <-]. by destruct Hc.
Qed.

Lemma render_alloc c dst now pos : Forall wf_item c.(items) → zlen dst = awg_obf_out_len (Some c) 0 →
  ∃ bs pos', awg_obf_render (Some c) dst None 0 now pos = (concat bs, pos') ∧
    Forall2 (tag_shows [] now) c.(items) bs ∧ zlen (concat bs) = awg_obf_out_len (Some c) 0.
Proof.
  intros Hwf Hl. cbn [awg_obf_render awg_obf_out_len] in *. rewrite out_len_foldr in *.
  destruct (render_loop_spec c.(items) 0 None [] now dst pos Hwf (or_intror (conj eq_refl eq_refl)) (Forall_nil_2 _) ltac:(done) ltac:(done))
    as (bs & Hbs & E); [change (zlen (@nil Z)) with 0; lia|].
  change (zlen (@nil Z)) with 0 in E. destruct (render_loop _ _ _ _ _ _ _) as [r p'] eqn:Er. cbn [fst] in E.
  assert (zlen (concat bs) = foldr (λ o t, tag_out_len o 0 + t) 0 c.(items)) as Hc.
  { clear - Hbs. induction Hbs as [|o b its bs Hsh _ IH]; [done|]. cbn [concat foldr].
    by rewrite zlen_app, IH, (tag_shows_len _ _ _ _ Hsh). }
  exists bs, p'. split; [|split; [done|lia]]. f_equal. rewrite E. change (Z.to_nat 0) with 0%nat. rewrite blit_front.
  rewrite drop_ge, app_nil_r; [done|]. unfold zlen in *. lia.
Qed.

Lemma obf_passes cfg pos : alloc_ok → Forall chain_ok cfg.(c_i) → obf_fits cfg pos →
  ∃ cs, test_obf alloc clock cfg pos = Ok (cs, (renders cfg pos).2) ∧ passed cs.
Proof.
  intros Ha Hc Hf. unfold test_obf, obf_fits, renders in *. destruct (first_chain cfg.(c_i)) as [c|] eqn:E.
  2: { exists []. split; [done|]. apply Forall_nil_2. }
  destruct (Hf c eq_refl) as (Hl & [a Ea] & [b Eb] & Hd). pose proof (first_chain_ok _ _ Hc E) as Hwf.
  rewrite Ea, Eb in *. cbn [from_option id default] in *. apply Ha in Ea, Eb. cbv zeta in *.
  destruct (render_alloc c a (clock 0) pos Hwf Ea) as (bsA & p1 & RA & HA & HlA). rewrite RA in Hd |- *.
  destruct (render_alloc c b (clock 1) p1 Hwf Eb) as (bsB & p2 & RB & HB & HlB). rewrite RB in Hd |- *. cbn [fst snd] in Hd |- *.
  pose proof (obf_walk_passes c.(items) (clock 0) (clock 1) bsA bsB [] [] [] [] (awg_obf_out_len (Some c) 0) 0) as W.
  rewrite !app_nil_r in W. cbn [app] in W. rewrite W by (done || lia). cbn [mbind res_bind].
  rewrite Z.eqb_refl, !(proj2 (Z.ltb_lt _ _)) by lia.
  eexists. split; [done|]. repeat (apply passed_cons; [done|]). by apply Forall_nil_2.
Qed.

(** The ends of the transport test's handshake and the position after it. *)
Lemma ends_agree cfg pos : secrets_agree cfg 0xAABBCCDD (clock 4) pos →
  ∃ client server p, transport_ends clock garbage cfg pos = (client, server, true, p) ∧
    peers client server ∧ client.(remote_index) = 0x11223344.
Proof.
  unfold secrets_agree, transport_ends. destruct (awg_generate_private pos) as [sr p1].
  fold (begin_i cfg.(private_key) sr (Some cfg.(preshared_key)) 0xAABBCCDD).
  fold (begin_r sr (Some cfg.(preshared_key)) 0x11223344).
  intros (D1 & D2 & D3 & D4).
  destruct (steps_agree _ sr (Some cfg.(preshared_key)) 0xAABBCCDD 0x11223344 (clock 4) p1 _
    ltac:(by unfold is_u) ltac:(by unfold is_u) D1 D2 D3 D4)
    as (hsI1 & m1 & p2 & hsR1 & hsR & m2 & p3 & hsI & E1 & E2 & E3 & E4 & _ & _ & _ & _ & Hk & _ & _ & _ & Hr & _ & _ & Hl & _).
  rewrite E1 in E3 |- *. cbn [fst snd from_option id] in E3 |- *. rewrite E2, E3. cbn [from_option id]. rewrite E4.
  exists hsI, hsR, p3. split; [done|]. split; [split; [done|by rewrite Hr, Hl]|done].
Qed.

(** The packet of the transport test, sealed by its client. *)
Definition test_packet (cfg : awg_config) : list Z :=
  default [] (ipprobe_build_dns 256 cfg.(address) 0x04040808 40000 0x1234 (str "example.com")).

Definition test_prefix (cfg : awg_config) (pos : nat) : list Z :=
  (awg_random_bytes (Z.to_nat cfg.(s4)) (transport_ends clock garbage cfg pos).2).1.

(** The keystream changes the packet, and the header is not its own ciphertext. *)
Definition keystream_shows (cfg : awg_config) (pos : nat) : Prop :=
  let client := (transport_ends clock garbage cfg pos).1.1.1 in
  take 57 (chacha20poly1305_encrypt (padded_payload (test_packet cfg)) [] 0 client.(send_key)) ≠ test_packet cfg ∧
  get_u32_le (header_xor cfg (test_prefix cfg pos) (transport_header cfg.(h4) client.(remote_index) 0)) ≠ cfg.(h4).

Lemma transport_passes cfg pos : is_u 32 cfg.(h4) → length (garbage 4) = 2048%nat →
  nonce_ok cfg cfg.(s4) → cfg.(s4) <= 1952 →
  secrets_agree cfg 0xAABBCCDD (clock 4) pos → keystream_shows cfg pos →
  ∃ cs pos', test_transport clock garbage cfg pos = Ok (cs, pos') ∧ passed cs.
Proof.
  intros H4 Hg Hn Hs Hd. unfold keystream_shows, test_prefix, test_packet, test_transport.
  destruct (ends_agree cfg pos Hd) as (client & server & p & -> & Hpeers & Hidx). cbn [fst snd negb].
  assert (is_u 32 client.(remote_index)) as Hri by (rewrite Hidx; by unfold is_u).
  destruct (dns_builds cfg.(address) 0x04040808) as (ip & -> & Hib & Hil). cbn [from_option id]. intros [Hks Hgarb].
  rewrite seal_spec by apply Hn. rewrite Hil. change (padded_to_16 57) with 64.
  rewrite decide_True by (split; [done|lia]).
  set (prefix := (awg_random_bytes _ p).1) in *. assert (zlen prefix = cfg.(s4)) as Hpl by apply zlen_random, Hn.
  clearbody prefix. cbn [mbind res_bind].
  pose proof (open_sealed_at cfg client server 0 prefix ip 2048 Hpeers Hn Hpl H4 Hri ltac:(by unfold is_u) Hib
    ltac:(rewrite Hil; by vm_compute) ltac:(done)) as Ho.
  destruct (transport_header_fields cfg.(h4) client.(remote_index) 0 H4 Hri ltac:(by unfold is_u)) as (Lh & _).
  set (hdr := transport_header _ _ _) in *. set (ct := chacha20poly1305_encrypt _ _ _ _) in *.
  assert (sealed cfg client 0 prefix ip = prefix ++ header_xor cfg prefix hdr ++ ct) as Es by done.
  assert (length ct = 80%nat) as Lc.
  { unfold ct. rewrite length_encrypt. pose proof (zlen_padded_payload ip) as E. rewrite Hil in E.
    change (padded_to_16 57) with 64 in E. unfold zlen in E. lia. }
  assert (zlen (sealed cfg client 0 prefix ip) = cfg.(s4) + 96) as Hz.
  { rewrite Es, !zlen_app, Hpl, zlen_header_xor. unfold zlen. rewrite Lh, Lc. lia. }
  rewrite blit_front, Hz. set (post := drop _ (garbage 4)). clearbody post.
  replace (memcmp (sealed cfg client 0 prefix ip ++ post) (s4 cfg + 16) ip) with (Ok (bool_decide (take 57 ct = ip))).
  2: { rewrite Es. replace ((prefix ++ header_xor cfg prefix hdr ++ ct) ++ post)
         with ((prefix ++ header_xor cfg prefix hdr) ++ take 57 ct ++ drop 57 ct ++ post)
         by (rewrite (app_assoc (take 57 ct)), take_drop; by rewrite <- !app_assoc).
       symmetry. apply memcmp_at; [rewrite zlen_app, Hpl, zlen_header_xor; unfold zlen; lia|].
       rewrite length_take. unfold zlen in Hil. lia. }
  cbn [mbind res_bind]. rewrite bool_decide_eq_false_2 by done.
  rewrite ztake_app by done. rewrite Ho. cbn [mbind res_bind].
  rewrite (proj2 (Z.ltb_ge (s4 cfg + 96) 1)) by (destruct Hn; lia).
  set (x := Z.lxor _ 1). clearbody x.
  assert (zlen (prefix ++ hdr ++ ct) = cfg.(s4) + 96) as Hz'.
  { rewrite !zlen_app, Hpl. unfold zlen. rewrite Lh, Lc. lia. }
  replace (ztake (s4 cfg + 96) _) with (prefix ++ hdr ++ <[79%nat := x]> ct).
  2: { rewrite blit_front, insert_app_l by (unfold zlen in Hz'; destruct Hn; lia).
       rewrite ztake_app by (unfold zlen in *; rewrite length_insert; done).
       replace (Z.to_nat (s4 cfg + 96 - 1)) with (length prefix + (length hdr + 79))%nat
         by (unfold zlen in Hpl; rewrite Lh; lia).
       by rewrite !insert_app_r. }
  rewrite open_again by done. cbn [mbind res_bind].
  destruct (parser_passes cfg) as (parsed & -> & Hparsed & _). cbn [mbind res_bind].
  assert (ztake 57 (padded_payload ip) = ip ∧ forallb (λ x, x =? 0) (zdrop 57 (padded_payload ip)) = true) as [Et Ez].
  { unfold padded_payload. rewrite ztake_app, zdrop_app by done. split; [done|].
    apply forallb_forall. intros y Hy%list_elem_of_In. apply elem_of_replicate in Hy as [-> _]. done. }
  rewrite Et, Ez, zlen_padded_payload, Hil, bool_decide_eq_true_2 by done.
  rewrite (proj2 (Z.ltb_lt 0 (s4 cfg + 96))) by (destruct Hn; lia).
  eexists _, _. split; [done|]. by repeat (apply passed_cons; [done|]).
Qed.

(** ** The whole run *)

Record host_fits (cfg : awg_config) : Prop := {
  hf_protected : cfg.(have_header_protection) = true;
  hf_s1 : 12 <= cfg.(s1) < 2 ^ 31 - 212;
  hf_s4 : 12 <= cfg.(s4) <= 1952;
  hf_junk : junk_fits cfg
}.

Definition after_obf (cfg : awg_config) : nat := (renders cfg 0).2.
Definition after_handshake (cfg : awg_config) : nat := (test_handshake clock garbage cfg (after_obf cfg)).2.
Definition after_framing (cfg : awg_config) : nat :=
  match test_framing alloc cfg (after_handshake cfg) with Ok (_, p) => p | _ => 0%nat end.

(** What a run leaves to chance: the secrets agree, random runs differ, a tag does not
    collide and no keystream is zero where it would matter. *)
Record good_run (cfg : awg_config) : Prop := {
  gr_obf : obf_fits cfg 0;
  gr_handshake : secrets_agree cfg 0x11223344 (clock 2) (after_obf cfg);
  gr_mac : mac_detects (awg_public_from_private cfg.(private_key))
             (response_sent cfg 0x11223344 0x55667788 (clock 2) (after_obf cfg));
  gr_framing : header_xor cfg (awg_random_bytes (Z.to_nat cfg.(s1)) (after_handshake cfg)).1 host_msg ≠ host_msg;
  gr_transport : secrets_agree cfg 0xAABBCCDD (clock 4) (after_framing cfg);
  gr_keystream : keystream_shows cfg (after_framing cfg)
}.

(** The machine has the memory the harness asks for. *)
Definition memory (cfg : awg_config) : Prop :=
  alloc_ok ∧ is_Some (alloc 2 (cfg.(s1) + 212)) ∧ is_Some (alloc 3 4096) ∧ length (garbage 4) = 2048%nat.

Lemma passed_app a b : passed a → passed b → passed (a ++ b).
Proof. apply Forall_app_2. Qed.

Lemma passed_no_failures cs : passed cs ↔ filter (λ c : check, c.1 = false) cs = [].
Proof.
  unfold passed. induction cs as [|[[] what] cs IH]; [by split|..]; rewrite Forall_cons.
  - rewrite filter_cons_False by done. rewrite IH. naive_solver.
  - rewrite filter_cons_True by done. naive_solver.
Qed.

Lemma Ok_inj {A} (x y : A) : Ok x = Ok y → x = y.
Proof. by intros [= ->]. Qed.

(** The exit status says whether every check passed. *)
Lemma status_passed cs : (if decide (length (filter (λ c : check, c.1 = false) cs) = 0%nat) then 0 else 1) = 0 ↔ passed cs.
Proof.
  rewrite passed_no_failures. destruct (decide _) as [E|E]; [|split; [done|intros E2; by rewrite E2 in E]].
  split; [intros _|done]. by apply nil_length_inv.
Qed.

End parts.

(** ** Properties *)

(** C15: with a configuration that it loads, that protects its headers and whose sizes fit
    the harness's buffers, the harness runs to its end and reports success, if the curve
    gives the known answers and chance does not play against it: every part of the
    program agrees with its counterpart, the handshake's two roles, sealing and opening,
    wrapping and unwrapping, the template and its renders, the query and its parser. *)
Theorem host_passes `{Entropy} `{Curve} `{!CurveLaws} (alloc : nat → Z → option (list Z)) (clock : nat → Z)
    (garbage : nat → list Z) (path file : list Z) (args : list (list Z)) (files : list Z → option (list Z)) (cfg : awg_config) :
  files path = Some file → awg_config_load (Some file) path 256 = inl cfg →
  host_fits cfg → memory alloc garbage cfg → good_run alloc clock garbage cfg → known_answers →
  main_host alloc clock garbage (path :: args) files = Ok 0.
Proof.
  intros Hf Hl [F1 F2 F3 F4] (M1 & M2 & M3 & M4) [G1 G2 G3 G4 G5 G6] Hc%crypto_passes.
  unfold main_host. rewrite Hf, Hl. apply loaded_wf in Hl as [Hwf _].
  destruct Hwf as (_ & _ & _ & _ & Hh & _ & [Hch _] & _).
  destruct (obf_passes alloc clock cfg 0 M1 Hch G1) as (obf & -> & Ho). cbn [mbind res_bind].
  fold (after_obf alloc clock cfg). pose proof (handshake_passes clock garbage cfg _ G2 G3) as Hhs.
  destruct (framing_passes alloc cfg (after_handshake alloc clock garbage cfg) M1 M2 M3 F1 F2 F4 G4) as (fr & p3 & Ef & Hfr).
  assert (after_framing alloc clock garbage cfg = p3) as Ep by (unfold after_framing; by rewrite Ef). rewrite Ep in G5, G6.
  destruct (transport_passes clock garbage cfg p3) as (tr & p4 & Et & Htr);
    [apply Hh|done|by split; lia|lia|done|done|].
  unfold after_handshake in Ef. destruct (test_handshake clock garbage cfg _) as [hs p2]. cbn [fst snd] in *.
  rewrite Ef. cbn [mbind res_bind]. rewrite Et. cbn [mbind res_bind]. f_equal. apply status_passed.
  repeat apply passed_app; auto using base64_passes.
Qed.

(** Without header protection, which a configuration need not have, the harness never
    reports success: the message goes out as it is, and one of its checks asks for the
    opposite. *)
Theorem host_unprotected `{Entropy} `{Curve} (alloc : nat → Z → option (list Z)) (clock : nat → Z)
    (garbage : nat → list Z) (path : list Z) (args : list (list Z)) (files : list Z → option (list Z)) (cfg : awg_config) :
  awg_config_load (files path) path 256 = inl cfg → alloc_ok alloc → cfg.(have_header_protection) = false →
  main_host alloc clock garbage (path :: args) files ≠ Ok 0.
Proof.
  intros Hl Ha Hp. unfold main_host. rewrite Hl.
  destruct (test_obf _ _ _ _) as [[obf p1]| |]; cbn [mbind res_bind]; [|done..].
  destruct (test_handshake _ _ _ _) as [hs p2].
  destruct (test_framing alloc cfg p2) as [[fr p3]| |] eqn:Ef; cbn [mbind res_bind]; [|done..].
  destruct (test_transport _ _ _ _) as [[tr p4]| |]; cbn [mbind res_bind]; [|done..].
  intros E. apply Ok_inj, status_passed in E. do 4 apply Forall_app in E as [_ E].
  apply Forall_app in E as [E _]. by eapply framing_unprotected.
Qed.

(** ** Witnesses *)

(** The curve of the other witnesses, with RFC 7748's answers at RFC 7748's arguments. *)
Definition vector_curve : Curve := λ scalar x1 clamp,
  if bool_decide (scalar = rfc_a_priv) && bool_decide (x1 = X25519_BASE_POINT) then (rfc_a_pub, 0)
  else if bool_decide (scalar = rfc_b_priv) && bool_decide (x1 = X25519_BASE_POINT) then (rfc_b_pub, 0)
  else if bool_decide (scalar = rfc_a_priv) && bool_decide (x1 = rfc_b_pub) then (rfc_shared, 0)
  else toy_curve scalar x1 clamp.

Lemma vector_curve_laws : @CurveLaws vector_curve.
Proof.
  split; intros scalar x1 clamp _ _; unfold curve, vector_curve, toy_curve; repeat case_match; cbn [fst];
    auto using length_le_bytes, le_bytes_bytes; vm_compute; repeat constructor; discriminate.
Qed.

(** A curve that never answers zero draws the same number of bytes in every handshake. *)
Section positions.
Context `{Entropy} `{Curve}.
Hypothesis curve_nonzero : ∀ scalar x1, (curve scalar x1 true).2 = 0.

Lemma curve_result scalar x1 s r : curve scalar x1 true = (s, r) → r = 0.
Proof. intros E. pose proof (curve_nonzero scalar x1) as Hc. by rewrite E in Hc. Qed.

Lemma private_position pos : (awg_generate_private pos).2 = (pos + 32)%nat.
Proof. done. Qed.

Lemma tai64n_position now pos : (tai64n now pos).2 = (pos + 4)%nat.
Proof. done. Qed.

Lemma initiation_position hs now pos : ∃ hs' m, awg_create_initiation hs now pos = (hs', Some m, (pos + 36)%nat).
Proof.
  unfold awg_create_initiation. pose proof (private_position pos) as Hg.
  destruct (awg_generate_private pos) as [priv q]. cbn [snd] in Hg.
  destruct (curve _ _ true) as [d1 r1] eqn:E1. apply curve_result in E1 as ->. cbn [Z.eqb negb].
  destruct (mix_key _ d1) as [h1 k1]. destruct (curve _ _ true) as [d2 r2] eqn:E2. apply curve_result in E2 as ->. cbn [Z.eqb negb].
  destruct (mix_key _ d2) as [h2 k2]. pose proof (tai64n_position now q) as Ht.
  destruct (tai64n now q) as [stamp q']. cbn [snd] in Ht. eexists _, _. do 2 f_equal. lia.
Qed.

Lemma response_position hs pos : ∃ hs' m, awg_create_response hs pos = (hs', Some m, (pos + 32)%nat).
Proof.
  unfold awg_create_response. pose proof (private_position pos) as Hg.
  destruct (awg_generate_private pos) as [priv q]. cbn [snd] in Hg.
  destruct (curve _ _ true) as [d1 r1] eqn:E1. apply curve_result in E1 as ->. cbn [Z.eqb negb].
  destruct (curve _ _ true) as [d2 r2] eqn:E2. apply curve_result in E2 as ->. cbn [Z.eqb negb].
  destruct (kdf _ _) as [[t1 t] k]. destruct (kdf _ []) as [[rk sk] x]. eexists _, _. do 2 f_equal. lia.
Qed.

Lemma ends_position clock garbage cfg pos : (transport_ends clock garbage cfg pos).2 = (pos + 100)%nat.
Proof.
  unfold transport_ends. pose proof (private_position pos) as Hg. destruct (awg_generate_private pos) as [priv q].
  cbn [snd] in Hg. edestruct initiation_position as (h1 & m1 & ->). destruct (awg_consume_initiation _ _) as [h2 b].
  edestruct response_position as (h3 & m2 & ->). destruct (awg_consume_response _ _) as [h4 b']. cbn [snd]. lia.
Qed.

Lemma handshake_position clock garbage cfg pos : (test_handshake clock garbage cfg pos).2 = (pos + 136)%nat.
Proof.
  unfold test_handshake. pose proof (private_position pos) as Hg. destruct (awg_generate_private pos) as [priv q].
  cbn [snd] in Hg. edestruct initiation_position as (h1 & m1 & ->). destruct (awg_consume_initiation _ _) as [h2 b].
  edestruct response_position as (h3 & m2 & ->). destruct (awg_consume_response h1 _) as [h4 b'].
  edestruct initiation_position as (h5 & m3 & ->). cbn [snd]. lia.
Qed.

End positions.

Definition host_alloc (k : nat) (n : Z) : option (list Z) := if n <? 0 then None else Some (replicate (Z.to_nat n) 0).

Lemma vector_curve_nonzero scalar x1 : (@curve vector_curve scalar x1 true).2 = 0.
Proof. unfold curve, vector_curve, toy_curve. by repeat case_match. Qed.

Lemma host_alloc_ok : alloc_ok host_alloc.
Proof.
  intros k n b. unfold host_alloc. destruct (Z.ltb_spec n 0); [done|]. intros [= <-].
  unfold zlen. rewrite length_replicate. lia.
Qed.

Definition host_clock (k : nat) : Z := 1700000000 + Z.of_nat k.
Definition host_garbage (k : nat) : list Z := replicate 2048 170.

(** The sample configuration with a transport padding and a template that draws. *)
Definition host_config : awg_config :=
  sample_config <| s4 := 16 |>
    <| c_i := [Some (Chain [Obf AWG_OBF_BYTES 0 [0xc0; 0xff]; Obf AWG_OBF_RAND 16 []] (str "<b 0xc0ff><r 16>")); None; None; None; None] |>.

Lemma host_config_loads : awg_config_load (Some (config_text host_config)) (str "awg.conf") 256 = inl host_config.
Proof. by vm_compute. Qed.

Lemma host_after_obf : @after_obf toy_entropy host_alloc host_clock host_config = 32%nat.
Proof. by vm_compute. Qed.

Lemma host_after_handshake : @after_handshake toy_entropy vector_curve host_alloc host_clock host_garbage host_config = 168%nat.
Proof. unfold after_handshake. rewrite host_after_obf. by rewrite (@handshake_position toy_entropy vector_curve vector_curve_nonzero). Qed.

Lemma host_after_framing : @after_framing toy_entropy vector_curve host_alloc host_clock host_garbage host_config = 359%nat.
Proof. unfold after_framing. rewrite host_after_handshake. lazy. reflexivity. Qed.

Lemma host_secrets idx now pos : (pos = 32 ∨ pos = 359)%nat → @secrets_agree toy_entropy vector_curve host_config idx now pos.
Proof.
  intros Hpos. unfold secrets_agree. destruct (awg_generate_private pos) as [sr p1] eqn:E.
  edestruct (@initiation_position toy_entropy vector_curve vector_curve_nonzero) as (hs & m & ->). cbn [snd].
  destruct Hpos as [-> | ->]; vm_compute in E; injection E as <- <-; vm_compute; repeat split.
Qed.

Lemma host_good_run : @good_run toy_entropy vector_curve host_alloc host_clock host_garbage host_config.
Proof.
  split; rewrite ?host_after_obf, ?host_after_handshake, ?host_after_framing.
  - intros c [= <-]. split; [by vm_compute|]. split; [by vm_compute; eexists|]. split; [by vm_compute; eexists|].
    vm_compute. split; [done|]. split; [|done]. intros _ _ E. discriminate E.
  - apply host_secrets. lia.
  - vm_compute. intros E. discriminate E.
  - vm_compute. intros E. discriminate E.
  - apply host_secrets. lia.
  - split; [vm_compute; intros E; discriminate E|]. unfold test_prefix.
    rewrite (@ends_position toy_entropy vector_curve vector_curve_nonzero).
    destruct (@ends_agree toy_entropy vector_curve vector_curve_laws host_clock host_garbage host_config 359 (host_secrets _ _ 359 ltac:(lia)))
      as (client & server & p & -> & _ & Hidx). cbn [fst]. rewrite Hidx. by vm_compute.
Qed.

Lemma host_passes_witness :
  @main_host toy_entropy vector_curve host_alloc host_clock host_garbage [str "awg.conf"] (λ _, Some (config_text host_config)) = Ok 0.
Proof.
  apply (@host_passes toy_entropy vector_curve vector_curve_laws host_alloc host_clock host_garbage (str "awg.conf")
    (config_text host_config) [] (λ _, Some (config_text host_config)) host_config eq_refl host_config_loads).
  - split; [done|by vm_compute|by vm_compute|]. repeat split; vm_compute; congruence.
  - split; [exact host_alloc_ok|]. split; [by vm_compute; eexists|]. split; [by vm_compute; eexists|done].
  - exact host_good_run.
  - by split; vm_compute.
Defined.
